(** * salsa: a linear BVH ray/triangle intersector

    Shallow embedding of [s3d_math.h], [s3d_bvh.h], [s3d_bvh.cpp] and
    [dll_main.cpp], and the properties of the specification that are
    checked against them.

    - [float] is IEEE-754 binary32, through the Standard Library's
      executable [SpecFloat] operations (round to nearest even).
    - [uint32_t] is [Z] with the wrap-around written out ([u32]).
    - C++ behaviour that the standard leaves undefined (null or
      out-of-range reads, a float-to-integer cast of a NaN, a write past
      the 64-entry visit stack) is an [Err] of the [result] monad.
    - [concurrency::parallel_for] is embedded as the loop over the same
      index range, in increasing order.  What the threads share in [Build]
      is written once ([Root], the [L] and [R] of a node) or exchanged
      atomically ([other_bounds]), except for the box of a node, which the
      two climbs that reach the node merge into without any order between
      them: how their loads and stores fall is a parameter of [Build], its
      [schedule]. *)

From Stdlib Require Import ZArith List Bool Lia Permutation Sorted.
From Stdlib Require Import Floats.SpecFloat.
Import ListNotations.
Open Scope Z_scope.

(** ** Errors and the result monad *)

Inductive error : Type :=
| NullPointer      (* dereference of nullptr *)
| OutOfBounds      (* read or write outside an array / a std::vector *)
| UndefinedCast    (* float -> uint32_t of a value that does not fit *)
| StackOverflow    (* push on a full visit_stack[64] *)
| OutOfFuel.       (* the loop did not finish within the given fuel *)

Inductive result (A : Type) : Type :=
| Ok (a : A)
| Err (e : error).
Arguments Ok {A} a.
Arguments Err {A} e.

Definition bind {A B} (m : result A) (k : A -> result B) : result B :=
  match m with
  | Ok a => k a
  | Err e => Err e
  end.

Notation "x <- m ;; k" := (bind m (fun x => k))
  (at level 61, m at next level, right associativity).
Notation "' p <- m ;; k" := (bind m (fun p => k))
  (at level 61, p pattern, m at next level, right associativity).

Fixpoint mapM {A B} (f : A -> result B) (l : list A) : result (list B) :=
  match l with
  | [] => Ok []
  | a :: l' => b <- f a ;; bs <- mapM f l' ;; Ok (b :: bs)
  end.

(** [for (i = lo; i < lo + n; ++i) body(i)] over a threaded state. *)
Fixpoint for_range {S} (lo : Z) (n : nat) (body : Z -> S -> result S) (s : S)
  : result S :=
  match n with
  | O => Ok s
  | Datatypes.S n' => s' <- body lo s ;; for_range (lo + 1) n' body s'
  end.

Fixpoint Zrange (lo : Z) (n : nat) : list Z :=
  match n with
  | O => []
  | Datatypes.S n' => lo :: Zrange (lo + 1) n'
  end.

(** ** Machine integers *)

Definition u32 (z : Z) : Z := z mod 2 ^ 32.
Definition u64 (z : Z) : Z := z mod 2 ^ 64.

(** [std::numeric_limits<uint32_t>::max()] *)
Definition kInvalid : Z := 0xFFFFFFFF.

(** ** binary32 *)

Definition float : Type := spec_float.

Module F32.
Definition prec : Z := 24.
Definition emax : Z := 128.

Definition add : float -> float -> float := SFadd prec emax.
Definition sub : float -> float -> float := SFsub prec emax.
Definition mul : float -> float -> float := SFmul prec emax.
Definition div : float -> float -> float := SFdiv prec emax.
Definition eqb : float -> float -> bool := SFeqb.
Definition ltb : float -> float -> bool := SFltb.
Definition leb : float -> float -> bool := SFleb.
(** C++ [a > b] is IEEE "greater": false as soon as one side is a NaN. *)
Definition gtb (a b : float) : bool := SFltb b a.

Definition is_nan (f : float) : bool :=
  match f with S754_nan => true | _ => false end.

(** The float nearest to the dyadic number [m * 2^e]. *)
Definition of_dyadic (m e : Z) : float := binary_normalize prec emax m e false.
Definition of_Z (m : Z) : float := of_dyadic m 0.

Definition zero : float := S754_zero false.
Definition one : float := Eval vm_compute in of_Z 1.
Definition three : float := Eval vm_compute in of_Z 3.
Definition f1023 : float := Eval vm_compute in of_Z 1023.
Definition f1024 : float := Eval vm_compute in of_Z 1024.

(** [(uint32_t)f]: truncation toward zero; undefined when the truncated
    value is not representable in 32 bits (and for NaN and infinities). *)
Definition truncate (m : positive) (e : Z) : Z :=
  if 0 <=? e then Zpos m * 2 ^ e else Zpos m / 2 ^ (- e).

Definition to_u32 (f : float) : result Z :=
  match f with
  | S754_zero _ => Ok 0
  | S754_finite s m e =>
      let t := truncate m e in
      if s then (if t =? 0 then Ok 0 else Err UndefinedCast)
      else if t <? 2 ^ 32 then Ok t else Err UndefinedCast
  | _ => Err UndefinedCast
  end.
End F32.

Declare Scope f32_scope.
Delimit Scope f32_scope with f32.
Infix "+" := F32.add : f32_scope.
Infix "-" := F32.sub : f32_scope.
Infix "*" := F32.mul : f32_scope.
Infix "/" := F32.div : f32_scope.
Infix "==" := F32.eqb (at level 70, no associativity) : f32_scope.
Infix "<?" := F32.ltb : f32_scope.
Infix "<=?" := F32.leb : f32_scope.
Infix ">?" := F32.gtb : f32_scope.

(** [kMaxBound], [kMinBound]: [numeric_limits<float>::max()] and [lowest()]. *)
Definition kMaxBound : float := S754_finite false 16777215 104.
Definition kMinBound : float := S754_finite true 16777215 104.

(** ** s3d_math.h: scalars *)

(** [template<typename T> T Min(T lhs, T rhs)] at [T = float]. *)
Definition Min (lhs rhs : float) : float := if (lhs <? rhs)%f32 then lhs else rhs.
Definition Max (lhs rhs : float) : float := if (lhs >? rhs)%f32 then lhs else rhs.
Definition Clamp (value mini maxi : float) : float := Max mini (Min maxi value).

Definition ExpandBits (v : Z) : Z :=
  let v := Z.land (u32 (v * 0x00010001)) 0xFF0000FF in
  let v := Z.land (u32 (v * 0x00000101)) 0x0F00F00F in
  let v := Z.land (u32 (v * 0x00000011)) 0xC30C30C3 in
  let v := Z.land (u32 (v * 0x00000005)) 0x49249249 in
  v.

Definition Morton3D (x y z : float) : result Z :=
  let x := Clamp (x * F32.f1024)%f32 F32.zero F32.f1023 in
  let y := Clamp (y * F32.f1024)%f32 F32.zero F32.f1023 in
  let z := Clamp (z * F32.f1024)%f32 F32.zero F32.f1023 in
  xi <- F32.to_u32 x ;;
  yi <- F32.to_u32 y ;;
  zi <- F32.to_u32 z ;;
  let xx := ExpandBits xi in
  let yy := ExpandBits yi in
  let zz := ExpandBits zi in
  Ok (u32 (u32 (u32 (Z.shiftl xx 2) + u32 (Z.shiftl yy 1)) + zz)).

(** ** s3d_math.h: Vector3<float> *)

Module Vector3f.
Record t : Type := mk { x : float; y : float; z : float }.

Definition add (a b : t) : t := mk (x a + x b)%f32 (y a + y b)%f32 (z a + z b)%f32.
Definition sub (a b : t) : t := mk (x a - x b)%f32 (y a - y b)%f32 (z a - z b)%f32.
(** [operator / (const Vector3<T>&)] and [operator / (T)] *)
Definition div (a b : t) : t := mk (x a / x b)%f32 (y a / y b)%f32 (z a / z b)%f32.
Definition divs (a : t) (s : float) : t := mk (x a / s)%f32 (y a / s)%f32 (z a / s)%f32.
Definition muls (a : t) (s : float) : t := mk (x a * s)%f32 (y a * s)%f32 (z a * s)%f32.

Definition Dot (lhs rhs : t) : float :=
  (x lhs * x rhs + y lhs * y rhs + z lhs * z rhs)%f32.

Definition Cross (lhs rhs : t) : t :=
  mk (y lhs * z rhs - z lhs * y rhs)%f32
     (z lhs * x rhs - x lhs * z rhs)%f32
     (x lhs * y rhs - y lhs * x rhs)%f32.

Definition Min (lhs rhs : t) : t :=
  mk (Min (x lhs) (x rhs)) (Min (y lhs) (y rhs)) (Min (z lhs) (z rhs)).
Definition Max (lhs rhs : t) : t :=
  mk (Max (x lhs) (x rhs)) (Max (y lhs) (y rhs)) (Max (z lhs) (z rhs)).
End Vector3f.

Definition Max3 (value : Vector3f.t) : float :=
  Max (Max (Vector3f.x value) (Vector3f.y value)) (Vector3f.z value).
Definition Min3 (value : Vector3f.t) : float :=
  Min (Min (Vector3f.x value) (Vector3f.y value)) (Vector3f.z value).

(** ** s3d_math.h: AABB *)

Module AABB.
Record t : Type := mk { mini : Vector3f.t; maxi : Vector3f.t }.

(** [AABB(std::nullptr_t)] and [Clear()] give the same sentinel box. *)
Definition Clear : t :=
  mk (Vector3f.mk kMaxBound kMaxBound kMaxBound)
     (Vector3f.mk kMinBound kMinBound kMinBound).

(** [AABB(const Vector3f& value)] *)
Definition of_point (value : Vector3f.t) : t := mk value value.

(** [Merge(const AABB&)] *)
Definition Merge (b value : t) : t :=
  mk (Vector3f.Min (mini b) (mini value)) (Vector3f.Max (maxi b) (maxi value)).

(** [Merge(const Vector3f&)] *)
Definition MergePoint (b : t) (value : Vector3f.t) : t :=
  mk (Vector3f.Min (mini b) value) (Vector3f.Max (maxi b) value).

Definition Normalize (b : t) (p : Vector3f.t) : Vector3f.t :=
  Vector3f.div (Vector3f.sub p (mini b)) (Vector3f.sub (maxi b) (mini b)).

Definition Intersect (b : t) (rayPos invRayDir : Vector3f.t) (length : float) : bool :=
  let sel (c : bool) (p q : float) := if c then p else q in
  let ix := Vector3f.x invRayDir in
  let iy := Vector3f.y invRayDir in
  let iz := Vector3f.z invRayDir in
  let v :=
    Vector3f.mk
      ((sel (F32.zero <? ix) (Vector3f.x (mini b)) (Vector3f.x (maxi b)) - Vector3f.x rayPos) * ix)%f32
      ((sel (F32.zero <? iy) (Vector3f.y (mini b)) (Vector3f.y (maxi b)) - Vector3f.y rayPos) * iy)%f32
      ((sel (F32.zero <? iz) (Vector3f.z (mini b)) (Vector3f.z (maxi b)) - Vector3f.z rayPos) * iz)%f32 in
  let tmin := Max3 v in
  let v :=
    Vector3f.mk
      ((sel (F32.zero <? ix) (Vector3f.x (maxi b)) (Vector3f.x (mini b)) - Vector3f.x rayPos) * ix)%f32
      ((sel (F32.zero <? iy) (Vector3f.y (maxi b)) (Vector3f.y (mini b)) - Vector3f.y rayPos) * iy)%f32
      ((sel (F32.zero <? iz) (Vector3f.z (maxi b)) (Vector3f.z (mini b)) - Vector3f.z rayPos) * iz)%f32 in
  let tmax := Min3 v in
  (tmin <=? tmax)%f32 && (F32.zero <? tmax)%f32 && (tmin <? length)%f32.

(** The box of [inner] lies inside [outer], componentwise. *)
Definition contains (outer inner : t) : bool :=
  (Vector3f.x (mini outer) <=? Vector3f.x (mini inner))%f32 &&
  (Vector3f.y (mini outer) <=? Vector3f.y (mini inner))%f32 &&
  (Vector3f.z (mini outer) <=? Vector3f.z (mini inner))%f32 &&
  (Vector3f.x (maxi inner) <=? Vector3f.x (maxi outer))%f32 &&
  (Vector3f.y (maxi inner) <=? Vector3f.y (maxi outer))%f32 &&
  (Vector3f.z (maxi inner) <=? Vector3f.z (maxi outer))%f32.
End AABB.

(** ** The two merges into the box of a node

    Each node is reached by two climbs of [LBVH::Build], one from each
    child.  Both run [Nodes[parent].Box.Merge(aabb)] after their exchange on
    [other_bounds[parent]], and the climb that found a bound there goes on
    with [aabb = Nodes[current].Box].  The exchange orders what the climbs
    did before it, not these accesses, and each of the six floats of the
    box is loaded and stored on its own.  (The C++ standard gives no
    meaning to a program with such a race; the outcomes below are the
    interleavings of the loads and stores.)

    For one float, [old] is its value before the two merges, [x] what one
    climb merges into it and [y] what the other merges; [op] is [Min] for
    a lower and [Max] for an upper bound.  An outcome gives the value the
    node keeps and the value the climb that goes on reads back.  The
    outcomes are the same whichever of the two climbs is the one that goes
    on. *)
Module Race.
Inductive t : Type :=
| ordered          (* x is merged, then y on top of it; the result is read *)
| reversed         (* y is merged, then x on top of it; the result is read *)
| first_only       (* both load old, the store of y is lost; old + x is read *)
| second_only      (* both load old, the store of x is lost; old + y is read *)
| first_kept       (* as first_only, but old + y is read before it is lost *)
| second_kept      (* as second_only, but old + x is read before it is lost *)
| ordered_early    (* as ordered, but old + x is read before y is merged *)
| reversed_early.  (* as reversed, but old + y is read before x is merged *)

(** The float kept and the float read. *)
Definition outcome (op : float -> float -> float) (r : t) (old x y : float)
  : float * float :=
  match r with
  | ordered => (op (op old x) y, op (op old x) y)
  | reversed => (op (op old y) x, op (op old y) x)
  | first_only => (op old x, op old x)
  | second_only => (op old y, op old y)
  | first_kept => (op old x, op old y)
  | second_kept => (op old y, op old x)
  | ordered_early => (op (op old x) y, op old x)
  | reversed_early => (op (op old y) x, op old y)
  end.

(** The outcomes in which neither merge is lost. *)
Definition complete (r : t) : bool :=
  match r with
  | ordered | reversed => true
  | _ => false
  end.

(** The six floats of a box. *)
Inductive bound : Type := mini_x | mini_y | mini_z | maxi_x | maxi_y | maxi_z.

(** The two [Merge] calls at one node, [x] by the climb that exchanged
    first: the box the node keeps and the box the other climb reads. *)
Definition Merge (r : bound -> t) (old x y : AABB.t) : AABB.t * AABB.t :=
  let lo (c : bound) (get : Vector3f.t -> float) :=
    outcome Min (r c) (get (AABB.mini old)) (get (AABB.mini x)) (get (AABB.mini y)) in
  let hi (c : bound) (get : Vector3f.t -> float) :=
    outcome Max (r c) (get (AABB.maxi old)) (get (AABB.maxi x)) (get (AABB.maxi y)) in
  (AABB.mk (Vector3f.mk (fst (lo mini_x Vector3f.x)) (fst (lo mini_y Vector3f.y))
                        (fst (lo mini_z Vector3f.z)))
           (Vector3f.mk (fst (hi maxi_x Vector3f.x)) (fst (hi maxi_y Vector3f.y))
                        (fst (hi maxi_z Vector3f.z))),
   AABB.mk (Vector3f.mk (snd (lo mini_x Vector3f.x)) (snd (lo mini_y Vector3f.y))
                        (snd (lo mini_z Vector3f.z)))
           (Vector3f.mk (snd (hi maxi_x Vector3f.x)) (snd (hi maxi_y Vector3f.y))
                        (snd (hi maxi_z Vector3f.z)))).
End Race.

(** A schedule of [Build]: for every node, how the two merges into each
    float of its box fall. *)
Definition schedule : Type := Z -> Race.bound -> Race.t.

(** The schedule in which, at every node, the merge of the climb that
    exchanged first is complete before the other climb loads the box. *)
Definition in_order : schedule := fun _ _ => Race.ordered.

(** A schedule in which, at every node, both climbs load the box before
    either stores it and the store of the climb that exchanged first is
    overwritten. *)
Definition lossy : schedule := fun _ _ => Race.second_only.

(** ** s3d_math.h: IntersectTriangle

    The reference parameters [dist], [u], [v] are passed in and returned:
    the result is the returned flag and their values after the call. *)

Definition IntersectTriangle
  (rayPos rayDir v0 v1 v2 : Vector3f.t) (tmin tmax : float) (dist u v : float)
  : bool * (float * float * float) :=
  let e1 := Vector3f.sub v1 v0 in
  let e2 := Vector3f.sub v2 v0 in
  let P := Vector3f.Cross rayDir e2 in
  let det := Vector3f.Dot e1 P in
  if (det == F32.zero)%f32 then (false, (dist, u, v)) else
  let inv_det := (F32.one / det)%f32 in
  let T := Vector3f.sub rayPos v0 in
  let fu := (Vector3f.Dot T P * inv_det)%f32 in
  if (fu <? F32.zero)%f32 || (fu >? F32.one)%f32 then (false, (dist, u, v)) else
  let Q := Vector3f.Cross T e1 in
  let fv := (Vector3f.Dot rayDir Q * inv_det)%f32 in
  if (fv <? F32.zero)%f32 || ((fu + fv) >? F32.one)%f32 then (false, (dist, u, v)) else
  let t := (Vector3f.Dot e2 Q * inv_det)%f32 in
  if (t <? tmin)%f32 || (tmax <=? t)%f32 || (t >? dist)%f32 then (false, (dist, u, v)) else
  (true, (t, fu, fv)).

(** ** std::vector, raw arrays *)

(** A [std::vector<A>]: its size, the value-initialised element of [A],
    and the elements that were assigned, latest first; an element that
    was never assigned is value-initialised.  (A vector of [2^32 - 1]
    nodes, which [Build] asks for when there is no triangle, stays
    small.) *)
Record vec (A : Type) : Type := mk_vec {
  vsize : Z;
  vdefault : A;
  ventries : list (Z * A)
}.
Arguments mk_vec {A} vsize vdefault ventries.
Arguments vsize {A} v.
Arguments vdefault {A} v.
Arguments ventries {A} v.

Fixpoint lookup {A} (l : list (Z * A)) (i : Z) : option A :=
  match l with
  | [] => None
  | (k, a) :: l' => if k =? i then Some a else lookup l' i
  end.

(** The element [v[i]], for [i] within the size. *)
Definition vat {A} (v : vec A) (i : Z) : A :=
  match lookup (ventries v) i with
  | Some a => a
  | None => vdefault v
  end.

Definition in_bounds (i n : Z) : bool := (0 <=? i) && (i <? n).

(** A vector of [n] value-initialised elements. *)
Definition vec_make {A} (n : Z) (d : A) : vec A := mk_vec n d [].

Definition vec_get {A} (v : vec A) (i : Z) : result A :=
  if in_bounds i (vsize v) then Ok (vat v i) else Err OutOfBounds.

Definition vset {A} (v : vec A) (i : Z) (a : A) : vec A :=
  mk_vec (vsize v) (vdefault v) ((i, a) :: ventries v).

Definition vec_set {A} (v : vec A) (i : Z) (a : A) : result (vec A) :=
  if in_bounds i (vsize v) then Ok (vset v i a) else Err OutOfBounds.

(** [v.resize(n)]: the elements below [n] are kept, the others are
    dropped, new ones are value-initialised. *)
Definition vec_resize {A} (v : vec A) (n : Z) : vec A :=
  mk_vec n (vdefault v) (filter (fun e => fst e <? n) (ventries v)).

Definition vec_map {A B} (f : A -> B) (v : vec A) : vec B :=
  mk_vec (vsize v) (f (vdefault v)) (map (fun e => (fst e, f (snd e))) (ventries v)).

(** A pointer to an array: [None] is [nullptr]; reading past the end of
    the pointed array is out of bounds. *)
Definition read {A} (p : option (list A)) (i : Z) : result A :=
  match p with
  | None => Err NullPointer
  | Some l =>
      if i <? 0 then Err OutOfBounds
      else match nth_error l (Z.to_nat i) with
           | Some a => Ok a
           | None => Err OutOfBounds
           end
  end.

(** ** s3d_bvh.h *)

Module Vector2u.
Record t : Type := mk { x : Z; y : Z }.
End Vector2u.

Module Node.
Record t : Type := mk { Box : AABB.t; L : Z; R : Z }.
(** [Node()] *)
Definition default : t := mk AABB.Clear kInvalid kInvalid.
Definition set_L (n : t) (l : Z) : t := mk (Box n) l (R n).
Definition set_R (n : t) (r : Z) : t := mk (Box n) (L n) r.
Definition set_Box (n : t) (b : AABB.t) : t := mk b (L n) (R n).
End Node.

Module s3d_Ray.
Record t : Type := mk {
  pos : Vector3f.t;
  dir : Vector3f.t;
  inv_dir : Vector3f.t;
  tmin : float;
  tmax : float
}.
End s3d_Ray.

Module HitRecord.
Record t : Type := mk {
  hit : bool;
  dist : float;
  u : float;
  v : float;
  face_id : Z
}.
End HitRecord.

(** [int32_t(face_id)] *)
Definition i32 (z : Z) : Z := let w := u32 z in if w <? 2 ^ 31 then w else w - 2 ^ 32.

Module LBVH.
Record t : Type := mk {
  Root : Z;
  Positions : option (list float);   (* const Vector3f*, three floats each *)
  Normals : option (list float);     (* const Vector3f* *)
  Indices : option (list Z);         (* const VertexIndex*, (P, N) each *)
  PositionCount : Z;
  NormalCount : Z;
  IndexCount : Z;
  Nodes : vec Node.t
}.

(** The default member initialisers of the struct. *)
Definition init : t := mk kInvalid None None None 0 0 0 (vec_make 0 Node.default).

Definition read_Vector3f (p : option (list float)) (i : Z) : result Vector3f.t :=
  a <- read p (3 * i) ;;
  b <- read p (3 * i + 1) ;;
  c <- read p (3 * i + 2) ;;
  Ok (Vector3f.mk a b c).

(** [Positions[i]], [Normals[i]], [Indices[j].P], [Indices[j].N] *)
Definition Positions_at (b : t) (i : Z) : result Vector3f.t := read_Vector3f (Positions b) i.
Definition Normals_at (b : t) (i : Z) : result Vector3f.t := read_Vector3f (Normals b) i.
Definition Indices_P (b : t) (j : Z) : result Z := read (Indices b) (2 * j).
Definition Indices_N (b : t) (j : Z) : result Z := read (Indices b) (2 * j + 1).

(** [Positions[Indices[id + k].P]] for [k = 0, 1, 2] *)
Definition corner (b : t) (id k : Z) : result Vector3f.t :=
  p <- Indices_P b (u32 (id + k)) ;; Positions_at b p.

Definition corners (b : t) (id : Z) : result (Vector3f.t * Vector3f.t * Vector3f.t) :=
  p0 <- corner b id 0 ;;
  p1 <- corner b id 1 ;;
  p2 <- corner b id 2 ;;
  Ok (p0, p1, p2).

Definition IsHit (b : t) (ray : s3d_Ray.t) (record : HitRecord.t) (face_id : Z)
  : result HitRecord.t :=
  let id := u32 (face_id * 3) in
  '(p0, p1, p2) <- corners b id ;;
  let '(r, (dist, u, v)) :=
    IntersectTriangle (s3d_Ray.pos ray) (s3d_Ray.dir ray) p0 p1 p2
      (s3d_Ray.tmin ray) (s3d_Ray.tmax ray)
      (HitRecord.dist record) (HitRecord.u record) (HitRecord.v record) in
  if r
  then Ok (HitRecord.mk true dist u v (i32 face_id))
  else Ok (HitRecord.mk (HitRecord.hit record) dist u v (HitRecord.face_id record)).

Definition CalcPosition (b : t) (face_id : Z) (u v w : float) : result Vector3f.t :=
  let id := u32 (face_id * 3) in
  '(p0, p1, p2) <- corners b id ;;
  Ok (Vector3f.add (Vector3f.add (Vector3f.muls p0 w) (Vector3f.muls p1 u))
                   (Vector3f.muls p2 v)).

Definition CalcNormal (b : t) (face_id : Z) (u v w : float) : result Vector3f.t :=
  let id := u32 (face_id * 3) in
  n0 <- (i <- Indices_N b (u32 (id + 0)) ;; Normals_at b i) ;;
  n1 <- (i <- Indices_N b (u32 (id + 1)) ;; Normals_at b i) ;;
  n2 <- (i <- Indices_N b (u32 (id + 2)) ;; Normals_at b i) ;;
  Ok (Vector3f.add (Vector3f.add (Vector3f.muls n0 w) (Vector3f.muls n1 u))
                   (Vector3f.muls n2 v)).
(** *** s3d_bvh.cpp: LBVH::Build *)

Definition leaf_at (leaves : list Vector2u.t) (i : Z) : result Vector2u.t :=
  read (Some leaves) i.

(** The delta function of "Fast and Simple Agglomerative LBVH Construction". *)
Definition Delta (leaves : list Vector2u.t) (id : Z) : result Z :=
  a <- leaf_at leaves (u32 (id + 1)) ;;
  b <- leaf_at leaves id ;;
  Ok (Z.lxor (Vector2u.y a) (Vector2u.y b)).

(** The box of all positions: [box.Clear(); for (i < PositionCount) box.Merge(Positions[i])]. *)
Definition global_box (b : t) : result AABB.t :=
  for_range 0 (Z.to_nat (PositionCount b))
    (fun i box => p <- Positions_at b i ;; Ok (AABB.MergePoint box p))
    AABB.Clear.

(** The body of the Morton-code [parallel_for]: the leaf of triangle [i]. *)
Definition make_leaf (b : t) (box : AABB.t) (i : Z) : result Vector2u.t :=
  let id := u32 (i * 3) in
  '(p0, p1, p2) <- corners b id ;;
  let centroid := Vector3f.divs (Vector3f.add (Vector3f.add p0 p1) p2) F32.three in
  let unitcube := AABB.Normalize box centroid in
  m <- Morton3D (Vector3f.x unitcube) (Vector3f.y unitcube) (Vector3f.z unitcube) ;;
  Ok (Vector2u.mk i m).

Definition make_leaves (b : t) (box : AABB.t) (T : Z) : result (list Vector2u.t) :=
  mapM (make_leaf b box) (Zrange 0 (Z.to_nat T)).

(** The box of the triangle of a leaf, translated by [-box.mini]. *)
Definition leaf_aabb (b : t) (box : AABB.t) (tri : Z) : result AABB.t :=
  let id := u32 (tri * 3) in
  '(p0, p1, p2) <- corners b id ;;
  let aabb := AABB.MergePoint (AABB.MergePoint (AABB.of_point p0) p1) p2 in
  Ok (AABB.mk (Vector3f.sub (AABB.mini aabb) (AABB.mini box))
              (Vector3f.sub (AABB.maxi aabb) (AABB.mini box))).

(** What the climbs share: [Root], [Nodes] and [other_bounds]; and, for a
    node that one climb has reached, the box the node had before and the
    box that climb merged ([st_first], which is not in the source: the
    outcome of the two merges is stated from them when the other climb
    arrives). *)
Record build_state : Type := mk_state {
  st_Root : Z;
  st_Nodes : vec Node.t;
  st_other : vec Z;
  st_first : vec (AABB.t * AABB.t)
}.

(** The [while(1)] loop of one climb.  [fuel] bounds the number of turns.
    The climb that finds [kInvalid] in [other_bounds[parent]] merges its
    box and stops; the one that finds a bound merges its box and reads the
    box of the node back, with one of the outcomes of the race. *)
Fixpoint climb (race : schedule) (fuel : nat) (leaves : list Vector2u.t) (N : Z)
  (st : build_state) (current L R : Z) (aabb : AABB.t) (is_leaf : bool)
  : result build_state :=
  match fuel with
  | O => Err OutOfFuel
  | S fuel' =>
    if (0 =? L) && (R =? N)
    then Ok (mk_state current (st_Nodes st) (st_other st) (st_first st))
    else
      index <-
        (if is_leaf
         then lf <- leaf_at leaves current ;; Ok (u32 (u32 (Z.shiftl (Vector2u.x lf) 1) + 1))
         else Ok (u32 (Z.shiftl current 1))) ;;
      to_right <-
        (if 0 =? L then Ok true
         else if negb (R =? N)
              then dR <- Delta leaves R ;; dL <- Delta leaves (u32 (L - 1)) ;; Ok (dR <? dL)
              else Ok false) ;;
      '(parent, previous, L', R', nodes1, other1) <-
        (if to_right : bool
         then
           let parent := R in
           previous <- vec_get (st_other st) parent ;;
           other1 <- vec_set (st_other st) parent L ;;
           let R' := if negb (kInvalid =? previous) then previous else R in
           node <- vec_get (st_Nodes st) parent ;;
           nodes1 <- vec_set (st_Nodes st) parent (Node.set_L node index) ;;
           Ok (parent, previous, L, R', nodes1, other1)
         else
           let parent := u32 (L - 1) in
           previous <- vec_get (st_other st) parent ;;
           other1 <- vec_set (st_other st) parent R ;;
           let L' := if negb (kInvalid =? previous) then previous else L in
           node <- vec_get (st_Nodes st) parent ;;
           nodes1 <- vec_set (st_Nodes st) parent (Node.set_R node index) ;;
           Ok (parent, previous, L', R, nodes1, other1)) ;;
      node <- vec_get nodes1 parent ;;
      if kInvalid =? previous
      then
        nodes2 <- vec_set nodes1 parent
                    (Node.set_Box node (AABB.Merge (Node.Box node) aabb)) ;;
        first1 <- vec_set (st_first st) parent (Node.Box node, aabb) ;;
        Ok (mk_state (st_Root st) nodes2 other1 first1)
      else
        '(old, first) <- vec_get (st_first st) parent ;;
        let '(kept, seen) := Race.Merge (race parent) old first aabb in
        nodes2 <- vec_set nodes1 parent (Node.set_Box node kept) ;;
        climb race fuel' leaves N (mk_state (st_Root st) nodes2 other1 (st_first st))
          parent L' R' seen false
  end.

(** The body of the climbing [parallel_for], for leaf [i]. *)
Definition climb_leaf (race : schedule) (fuel : nat) (b : t) (box : AABB.t)
  (leaves : list Vector2u.t) (N : Z) (i : Z) (st : build_state) : result build_state :=
  lf <- leaf_at leaves i ;;
  aabb <- leaf_aabb b box (Vector2u.x lf) ;;
  climb race fuel leaves N st i i i aabb true.

(** The last [parallel_for]: the boxes are moved back by [box.mini]. *)
Definition untranslate (box : AABB.t) (n : Node.t) : Node.t :=
  Node.set_Box n
    (AABB.mk (Vector3f.add (AABB.mini (Node.Box n)) (AABB.mini box))
             (Vector3f.add (AABB.maxi (Node.Box n)) (AABB.mini box))).

(** [Build], given the [schedule] of the merges, the outcome [sort] of
    [std::sort] on the leaves (any ordering by ascending Morton code: the
    sort is not stable) and the number of turns [fuel] each climb may
    take. *)
Definition Build (race : schedule) (sort : list Vector2u.t -> list Vector2u.t)
  (fuel : nat) (b : t) : result t :=
  box <- global_box b ;;
  let T := u32 (u64 (IndexCount b) / 3) in
  leaves <- make_leaves b box T ;;
  let leaves := sort leaves in
  let N := u32 (T - 1) in
  let nodes := vec_resize (Nodes b) N in
  let other_bounds := vec_make N kInvalid in
  st <- for_range 0 (Z.to_nat T) (climb_leaf race fuel b box leaves N)
          (mk_state (Root b) nodes other_bounds
             (vec_make N (AABB.Clear, AABB.Clear))) ;;
  Ok (mk (st_Root st) (Positions b) (Normals b) (Indices b)
         (PositionCount b) (NormalCount b) (IndexCount b)
         (vec_map (untranslate box) (st_Nodes st))).

(** *** s3d_bvh.cpp: LBVH::TraverseIterative *)

(** [visit_stack[stack_ptr++] = v] on the 64-entry array; the stack is the
    list of its live entries, top first. *)
Definition push (stack : list Z) (v : Z) : result (list Z) :=
  if Z.of_nat (length stack) <? 64 then Ok (v :: stack) else Err StackOverflow.

(** One child of a visited node: a leaf is tested, a node is pushed. *)
Definition visit_child (b : t) (ray : s3d_Ray.t) (child : Z)
  (rs : HitRecord.t * list Z) : result (HitRecord.t * list Z) :=
  let idx := Z.shiftr child 1 in
  if negb (Z.land child 1 =? 0)
  then record <- IsHit b ray (fst rs) idx ;; Ok (record, snd rs)
  else stack <- push (snd rs) idx ;; Ok (fst rs, stack).

Fixpoint traverse_loop (fuel : nat) (b : t) (ray : s3d_Ray.t)
  (stack : list Z) (record : HitRecord.t) : result HitRecord.t :=
  match stack with
  | [] => Ok record
  | idx :: stack =>
    match fuel with
    | O => Err OutOfFuel
    | S fuel' =>
      node <- vec_get (Nodes b) idx ;;
      if negb (AABB.Intersect (Node.Box node) (s3d_Ray.pos ray) (s3d_Ray.inv_dir ray)
                 (HitRecord.dist record))
      then traverse_loop fuel' b ray stack record
      else
        rs <- visit_child b ray (Node.L node) (record, stack) ;;
        rs <- visit_child b ray (Node.R node) rs ;;
        traverse_loop fuel' b ray (snd rs) (fst rs)
    end
  end.

Definition TraverseIterative (fuel : nat) (b : t) (ray : s3d_Ray.t) (record : HitRecord.t)
  : result HitRecord.t :=
  traverse_loop fuel b ray [Root b] record.

End LBVH.

(** ** rayrun.hpp: the harness's ray descriptor *)

(** Modelled from the spec: [rayrun.hpp], which declares the harness's
    [Ray], is not part of the sources.  The fields are the ones the
    specification lists for a ray descriptor (and [intersect] uses):
    origin [pos[3]], direction [dir[3]], [valid], [tnear], [tfar], and
    the outputs [isisect], [isect[3]], [ns[3]]. *)
Module Ray.
Record t : Type := mk {
  pos : Vector3f.t;
  dir : Vector3f.t;
  valid : bool;
  tnear : float;
  tfar : float;
  isisect : bool;
  isect : Vector3f.t;
  ns : Vector3f.t
}.
Definition set_isisect (r : t) (b : bool) : t :=
  mk (pos r) (dir r) (valid r) (tnear r) (tfar r) b (isect r) (ns r).
Definition set_isect (r : t) (p : Vector3f.t) : t :=
  mk (pos r) (dir r) (valid r) (tnear r) (tfar r) (isisect r) p (ns r).
Definition set_ns (r : t) (n : Vector3f.t) : t :=
  mk (pos r) (dir r) (valid r) (tnear r) (tfar r) (isisect r) (isect r) n.
End Ray.

(** ** dll_main.cpp *)

(** [preprocess], acting on the global [gLBVH]. *)
Definition preprocess (race : schedule) (sort : list Vector2u.t -> list Vector2u.t)
  (fuel : nat) (gLBVH : LBVH.t)
  (vertices : option (list float)) (vertexCount : Z)
  (normals : option (list float)) (normalCount : Z)
  (indices : option (list Z)) (faceCount : Z) : result LBVH.t :=
  LBVH.Build race sort fuel
    (LBVH.mk (LBVH.Root gLBVH) vertices normals indices
       vertexCount normalCount (u64 (faceCount * 3)) (LBVH.Nodes gLBVH)).

(** The body of the loop of [intersect] for [rays[i]].  The local
    [HitRecord record] is not initialised apart from [hit] and [dist]:
    [indeterminate] stands for whatever its other fields hold. *)
Definition intersect_ray (fuel : nat) (gLBVH : LBVH.t) (indeterminate : HitRecord.t)
  (r : Ray.t) : result Ray.t :=
  if negb (Ray.valid r) then Ok (Ray.set_isisect r false)
  else
    let pos := Ray.pos r in
    let dir := Ray.dir r in
    let inv_dir :=
      Vector3f.mk (F32.one / Vector3f.x dir)%f32
                  (F32.one / Vector3f.y dir)%f32
                  (F32.one / Vector3f.z dir)%f32 in
    let ray := s3d_Ray.mk pos dir inv_dir (Ray.tnear r) (Ray.tfar r) in
    let record :=
      HitRecord.mk false (Ray.tfar r) (HitRecord.u indeterminate)
        (HitRecord.v indeterminate) (HitRecord.face_id indeterminate) in
    record <- LBVH.TraverseIterative fuel gLBVH ray record ;;
    let r := Ray.set_isisect r (HitRecord.hit record) in
    if HitRecord.hit record
    then
      let w := (F32.one - HitRecord.u record - HitRecord.v record)%f32 in
      pos <- LBVH.CalcPosition gLBVH (u32 (HitRecord.face_id record))
               (HitRecord.u record) (HitRecord.v record) w ;;
      let r := Ray.set_isect r pos in
      nrm <- LBVH.CalcNormal gLBVH (u32 (HitRecord.face_id record))
               (HitRecord.u record) (HitRecord.v record) w ;;
      Ok (Ray.set_ns r nrm)
    else Ok r.

(** [rays[i] = a], on the array [rays] points to. *)
Fixpoint write {A} (l : list A) (i : nat) (a : A) : list A :=
  match l, i with
  | [], _ => []
  | _ :: l', O => a :: l'
  | b :: l', S i' => b :: write l' i' a
  end.

(** [intersect(rays, rayCount, hitAny)]: the rays after the call. *)
Definition intersect (fuel : nat) (gLBVH : LBVH.t) (indeterminate : HitRecord.t)
  (rays : option (list Ray.t)) (rayCount : Z) (hitAny : bool)
  : result (option (list Ray.t)) :=
  for_range 0 (Z.to_nat rayCount)
    (fun i rays =>
       r <- read rays i ;;
       r' <- intersect_ray fuel gLBVH indeterminate r ;;
       Ok (option_map (fun l => write l (Z.to_nat i) r') rays))
    rays.

(** ** The brute-force reference of the specification *)

(** [IsHit] on the triangles of a list, in its order, on one record. *)
Fixpoint test_faces (b : LBVH.t) (ray : s3d_Ray.t) (faces : list Z) (record : HitRecord.t)
  : result HitRecord.t :=
  match faces with
  | [] => Ok record
  | f :: faces' => r <- LBVH.IsHit b ray record f ;; test_faces b ray faces' r
  end.

(** The loop the specification compares the traversal with: [IsHit] on
    every triangle [0 .. T-1], in this order, on one record. *)
Definition brute_force (b : LBVH.t) (ray : s3d_Ray.t) (record : HitRecord.t) (T : Z)
  : result HitRecord.t :=
  test_faces b ray (Zrange 0 (Z.to_nat T)) record.

(** ** A sort for the leaves *)

(** Insertion sort by ascending Morton code: one of the orders [std::sort]
    may return. *)
Fixpoint insert_leaf (a : Vector2u.t) (l : list Vector2u.t) : list Vector2u.t :=
  match l with
  | [] => [a]
  | b :: l' => if Vector2u.y a <=? Vector2u.y b then a :: l else b :: insert_leaf a l'
  end.

Definition sort_leaves (l : list Vector2u.t) : list Vector2u.t :=
  fold_right insert_leaf [] l.

(** ** Named views of the code, for the statements *)

(** The determinant, barycentrics and distance [IntersectTriangle] computes
    ([det], [fu], [fv] and [t] of its body). *)
Definition tri_det (rayDir v0 v1 v2 : Vector3f.t) : float :=
  Vector3f.Dot (Vector3f.sub v1 v0) (Vector3f.Cross rayDir (Vector3f.sub v2 v0)).

Definition tri_u (rayPos rayDir v0 v1 v2 : Vector3f.t) : float :=
  (Vector3f.Dot (Vector3f.sub rayPos v0) (Vector3f.Cross rayDir (Vector3f.sub v2 v0))
   * (F32.one / tri_det rayDir v0 v1 v2))%f32.

Definition tri_v (rayPos rayDir v0 v1 v2 : Vector3f.t) : float :=
  (Vector3f.Dot rayDir (Vector3f.Cross (Vector3f.sub rayPos v0) (Vector3f.sub v1 v0))
   * (F32.one / tri_det rayDir v0 v1 v2))%f32.

Definition tri_t (rayPos rayDir v0 v1 v2 : Vector3f.t) : float :=
  (Vector3f.Dot (Vector3f.sub v2 v0)
     (Vector3f.Cross (Vector3f.sub rayPos v0) (Vector3f.sub v1 v0))
   * (F32.one / tri_det rayDir v0 v1 v2))%f32.

(** The acceptance test in the words of the specification: [det] is not
    zero, [0 <= u <= 1], [0 <= v], [u + v <= 1], [tmin <= t < tmax] and
    [t <= dist]. *)
Definition accepts_spec (rayPos rayDir v0 v1 v2 : Vector3f.t) (tmin tmax dist : float)
  : bool :=
  let det := tri_det rayDir v0 v1 v2 in
  let u := tri_u rayPos rayDir v0 v1 v2 in
  let v := tri_v rayPos rayDir v0 v1 v2 in
  let t := tri_t rayPos rayDir v0 v1 v2 in
  (negb (det == F32.zero) &&
   (F32.zero <=? u) && (u <=? F32.one) &&
   (F32.zero <=? v) && ((u + v) <=? F32.one) &&
   (tmin <=? t) && (t <? tmax) && (t <=? dist))%f32.

(** The rejection tests as the code writes them, apart from [t > dist]. *)
Definition passes_but_dist (rayPos rayDir v0 v1 v2 : Vector3f.t) (tmin tmax : float)
  : bool :=
  let det := tri_det rayDir v0 v1 v2 in
  let u := tri_u rayPos rayDir v0 v1 v2 in
  let v := tri_v rayPos rayDir v0 v1 v2 in
  let t := tri_t rayPos rayDir v0 v1 v2 in
  (negb (det == F32.zero) &&
   negb ((u <? F32.zero) || (u >? F32.one)) &&
   negb ((v <? F32.zero) || ((u + v) >? F32.one)) &&
   negb ((t <? tmin) || (tmax <=? t)))%f32.

(** ** Meshes and rays for the examples *)

Definition v3 (a b c : float) : Vector3f.t := Vector3f.mk a b c.
Definition fZ (n : Z) : float := F32.of_Z n.
Definition half : float := Eval vm_compute in F32.of_dyadic 1 (-1).
Definition f10 : float := Eval vm_compute in F32.of_Z 10.
Definition v3_zero : Vector3f.t := v3 F32.zero F32.zero F32.zero.

(** The internal ray [intersect] builds from origin, direction and range. *)
Definition make_ray (pos dir : Vector3f.t) (tnear tfar : float) : s3d_Ray.t :=
  s3d_Ray.mk pos dir
    (Vector3f.mk (F32.one / Vector3f.x dir)%f32 (F32.one / Vector3f.y dir)%f32
       (F32.one / Vector3f.z dir)%f32)
    tnear tfar.

(** A record as [intersect] sets it up: no hit yet, [dist = tfar]. *)
Definition fresh_record (tfar : float) : HitRecord.t :=
  HitRecord.mk false tfar F32.zero F32.zero 0.

(** A ray pointing down the z axis from [(x, y, 1)], range [[0, 10)]. *)
Definition down_ray (x y : float) : s3d_Ray.t :=
  make_ray (v3 x y F32.one) (v3 F32.zero F32.zero (SFopp F32.one)) F32.zero f10.

(** Two triangles that share the edge from [(1,0,0)] to [(0,1,0)]:
    triangle 0 is [(1,0,0) (0,1,0) (1,1,1)], triangle 1 is
    [(0,0,0) (1,0,0) (0,1,0)]. *)
Definition edge_vertices : list float :=
  map fZ [0;0;0; 1;0;0; 0;1;0; 1;1;1].
Definition edge_normals : list float := map fZ [0;0;1].
Definition edge_indices : list Z := [1;0; 2;0; 3;0;   0;0; 1;0; 2;0].

Definition edge_mesh : result LBVH.t :=
  preprocess in_order sort_leaves 2 LBVH.init
    (Some edge_vertices) 4 (Some edge_normals) 1 (Some edge_indices) 2.

(** The same mesh as [preprocess] leaves it in [gLBVH] before [Build]. *)
Definition edge_input : LBVH.t :=
  LBVH.mk kInvalid (Some edge_vertices) (Some edge_normals) (Some edge_indices)
    4 1 6 (vec_make 0 Node.default).

(** A triangle with vertices at [2^127]: the determinant overflows. *)
Definition huge : float := Eval vm_compute in F32.of_dyadic 1 127.

(** The triangle [(0,0,0) (2^127,0,0) (0,2^127,0)], and the ray from
    [(1,1,1)] down the z axis. *)
Definition huge_v1 : Vector3f.t := v3 huge F32.zero F32.zero.
Definition huge_v2 : Vector3f.t := v3 F32.zero huge F32.zero.
Definition huge_ray : s3d_Ray.t := down_ray F32.one F32.one.

(** The corners of the two triangles of [edge_input], and the record after
    [IsHit] accepted triangle 0 for the ray through [(1/2, 1/2)]. *)
Definition edge_p0 : Vector3f.t := v3 (fZ 0) (fZ 0) (fZ 0).
Definition edge_p1 : Vector3f.t := v3 (fZ 1) (fZ 0) (fZ 0).
Definition edge_p2 : Vector3f.t := v3 (fZ 0) (fZ 1) (fZ 0).
Definition edge_p3 : Vector3f.t := v3 (fZ 1) (fZ 1) (fZ 1).
Definition edge_ray : s3d_Ray.t := down_ray half half.
Definition edge_first_hit : HitRecord.t := HitRecord.mk true F32.one half F32.zero 0.

(** The clamped coordinates of [Morton3D], the integer bins they are cast
    to, and the combination of the expanded words as the specification
    writes it. *)
Definition clamped (x : float) : float := Clamp (x * F32.f1024)%f32 F32.zero F32.f1023.
Definition bin (x : float) : result Z := F32.to_u32 (clamped x).
Definition interleave (xi yi zi : Z) : Z :=
  Z.lor (Z.lor (Z.shiftl (ExpandBits xi) 2) (Z.shiftl (ExpandBits yi) 1)) (ExpandBits zi).

(** What the multiply-and-mask ladder does to a 10-bit word: bit [i] moves
    to bit [3 i], nothing else is set. *)
Definition expand_check (v : Z) : bool :=
  (0 <=? ExpandBits v) && (ExpandBits v <=? 0x09249249) &&
  (Z.land (ExpandBits v) 0x09249249 =? ExpandBits v) &&
  forallb (fun i => Bool.eqb (Z.testbit (ExpandBits v) (3 * i)) (Z.testbit v i) &&
                    negb (Z.testbit (ExpandBits v) (3 * i + 1)) &&
                    negb (Z.testbit (ExpandBits v) (3 * i + 2)))
          (Zrange 0 10).

(** What [intersect] may change in a ray descriptor [r], giving [r']: the
    inputs are kept, and [isect] and [ns] too unless a hit is reported. *)
Definition ray_frame (r r' : Ray.t) : Prop :=
  Ray.pos r' = Ray.pos r /\ Ray.dir r' = Ray.dir r /\
  Ray.tnear r' = Ray.tnear r /\ Ray.tfar r' = Ray.tfar r /\
  Ray.valid r' = Ray.valid r /\
  (Ray.isisect r' = false -> Ray.isect r' = Ray.isect r /\ Ray.ns r' = Ray.ns r).

(** The box of triangle [i], from its three corners. *)
Definition triangle_box (b : LBVH.t) (i : Z) : result AABB.t :=
  '(p0, p1, p2) <- LBVH.corners b (u32 (i * 3)) ;;
  Ok (AABB.MergePoint (AABB.MergePoint (AABB.of_point p0) p1) p2).

(** One triangle, [(0,0,0) (1,0,1) (0,1,0)], and the ray down from
    [(1/4, 1/4, 1)] that meets it. *)
Definition quarter : float := Eval vm_compute in F32.of_dyadic 1 (-2).
Definition single_vertices : list float := map fZ [0;0;0; 1;0;1; 0;1;0].
Definition single_indices : list Z := [0;0; 1;0; 2;0].
Definition single_ray : s3d_Ray.t := down_ray quarter quarter.
Definition single_desc : Ray.t :=
  Ray.mk (s3d_Ray.pos single_ray) (s3d_Ray.dir single_ray) true F32.zero f10
    false v3_zero v3_zero.

(** Two triangles between [x = -1] and [x = 2^-25]: triangle 0 is
    [(-1,0,0) (2^-25,0,0) (2^-25,1,0)], triangle 1 is
    [(-1,0,1) (-1/2,0,1) (-1,1,1)]; and the ray down from
    [(2^-26, 1/2, 1/2)], which meets triangle 0 at distance 1/2. *)
Definition tiny : float := Eval vm_compute in F32.of_dyadic 1 (-25).
Definition minus_one : float := Eval vm_compute in F32.of_Z (-1).
Definition minus_half : float := Eval vm_compute in F32.of_dyadic (-1) (-1).
Definition sliver_vertices : list float :=
  [minus_one; F32.zero; F32.zero;   tiny; F32.zero; F32.zero;   tiny; F32.one; F32.zero;
   minus_one; F32.zero; F32.one;    minus_half; F32.zero; F32.one;
   minus_one; F32.one; F32.one].
Definition sliver_indices : list Z := [0;0; 1;0; 2;0;   3;0; 4;0; 5;0].
Definition sliver_ray : s3d_Ray.t :=
  make_ray (v3 (F32.of_dyadic 1 (-26)) half half) (v3 F32.zero F32.zero minus_one)
    F32.zero f10.
Definition sliver_input : LBVH.t :=
  LBVH.mk kInvalid (Some sliver_vertices) (Some edge_normals) (Some sliver_indices)
    6 1 6 (vec_make 0 Node.default).

(** The rays of the example for [intersect]: one that is not valid, and
    the one through the shared edge of [edge_input]. *)
Definition invalid_desc : Ray.t :=
  Ray.mk v3_zero v3_zero false F32.zero f10 true (v3 F32.one F32.one F32.one) v3_zero.
Definition edge_desc : Ray.t :=
  Ray.mk (s3d_Ray.pos edge_ray) (s3d_Ray.dir edge_ray) true F32.zero f10
    false v3_zero v3_zero.

(** [gLBVH] after [preprocess] on [edge_input], and the two example rays
    after [intersect]. *)
Definition built (r : result LBVH.t) : LBVH.t :=
  match r with Ok g => g | Err _ => LBVH.init end.
Definition edge_bvh : LBVH.t := Eval vm_compute in built edge_mesh.
Definition edge_rays : list Ray.t := [invalid_desc; edge_desc].
Definition edge_rays_after : list Ray.t :=
  Eval vm_compute in
    match intersect 2 edge_bvh (fresh_record F32.zero) (Some edge_rays) 2 false with
    | Ok (Some l) => l
    | _ => []
    end.

(** ** The tree [Build] makes, as a relation on [Nodes] *)

(** Leaf [i] of the sorted table, its Morton code and its triangle; the
    delta between leaves [i] and [i + 1]. *)
Definition leaf (leaves : list Vector2u.t) (i : Z) : Vector2u.t :=
  nth (Z.to_nat i) leaves (Vector2u.mk 0 0).
Definition key (leaves : list Vector2u.t) (i : Z) : Z := Vector2u.y (leaf leaves i).
Definition tri (leaves : list Vector2u.t) (i : Z) : Z := Vector2u.x (leaf leaves i).
Definition delta (leaves : list Vector2u.t) (i : Z) : Z :=
  Z.lxor (key leaves (i + 1)) (key leaves i).

(** [subtree leaves nodes child lo hi]: the tagged index [child] is the
    root of a tree whose leaves are the leaves [lo .. hi] of the table, in
    this order.  Node [p] separates the leaves up to [p] from the leaves
    after [p], and its delta is the largest of its range (the rightmost
    largest one). *)
Inductive subtree (leaves : list Vector2u.t) (nodes : vec Node.t) : Z -> Z -> Z -> Prop :=
| subtree_leaf (i : Z) :
    0 <= i < Z.of_nat (length leaves) ->
    subtree leaves nodes (2 * tri leaves i + 1) i i
| subtree_node (p lo hi : Z) :
    0 <= lo <= p -> p < hi < Z.of_nat (length leaves) ->
    subtree leaves nodes (Node.L (vat nodes p)) lo p ->
    subtree leaves nodes (Node.R (vat nodes p)) (p + 1) hi ->
    (forall q, lo <= q < p -> delta leaves q <= delta leaves p) ->
    (forall q, p < q < hi -> delta leaves q < delta leaves p) ->
    subtree leaves nodes (2 * p) lo hi.

(** The subtrees that wait for their right sibling while the leaves
    [0 .. k-1] have climbed: each covers a range [a .. b], is the left
    child of node [b] and has left [a] in [other_bounds[b]]; the ranges
    tile [0 .. k-1] and their deltas decrease. *)
Inductive forest (leaves : list Vector2u.t) (nodes : vec Node.t) (other : vec Z)
  : Z -> Prop :=
| forest_nil : forest leaves nodes other 0
| forest_cons (a b : Z) :
    forest leaves nodes other a ->
    0 <= a <= b -> b < Z.of_nat (length leaves) - 1 ->
    vat other b = a ->
    subtree leaves nodes (Node.L (vat nodes b)) a b ->
    (forall q, a <= q < b -> delta leaves q <= delta leaves b) ->
    (0 < a -> delta leaves b < delta leaves (a - 1)) ->
    forest leaves nodes other (b + 1).

(** The leaves are in ascending order of Morton code. *)
Definition sorted_leaves (leaves : list Vector2u.t) : Prop :=
  forall i j, 0 <= i <= j -> j < Z.of_nat (length leaves) ->
    key leaves i <= key leaves j.

(** The number of bits of [z]. *)
Definition bitlen (z : Z) : Z := Z.log2_up (z + 1).

(** What [std::sort] guarantees for the function that stands for it. *)
Definition sorts (sort : list Vector2u.t -> list Vector2u.t) : Prop :=
  forall l, Permutation l (sort l) /\
            StronglySorted (fun a b => Vector2u.y a <= Vector2u.y b) (sort l).

(** What [Build] establishes, for the sorted leaf table [leaves]: the
    nodes form one tree over all the leaves, rooted at [Root]; the
    triangles of the leaves are [0 .. T-1], each once; the corners of
    every triangle can be read. *)
Definition well_formed (leaves : list Vector2u.t) (g : LBVH.t) : Prop :=
  let T := Z.of_nat (length leaves) in
  2 <= T < 2 ^ 31 /\
  vsize (LBVH.Nodes g) = T - 1 /\
  0 <= LBVH.Root g < T - 1 /\
  subtree leaves (LBVH.Nodes g) (2 * LBVH.Root g) 0 (T - 1) /\
  Permutation (map Vector2u.x leaves) (Zrange 0 (length leaves)) /\
  sorted_leaves leaves /\
  (forall i, 0 <= i < T -> 0 <= key leaves i < 2 ^ 32) /\
  (forall f, 0 <= f < T -> exists c, LBVH.corners g (u32 (f * 3)) = Ok c).

(** The number of bits in which the codes of leaves [lo] and [hi] differ,
    counted from the highest differing one. *)
Definition spread (leaves : list Vector2u.t) (lo hi : Z) : Z :=
  bitlen (Z.lxor (key leaves lo) (key leaves hi)).

(** A child over the leaves [lo .. hi] is a node when [lo < hi]: the
    traversal pushes its index, and tests nothing; otherwise it is the
    leaf [lo], whose triangle is tested at once. *)
Definition child_stack (child lo hi : Z) : list Z :=
  if lo <? hi then [Z.shiftr child 1] else [].
Definition child_leaf (lo hi : Z) : list Z :=
  if lo <? hi then [] else [lo].

(** The triangles of the leaves below a child, from left to right. *)
Inductive flatten (nodes : vec Node.t) : Z -> list Z -> Prop :=
| flatten_leaf (f : Z) : 0 <= f -> flatten nodes (2 * f + 1) [f]
| flatten_node (p : Z) (l r : list Z) :
    0 <= p ->
    flatten nodes (Node.L (vat nodes p)) l ->
    flatten nodes (Node.R (vat nodes p)) r ->
    flatten nodes (2 * p) (l ++ r).

(** The state at the head of the loop of the climb of leaf [i]: [current]
    covers the leaves [L .. i]. *)
Record climb_inv (leaves : list Vector2u.t) (st : LBVH.build_state)
  (current L i : Z) (is_leaf : bool) : Prop := {
  ci_nodes : vsize (LBVH.st_Nodes st) = Z.of_nat (length leaves) - 1;
  ci_other : vsize (LBVH.st_other st) = Z.of_nat (length leaves) - 1 /\
             vsize (LBVH.st_first st) = Z.of_nat (length leaves) - 1;
  ci_range : 0 <= L <= i /\ i <= Z.of_nat (length leaves) - 1;
  ci_forest : forest leaves (LBVH.st_Nodes st) (LBVH.st_other st) L;
  ci_current :
    if is_leaf then current = i /\ L = i
    else 0 <= current < Z.of_nat (length leaves) - 1 /\ L < i /\
         subtree leaves (LBVH.st_Nodes st) (2 * current) L i;
  ci_strict : forall q, L <= q < i -> 0 < L -> delta leaves q < delta leaves (L - 1);
  ci_weak : i < Z.of_nat (length leaves) - 1 ->
            forall q, L <= q < i -> delta leaves q <= delta leaves i;
  ci_fresh : forall q, i <= q < Z.of_nat (length leaves) - 1 ->
             vat (LBVH.st_other st) q = kInvalid
}.

(** The state once the leaves [0 .. k-1] have climbed. *)
Definition climbed (leaves : list Vector2u.t) (st : LBVH.build_state) (k : Z) : Prop :=
  let N := Z.of_nat (length leaves) - 1 in
  vsize (LBVH.st_Nodes st) = N /\
  (vsize (LBVH.st_other st) = N /\ vsize (LBVH.st_first st) = N) /\
  (k <= N ->
     forest leaves (LBVH.st_Nodes st) (LBVH.st_other st) k /\
     forall q, k <= q < N -> vat (LBVH.st_other st) q = kInvalid) /\
  (k = N + 1 ->
     0 <= LBVH.st_Root st < N /\
     subtree leaves (LBVH.st_Nodes st) (2 * LBVH.st_Root st) 0 N).

(** ** Named views for the properties of the traversal and of [intersect] *)

(** [record'] is what [IsHit] leaves when [IntersectTriangle] accepts
    triangle [f] for [ray]: the corners of [f] can be read, they pass every
    test but the one on [dist], and the record holds [t], [u], [v] and the
    index of [f]. *)
Definition accepts (b : LBVH.t) (ray : s3d_Ray.t) (f : Z) (record' : HitRecord.t) : Prop :=
  exists p0 p1 p2,
    LBVH.corners b (u32 (f * 3)) = Ok (p0, p1, p2) /\
    passes_but_dist (s3d_Ray.pos ray) (s3d_Ray.dir ray) p0 p1 p2
      (s3d_Ray.tmin ray) (s3d_Ray.tmax ray) = true /\
    record' =
    HitRecord.mk true
      (tri_t (s3d_Ray.pos ray) (s3d_Ray.dir ray) p0 p1 p2)
      (tri_u (s3d_Ray.pos ray) (s3d_Ray.dir ray) p0 p1 p2)
      (tri_v (s3d_Ray.pos ray) (s3d_Ray.dir ray) p0 p1 p2)
      (i32 f).

(** [Normals[Indices[id + k].N]] for [k = 0, 1, 2], as [CalcNormal] reads them. *)
Definition normal_corners (b : LBVH.t) (id : Z)
  : result (Vector3f.t * Vector3f.t * Vector3f.t) :=
  n0 <- (i <- LBVH.Indices_N b (u32 (id + 0)) ;; LBVH.Normals_at b i) ;;
  n1 <- (i <- LBVH.Indices_N b (u32 (id + 1)) ;; LBVH.Normals_at b i) ;;
  n2 <- (i <- LBVH.Indices_N b (u32 (id + 2)) ;; LBVH.Normals_at b i) ;;
  Ok (n0, n1, n2).

(** [w * a + u * b + v * c], in the order [CalcPosition] and [CalcNormal]
    add the terms. *)
Definition barycentric (a b c : Vector3f.t) (u v w : float) : Vector3f.t :=
  Vector3f.add (Vector3f.add (Vector3f.muls a w) (Vector3f.muls b u)) (Vector3f.muls c v).

(** The internal ray [intersect] makes of a descriptor. *)
Definition ray_of (r : Ray.t) : s3d_Ray.t :=
  make_ray (Ray.pos r) (Ray.dir r) (Ray.tnear r) (Ray.tfar r).

(** *** s3d_bvh.cpp: LBVH::Destruct *)

(** [Nodes.clear(); Nodes.shrink_to_fit();], the three counts are zeroed
    and the three pointers are reset.  [Root] is not assigned. *)
Definition Destruct (b : LBVH.t) : LBVH.t :=
  LBVH.mk (LBVH.Root b) None None None 0 0 0 (vec_resize (LBVH.Nodes b) 0).

(** An error that stands for undefined behaviour of the C++ code, as
    opposed to the fuel of the embedding running out. *)
Definition undefined (e : error) : Prop :=
  e = NullPointer \/ e = OutOfBounds \/ e = UndefinedCast.

(** ** Named views for the properties of the boxes *)

(** No coordinate of [p] is a NaN. *)
Definition no_nan (p : Vector3f.t) : bool :=
  negb (F32.is_nan (Vector3f.x p)) && negb (F32.is_nan (Vector3f.y p)) &&
  negb (F32.is_nan (Vector3f.z p)).

(** [p] lies in the box [b], componentwise. *)
Definition inside (b : AABB.t) (p : Vector3f.t) : bool := AABB.contains b (AABB.of_point p).

(** ** s3d_math.h: MakeBox *)

(** [position[i * 3 + k]], the index computed in [size_t]. *)
Definition position_at (position : option (list float)) (i k : Z) : result float :=
  read position (u64 (u64 (i * 3) + k)).

(** The body of the loop of [MakeBox]: six assignments, each reading its
    coordinate again. *)
Definition MakeBox_step (position : option (list float)) (i : Z) (r : AABB.t)
  : result AABB.t :=
  x <- position_at position i 0 ;;
  let mini_x := Min (Vector3f.x (AABB.mini r)) x in
  y <- position_at position i 1 ;;
  let mini_y := Min (Vector3f.y (AABB.mini r)) y in
  z <- position_at position i 2 ;;
  let mini_z := Min (Vector3f.z (AABB.mini r)) z in
  x <- position_at position i 0 ;;
  let maxi_x := Max (Vector3f.x (AABB.maxi r)) x in
  y <- position_at position i 1 ;;
  let maxi_y := Max (Vector3f.y (AABB.maxi r)) y in
  z <- position_at position i 2 ;;
  let maxi_z := Max (Vector3f.z (AABB.maxi r)) z in
  Ok (AABB.mk (Vector3f.mk mini_x mini_y mini_z) (Vector3f.mk maxi_x maxi_y maxi_z)).

Definition MakeBox (position : option (list float)) (count : Z) : result AABB.t :=
  if (count =? 0) || (match position with None => true | Some _ => false end)
  then Ok AABB.Clear
  else
    x <- read position 0 ;;
    y <- read position 1 ;;
    z <- read position 2 ;;
    for_range 1 (Z.to_nat count - 1) (MakeBox_step position)
      (AABB.mk (Vector3f.mk x y z) (Vector3f.mk x y z)).

(** A binary32 value that is not an infinity. *)
Definition bounded32 (f : float) : bool :=
  match f with
  | S754_infinity _ => false
  | S754_finite _ m e => bounded F32.prec F32.emax m e
  | _ => true
  end.

(** ** s3d_math.h: PCG *)

Module PCG.
Definition kMultiplier : Z := 6364136223846793005.
Definition kIncrement : Z := 1442695040888963407.

(** [m_State] after one call of [GetAsU32]. *)
Definition next (m_State : Z) : Z := u64 (u64 (m_State * kMultiplier) + kIncrement).

(** The locals [xorshifted] and [rot] of [GetAsU32]. *)
Definition xorshifted (old_state : Z) : Z :=
  u32 (Z.shiftr (Z.lxor (Z.shiftr old_state 18) old_state) 27).
Definition rot (old_state : Z) : Z := u32 (Z.shiftr old_state 59).

(** [GetAsU32]: the value returned and the state it leaves. *)
Definition GetAsU32 (m_State : Z) : Z * Z :=
  let old_state := m_State in
  let m_State := next old_state in
  let xorshifted := xorshifted old_state in
  let rot := rot old_state in
  (u32 (Z.lor (Z.shiftr xorshifted rot)
          (u32 (Z.shiftl xorshifted (Z.land (u32 (u32 (Z.lnot rot) + 1)) 31)))),
   m_State).

(** [SetSeed]: the state it leaves (the value of the call of [GetAsU32] is
    dropped). *)
Definition SetSeed (seed : Z) : Z := snd (GetAsU32 (u64 (seed + kIncrement))).

(** The state before [next]: the multiplier is odd, and has an inverse
    modulo [2^64]. *)
Definition previous (m_State : Z) : Z :=
  u64 ((m_State - kIncrement) * 13877824140714322085).
End PCG.

(** ** The boxes of the nodes, as a relation on [Nodes] *)

(** [boxed tb leaves nodes child lo hi]: the tree under [child] covers the
    leaves [lo .. hi], and the box of each of its nodes contains the box
    [tb j] of every leaf [j] the node covers. *)
Inductive boxed (tb : Z -> AABB.t) (leaves : list Vector2u.t) (nodes : vec Node.t)
  : Z -> Z -> Z -> Prop :=
| boxed_leaf (i : Z) : boxed tb leaves nodes (2 * tri leaves i + 1) i i
| boxed_node (p lo hi : Z) :
    lo <= p < hi ->
    boxed tb leaves nodes (Node.L (vat nodes p)) lo p ->
    boxed tb leaves nodes (Node.R (vat nodes p)) (p + 1) hi ->
    (forall j, lo <= j <= hi -> AABB.contains (Node.Box (vat nodes p)) (tb j) = true) ->
    boxed tb leaves nodes (2 * p) lo hi.

(** The boxes of the subtrees that wait for their right sibling: the box
    that the left subtree of node [b] has merged into the node, noted in
    [first], contains the boxes of the leaves of that subtree. *)
Inductive bforest (tb : Z -> AABB.t) (leaves : list Vector2u.t) (nodes : vec Node.t)
  (other : vec Z) (first : vec (AABB.t * AABB.t)) : Z -> Prop :=
| bforest_nil : bforest tb leaves nodes other first 0
| bforest_cons (a b : Z) :
    bforest tb leaves nodes other first a ->
    0 <= a <= b ->
    vat other b = a ->
    boxed tb leaves nodes (Node.L (vat nodes b)) a b ->
    (forall j, a <= j <= b -> AABB.contains (snd (vat first b)) (tb j) = true) ->
    bforest tb leaves nodes other first (b + 1).

(** The boxes at the head of the loop of the climb of leaf [i]: [aabb]
    contains the boxes of the leaves [L .. i]. *)
Record box_inv (tb : Z -> AABB.t) (leaves : list Vector2u.t) (st : LBVH.build_state)
  (current L i : Z) (aabb : AABB.t) (is_leaf : bool) : Prop := {
  bi_forest : bforest tb leaves (LBVH.st_Nodes st) (LBVH.st_other st) (LBVH.st_first st) L;
  bi_aabb : forall j, L <= j <= i -> AABB.contains aabb (tb j) = true;
  bi_current : is_leaf = false -> boxed tb leaves (LBVH.st_Nodes st) (2 * current) L i
}.

(** The boxes once the leaves [0 .. k-1] have climbed. *)
Definition bclimbed (tb : Z -> AABB.t) (leaves : list Vector2u.t) (st : LBVH.build_state)
  (k : Z) : Prop :=
  let N := Z.of_nat (length leaves) - 1 in
  (k <= N ->
     bforest tb leaves (LBVH.st_Nodes st) (LBVH.st_other st) (LBVH.st_first st) k) /\
  (k = N + 1 -> boxed tb leaves (LBVH.st_Nodes st) (2 * LBVH.st_Root st) 0 N).

(** The box of the triangle of leaf [j], as [Build] translates it; the
    sentinel box stands in where the corners cannot be read. *)
Definition leaf_box (b : LBVH.t) (box : AABB.t) (leaves : list Vector2u.t) (j : Z) : AABB.t :=
  match LBVH.leaf_aabb b box (tri leaves j) with
  | Ok bx => bx
  | Err _ => AABB.Clear
  end.

(** No coordinate of the box is a NaN. *)
Definition box_no_nan (bx : AABB.t) : bool := no_nan (AABB.mini bx) && no_nan (AABB.maxi bx).

(** ** s3d_math.h: the 64-bit Morton code *)

(** [ExpandBits(uint64_t)] *)
Definition ExpandBits_u64 (v : Z) : Z :=
  let v := Z.land (u64 (v * 0x000100000001)) 0xFFFF00000000FFFF in
  let v := Z.land (u64 (v * 0x000000010001)) 0x00FF0000FF0000FF in
  let v := Z.land (u64 (v * 0x000000000101)) 0xF00F00F00F00F00F in
  let v := Z.land (u64 (v * 0x000000000011)) 0x30C30C30C30C30C3 in
  let v := Z.land (u64 (v * 0x000000000005)) 0x9249249249249249 in
  v.

(** One rung of the ladder: multiply, wrap to 64 bits, mask. *)
Definition rung (s mask v : Z) : Z := Z.land (u64 (v * (2 ^ s + 1))) mask.

(** binary64, for the [double] arithmetic of [Morton3D_64]. *)
Module F64.
Definition prec : Z := 53.
Definition emax : Z := 1024.
Definition mul : float -> float -> float := SFmul prec emax.

(** The conversion of a [float] to [double]. *)
Definition of_float (f : float) : float :=
  match f with
  | S754_finite s m e => binary_normalize prec emax (if s then Zneg m else Zpos m) e false
  | _ => f
  end.

Definition zero : float := S754_zero false.
Definition d1048576 : float := Eval vm_compute in binary_normalize prec emax 1048576 0 false.
Definition d1048575 : float := Eval vm_compute in binary_normalize prec emax 1048575 0 false.

(** [(uint64_t)d]: truncation toward zero, undefined when the truncated
    value does not fit 64 bits (and for NaN and infinities). *)
Definition to_u64 (f : float) : result Z :=
  match f with
  | S754_zero _ => Ok 0
  | S754_finite s m e =>
      let t := F32.truncate m e in
      if s then (if t =? 0 then Ok 0 else Err UndefinedCast)
      else if t <? 2 ^ 64 then Ok t else Err UndefinedCast
  | _ => Err UndefinedCast
  end.
End F64.

(** [Clamp] is taken at [T = double] here; the comparisons of [Min] and
    [Max] are the same function on both formats. *)
Definition Morton3D_64 (x y z : float) : result Z :=
  let dx := Clamp (F64.mul (F64.of_float x) F64.d1048576) F64.zero F64.d1048575 in
  let dy := Clamp (F64.mul (F64.of_float y) F64.d1048576) F64.zero F64.d1048575 in
  let dz := Clamp (F64.mul (F64.of_float z) F64.d1048576) F64.zero F64.d1048575 in
  xi <- F64.to_u64 dx ;;
  yi <- F64.to_u64 dy ;;
  zi <- F64.to_u64 dz ;;
  let xx := ExpandBits_u64 xi in
  let yy := ExpandBits_u64 yi in
  let zz := ExpandBits_u64 zi in
  Ok (u64 (u64 (u64 (Z.shiftl xx 2) + u64 (Z.shiftl yy 1)) + zz)).

(** The clamped coordinate of [Morton3D_64] and the bin it is cast to. *)
Definition clamped64 (x : float) : float :=
  Clamp (F64.mul (F64.of_float x) F64.d1048576) F64.zero F64.d1048575.
Definition bin64 (x : float) : result Z := F64.to_u64 (clamped64 x).

(** Bit [j] of a word whose bit [i] sits at [3 i], the others clear. *)
Definition spread_bit (v j : Z) : bool := (j mod 3 =? 0) && Z.testbit v (j / 3).

(** The three expanded words of [Morton3D_64] put together. *)
Definition interleave64 (xi yi zi : Z) : Z :=
  Z.lor (Z.lor (Z.shiftl (ExpandBits_u64 xi) 2) (Z.shiftl (ExpandBits_u64 yi) 1))
        (ExpandBits_u64 zi).

(** ** s3d_math.h: AABB::Slab *)

(** [Vector3<T>::operator * (const Vector3<T>&)] *)
Definition Vector3f_mul (a b : Vector3f.t) : Vector3f.t :=
  Vector3f.mk (Vector3f.x a * Vector3f.x b)%f32 (Vector3f.y a * Vector3f.y b)%f32
              (Vector3f.z a * Vector3f.z b)%f32.

Definition Slab (b : AABB.t) (rayPos invRayDir : Vector3f.t) : bool :=
  let t0 := Vector3f_mul (Vector3f.sub (AABB.mini b) rayPos) invRayDir in
  let t1 := Vector3f_mul (Vector3f.sub (AABB.maxi b) rayPos) invRayDir in
  let tmin := Vector3f.Min t0 t1 in
  let tmax := Vector3f.Max t0 t1 in
  (Max3 tmin <=? Min3 tmax)%f32.

(** The example ray that hits the edge mesh within [[0, 10)], with a NaN
    for [tfar]. *)
Definition nan_desc : Ray.t :=
  Ray.mk (s3d_Ray.pos edge_ray) (s3d_Ray.dir edge_ray) true F32.zero S754_nan
    false v3_zero v3_zero.

(** ** Inputs on which the traversal and the brute-force loop differ *)

(** Two triangles in the planes [x = 1] and [x = 2], standing on the plane
    [z = 0]: triangle 0 is [(1,-1,0) (1,1,0) (1,0,1)], triangle 1 is
    [(2,-1,0) (2,1,0) (2,0,1)]; and the ray from the origin along the x
    axis, which lies in the plane [z = 0] and meets the lower edge of
    triangle 0 at distance 1. *)
Definition grazing_vertices : list float :=
  map fZ [1;-1;0; 1;1;0; 1;0;1;   2;-1;0; 2;1;0; 2;0;1].
Definition grazing_indices : list Z := [0;0; 1;0; 2;0;   3;0; 4;0; 5;0].
Definition grazing_ray : s3d_Ray.t :=
  make_ray (v3 F32.zero F32.zero F32.zero) (v3 F32.one F32.zero F32.zero) F32.zero f10.

(** Two triangles apart from each other: triangle 0 is
    [(0,0,0) (1,0,0) (0,1,1)], triangle 1 is [(2,2,0) (3,2,0) (2,3,1)].
    The ray down from [(1/4, 1/4, 1)] meets triangle 0 at distance 3/4. *)
Definition apart_vertices : list float :=
  map fZ [0;0;0; 1;0;0; 0;1;1;   2;2;0; 3;2;0; 2;3;1].
Definition apart_indices : list Z := [0;0; 1;0; 2;0;   3;0; 4;0; 5;0].

(** ** A mesh of more than [2^31] triangles *)

(** [2^31 + 3] triangles on four vertices.  Triangle 0 is
    [(0,0,0) (0,1,0) (1,1,1)] and the others are [(1,0,0) (0,0,0) (1,1,1)];
    all of them span the unit cube.  [wrap_P j] is the vertex that index
    entry [j] names.  Entry [2^32 - 1] names vertex 2: for triangle
    1431655765 the 32-bit [id = i * 3] is [2^32 - 1], [id + 1] and [id + 2]
    wrap to the entries 0 and 1, and [Build] and [IsHit] read this triangle
    as [(1,1,1) (0,0,0) (0,1,0)].  From triangle 1431655766 on, [i * 3]
    itself wraps and the corners are read from the entries
    [3 (i - 1431655766) + 2] on, which give [(1,1,1) (1,0,0) (0,0,0)]. *)
Definition wrap_vertices : list float := map fZ [0;0;0; 0;1;0; 1;1;1; 1;0;0].
Definition wrap_faceCount : Z := 2147483651.
Definition wrap_P (j : Z) : Z :=
  if j <? 2 then j
  else if (j mod 3 =? 2) || (j =? 4294967295) then 2
  else if j mod 3 =? 0 then 3 else 0.
Definition wrap_indices : list Z :=
  flat_map (fun j => [wrap_P j; 0]) (Zrange 0 (Z.to_nat (3 * wrap_faceCount))).
Definition wrap_ray : s3d_Ray.t := down_ray quarter quarter.

(** The Morton code [Build] computes for triangle [i] of this mesh, and the
    box of every triangle. *)
Definition wrap_code (i : Z) : Z :=
  if (i =? 0) || (i =? 1431655765) then 357913941 else 596523235.
Definition wrap_cube : AABB.t :=
  AABB.mk (v3 F32.zero F32.zero F32.zero) (v3 F32.one F32.one F32.one).

(** Four triangles on the same vertices, two of each kind: the root of the
    tree has two nodes as children. *)
Definition quad_indices : list Z :=
  [0;0; 1;0; 2;0;   3;0; 0;0; 2;0;   2;0; 0;0; 1;0;   2;0; 3;0; 0;0].
Definition quad_bvh : LBVH.t :=
  Eval vm_compute in
    built (preprocess in_order sort_leaves 3 LBVH.init
             (Some wrap_vertices) 4 (Some edge_normals) 1 (Some quad_indices) 4).

(** ** Named views for what the traversal prunes *)

(** [reaches nodes ray d child f]: triangle [f] is a leaf below the tagged
    index [child], and the box of every node on the way from [child] down
    to it passes [AABB::Intersect] for the ray and the length [d]. *)
Inductive reaches (nodes : vec Node.t) (ray : s3d_Ray.t) (d : float) : Z -> Z -> Prop :=
| reaches_leaf (f : Z) : reaches nodes ray d (2 * f + 1) f
| reaches_L (p f : Z) :
    AABB.Intersect (Node.Box (vat nodes p)) (s3d_Ray.pos ray) (s3d_Ray.inv_dir ray) d = true ->
    reaches nodes ray d (Node.L (vat nodes p)) f ->
    reaches nodes ray d (2 * p) f
| reaches_R (p f : Z) :
    AABB.Intersect (Node.Box (vat nodes p)) (s3d_Ray.pos ray) (s3d_Ray.inv_dir ray) d = true ->
    reaches nodes ray d (Node.R (vat nodes p)) f ->
    reaches nodes ray d (2 * p) f.

(** No triangle of the mesh gives the ray a NaN distance. *)
Definition no_nan_distance (b : LBVH.t) (ray : s3d_Ray.t) (T : Z) : Prop :=
  forall f p0 p1 p2, 0 <= f < T ->
    LBVH.corners b (u32 (f * 3)) = Ok (p0, p1, p2) ->
    F32.is_nan (tri_t (s3d_Ray.pos ray) (s3d_Ray.dir ray) p0 p1 p2) = false.

(** * Properties *)

(** ** The result monad *)

Lemma bind_Ok_inv {A B} (m : result A) (k : A -> result B) (b : B) :
  bind m k = Ok b -> exists a, m = Ok a /\ k a = Ok b.
Proof. destruct m as [a|e]; simpl; [eauto | discriminate]. Qed.

Ltac inv_bind H :=
  let a := fresh "a" in
  let Ha := fresh "Ha" in
  apply bind_Ok_inv in H; destruct H as (a & Ha & H); cbv beta in H.

(** ** The order of binary32 *)

Section FloatOrder.

Lemma SFcompare_antisym (a b : float) :
  SFcompare b a = option_map CompOpp (SFcompare a b).
Proof.
  destruct a as [sa|sa| |sa ma ea], b as [sb|sb| |sb mb eb]; simpl; try reflexivity;
    try (destruct sa; reflexivity); try (destruct sb; reflexivity);
    try (destruct sa, sb; reflexivity).
  destruct sa, sb; simpl; try reflexivity;
    rewrite (Z.compare_antisym ea eb); destruct (ea ?= eb) eqn:E; simpl; try reflexivity;
    f_equal; rewrite (Pos.compare_cont_antisym ma mb Eq); reflexivity.
Qed.

Lemma SFcompare_not_nan (a b : float) :
  F32.is_nan a = false -> F32.is_nan b = false -> exists c, SFcompare a b = Some c.
Proof.
  destruct a, b; simpl; intros; try discriminate; eauto.
Qed.

(** Away from NaN, [not (a < b)] is [b <= a]. *)
Lemma ltb_false_leb (a b : float) :
  F32.is_nan a = false -> F32.is_nan b = false ->
  F32.ltb a b = negb (F32.leb b a).
Proof.
  intros Ha Hb. unfold F32.ltb, F32.leb, SFltb, SFleb.
  rewrite (SFcompare_antisym a b).
  destruct (SFcompare_not_nan a b Ha Hb) as [c ->]. destruct c; reflexivity.
Qed.

Lemma leb_false_ltb (a b : float) :
  F32.is_nan a = false -> F32.is_nan b = false ->
  F32.leb a b = negb (F32.ltb b a).
Proof.
  intros Ha Hb. rewrite (ltb_false_leb b a Hb Ha), negb_involutive. reflexivity.
Qed.

(** [a == b] excludes [a > b], NaN or not. *)
Lemma eqb_not_gtb (a b : float) : F32.eqb a b = true -> F32.gtb a b = false.
Proof.
  unfold F32.eqb, F32.gtb, SFeqb, SFltb. rewrite (SFcompare_antisym a b).
  destruct (SFcompare a b) as [[]|]; simpl; congruence.
Qed.

Lemma leb_not_nan (a b : float) :
  F32.leb a b = true -> F32.is_nan a = false /\ F32.is_nan b = false.
Proof. destruct a, b; simpl; try discriminate; auto. Qed.

Lemma ltb_not_nan (a b : float) :
  F32.ltb a b = true -> F32.is_nan a = false /\ F32.is_nan b = false.
Proof. destruct a, b; simpl; try discriminate; auto. Qed.

End FloatOrder.

(** ** IntersectTriangle *)

(** The early exits of [IntersectTriangle], as one test. *)
Lemma IntersectTriangle_unfold rayPos rayDir v0 v1 v2 tmin tmax dist u v :
  IntersectTriangle rayPos rayDir v0 v1 v2 tmin tmax dist u v =
  if passes_but_dist rayPos rayDir v0 v1 v2 tmin tmax
     && negb (F32.gtb (tri_t rayPos rayDir v0 v1 v2) dist)
  then (true, (tri_t rayPos rayDir v0 v1 v2, tri_u rayPos rayDir v0 v1 v2,
               tri_v rayPos rayDir v0 v1 v2))
  else (false, (dist, u, v)).
Proof.
  unfold IntersectTriangle, passes_but_dist.
  fold (tri_det rayDir v0 v1 v2).
  destruct (F32.eqb (tri_det rayDir v0 v1 v2) F32.zero); simpl; [reflexivity|].
  fold (tri_u rayPos rayDir v0 v1 v2).
  destruct (_ || _)%bool; simpl; [reflexivity|].
  fold (tri_v rayPos rayDir v0 v1 v2).
  destruct (_ || _)%bool; simpl; [reflexivity|].
  fold (tri_t rayPos rayDir v0 v1 v2).
  destruct (F32.ltb _ tmin); simpl; [reflexivity|].
  destruct (F32.leb tmax _); simpl; [reflexivity|].
  destruct (F32.gtb _ dist); reflexivity.
Qed.

(** C10.  When [IntersectTriangle] returns false its outputs [dist], [u]
    and [v] are the values passed in, and [IsHit] on such a rejected
    triangle returns the record it was given: [hit], [dist], [u], [v] and
    [face_id] all keep their values. *)
Theorem rejected_keeps_record
  (b : LBVH.t) (ray : s3d_Ray.t) (record : HitRecord.t) (face_id : Z)
  (p0 p1 p2 : Vector3f.t) (out : float * float * float) :
  LBVH.corners b (u32 (face_id * 3)) = Ok (p0, p1, p2) ->
  IntersectTriangle (s3d_Ray.pos ray) (s3d_Ray.dir ray) p0 p1 p2
    (s3d_Ray.tmin ray) (s3d_Ray.tmax ray)
    (HitRecord.dist record) (HitRecord.u record) (HitRecord.v record) = (false, out) ->
  out = (HitRecord.dist record, HitRecord.u record, HitRecord.v record) /\
  LBVH.IsHit b ray record face_id = Ok record.
Proof.
  intros Hc Hi.
  assert (Ho : out = (HitRecord.dist record, HitRecord.u record, HitRecord.v record)).
  { rewrite IntersectTriangle_unfold in Hi.
    destruct (_ && _)%bool; [discriminate | congruence]. }
  split; [exact Ho|].
  unfold LBVH.IsHit. rewrite Hc. simpl. rewrite Hi, Ho.
  destruct record; reflexivity.
Qed.

(** A ray that passes beside triangle 1 of [edge_input] leaves the record alone. *)
Lemma rejected_keeps_record_witness :
  LBVH.IsHit edge_input (down_ray (fZ 2) (fZ 2)) (fresh_record f10) 1
  = Ok (fresh_record f10).
Proof.
  refine (proj2 (rejected_keeps_record edge_input (down_ray (fZ 2) (fZ 2))
                   (fresh_record f10) 1 edge_p0 edge_p1 edge_p2
                   (f10, F32.zero, F32.zero) _ _)); vm_compute; reflexivity.
Defined.




(** C3, as amended.  A call whose computed distance [t] equals
    [record.dist], and which passes the other tests of
    [IntersectTriangle], is accepted: it returns true, and [IsHit] puts the
    later triangle's [u], [v] and [face_id] in the record ([dist] becomes
    [t], the same distance).  Only [t > record.dist] is rejected. *)
Theorem equal_distance_displaces
  (b : LBVH.t) (ray : s3d_Ray.t) (record : HitRecord.t) (face_id : Z)
  (p0 p1 p2 : Vector3f.t) :
  LBVH.corners b (u32 (face_id * 3)) = Ok (p0, p1, p2) ->
  passes_but_dist (s3d_Ray.pos ray) (s3d_Ray.dir ray) p0 p1 p2
    (s3d_Ray.tmin ray) (s3d_Ray.tmax ray) = true ->
  F32.eqb (tri_t (s3d_Ray.pos ray) (s3d_Ray.dir ray) p0 p1 p2) (HitRecord.dist record)
    = true ->
  fst (IntersectTriangle (s3d_Ray.pos ray) (s3d_Ray.dir ray) p0 p1 p2
         (s3d_Ray.tmin ray) (s3d_Ray.tmax ray)
         (HitRecord.dist record) (HitRecord.u record) (HitRecord.v record)) = true /\
  LBVH.IsHit b ray record face_id =
  Ok (HitRecord.mk true
        (tri_t (s3d_Ray.pos ray) (s3d_Ray.dir ray) p0 p1 p2)
        (tri_u (s3d_Ray.pos ray) (s3d_Ray.dir ray) p0 p1 p2)
        (tri_v (s3d_Ray.pos ray) (s3d_Ray.dir ray) p0 p1 p2)
        (i32 face_id)).
Proof.
  intros Hc Hp He.
  unfold LBVH.IsHit. rewrite Hc. simpl.
  rewrite IntersectTriangle_unfold, Hp, (eqb_not_gtb _ _ He). simpl. split; reflexivity.
Qed.

(** After triangle 0 of [edge_input] was recorded at distance 1, triangle 1,
    met at distance 1 too, takes its place. *)
Lemma equal_distance_displaces_witness :
  LBVH.IsHit edge_input edge_ray edge_first_hit 1
  = Ok (HitRecord.mk true F32.one half half 1).
Proof.
  refine (eq_trans (proj2 (equal_distance_displaces edge_input edge_ray edge_first_hit 1
                     edge_p0 edge_p1 edge_p2 _ _ _)) _); vm_compute; reflexivity.
Defined.

(** C3, as stated, fails: [IsHit] on triangle 0 records the hit
    [edge_first_hit] at distance 1; the later call on triangle 1 computes
    the same distance, returns true, and [u], [v] and [face_id] change. *)
Lemma equal_distance_not_rejected :
  LBVH.IsHit edge_input edge_ray (fresh_record f10) 0 = Ok edge_first_hit /\
  tri_t (s3d_Ray.pos edge_ray) (s3d_Ray.dir edge_ray) edge_p0 edge_p1 edge_p2
  = HitRecord.dist edge_first_hit /\
  IntersectTriangle (s3d_Ray.pos edge_ray) (s3d_Ray.dir edge_ray)
    edge_p0 edge_p1 edge_p2 (s3d_Ray.tmin edge_ray) (s3d_Ray.tmax edge_ray)
    (HitRecord.dist edge_first_hit) (HitRecord.u edge_first_hit)
    (HitRecord.v edge_first_hit)
  = (true, (F32.one, half, half)) /\
  LBVH.IsHit edge_input edge_ray edge_first_hit 1
  = Ok (HitRecord.mk true F32.one half half 1).
Proof. vm_compute. repeat split. Qed.

(** ** Rounding keeps the mantissa within 24 bits *)

Lemma shr_1_m (mrs : shr_record) : 0 <= shr_m mrs -> shr_m (shr_1 mrs) = shr_m mrs / 2.
Proof.
  destruct mrs as [m r s]; simpl. intros Hm.
  destruct m as [|p|p]; [reflexivity| |lia].
  destruct p as [p|p|]; simpl shr_m.
  - apply Z.div_unique with (r := 1); lia.
  - apply Z.div_unique with (r := 0); lia.
  - reflexivity.
Qed.

Lemma iter_shr_1_m (p : positive) : forall mrs : shr_record,
  0 <= shr_m mrs -> shr_m (iter_pos shr_1 p mrs) = shr_m mrs / 2 ^ Zpos p.
Proof.
  induction p as [p IH|p IH|]; intros mrs Hm; simpl iter_pos.
  - assert (H1 : 0 <= shr_m (shr_1 mrs)) by (rewrite shr_1_m by lia; apply Z.div_pos; lia).
    rewrite IH, IH, shr_1_m by (rewrite ?IH by lia; try apply Z.div_pos; lia).
    rewrite !Z.div_div by lia.
    f_equal. rewrite Pos2Z.inj_xI. rewrite <- Z.pow_add_r, <- (Z.pow_1_r 2) at 1 by lia.
    rewrite <- Z.pow_add_r by lia. f_equal. lia.
  - rewrite IH, IH by (rewrite ?IH by lia; try apply Z.div_pos; lia).
    rewrite Z.div_div by lia. f_equal. rewrite Pos2Z.inj_xO, <- Z.pow_add_r by lia.
    f_equal. lia.
  - rewrite shr_1_m by lia. reflexivity.
Qed.

Lemma digits2_pos_bound (p : positive) : Zpos p < 2 ^ Zpos (digits2_pos p).
Proof.
  induction p as [p IH|p IH|]; simpl digits2_pos;
    rewrite ?Pos2Z.inj_succ, ?Z.pow_succ_r by lia; lia.
Qed.

Lemma shr_fexp_bound (m e : Z) (l : location) :
  0 <= m ->
  0 <= shr_m (fst (shr_fexp F32.prec F32.emax m e l)) < 2 ^ F32.prec.
Proof.
  intros Hm. unfold shr_fexp, shr.
  assert (Hr : shr_m (shr_record_of_loc m l) = m) by (destruct l as [|[]]; reflexivity).
  assert (Hd : m < 2 ^ Zdigits2 m).
  { destruct m as [|p|p]; [simpl; lia | apply digits2_pos_bound | lia]. }
  assert (Hd0 : 0 <= Zdigits2 m) by (destruct m; simpl; lia).
  assert (Hn : Zdigits2 m - F32.prec <= fexp F32.prec F32.emax (Zdigits2 m + e) - e).
  { unfold fexp. lia. }
  destruct (fexp F32.prec F32.emax (Zdigits2 m + e) - e) as [|n|n] eqn:En; simpl fst.
  - rewrite Hr. split; [lia|].
    apply Z.lt_le_trans with (1 := Hd). apply Z.pow_le_mono_r; lia.
  - rewrite iter_shr_1_m by lia. rewrite Hr. split; [apply Z.div_pos; lia|].
    apply Z.div_lt_upper_bound; [lia|]. rewrite <- Z.pow_add_r by (unfold F32.prec; lia).
    apply Z.lt_le_trans with (1 := Hd). apply Z.pow_le_mono_r; lia.
  - rewrite Hr. split; [lia|].
    apply Z.lt_le_trans with (1 := Hd). apply Z.pow_le_mono_r; lia.
Qed.

Lemma binary_round_aux_bound (s : bool) (m e : Z) (l : location) :
  0 <= m ->
  match binary_round_aux F32.prec F32.emax s m e l with
  | S754_nan => False
  | S754_finite _ m' _ => Zpos m' < 2 ^ F32.prec
  | _ => True
  end.
Proof.
  intros Hm. unfold binary_round_aux.
  pose proof (shr_fexp_bound m e l Hm) as H1.
  destruct (shr_fexp F32.prec F32.emax m e l) as [mrs' e']. simpl fst in H1.
  assert (H2 : 0 <= round_nearest_even (shr_m mrs') (loc_of_shr_record mrs')).
  { unfold round_nearest_even. destruct (loc_of_shr_record mrs') as [|[]];
      try destruct (Z.even _); lia. }
  pose proof (shr_fexp_bound _ e' loc_Exact H2) as H3.
  destruct (shr_fexp F32.prec F32.emax _ e' loc_Exact) as [mrs'' e'']. simpl fst in H3.
  destruct (shr_m mrs'') as [|p|p]; [exact I| |lia].
  destruct (e'' <=? F32.emax - F32.prec); [lia | exact I].
Qed.

(** ** Morton3D *)

Lemma truncate_small (m : positive) (e : Z) :
  Zpos m < 2 ^ F32.prec ->
  e < -14 \/ (e = -14 /\ Zpos m <= 16760832) ->
  0 <= F32.truncate m e <= 1023.
Proof.
  intros Hm He. unfold F32.truncate.
  assert (Hneg : (0 <=? e) = false) by (apply Z.leb_gt; lia). rewrite Hneg.
  split; [apply Z.div_pos; [lia | apply Z.pow_pos_nonneg; lia]|].
  destruct He as [He|[-> Hle]].
  - assert (Zpos m / 2 ^ (- e) < 512); [|lia].
    apply Z.div_lt_upper_bound; [apply Z.pow_pos_nonneg; lia|].
    assert (2 ^ 15 <= 2 ^ (- e)) by (apply Z.pow_le_mono_r; lia).
    unfold F32.prec in Hm. change (2 ^ 24) with 16777216 in Hm.
    change (2 ^ 15) with 32768 in H. lia.
  - change (2 ^ (- -14)) with 16384.
    apply Z.div_le_upper_bound; [lia|]. lia.
Qed.

Lemma SFcompare_pos_finite (m1 : positive) (e1 : Z) (m2 : positive) (e2 : Z) :
  SFcompare (S754_finite false m1 e1) (S754_finite false m2 e2) =
  Some match e1 ?= e2 with
       | Lt => Lt
       | Gt => Gt
       | Eq => Zpos m1 ?= Zpos m2
       end.
Proof. reflexivity. Qed.

Lemma clamp_cast (v : float) :
  match v with
  | S754_nan => False
  | S754_finite _ m _ => Zpos m < 2 ^ F32.prec
  | _ => True
  end ->
  exists xi, F32.to_u32 (Clamp v F32.zero F32.f1023) = Ok xi /\ 0 <= xi <= 1023 /\
    F32.leb F32.zero (Clamp v F32.zero F32.f1023) = true /\
    F32.leb (Clamp v F32.zero F32.f1023) F32.f1023 = true.
Proof.
  destruct v as [s|s| |s m e]; intros Hv.
  - exists 0. destruct s; vm_compute; repeat split; discriminate.
  - destruct s; [exists 0 | exists 1023]; vm_compute; repeat split; discriminate.
  - contradiction.
  - destruct s.
    + exists 0. vm_compute; repeat split; discriminate.
    + assert (Hcase :
        Clamp (S754_finite false m e) F32.zero F32.f1023 = F32.f1023 \/
        (Clamp (S754_finite false m e) F32.zero F32.f1023 = S754_finite false m e /\
         (e < -14 \/ (e = -14 /\ Zpos m <= 16760832)))).
      { unfold Clamp, Min, Max, F32.gtb, F32.ltb, SFltb, F32.f1023, F32.zero.
        rewrite SFcompare_pos_finite.
        destruct (Z.compare_spec (-14) e) as [He|He|He]; [|left; reflexivity|].
        - destruct (Z.compare_spec 16760832 (Zpos m)) as [Hc|Hc|Hc];
            [right|left; reflexivity|right]; (split; [reflexivity|]); right; split; lia.
        - right. split; [reflexivity|]. left. lia. }
      destruct Hcase as [->|[-> He]].
      * exists 1023. vm_compute; repeat split; discriminate.
      * pose proof (truncate_small m e Hv He) as Ht.
        exists (F32.truncate m e). unfold F32.to_u32.
        assert (Hlt : (F32.truncate m e <? 2 ^ 32) = true) by (apply Z.ltb_lt; lia).
        rewrite Hlt. repeat split; try lia.
        unfold F32.leb, SFleb, F32.f1023. rewrite SFcompare_pos_finite.
        destruct He as [He|[-> Hle]].
        -- assert (Hc : (e ?= -14) = Lt) by (apply Z.compare_lt_iff; lia).
           rewrite Hc. reflexivity.
        -- rewrite Z.compare_refl.
           destruct (Z.compare_spec (Zpos m) 16760832); try reflexivity; lia.
Qed.

Lemma mul_1024_shape (x : float) :
  F32.is_nan x = false ->
  match (x * F32.f1024)%f32 with
  | S754_nan => False
  | S754_finite _ m _ => Zpos m < 2 ^ F32.prec
  | _ => True
  end.
Proof.
  destruct x as [s|s| |s m e]; simpl; intros Hx; try exact I; try discriminate.
  apply binary_round_aux_bound. lia.
Qed.

Lemma bin_range (x : float) :
  F32.is_nan x = false ->
  exists xi, bin x = Ok xi /\ 0 <= xi <= 1023 /\
    F32.leb F32.zero (clamped x) = true /\ F32.leb (clamped x) F32.f1023 = true.
Proof. intros Hx. apply clamp_cast, mul_1024_shape, Hx. Qed.

Lemma In_Zrange (n : nat) : forall lo v, lo <= v < lo + Z.of_nat n -> In v (Zrange lo n).
Proof.
  induction n as [|n IH]; intros lo v Hv; [lia|].
  simpl. destruct (Z.eq_dec lo v) as [->|Hne]; [left; reflexivity|].
  right. apply IH. lia.
Qed.

Lemma Zrange_In (n : nat) : forall lo v, In v (Zrange lo n) -> lo <= v < lo + Z.of_nat n.
Proof.
  induction n as [|n IH]; intros lo v Hv; [contradiction|].
  destruct Hv as [->|Hv]; [lia|]. apply IH in Hv. lia.
Qed.

Lemma Zrange_length (n : nat) lo : length (Zrange lo n) = n.
Proof. revert lo; induction n; intros; simpl; congruence. Qed.


Lemma expand_check_all : forallb expand_check (Zrange 0 1024) = true.
Proof. vm_compute. reflexivity. Qed.

Lemma ExpandBits_spec (v : Z) :
  0 <= v <= 1023 ->
  0 <= ExpandBits v <= 0x09249249 /\
  Z.land (ExpandBits v) 0x09249249 = ExpandBits v /\
  forall i, 0 <= i < 10 ->
    Z.testbit (ExpandBits v) (3 * i) = Z.testbit v i /\
    Z.testbit (ExpandBits v) (3 * i + 1) = false /\
    Z.testbit (ExpandBits v) (3 * i + 2) = false.
Proof.
  intros Hv. pose proof expand_check_all as H.
  rewrite forallb_forall in H. specialize (H v (In_Zrange 1024 0 v ltac:(lia))).
  unfold expand_check in H. rewrite !andb_true_iff in H.
  destruct H as [[[H1 H2] H3] H4].
  apply Z.leb_le in H1, H2. apply Z.eqb_eq in H3.
  repeat split; try assumption.
  all: rewrite forallb_forall in H4; specialize (H4 i (In_Zrange 10 0 i ltac:(lia)));
    rewrite !andb_true_iff, !negb_true_iff in H4; destruct H4 as [[Ha Hb] Hc];
    try assumption; apply Bool.eqb_prop; assumption.
Qed.

Lemma land_disjoint (a b ma mb : Z) :
  Z.land a ma = a -> Z.land b mb = b -> Z.land ma mb = 0 -> Z.land a b = 0.
Proof.
  intros Ha Hb Hm. rewrite <- Ha, <- Hb. apply Z.bits_inj'. intros n Hn.
  assert (Hb0 : Z.testbit ma n && Z.testbit mb n = false)
    by (rewrite <- Z.land_spec, Hm; apply Z.bits_0).
  rewrite !Z.land_spec, Z.bits_0.
  destruct (Z.testbit a n), (Z.testbit b n), (Z.testbit ma n), (Z.testbit mb n);
    simpl in *; congruence.
Qed.

Lemma add_disjoint (a b : Z) : Z.land a b = 0 -> a + b = Z.lor a b.
Proof. intros H. rewrite <- Z.add_lor_land, H. lia. Qed.

Lemma u32_small (z : Z) : 0 <= z < 2 ^ 32 -> u32 z = z.
Proof. intros H. unfold u32. apply Z.mod_small. lia. Qed.

(** No carry: the sums of [Morton3D] are the disjunction of the words. *)
Lemma Morton_sum (xi yi zi : Z) :
  0 <= xi <= 1023 -> 0 <= yi <= 1023 -> 0 <= zi <= 1023 ->
  u32 (u32 (u32 (Z.shiftl (ExpandBits xi) 2) + u32 (Z.shiftl (ExpandBits yi) 1))
       + ExpandBits zi) = interleave xi yi zi /\
  0 <= interleave xi yi zi < 2 ^ 30.
Proof.
  intros Hx Hy Hz.
  destruct (ExpandBits_spec xi Hx) as (Bx & Mx & _).
  destruct (ExpandBits_spec yi Hy) as (By & My & _).
  destruct (ExpandBits_spec zi Hz) as (Bz & Mz & _).
  unfold interleave.
  set (A := Z.shiftl (ExpandBits xi) 2). set (B := Z.shiftl (ExpandBits yi) 1).
  set (C := ExpandBits zi).
  assert (HA : A = ExpandBits xi * 4) by (unfold A; rewrite Z.shiftl_mul_pow2; lia).
  assert (HB : B = ExpandBits yi * 2) by (unfold B; rewrite Z.shiftl_mul_pow2; lia).
  assert (MA : Z.land A (Z.shiftl 0x09249249 2) = A)
    by (unfold A; rewrite <- Z.shiftl_land, Mx; reflexivity).
  assert (MB : Z.land B (Z.shiftl 0x09249249 1) = B)
    by (unfold B; rewrite <- Z.shiftl_land, My; reflexivity).
  assert (AB : Z.land A B = 0) by (apply (land_disjoint _ _ _ _ MA MB); reflexivity).
  assert (AC : Z.land A C = 0) by (apply (land_disjoint _ _ _ _ MA Mz); reflexivity).
  assert (BC : Z.land B C = 0) by (apply (land_disjoint _ _ _ _ MB Mz); reflexivity).
  assert (ABC : Z.land (Z.lor A B) C = 0)
    by (rewrite Z.land_lor_distr_l, AC, BC; reflexivity).
  change (2 ^ 30) with 1073741824. 
  assert (E1 : Z.lor A B = A + B) by (symmetry; apply add_disjoint, AB).
  assert (E2 : Z.lor (Z.lor A B) C = A + B + C)
    by (rewrite <- E1; symmetry; apply add_disjoint, ABC).
  rewrite E2.
  assert (P32 : 2 ^ 32 = 4294967296) by reflexivity.
  rewrite (u32_small A), (u32_small B) by lia.
  rewrite (u32_small (A + B)) by lia.
  rewrite (u32_small (A + B + C)) by (unfold C; lia).
  unfold C; lia.
Qed.

Lemma ExpandBits_gap (v i k : Z) :
  0 <= v <= 1023 -> 0 <= i < 10 -> k = 1 \/ k = 2 ->
  Z.testbit (ExpandBits v) (3 * i - k) = false.
Proof.
  intros Hv Hi Hk. destruct (Z.eq_dec i 0) as [->|Hne].
  - apply Z.testbit_neg_r. lia.
  - destruct (ExpandBits_spec v Hv) as (_ & _ & Hb).
    destruct (Hb (i - 1) ltac:(lia)) as (_ & H1 & H2).
    destruct Hk as [->| ->].
    + replace (3 * i - 1) with (3 * (i - 1) + 2) by lia. exact H2.
    + replace (3 * i - 2) with (3 * (i - 1) + 1) by lia. exact H1.
Qed.

(** Bit [i] of the x, y and z bins is bit [3 i + 2], [3 i + 1] and [3 i]
    of the code. *)
Lemma interleave_bits (xi yi zi i : Z) :
  0 <= xi <= 1023 -> 0 <= yi <= 1023 -> 0 <= zi <= 1023 -> 0 <= i < 10 ->
  Z.testbit (interleave xi yi zi) (3 * i + 2) = Z.testbit xi i /\
  Z.testbit (interleave xi yi zi) (3 * i + 1) = Z.testbit yi i /\
  Z.testbit (interleave xi yi zi) (3 * i) = Z.testbit zi i.
Proof.
  intros Hx Hy Hz Hi. unfold interleave.
  destruct (ExpandBits_spec xi Hx) as (_ & _ & Bx). destruct (Bx i Hi) as (Bx0 & Bx1 & Bx2).
  destruct (ExpandBits_spec yi Hy) as (_ & _ & By). destruct (By i Hi) as (By0 & By1 & By2).
  destruct (ExpandBits_spec zi Hz) as (_ & _ & Bz). destruct (Bz i Hi) as (Bz0 & Bz1 & Bz2).
  rewrite !Z.lor_spec, !Z.shiftl_spec by lia.
  replace (3 * i + 2 - 2) with (3 * i) by lia.
  replace (3 * i + 2 - 1) with (3 * i + 1) by lia.
  replace (3 * i + 1 - 2) with (3 * i - 1) by lia.
  replace (3 * i + 1 - 1) with (3 * i) by lia.
  rewrite Bx0, By0, Bz0, By1, Bz1, Bz2.
  rewrite (ExpandBits_gap xi i 1 Hx Hi), (ExpandBits_gap xi i 2 Hx Hi),
    (ExpandBits_gap yi i 1 Hy Hi) by auto.
  repeat split; destruct (Z.testbit xi i), (Z.testbit yi i), (Z.testbit zi i); reflexivity.
Qed.

Lemma Morton3D_of_bins (x y z : float) (xi yi zi : Z) :
  bin x = Ok xi -> bin y = Ok yi -> bin z = Ok zi ->
  0 <= xi <= 1023 -> 0 <= yi <= 1023 -> 0 <= zi <= 1023 ->
  Morton3D x y z = Ok (interleave xi yi zi).
Proof.
  intros Bx By Bz Hx Hy Hz. unfold Morton3D.
  change (F32.to_u32 (Clamp (x * F32.f1024)%f32 F32.zero F32.f1023)) with (bin x).
  change (F32.to_u32 (Clamp (y * F32.f1024)%f32 F32.zero F32.f1023)) with (bin y).
  change (F32.to_u32 (Clamp (z * F32.f1024)%f32 F32.zero F32.f1023)) with (bin z).
  rewrite Bx, By, Bz. simpl. f_equal. apply Morton_sum; assumption.
Qed.

(** C8, as amended.  For every input [(x, y, z)] without a NaN, [Morton3D]
    clamps each coordinate, multiplied by 1024, to [[0, 1023]] (inputs
    outside the unit cube are clamped, never wrapped), casts it to a bin
    in [0 .. 1023], spreads the bins by [ExpandBits] and combines the words
    exactly as [(xx << 2) | (yy << 1) | zz]: the sums carry nothing, bit
    [i] of the x, y and z bins is bit [3 i + 2], [3 i + 1] and [3 i] of
    the code.  The code is less than [2^30], and points with the same
    bins get the same code. *)
Theorem Morton3D_clamped (x y z : float) :
  F32.is_nan x = false -> F32.is_nan y = false -> F32.is_nan z = false ->
  exists xi yi zi,
    (bin x = Ok xi /\ bin y = Ok yi /\ bin z = Ok zi) /\
    (0 <= xi <= 1023 /\ 0 <= yi <= 1023 /\ 0 <= zi <= 1023) /\
    (F32.leb F32.zero (clamped x) = true /\ F32.leb (clamped x) F32.f1023 = true /\
     F32.leb F32.zero (clamped y) = true /\ F32.leb (clamped y) F32.f1023 = true /\
     F32.leb F32.zero (clamped z) = true /\ F32.leb (clamped z) F32.f1023 = true) /\
    Morton3D x y z = Ok (interleave xi yi zi) /\
    0 <= interleave xi yi zi < 2 ^ 30 /\
    (forall i, 0 <= i < 10 ->
       Z.testbit (interleave xi yi zi) (3 * i + 2) = Z.testbit xi i /\
       Z.testbit (interleave xi yi zi) (3 * i + 1) = Z.testbit yi i /\
       Z.testbit (interleave xi yi zi) (3 * i) = Z.testbit zi i) /\
    (forall x' y' z',
       bin x' = Ok xi -> bin y' = Ok yi -> bin z' = Ok zi ->
       Morton3D x' y' z' = Morton3D x y z).
Proof.
  intros Nx Ny Nz.
  destruct (bin_range x Nx) as (xi & Bx & Hx & Lx & Ux).
  destruct (bin_range y Ny) as (yi & By & Hy & Ly & Uy).
  destruct (bin_range z Nz) as (zi & Bz & Hz & Lz & Uz).
  exists xi, yi, zi.
  pose proof (Morton3D_of_bins x y z xi yi zi Bx By Bz Hx Hy Hz) as HM.
  repeat split; try assumption; try lia; try apply Morton_sum; try assumption.
  1-3: apply interleave_bits; assumption.
  intros x' y' z' Bx' By' Bz'. rewrite HM. apply Morton3D_of_bins; assumption.
Qed.

Lemma Morton3D_clamped_witness :
  exists xi yi zi,
    (bin half = Ok xi /\ bin (fZ 2) = Ok yi /\ bin (SFopp F32.one) = Ok zi) /\
    (0 <= xi <= 1023 /\ 0 <= yi <= 1023 /\ 0 <= zi <= 1023) /\
    (F32.leb F32.zero (clamped half) = true /\ F32.leb (clamped half) F32.f1023 = true /\
     F32.leb F32.zero (clamped (fZ 2)) = true /\ F32.leb (clamped (fZ 2)) F32.f1023 = true /\
     F32.leb F32.zero (clamped (SFopp F32.one)) = true /\
     F32.leb (clamped (SFopp F32.one)) F32.f1023 = true) /\
    Morton3D half (fZ 2) (SFopp F32.one) = Ok (interleave xi yi zi) /\
    0 <= interleave xi yi zi < 2 ^ 30 /\
    (forall i, 0 <= i < 10 ->
       Z.testbit (interleave xi yi zi) (3 * i + 2) = Z.testbit xi i /\
       Z.testbit (interleave xi yi zi) (3 * i + 1) = Z.testbit yi i /\
       Z.testbit (interleave xi yi zi) (3 * i) = Z.testbit zi i) /\
    (forall x' y' z',
       bin x' = Ok xi -> bin y' = Ok yi -> bin z' = Ok zi ->
       Morton3D x' y' z' = Morton3D half (fZ 2) (SFopp F32.one)).
Proof.
  apply (Morton3D_clamped half (fZ 2) (SFopp F32.one)); reflexivity.
Defined.

(** C8, as stated, fails on a NaN coordinate (which [AABB::Normalize]
    produces as 0/0 for a mesh that is flat along an axis): [Min] and
    [Max] let it through, it is not clamped to [[0, 1023]], and the cast
    to [uint32_t] is undefined. *)
Lemma Morton3D_nan :
  clamped S754_nan = S754_nan /\
  F32.leb (clamped S754_nan) F32.f1023 = false /\
  bin S754_nan = Err UndefinedCast /\
  Morton3D S754_nan F32.zero F32.zero = Err UndefinedCast.
Proof. vm_compute. repeat split. Qed.

(** ** intersect *)

Lemma for_range_ind {St} (P : Z -> St -> Prop) (body : Z -> St -> result St) (n : nat) :
  forall (lo : Z) (s s' : St),
  for_range lo n body s = Ok s' ->
  P lo s ->
  (forall i s0 s1, lo <= i < lo + Z.of_nat n -> P i s0 -> body i s0 = Ok s1 -> P (i + 1) s1) ->
  P (lo + Z.of_nat n) s'.
Proof.
  induction n as [|n IH]; intros lo s s' Hrun H0 Hstep.
  - simpl in Hrun. injection Hrun as <-. rewrite Z.add_0_r. exact H0.
  - simpl in Hrun. inv_bind Hrun.
    replace (lo + Z.of_nat (S n)) with (lo + 1 + Z.of_nat n) by lia.
    apply (IH (lo + 1) a s' Hrun).
    + apply (Hstep lo s a); [lia | exact H0 | exact Ha].
    + intros i s0 s1 Hi. apply Hstep. lia.
Qed.

Lemma nth_error_write {A} (l : list A) : forall (i j : nat) (a : A),
  nth_error (write l i a) j =
  if Nat.eqb j i then (if Nat.ltb i (length l) then Some a else None) else nth_error l j.
Proof.
  induction l as [|b l IH]; intros i j a.
  - simpl. destruct (Nat.eqb j i); destruct j; reflexivity.
  - destruct i as [|i], j as [|j]; simpl; try reflexivity.
    rewrite IH. destruct (Nat.eqb j i); [|reflexivity].
    change (Nat.ltb (S i) (S (length l))) with (Nat.ltb i (length l)). reflexivity.
Qed.

Lemma length_write {A} (l : list A) : forall (i : nat) (a : A), length (write l i a) = length l.
Proof.
  induction l as [|b l IH]; intros [|i] a; simpl; try reflexivity. rewrite IH. reflexivity.
Qed.

Lemma intersect_ray_invalid fuel gLBVH ind (r : Ray.t) :
  Ray.valid r = false -> intersect_ray fuel gLBVH ind r = Ok (Ray.set_isisect r false).
Proof. intros H. unfold intersect_ray. rewrite H. reflexivity. Qed.

Lemma intersect_ray_frame fuel gLBVH ind (r r' : Ray.t) :
  intersect_ray fuel gLBVH ind r = Ok r' -> ray_frame r r'.
Proof.
  unfold intersect_ray, ray_frame. intros H.
  destruct (Ray.valid r) eqn:Hv; cbn [negb] in H.
  - inv_bind H. destruct (HitRecord.hit a) eqn:Hhit.
    + inv_bind H. inv_bind H. injection H as <-. cbn.
      repeat split; congruence.
    + injection H as <-. cbn. repeat split; congruence.
  - injection H as <-. cbn. repeat split; congruence.
Qed.

(** C9.  After [intersect] on [rayCount] descriptors, a descriptor with
    [valid == false] has [isisect = false] and is otherwise as before; in
    every descriptor [pos], [dir], [tnear], [tfar] and [valid] are as
    before, and [isect] and [ns] are as before unless [isisect] is set. *)
Theorem intersect_frame fuel gLBVH ind (rays rays' : list Ray.t) (rayCount : Z) (hitAny : bool) :
  intersect fuel gLBVH ind (Some rays) rayCount hitAny = Ok (Some rays') ->
  length rays' = length rays /\
  forall (i : nat) (r : Ray.t),
    nth_error rays i = Some r ->
    exists r', nth_error rays' i = Some r' /\
      ray_frame r r' /\
      (Z.of_nat i < rayCount -> Ray.valid r = false -> r' = Ray.set_isisect r false).
Proof.
  intros Hrun. unfold intersect in Hrun.
  set (P := fun (k : Z) (st : option (list Ray.t)) =>
    exists l, st = Some l /\ length l = length rays /\
      forall (i : nat) (r : Ray.t), nth_error rays i = Some r ->
        exists r', nth_error l i = Some r' /\
          if Z.of_nat i <? k then intersect_ray fuel gLBVH ind r = Ok r' else r' = r).
  assert (HP : P (0 + Z.of_nat (Z.to_nat rayCount)) (Some rays')).
  { apply (for_range_ind P _ _ _ _ _ Hrun).
    - exists rays. repeat split. intros i r Hi. exists r. split; [exact Hi|].
      destruct (Z.ltb_spec (Z.of_nat i) 0); [lia | reflexivity].
    - intros i s0 s1 Hi (l & -> & Hlen & Hl) Hbody.
      inv_bind Hbody. inv_bind Hbody. injection Hbody as <-. simpl.
      exists (write l (Z.to_nat i) a0). split; [reflexivity|].
      split; [rewrite length_write; exact Hlen|].
      unfold read in Ha. destruct (Z.ltb_spec i 0) as [|Hi0]; [lia|].
      destruct (nth_error l (Z.to_nat i)) as [ri|] eqn:Hri; [|discriminate].
      injection Ha as ->.
      intros j r Hj. destruct (Hl j r Hj) as (r' & Hr' & Hrel).
      rewrite nth_error_write.
      destruct (Nat.eqb_spec j (Z.to_nat i)) as [->|Hne].
      + assert (Hlt : Nat.ltb (Z.to_nat i) (length l) = true).
        { apply Nat.ltb_lt. apply nth_error_Some. congruence. }
        rewrite Hlt. exists a0. split; [reflexivity|].
        rewrite Z2Nat.id in Hrel |- * by lia.
        rewrite Z.ltb_irrefl in Hrel.
        assert (Hi1 : (i <? i + 1) = true) by (apply Z.ltb_lt; lia). rewrite Hi1.
        subst r'. rewrite Hr' in Hri. injection Hri as ->. exact Ha0.
      + exists r'. split; [exact Hr'|].
        destruct (Z.ltb_spec (Z.of_nat j) i) as [Hji|Hji].
        * assert (Hj1 : (Z.of_nat j <? i + 1) = true) by (apply Z.ltb_lt; lia).
          rewrite Hj1. exact Hrel.
        * assert (Hj1 : (Z.of_nat j <? i + 1) = false) by (apply Z.ltb_ge; lia).
          rewrite Hj1. exact Hrel. }
  destruct HP as (l & [= <-] & Hlen & Hl). split; [exact Hlen|].
  intros i r Hi. destruct (Hl i r Hi) as (r' & Hr' & Hrel).
  exists r'. split; [exact Hr'|].
  destruct (Z.ltb_spec (Z.of_nat i) (0 + Z.of_nat (Z.to_nat rayCount))) as [Hlt|Hge].
  - split; [apply (intersect_ray_frame _ _ _ _ _ Hrel)|].
    intros _ Hv. rewrite (intersect_ray_invalid _ _ _ _ Hv) in Hrel. congruence.
  - subst r'. split; [unfold ray_frame; repeat split|]. intros Hlt. lia.
Qed.

(** The invalid ray only loses its [isisect]; the valid one is a hit. *)
Lemma intersect_frame_witness :
  length edge_rays_after = length edge_rays /\
  forall (i : nat) (r : Ray.t),
    nth_error edge_rays i = Some r ->
    exists r', nth_error edge_rays_after i = Some r' /\
      ray_frame r r' /\
      (Z.of_nat i < 2 -> Ray.valid r = false -> r' = Ray.set_isisect r false).
Proof.
  apply (intersect_frame 2 edge_bvh (fresh_record F32.zero) edge_rays edge_rays_after 2 false).
  vm_compute. reflexivity.
Defined.

(** ** What the code does on the inputs it does not guard against *)

(** C4.  [preprocess] has no guard.  With [faceCount == 0] it builds all
    the same: [T - 1] wraps, [Nodes] is resized to [2^32 - 1] entries and
    [Root] stays [kInvalid]; [intersect] on a valid ray then indexes
    [Nodes[0xFFFFFFFF]], out of its bounds, where the claim says it reports
    a miss.  With a null [vertices] (and a vertex count that is not zero)
    or a null [indices], [Build] reads through the null pointer; with a
    null [normals] it builds the tree, and [intersect] reads through the
    null pointer at the first hit. *)
Theorem preprocess_unguarded :
  (exists g,
     preprocess in_order sort_leaves 1 LBVH.init
       (Some single_vertices) 3 (Some edge_normals) 1 (Some single_indices) 0 = Ok g /\
     LBVH.Root g = kInvalid /\ vsize (LBVH.Nodes g) = 4294967295 /\
     intersect_ray 1 g (fresh_record F32.zero) single_desc = Err OutOfBounds) /\
  preprocess in_order sort_leaves 1 LBVH.init
    None 3 (Some edge_normals) 1 (Some single_indices) 1 = Err NullPointer /\
  preprocess in_order sort_leaves 2 LBVH.init
    (Some edge_vertices) 4 (Some edge_normals) 1 None 2 = Err NullPointer /\
  (exists g,
     preprocess in_order sort_leaves 2 LBVH.init
       (Some edge_vertices) 4 None 0 (Some edge_indices) 2 = Ok g /\
     intersect_ray 2 g (fresh_record F32.zero) edge_desc = Err NullPointer).
Proof.
  split; [|split; [vm_compute; reflexivity|split; [vm_compute; reflexivity|]]].
  - eexists. split; [vm_compute; reflexivity|]. vm_compute. repeat split.
  - eexists. split; [vm_compute; reflexivity|]. vm_compute. reflexivity.
Qed.

(** C6.  For a mesh of one triangle [Build] leaves [Nodes] empty and sets
    [Root = 0]; [TraverseIterative] then reads [Nodes[0]], out of bounds,
    and never tests the triangle, which the ray does intersect. *)
Theorem single_triangle_out_of_bounds :
  exists g,
    preprocess in_order sort_leaves 1 LBVH.init
      (Some single_vertices) 3 (Some edge_normals) 1 (Some single_indices) 1 = Ok g /\
    LBVH.Root g = 0 /\ vsize (LBVH.Nodes g) = 0 /\
    LBVH.TraverseIterative 1 g single_ray (fresh_record f10) = Err OutOfBounds /\
    brute_force g single_ray (fresh_record f10) 1
    = Ok (HitRecord.mk true (F32.of_dyadic 3 (-2)) quarter quarter 0).
Proof.
  eexists. split; [vm_compute; reflexivity|]. vm_compute. repeat split.
Qed.

(** C2.  The boxes are merged after a translation by [-box.mini] and moved
    back at the end; both steps round.  On [sliver_input] the root's box
    ends with [maxi.x = 0], and does not contain the box of triangle 0,
    which reaches [x = 2^-25]. *)
Theorem sliver_box_excludes_triangle :
  exists g tbox,
    preprocess in_order sort_leaves 2 LBVH.init
      (Some sliver_vertices) 6 (Some edge_normals) 1 (Some sliver_indices) 2 = Ok g /\
    LBVH.Root g = 0 /\
    Node.L (vat (LBVH.Nodes g) 0) = 3 /\ Node.R (vat (LBVH.Nodes g) 0) = 1 /\
    triangle_box g 0 = Ok tbox /\
    Vector3f.x (AABB.maxi tbox) = tiny /\
    Vector3f.x (AABB.maxi (Node.Box (vat (LBVH.Nodes g) 0))) = F32.zero /\
    AABB.contains (Node.Box (vat (LBVH.Nodes g) 0)) tbox = false.
Proof.
  eexists. eexists. split; [vm_compute; reflexivity|].
  split; [vm_compute; reflexivity|].
  split; [vm_compute; reflexivity|].
  split; [vm_compute; reflexivity|].
  split; [vm_compute; reflexivity|].
  vm_compute. repeat split.
Qed.

(** The ray that meets triangle 0 of [sliver_input] beyond the root's box
    is a hit for the brute-force loop and a miss for the traversal. *)
Lemma traversal_misses_sliver :
  exists g,
    preprocess in_order sort_leaves 2 LBVH.init
      (Some sliver_vertices) 6 (Some edge_normals) 1 (Some sliver_indices) 2 = Ok g /\
    LBVH.TraverseIterative 2 g sliver_ray (fresh_record f10) = Ok (fresh_record f10) /\
    brute_force g sliver_ray (fresh_record f10) 2
    = Ok (HitRecord.mk true half half half 0).
Proof.
  eexists. split; [vm_compute; reflexivity|]. vm_compute. repeat split.
Qed.

(** When two triangles are met at the same distance, the later call
    displaces the earlier one, and the traversal tests the triangles in
    the order of the tree, not of their indices.  On [edge_input] the ray
    through the shared edge ends on triangle 0 for the traversal and on
    triangle 1 for the brute-force loop. *)
Lemma traversal_differs_on_tie :
  exists g,
    preprocess in_order sort_leaves 2 LBVH.init
      (Some edge_vertices) 4 (Some edge_normals) 1 (Some edge_indices) 2 = Ok g /\
    LBVH.TraverseIterative 2 g edge_ray (fresh_record f10)
    = Ok (HitRecord.mk true F32.one half F32.zero 0) /\
    brute_force g edge_ray (fresh_record f10) 2
    = Ok (HitRecord.mk true F32.one half half 1) /\
    LBVH.TraverseIterative 2 g edge_ray (fresh_record f10)
    <> brute_force g edge_ray (fresh_record f10) 2.
Proof.
  eexists. split; [vm_compute; reflexivity|].
  split; [vm_compute; reflexivity|]. split; [vm_compute; reflexivity|].
  vm_compute. discriminate.
Qed.

(** The first scenario of the specification, one triangle in the plane
    [z = 0]: [Normalize] divides 0 by 0 and [Morton3D] casts a NaN. *)
Lemma flat_mesh_undefined :
  preprocess in_order sort_leaves 1 LBVH.init
    (Some (map fZ [0;0;0; 1;0;0; 0;1;0])) 3 (Some edge_normals) 1 (Some single_indices) 1
  = Err UndefinedCast.
Proof. vm_compute. reflexivity. Qed.

(** ** Vectors and the leaf table *)

Lemma lookup_cons {A} (l : list (Z * A)) (i j : Z) (a : A) :
  lookup ((i, a) :: l) j = if i =? j then Some a else lookup l j.
Proof. reflexivity. Qed.

Lemma vat_vset {A} (v : vec A) (i j : Z) (a : A) :
  vat (vset v i a) j = if i =? j then a else vat v j.
Proof. unfold vat, vset. simpl. destruct (i =? j); reflexivity. Qed.

Lemma vat_vset_same {A} (v : vec A) (i : Z) (a : A) : vat (vset v i a) i = a.
Proof. rewrite vat_vset, Z.eqb_refl. reflexivity. Qed.

Lemma vat_vset_other {A} (v : vec A) (i j : Z) (a : A) : i <> j -> vat (vset v i a) j = vat v j.
Proof. intros H. rewrite vat_vset. destruct (Z.eqb_spec i j); [contradiction | reflexivity]. Qed.

Lemma vsize_vset {A} (v : vec A) (i : Z) (a : A) : vsize (vset v i a) = vsize v.
Proof. reflexivity. Qed.

Lemma vec_get_in {A} (v : vec A) (i : Z) : 0 <= i < vsize v -> vec_get v i = Ok (vat v i).
Proof.
  intros H. unfold vec_get, in_bounds.
  destruct (Z.leb_spec 0 i); [|lia]. destruct (Z.ltb_spec i (vsize v)); [|lia]. reflexivity.
Qed.

Lemma vec_set_in {A} (v : vec A) (i : Z) (a : A) :
  0 <= i < vsize v -> vec_set v i a = Ok (vset v i a).
Proof.
  intros H. unfold vec_set, in_bounds.
  destruct (Z.leb_spec 0 i); [|lia]. destruct (Z.ltb_spec i (vsize v)); [|lia]. reflexivity.
Qed.

Lemma lookup_map {A B} (f : A -> B) (l : list (Z * A)) (i : Z) :
  lookup (map (fun e => (fst e, f (snd e))) l) i = option_map f (lookup l i).
Proof.
  induction l as [|[k a] l IH]; simpl; [reflexivity|]. destruct (k =? i); [reflexivity | exact IH].
Qed.

Lemma vat_vec_map {A B} (f : A -> B) (v : vec A) (i : Z) : vat (vec_map f v) i = f (vat v i).
Proof. unfold vat, vec_map. simpl. rewrite lookup_map. destruct (lookup _ i); reflexivity. Qed.

Lemma read_in {A} (l : list A) (i : Z) (d : A) :
  0 <= i < Z.of_nat (length l) -> read (Some l) i = Ok (nth (Z.to_nat i) l d).
Proof.
  intros H. unfold read. destruct (Z.ltb_spec i 0); [lia|].
  destruct (nth_error l (Z.to_nat i)) as [a|] eqn:E.
  - rewrite (nth_error_nth _ _ d E). reflexivity.
  - apply nth_error_None in E. lia.
Qed.

Lemma leaf_at_in (leaves : list Vector2u.t) (i : Z) :
  0 <= i < Z.of_nat (length leaves) -> LBVH.leaf_at leaves i = Ok (leaf leaves i).
Proof. intros H. apply read_in, H. Qed.

Lemma Delta_in (leaves : list Vector2u.t) (i : Z) :
  0 <= i -> i + 1 < Z.of_nat (length leaves) -> Z.of_nat (length leaves) < 2 ^ 32 ->
  LBVH.Delta leaves i = Ok (delta leaves i).
Proof.
  intros H0 H1 H2. unfold LBVH.Delta. rewrite u32_small by lia.
  rewrite !leaf_at_in by lia. reflexivity.
Qed.

(** ** The relations only look at the children of the nodes they cover *)

Lemma subtree_frame leaves (nodes nodes' : vec Node.t) (child lo hi : Z) :
  subtree leaves nodes child lo hi ->
  (forall q, lo <= q < hi ->
     Node.L (vat nodes' q) = Node.L (vat nodes q) /\
     Node.R (vat nodes' q) = Node.R (vat nodes q)) ->
  subtree leaves nodes' child lo hi.
Proof.
  induction 1 as [i Hi|p lo hi Hlo Hhi HL IHL HR IHR Hw Hs]; intros Hsame.
  - apply subtree_leaf, Hi.
  - apply subtree_node; try assumption.
    + destruct (Hsame p ltac:(lia)) as [-> _]. apply IHL. intros q Hq. apply Hsame. lia.
    + destruct (Hsame p ltac:(lia)) as [_ ->]. apply IHR. intros q Hq. apply Hsame. lia.
Qed.

Lemma subtree_range leaves nodes child lo hi :
  subtree leaves nodes child lo hi -> 0 <= lo <= hi /\ hi < Z.of_nat (length leaves).
Proof. induction 1; lia. Qed.

Lemma forest_frame leaves (nodes nodes' : vec Node.t) (other other' : vec Z) (k : Z) :
  forest leaves nodes other k ->
  (forall q, 0 <= q < k ->
     Node.L (vat nodes' q) = Node.L (vat nodes q) /\
     Node.R (vat nodes' q) = Node.R (vat nodes q) /\
     vat other' q = vat other q) ->
  forest leaves nodes' other' k.
Proof.
  induction 1 as [|a b Hf IH Hab Hb Ho Hsub Hw Hs]; intros Hsame.
  - apply forest_nil.
  - apply forest_cons with (a := a); try assumption.
    + apply IH. intros q Hq. apply Hsame. lia.
    + destruct (Hsame b ltac:(lia)) as (_ & _ & ->). exact Ho.
    + destruct (Hsame b ltac:(lia)) as (-> & _ & _).
      apply (subtree_frame _ _ _ _ _ _ Hsub). intros q Hq.
      destruct (Hsame q ltac:(lia)) as (H1 & H2 & _). split; assumption.
Qed.

Lemma forest_range leaves nodes other k : forest leaves nodes other k -> 0 <= k.
Proof. induction 1; lia. Qed.

Lemma forest_inv leaves nodes other (p : Z) :
  forest leaves nodes other (p + 1) -> 0 <= p ->
  exists a,
    forest leaves nodes other a /\ 0 <= a <= p /\ p < Z.of_nat (length leaves) - 1 /\
    vat other p = a /\
    subtree leaves nodes (Node.L (vat nodes p)) a p /\
    (forall q, a <= q < p -> delta leaves q <= delta leaves p) /\
    (0 < a -> delta leaves p < delta leaves (a - 1)).
Proof.
  intros H Hp. inversion H as [H0|a b Hf Hab Hb Ho Hsub Hw Hs Heq]; [lia|].
  assert (b = p) by lia. subst b. exists a. repeat split; try assumption; lia.
Qed.

(** ** The climbs *)

Section Climb.

Variable race : schedule.
Variable leaves : list Vector2u.t.
Let T := Z.of_nat (length leaves).
Let N := T - 1.
Hypothesis HT : 2 <= T < 2 ^ 31.
Hypothesis Htri : forall i, 0 <= i < T -> 0 <= tri leaves i < T.

Lemma index_leaf (i : Z) :
  0 <= i < T -> u32 (u32 (Z.shiftl (tri leaves i) 1) + 1) = 2 * tri leaves i + 1.
Proof.
  intros Hi. pose proof (Htri i Hi) as Ht.
  rewrite Z.shiftl_mul_pow2 by lia. change (2 ^ 1) with 2.
  assert (P31 : 2 ^ 31 = 2147483648) by reflexivity.
  assert (P32 : 2 ^ 32 = 4294967296) by reflexivity.
  rewrite (u32_small (tri leaves i * 2)) by lia. rewrite u32_small by lia. lia.
Qed.

Lemma index_node (p : Z) : 0 <= p < N -> u32 (Z.shiftl p 1) = 2 * p.
Proof.
  intros Hp. rewrite Z.shiftl_mul_pow2 by lia. change (2 ^ 1) with 2.
  assert (P31 : 2 ^ 31 = 2147483648) by reflexivity.
  assert (P32 : 2 ^ 32 = 4294967296) by reflexivity.
  rewrite u32_small by (unfold N in Hp; lia). lia.
Qed.

Lemma climb_S fuel st current L R aabb is_leaf :
  LBVH.climb race (S fuel) leaves N st current L R aabb is_leaf =
  if (0 =? L) && (R =? N)
  then Ok (LBVH.mk_state current (LBVH.st_Nodes st) (LBVH.st_other st) (LBVH.st_first st))
  else
    index <-
      (if is_leaf
       then lf <- LBVH.leaf_at leaves current ;;
            Ok (u32 (u32 (Z.shiftl (Vector2u.x lf) 1) + 1))
       else Ok (u32 (Z.shiftl current 1))) ;;
    to_right <-
      (if 0 =? L then Ok true
       else if negb (R =? N)
            then dR <- LBVH.Delta leaves R ;; dL <- LBVH.Delta leaves (u32 (L - 1)) ;;
                 Ok (dR <? dL)
            else Ok false) ;;
    '(parent, previous, L', R', nodes1, other1) <-
      (if to_right : bool
       then
         let parent := R in
         previous <- vec_get (LBVH.st_other st) parent ;;
         other1 <- vec_set (LBVH.st_other st) parent L ;;
         let R' := if negb (kInvalid =? previous) then previous else R in
         node <- vec_get (LBVH.st_Nodes st) parent ;;
         nodes1 <- vec_set (LBVH.st_Nodes st) parent (Node.set_L node index) ;;
         Ok (parent, previous, L, R', nodes1, other1)
       else
         let parent := u32 (L - 1) in
         previous <- vec_get (LBVH.st_other st) parent ;;
         other1 <- vec_set (LBVH.st_other st) parent R ;;
         let L' := if negb (kInvalid =? previous) then previous else L in
         node <- vec_get (LBVH.st_Nodes st) parent ;;
         nodes1 <- vec_set (LBVH.st_Nodes st) parent (Node.set_R node index) ;;
         Ok (parent, previous, L', R, nodes1, other1)) ;;
    node <- vec_get nodes1 parent ;;
    if kInvalid =? previous
    then
      nodes2 <- vec_set nodes1 parent
                  (Node.set_Box node (AABB.Merge (Node.Box node) aabb)) ;;
      first1 <- vec_set (LBVH.st_first st) parent (Node.Box node, aabb) ;;
      Ok (LBVH.mk_state (LBVH.st_Root st) nodes2 other1 first1)
    else
      '(old, first) <- vec_get (LBVH.st_first st) parent ;;
      let '(kept, seen) := Race.Merge (race parent) old first aabb in
      nodes2 <- vec_set nodes1 parent (Node.set_Box node kept) ;;
      LBVH.climb race fuel leaves N
        (LBVH.mk_state (LBVH.st_Root st) nodes2 other1 (LBVH.st_first st))
        parent L' R' seen false.
Proof. reflexivity. Qed.

(** The tagged index of [current] roots the tree over [L .. i]. *)
Lemma current_subtree st current L i is_leaf :
  climb_inv leaves st current L i is_leaf ->
  exists index,
    (if is_leaf
     then lf <- LBVH.leaf_at leaves current ;;
          Ok (u32 (u32 (Z.shiftl (Vector2u.x lf) 1) + 1))
     else Ok (u32 (Z.shiftl current 1))) = Ok index /\
    subtree leaves (LBVH.st_Nodes st) index L i.
Proof.
  intros [_ _ Hr _ Hc _ _ _]. destruct is_leaf.
  - destruct Hc as [-> ->]. exists (2 * tri leaves i + 1).
    rewrite leaf_at_in by (fold T; unfold N in Hr; lia). cbn [bind].
    change (Vector2u.x (leaf leaves i)) with (tri leaves i).
    rewrite index_leaf by (unfold N in Hr; lia).
    split; [reflexivity|]. apply subtree_leaf. fold T. unfold N in Hr. lia.
  - destruct Hc as (Hc & HL & Hs). exists (2 * current).
    rewrite index_node by assumption. split; [reflexivity | exact Hs].
Qed.

Lemma climb_spec (i : Z) : forall fuel st current L aabb is_leaf,
  climb_inv leaves st current L i is_leaf ->
  match LBVH.climb race fuel leaves N st current L i aabb is_leaf with
  | Ok st' => climbed leaves st' (i + 1) /\ (i < N -> LBVH.st_Root st' = LBVH.st_Root st)
  | Err e => e = OutOfFuel /\ Z.of_nat fuel <= L
  end.
Proof.
  induction fuel as [|fuel IH]; intros st current L aabb is_leaf Hinv.
  - simpl. split; [reflexivity|]. destruct Hinv. lia.
  - rewrite climb_S.
    destruct (current_subtree _ _ _ _ _ Hinv) as (index & -> & Hsub).
    pose proof Hinv as [Hn Ho Hr Hf Hc Hs Hw Hfr].
    assert (HN : 1 <= N < 2 ^ 31) by (unfold N; lia).
    destruct ((0 =? L) && (i =? N)) eqn:Edone.
    + apply andb_true_iff in Edone. destruct Edone as [EL Ei].
      apply Z.eqb_eq in EL, Ei. subst L i.
      destruct is_leaf; [lia|]. destruct Hc as (Hc & _ & Hc').
      split; [|lia]. unfold climbed.
      cbn [LBVH.st_Nodes LBVH.st_other LBVH.st_Root LBVH.st_first].
      repeat split; try assumption; try lia.
    + cbn [bind].
      match goal with |- context [bind _ ?k] => set (K := k) end.
      assert (HR : i < N -> (0 < L -> delta leaves i < delta leaves (L - 1)) ->
                   match K true with
                   | Ok st' => climbed leaves st' (i + 1) /\
                               (i < N -> LBVH.st_Root st' = LBVH.st_Root st)
                   | Err e => e = OutOfFuel /\ Z.of_nat (S fuel) <= L
                   end).
      { intros Hi Hd. unfold K.
        rewrite (vec_get_in (LBVH.st_other st) i) by lia. cbn [bind].
        rewrite (vec_set_in (LBVH.st_other st) i) by lia. cbn [bind].
        rewrite (vec_get_in (LBVH.st_Nodes st) i) by lia. cbn [bind].
        rewrite (vec_set_in (LBVH.st_Nodes st) i) by lia. cbn [bind].
        rewrite (Hfr i) by lia. cbn [negb].
        rewrite vec_get_in by (rewrite vsize_vset; lia). cbn [bind].
        rewrite Z.eqb_refl.
        rewrite vec_set_in by (rewrite vsize_vset; lia). cbn [bind].
        rewrite (vec_set_in (LBVH.st_first st) i) by lia. cbn [bind].
        split; [|reflexivity]. unfold climbed.
        cbn [LBVH.st_Nodes LBVH.st_other LBVH.st_Root LBVH.st_first].
        rewrite !vsize_vset. split; [exact Hn|]. split; [exact Ho|].
        split; [|intros; lia]. intros _. split.
        - apply forest_cons with (a := L).
          + apply (forest_frame _ _ _ _ _ _ Hf). intros q Hq.
            rewrite !vat_vset_other by lia. repeat split.
          + lia.
          + fold T. fold N. lia.
          + apply vat_vset_same.
          + rewrite !vat_vset_same. cbn [Node.L Node.set_Box Node.set_L].
            apply (subtree_frame _ _ _ _ _ _ Hsub). intros q Hq.
            rewrite !vat_vset_other by lia. split; reflexivity.
          + apply Hw, Hi.
          + exact Hd.
        - intros q Hq. rewrite vat_vset_other by lia. apply Hfr. lia. }
      assert (HL : 0 < L -> (i = N \/ delta leaves (L - 1) <= delta leaves i) ->
                   match K false with
                   | Ok st' => climbed leaves st' (i + 1) /\
                               (i < N -> LBVH.st_Root st' = LBVH.st_Root st)
                   | Err e => e = OutOfFuel /\ Z.of_nat (S fuel) <= L
                   end).
      { intros HL0 Hd. unfold K.
        assert (P32 : 2 ^ 32 = 4294967296) by reflexivity.
        assert (P31 : 2 ^ 31 = 2147483648) by reflexivity.
        rewrite (u32_small (L - 1)) by lia.
        replace L with (L - 1 + 1) in Hf by lia.
        destruct (forest_inv _ _ _ _ Hf ltac:(lia)) as (a & Hfa & Ha & Hp & Hoa & Hsa & Hwa & Hstr).
        fold T in Hp. fold N in Hp.
        rewrite (vec_get_in (LBVH.st_other st) (L - 1)) by lia. cbn [bind].
        rewrite (vec_set_in (LBVH.st_other st) (L - 1)) by lia. cbn [bind].
        rewrite (vec_get_in (LBVH.st_Nodes st) (L - 1)) by lia. cbn [bind].
        rewrite (vec_set_in (LBVH.st_Nodes st) (L - 1)) by lia. cbn [bind].
        rewrite Hoa.
        assert (Hka : (kInvalid =? a) = false) by (apply Z.eqb_neq; unfold kInvalid; lia).
        rewrite Hka. cbn [negb].
        rewrite vec_get_in by (rewrite vsize_vset; lia). cbn [bind].
        rewrite (vec_get_in (LBVH.st_first st) (L - 1)) by lia. cbn [bind].
        destruct (vat (LBVH.st_first st) (L - 1)) as [old first].
        destruct (Race.Merge (race (L - 1)) old first aabb) as [kept seen].
        rewrite vec_set_in by (rewrite vsize_vset; lia). cbn [bind].
        match goal with |- context [LBVH.climb race fuel leaves N ?s ?c ?l ?r ?bx false] =>
          specialize (IH s c l bx false) end.
        match type of IH with ?P -> _ => assert (Hinv' : P) end.
        { constructor; cbn [LBVH.st_Nodes LBVH.st_other LBVH.st_Root LBVH.st_first];
            rewrite ?vsize_vset; try assumption.
          - lia.
          - apply (forest_frame _ _ _ _ _ _ Hfa). intros q Hq.
            rewrite !vat_vset_other by lia. repeat split.
          - split; [lia|]. split; [lia|].
            apply subtree_node.
            + lia.
            + fold T. fold N. lia.
            + rewrite !vat_vset_same. cbn [Node.L Node.set_Box Node.set_R].
              apply (subtree_frame _ _ _ _ _ _ Hsa). intros q Hq.
              rewrite !vat_vset_other by lia. split; reflexivity.
            + rewrite !vat_vset_same. cbn [Node.R Node.set_Box Node.set_R].
              replace (L - 1 + 1) with L by lia.
              apply (subtree_frame _ _ _ _ _ _ Hsub). intros q Hq.
              rewrite !vat_vset_other by lia. split; reflexivity.
            + exact Hwa.
            + intros q Hq. apply Hs; lia.
          - intros q Hq Ha0. specialize (Hstr Ha0).
            destruct (Z.lt_trichotomy q (L - 1)) as [Hlt|[->|Hgt]].
            + specialize (Hwa q ltac:(lia)). lia.
            + exact Hstr.
            + specialize (Hs q ltac:(lia) HL0). lia.
          - intros Hi q Hq. destruct Hd as [Hd|Hd]; [lia|].
            destruct (Z.lt_trichotomy q (L - 1)) as [Hlt|[->|Hgt]].
            + specialize (Hwa q ltac:(lia)). lia.
            + exact Hd.
            + apply Hw; lia.
          - intros q Hq. rewrite vat_vset_other by lia. apply Hfr. lia. }
        specialize (IH Hinv').
        destruct (LBVH.climb race fuel leaves N _ _ _ _ _ false) as [st'|e].
        - exact IH.
        - destruct IH as [-> Hfu]. split; [reflexivity|]. lia. }
      destruct (Z.eqb_spec 0 L) as [EL|EL].
      * cbn [bind]. apply HR; [|lia].
        apply andb_false_iff in Edone.
        destruct Edone as [E|E]; try discriminate; apply Z.eqb_neq in E; lia.
      * destruct (Z.eqb_spec i N) as [Ei|Ei]; cbn [negb].
        -- cbn [bind]. apply HL; [lia | left; exact Ei].
        -- assert (P32 : 2 ^ 32 = 4294967296) by reflexivity.
           assert (P31 : 2 ^ 31 = 2147483648) by reflexivity.
           rewrite (u32_small (L - 1)) by lia.
           rewrite !Delta_in by (fold T; unfold N in *; lia). cbn [bind].
           destruct (Z.ltb_spec (delta leaves i) (delta leaves (L - 1))) as [Hd|Hd].
           ++ apply HR; [lia | intros _; exact Hd].
           ++ apply HL; [lia | right; exact Hd].
Qed.

End Climb.

(** ** The leaf table *)

Lemma mapM_Ok {A B} (f : A -> result B) (l : list A) : forall bs,
  mapM f l = Ok bs -> Forall2 (fun a b => f a = Ok b) l bs.
Proof.
  induction l as [|a l IH]; intros bs H; simpl in H.
  - injection H as <-. constructor.
  - inv_bind H. inv_bind H. injection H as <-. constructor; [assumption | apply IH; assumption].
Qed.

Lemma make_leaf_inv (b : LBVH.t) (box : AABB.t) (i : Z) (lf : Vector2u.t) :
  LBVH.make_leaf b box i = Ok lf ->
  Vector2u.x lf = i /\ exists c, LBVH.corners b (u32 (i * 3)) = Ok c.
Proof.
  unfold LBVH.make_leaf. intros H. inv_bind H. destruct a as [[p0 p1] p2].
  inv_bind H. injection H as <-. split; [reflexivity | eauto].
Qed.

Lemma Morton3D_u32 (x y z : float) (m : Z) : Morton3D x y z = Ok m -> 0 <= m < 2 ^ 32.
Proof.
  unfold Morton3D. intros H. inv_bind H. inv_bind H. inv_bind H. injection H as <-.
  unfold u32. apply Z.mod_pos_bound. reflexivity.
Qed.

Lemma make_leaf_key (b : LBVH.t) (box : AABB.t) (i : Z) (lf : Vector2u.t) :
  LBVH.make_leaf b box i = Ok lf -> 0 <= Vector2u.y lf < 2 ^ 32.
Proof.
  unfold LBVH.make_leaf. intros H. inv_bind H. destruct a as [[p0 p1] p2].
  inv_bind H. injection H as <-. simpl. eapply Morton3D_u32; eassumption.
Qed.

Lemma make_leaves_spec (b : LBVH.t) (box : AABB.t) (n : nat) (leaves : list Vector2u.t) :
  LBVH.make_leaves b box (Z.of_nat n) = Ok leaves ->
  map Vector2u.x leaves = Zrange 0 n /\
  Forall (fun lf => 0 <= Vector2u.y lf < 2 ^ 32) leaves /\
  forall f, 0 <= f < Z.of_nat n -> exists c, LBVH.corners b (u32 (f * 3)) = Ok c.
Proof.
  unfold LBVH.make_leaves. rewrite Nat2Z.id. intros H. apply mapM_Ok in H.
  assert (G : forall (l : list Z) (ls : list Vector2u.t),
            Forall2 (fun a lf => LBVH.make_leaf b box a = Ok lf) l ls ->
            map Vector2u.x ls = l /\
            Forall (fun lf => 0 <= Vector2u.y lf < 2 ^ 32) ls /\
            forall f, In f l -> exists c, LBVH.corners b (u32 (f * 3)) = Ok c).
  { induction 1 as [|a lf l ls Ha Hl IH].
    - repeat split; [constructor | intros f []].
    - destruct IH as (IH1 & IH2 & IH3).
      destruct (make_leaf_inv _ _ _ _ Ha) as (Hx & Hc).
      repeat split.
      + simpl. rewrite Hx, IH1. reflexivity.
      + constructor; [eapply make_leaf_key; eassumption | exact IH2].
      + intros f [<-|Hf]; [exact Hc | apply IH3, Hf]. }
  destruct (G _ _ H) as (G1 & G2 & G3). repeat split; try assumption.
  intros f Hf. apply G3. apply In_Zrange. lia.
Qed.

Lemma leaf_aabb_ok (b : LBVH.t) (box : AABB.t) (f : Z) :
  (exists c, LBVH.corners b (u32 (f * 3)) = Ok c) ->
  exists bx, LBVH.leaf_aabb b box f = Ok bx.
Proof.
  intros [[[p0 p1] p2] Hc]. unfold LBVH.leaf_aabb. rewrite Hc. cbn [bind]. eauto.
Qed.

Lemma nth_In_leaf (leaves : list Vector2u.t) (i : Z) :
  0 <= i < Z.of_nat (length leaves) -> In (leaf leaves i) leaves.
Proof. intros H. apply nth_In. lia. Qed.

(** The triangles of a permuted table are [0 .. T-1]. *)
Lemma tri_range (leaves : list Vector2u.t) :
  Permutation (map Vector2u.x leaves) (Zrange 0 (length leaves)) ->
  forall i, 0 <= i < Z.of_nat (length leaves) ->
    0 <= tri leaves i < Z.of_nat (length leaves).
Proof.
  intros HP i Hi.
  assert (Hin : In (tri leaves i) (map Vector2u.x leaves))
    by (unfold tri; apply in_map, nth_In_leaf, Hi).
  apply (Permutation_in _ HP) in Hin. apply Zrange_In in Hin. lia.
Qed.

Lemma sorted_leaves_of (leaves : list Vector2u.t) :
  StronglySorted (fun a b => Vector2u.y a <= Vector2u.y b) leaves -> sorted_leaves leaves.
Proof.
  intros HS. unfold sorted_leaves, key, leaf.
  induction HS as [|a l HS IH Ha]; intros i j Hij Hj.
  - simpl in Hj. lia.
  - destruct (Z.eq_dec i j) as [->|Hne]; [lia|].
    assert (Hj0 : Z.to_nat j = S (Z.to_nat (j - 1))) by lia.
    rewrite Hj0. cbn [nth].
    destruct (Z.eq_dec i 0) as [->|Hi0].
    + cbn [Z.to_nat nth]. rewrite Forall_forall in Ha. apply Ha. apply nth_In.
      simpl length in Hj. lia.
    + assert (Hi1 : Z.to_nat i = S (Z.to_nat (i - 1))) by lia.
      rewrite Hi1. cbn [nth]. apply IH; simpl length in Hj; lia.
Qed.

Lemma key_range (leaves : list Vector2u.t) :
  Forall (fun lf => 0 <= Vector2u.y lf < 2 ^ 32) leaves ->
  forall i, 0 <= i < Z.of_nat (length leaves) -> 0 <= key leaves i < 2 ^ 32.
Proof.
  intros HF i Hi. rewrite Forall_forall in HF. apply HF, nth_In_leaf, Hi.
Qed.

(** ** Build *)

Lemma climbs_spec (race : schedule) (leaves : list Vector2u.t) (fuel : nat) (b : LBVH.t)
  (box : AABB.t) :
  let T := Z.of_nat (length leaves) in
  2 <= T < 2 ^ 31 ->
  (forall i, 0 <= i < T -> 0 <= tri leaves i < T) ->
  (forall f, 0 <= f < T -> exists c, LBVH.corners b (u32 (f * 3)) = Ok c) ->
  forall (n : nat) (k : Z) (st : LBVH.build_state),
    0 <= k -> k + Z.of_nat n = T ->
    climbed leaves st k ->
    match for_range k n (LBVH.climb_leaf race fuel b box leaves (T - 1)) st with
    | Ok st' => climbed leaves st' T
    | Err e => e = OutOfFuel /\ Z.of_nat fuel < T
    end.
Proof.
  intros T HT Htri Hread. induction n as [|n IH]; intros k st Hk0 Hk Hst.
  - cbn [for_range]. replace T with k by lia. exact Hst.
  - cbn [for_range]. unfold LBVH.climb_leaf at 1.
    rewrite leaf_at_in by (fold T; lia). cbn [bind].
    change (Vector2u.x (leaf leaves k)) with (tri leaves k).
    destruct (leaf_aabb_ok b box (tri leaves k)) as [bx Hbx].
    { apply Hread, Htri. lia. }
    rewrite Hbx. cbn [bind].
    assert (Hinv : climb_inv leaves st k k k true).
    { destruct Hst as (Hn & Ho & Hf & _). destruct Hf as [Hf Hfr]; [fold T; lia|].
      constructor; try assumption; try (fold T; lia); try (intros; lia). }
    pose proof (climb_spec race leaves HT Htri k fuel st k k bx true Hinv) as Hc.
    fold T in Hc.
    destruct (LBVH.climb race fuel leaves (T - 1) st k k k bx true) as [st'|e].
    + cbn [bind]. apply IH; [lia | lia | apply Hc].
    + cbn [bind]. destruct Hc as [-> Hc]. split; [reflexivity | lia].
Qed.

Lemma corners_same (g b : LBVH.t) (id : Z) :
  LBVH.Positions g = LBVH.Positions b -> LBVH.Indices g = LBVH.Indices b ->
  LBVH.corners g id = LBVH.corners b id.
Proof.
  intros HP HI. unfold LBVH.corners, LBVH.corner, LBVH.Indices_P, LBVH.Positions_at.
  rewrite HP, HI. reflexivity.
Qed.

Lemma vsize_vec_map {A B} (f : A -> B) (v : vec A) : vsize (vec_map f v) = vsize v.
Proof. reflexivity. Qed.

Lemma vat_vec_make {A} (n : Z) (d : A) (i : Z) : vat (vec_make n d) i = d.
Proof. reflexivity. Qed.

Lemma Zrange_map_length (leaves0 leaves : list Vector2u.t) (n : nat) :
  map Vector2u.x leaves0 = Zrange 0 n -> Permutation leaves0 leaves ->
  length leaves = n /\ Permutation (map Vector2u.x leaves) (Zrange 0 (length leaves)).
Proof.
  intros Hm HP.
  assert (Hlen : length leaves = n).
  { rewrite <- (Permutation_length HP), <- (length_map Vector2u.x), Hm. apply Zrange_length. }
  split; [exact Hlen|]. rewrite Hlen, <- Hm. apply Permutation_map, Permutation_sym, HP.
Qed.

(** [Build] ends, given fuel for [T] turns per climb, unless reading the
    mesh or casting a Morton coordinate is undefined; what it leaves is
    well formed. *)
Lemma Build_spec (race : schedule) (sort : list Vector2u.t -> list Vector2u.t)
  (fuel : nat) (b : LBVH.t) :
  sorts sort ->
  let T := u32 (u64 (LBVH.IndexCount b) / 3) in
  2 <= T < 2 ^ 31 ->
  match LBVH.Build race sort fuel b with
  | Ok g =>
      exists box leaves0,
        LBVH.global_box b = Ok box /\ LBVH.make_leaves b box T = Ok leaves0 /\
        length leaves0 = Z.to_nat T /\
        well_formed (sort leaves0) g /\
        LBVH.Positions g = LBVH.Positions b /\ LBVH.Normals g = LBVH.Normals b /\
        LBVH.Indices g = LBVH.Indices b
  | Err e =>
      LBVH.global_box b = Err e \/
      (exists box, LBVH.global_box b = Ok box /\ LBVH.make_leaves b box T = Err e) \/
      (e = OutOfFuel /\ Z.of_nat fuel < T)
  end.
Proof.
  intros Hsort T HT. unfold LBVH.Build. fold T.
  destruct (LBVH.global_box b) as [box|e]; cbn [bind]; [|left; reflexivity].
  destruct (LBVH.make_leaves b box T) as [leaves0|e] eqn:Hml; cbn [bind];
    [|right; left; eauto].
  destruct (Hsort leaves0) as [Hperm Hsorted].
  set (leaves := sort leaves0) in *.
  assert (HTn : T = Z.of_nat (Z.to_nat T)) by lia.
  rewrite HTn in Hml. destruct (make_leaves_spec _ _ _ _ Hml) as (Hx & Hkeys & Hread).
  rewrite <- HTn in Hml, Hread.
  destruct (Zrange_map_length _ _ _ Hx Hperm) as [Hlen HPx].
  assert (HlenT : Z.of_nat (length leaves) = T) by lia.
  assert (P32 : 2 ^ 32 = 4294967296) by reflexivity.
  assert (P31 : 2 ^ 31 = 2147483648) by reflexivity.
  rewrite (u32_small (T - 1)) by lia.
  pose proof (tri_range leaves HPx) as Htri.
  pose proof (climbs_spec race leaves fuel b box ltac:(lia) Htri
                ltac:(rewrite HlenT; exact Hread) (Z.to_nat T) 0
                (LBVH.mk_state (LBVH.Root b) (vec_resize (LBVH.Nodes b) (T - 1))
                   (vec_make (T - 1) kInvalid)
                   (vec_make (T - 1) (AABB.Clear, AABB.Clear))) ltac:(lia) ltac:(lia)) as Hc.
  rewrite HlenT in Hc.
  match type of Hc with ?P -> _ => assert (H0 : P) end.
  { unfold climbed. cbn [LBVH.st_Nodes LBVH.st_other LBVH.st_Root LBVH.st_first].
    rewrite HlenT. repeat split; try reflexivity; try lia.
    apply forest_nil. }
  specialize (Hc H0).
  destruct (for_range 0 (Z.to_nat T) _ _) as [st|e]; cbn [bind].
  - exists box, leaves0. split; [reflexivity|]. split; [exact Hml|].
    split; [rewrite (Permutation_length Hperm); exact Hlen|].
    split; [|repeat split].
    destruct Hc as (Hn & Ho & _ & Hroot). rewrite HlenT in *.
    destruct (Hroot ltac:(lia)) as [Hr Hsub].
    unfold well_formed. cbv zeta. cbn [LBVH.Nodes LBVH.Root]. fold leaves.
    rewrite HlenT.
    assert (Hkr : forall i, 0 <= i < T -> 0 <= key leaves i < 2 ^ 32).
    { intros i Hi. apply key_range; [|lia].
      rewrite Forall_forall in *. intros lf Hlf. apply Hkeys.
      apply (Permutation_in _ (Permutation_sym Hperm)), Hlf. }
    split; [lia|]. split; [rewrite vsize_vec_map; exact Hn|]. split; [exact Hr|].
    split.
    { apply (subtree_frame _ _ _ _ _ _ Hsub). intros q Hq.
      rewrite vat_vec_map. split; reflexivity. }
    split; [exact HPx|]. split; [apply sorted_leaves_of, Hsorted|].
    split; [exact Hkr|].
    intros f Hf. rewrite (corners_same _ b) by reflexivity. apply Hread. lia.
  - right; right. exact Hc.
Qed.

(** ** Sorted codes: the bits of the deltas *)

Lemma lxor_lt_pow2 (x y n : Z) :
  0 <= x -> 0 <= y -> 0 <= n -> (Z.lxor x y < 2 ^ n <-> x / 2 ^ n = y / 2 ^ n).
Proof.
  intros Hx Hy Hn.
  assert (Hl : 0 <= Z.lxor x y) by (apply Z.lxor_nonneg; tauto).
  rewrite <- !Z.shiftr_div_pow2 by assumption. split; intros H.
  - apply Z.lxor_eq. rewrite <- Z.shiftr_lxor.
    rewrite Z.shiftr_div_pow2 by assumption. apply Z.div_small. lia.
  - assert (H0 : Z.shiftr (Z.lxor x y) n = 0)
      by (rewrite Z.shiftr_lxor, H; apply Z.lxor_nilpotent).
    rewrite Z.shiftr_div_pow2 in H0 by assumption.
    apply Z.div_small_iff in H0; [|apply Z.pow_nonzero; lia].
    destruct H0 as [H0|H0]; [lia|]. 
    assert (0 < 2 ^ n) by (apply Z.pow_pos_nonneg; lia). lia.
Qed.

Lemma bitlen_nonneg (z : Z) : 0 <= bitlen z.
Proof. apply Z.log2_up_nonneg. Qed.

Lemma bitlen_le (z n : Z) : 0 <= z -> (bitlen z <= n <-> z < 2 ^ n).
Proof.
  intros Hz. unfold bitlen. rewrite <- Z.log2_up_le_pow2 by lia. lia.
Qed.

Lemma two_jumps (a p p1 s s1 h : Z) :
  a <= p -> p <= p1 -> p <> p1 -> p1 <= s -> s <= s1 -> s <> s1 -> s1 <= h ->
  a / 2 = h / 2 -> False.
Proof. intros. Z.div_mod_to_equations. lia. Qed.

Section SortedBits.

Variable leaves : list Vector2u.t.
Hypothesis Hsorted : sorted_leaves leaves.
Hypothesis Hkeys : forall i, 0 <= i < Z.of_nat (length leaves) -> 0 <= key leaves i < 2 ^ 32.

Lemma delta_nonneg (q : Z) :
  0 <= q -> q + 1 < Z.of_nat (length leaves) -> 0 <= delta leaves q.
Proof.
  intros H0 H1. apply Z.lxor_nonneg.
  pose proof (Hkeys q ltac:(lia)). pose proof (Hkeys (q + 1) ltac:(lia)). lia.
Qed.

Lemma prefix_mono (i j n : Z) :
  0 <= i <= j -> j < Z.of_nat (length leaves) -> 0 <= n ->
  key leaves i / 2 ^ n <= key leaves j / 2 ^ n.
Proof.
  intros Hij Hj Hn. apply Z.div_le_mono; [apply Z.pow_pos_nonneg; lia|].
  apply Hsorted; assumption.
Qed.

(** Between two leaves the codes differ in no higher bit than the two do. *)
Lemma spread_mono (lo a b hi : Z) :
  0 <= lo <= a -> a <= b -> b <= hi -> hi < Z.of_nat (length leaves) ->
  spread leaves a b <= spread leaves lo hi.
Proof.
  intros H1 H2 H3 H4. unfold spread.
  pose proof (Hkeys lo ltac:(lia)) as Klo. pose proof (Hkeys hi ltac:(lia)) as Khi.
  pose proof (Hkeys a ltac:(lia)) as Ka. pose proof (Hkeys b ltac:(lia)) as Kb.
  set (n := bitlen (Z.lxor (key leaves lo) (key leaves hi))).
  assert (Hn : 0 <= n) by apply bitlen_nonneg.
  assert (Hl : 0 <= Z.lxor (key leaves lo) (key leaves hi)) by (apply Z.lxor_nonneg; lia).
  assert (Hp : key leaves lo / 2 ^ n = key leaves hi / 2 ^ n).
  { apply lxor_lt_pow2; try lia. apply bitlen_le; [exact Hl | unfold n; lia]. }
  apply bitlen_le; [apply Z.lxor_nonneg; lia|].
  apply lxor_lt_pow2; try lia.
  pose proof (prefix_mono lo a n ltac:(lia) ltac:(lia) Hn).
  pose proof (prefix_mono a b n ltac:(lia) ltac:(lia) Hn).
  pose proof (prefix_mono b hi n ltac:(lia) ltac:(lia) Hn). lia.
Qed.

Lemma spread_le_32 (lo hi : Z) :
  0 <= lo -> lo <= hi -> hi < Z.of_nat (length leaves) -> spread leaves lo hi <= 32.
Proof.
  intros H1 H2 H3. unfold spread.
  pose proof (Hkeys lo ltac:(lia)) as Klo. pose proof (Hkeys hi ltac:(lia)) as Khi.
  apply bitlen_le; [apply Z.lxor_nonneg; lia|].
  apply lxor_lt_pow2; try lia. rewrite !Z.div_small by lia. reflexivity.
Qed.

(** Somewhere between two leaves whose prefixes differ, two neighbours differ. *)
Lemma prefix_jump (n lo : Z) (m : nat) :
  key leaves lo / 2 ^ n <> key leaves (lo + Z.of_nat m) / 2 ^ n ->
  exists s, lo <= s < lo + Z.of_nat m /\
            key leaves s / 2 ^ n <> key leaves (s + 1) / 2 ^ n.
Proof.
  induction m as [|m IH]; intros H.
  - exfalso. apply H. f_equal. f_equal. lia.
  - destruct (Z.eq_dec (key leaves lo / 2 ^ n) (key leaves (lo + Z.of_nat m) / 2 ^ n))
      as [E|E].
    + exists (lo + Z.of_nat m). split; [lia|]. rewrite <- E.
      replace (lo + Z.of_nat m + 1) with (lo + Z.of_nat (S m)) by lia. exact H.
    + destruct (IH E) as (s & Hs & Hj). exists s. split; [lia | exact Hj].
Qed.

(** When the right child of node [p] is a node, the codes below it agree
    on one more bit than the codes below [p]. *)
Lemma spread_right (lo p hi : Z) :
  0 <= lo <= p -> p + 1 < hi -> hi < Z.of_nat (length leaves) ->
  (forall q, lo <= q < p -> delta leaves q <= delta leaves p) ->
  (forall q, p < q < hi -> delta leaves q < delta leaves p) ->
  spread leaves (p + 1) hi + 1 <= spread leaves lo hi.
Proof.
  intros Hlo Hp Hhi Hw Hs.
  pose proof (spread_mono lo (p + 1) hi hi ltac:(lia) ltac:(lia) ltac:(lia) Hhi) as Hle.
  destruct (Z.eq_dec (spread leaves (p + 1) hi) (spread leaves lo hi)) as [E|E]; [|lia].
  exfalso. unfold spread in *.
  pose proof (Hkeys lo ltac:(lia)) as Klo. pose proof (Hkeys hi ltac:(lia)) as Khi.
  pose proof (Hkeys p ltac:(lia)) as Kp. pose proof (Hkeys (p + 1) ltac:(lia)) as Kp1.
  set (n := bitlen (Z.lxor (key leaves lo) (key leaves hi))) in *.
  assert (Hn0 : 0 <= n) by apply bitlen_nonneg.
  assert (Hdp : 0 < delta leaves p).
  { pose proof (Hs (p + 1) ltac:(lia)). pose proof (delta_nonneg (p + 1) ltac:(lia) ltac:(lia)).
    lia. }
  (* the prefixes of length n agree on the whole range *)
  assert (Hpre : key leaves lo / 2 ^ n = key leaves hi / 2 ^ n).
  { apply lxor_lt_pow2; try lia. apply bitlen_le; [apply Z.lxor_nonneg; lia | unfold n; lia]. }
  (* n is positive, since leaves p and p + 1 differ *)
  assert (Hn : 0 < n).
  { destruct (Z.eq_dec n 0) as [En|En]; [|lia]. exfalso.
    rewrite En in Hpre. change (2 ^ 0) with 1 in Hpre. rewrite !Z.div_1_r in Hpre.
    pose proof (Hsorted lo p ltac:(lia) ltac:(lia)).
    pose proof (Hsorted p (p + 1) ltac:(lia) ltac:(lia)).
    pose proof (Hsorted (p + 1) hi ltac:(lia) ltac:(lia)).
    assert (Ek : key leaves (p + 1) = key leaves p) by lia.
    unfold delta in Hdp. rewrite Ek, Z.lxor_nilpotent in Hdp. lia. }
  set (b := n - 1).
  assert (Hjump : key leaves (p + 1) / 2 ^ b <> key leaves hi / 2 ^ b).
  { intros Eq. apply lxor_lt_pow2 in Eq; try lia.
    apply bitlen_le in Eq; [|apply Z.lxor_nonneg; lia]. lia. }
  replace hi with (p + 1 + Z.of_nat (Z.to_nat (hi - (p + 1)))) in Hjump by lia.
  destruct (prefix_jump b (p + 1) _ Hjump) as (s & Hs1 & Hs2).
  assert (Hds : 2 ^ b <= delta leaves s).
  { destruct (Z.lt_ge_cases (delta leaves s) (2 ^ b)) as [Hlt|]; [|assumption].
    exfalso. apply Hs2. symmetry.
    pose proof (Hkeys s ltac:(lia)). pose proof (Hkeys (s + 1) ltac:(lia)).
    apply lxor_lt_pow2; try lia. exact Hlt. }
  assert (Hdp2 : key leaves p / 2 ^ b <> key leaves (p + 1) / 2 ^ b).
  { intros Eq. symmetry in Eq. apply lxor_lt_pow2 in Eq; try lia.
    pose proof (Hs s ltac:(lia)). unfold delta in *. lia. }
  pose proof (prefix_mono lo p b ltac:(lia) ltac:(lia) ltac:(lia)).
  pose proof (prefix_mono p (p + 1) b ltac:(lia) ltac:(lia) ltac:(lia)).
  pose proof (prefix_mono (p + 1) s b ltac:(lia) ltac:(lia) ltac:(lia)).
  pose proof (prefix_mono s (s + 1) b ltac:(lia) ltac:(lia) ltac:(lia)).
  pose proof (prefix_mono (s + 1) hi b ltac:(lia) ltac:(lia) ltac:(lia)).
  assert (Hdiv : forall x, x / 2 ^ n = x / 2 ^ b / 2).
  { intros x. rewrite Z.div_div by (try apply Z.pow_pos_nonneg; lia).
    f_equal. replace n with (b + 1) by (unfold b; lia).
    rewrite Z.pow_add_r by lia. reflexivity. }
  rewrite (Hdiv (key leaves lo)), (Hdiv (key leaves hi)) in Hpre.
  apply (two_jumps _ _ _ _ _ _ H H0 Hdp2 H1 H2 Hs2 H3 Hpre).
Qed.

End SortedBits.

(** ** TraverseIterative on a well-formed tree *)

Lemma test_faces_app (b : LBVH.t) (ray : s3d_Ray.t) (fs1 fs2 : list Z) :
  forall rec rec1,
    test_faces b ray fs1 rec = Ok rec1 ->
    test_faces b ray (fs1 ++ fs2) rec = test_faces b ray fs2 rec1.
Proof.
  induction fs1 as [|f fs1 IH]; intros rec rec1 H; simpl in *.
  - injection H as ->. reflexivity.
  - inv_bind H. rewrite Ha. cbn [bind]. apply IH, H.
Qed.

Lemma IsHit_ok (b : LBVH.t) (ray : s3d_Ray.t) (rec : HitRecord.t) (f : Z) :
  (exists c, LBVH.corners b (u32 (f * 3)) = Ok c) ->
  exists rec', LBVH.IsHit b ray rec f = Ok rec'.
Proof.
  intros [[[p0 p1] p2] Hc]. unfold LBVH.IsHit. rewrite Hc. cbn [bind].
  destruct (IntersectTriangle _ _ _ _ _ _ _ _ _ _) as [[] [[d u] v]]; eauto.
Qed.

Lemma land_odd (x : Z) : Z.land (2 * x + 1) 1 = 1.
Proof.
  change 1 with (Z.ones 1) at 2. rewrite Z.land_ones by lia.
  change (2 ^ 1) with 2. rewrite Z.add_comm, Z.mul_comm, Z.mod_add by lia. reflexivity.
Qed.

Lemma land_even (x : Z) : Z.land (2 * x) 1 = 0.
Proof.
  change 1 with (Z.ones 1). rewrite Z.land_ones by lia.
  change (2 ^ 1) with 2. rewrite Z.mul_comm, Z.mod_mul by lia. reflexivity.
Qed.

Lemma shiftr_odd (x : Z) : Z.shiftr (2 * x + 1) 1 = x.
Proof.
  rewrite Z.shiftr_div_pow2 by lia. change (2 ^ 1) with 2.
  symmetry. apply Z.div_unique with (r := 1); lia.
Qed.

Lemma shiftr_even (x : Z) : Z.shiftr (2 * x) 1 = x.
Proof.
  rewrite Z.shiftr_div_pow2 by lia. change (2 ^ 1) with 2.
  symmetry. apply Z.div_unique with (r := 0); lia.
Qed.

Lemma traverse_loop_S (fuel : nat) (b : LBVH.t) (ray : s3d_Ray.t)
  (idx : Z) (stack : list Z) (record : HitRecord.t) :
  LBVH.traverse_loop (S fuel) b ray (idx :: stack) record =
  node <- vec_get (LBVH.Nodes b) idx ;;
  if negb (AABB.Intersect (Node.Box node) (s3d_Ray.pos ray) (s3d_Ray.inv_dir ray)
             (HitRecord.dist record))
  then LBVH.traverse_loop fuel b ray stack record
  else
    rs <- LBVH.visit_child b ray (Node.L node) (record, stack) ;;
    rs <- LBVH.visit_child b ray (Node.R node) rs ;;
    LBVH.traverse_loop fuel b ray (snd rs) (fst rs).
Proof. reflexivity. Qed.

Lemma traverse_loop_nil (fuel : nat) (b : LBVH.t) (ray : s3d_Ray.t) (record : HitRecord.t) :
  LBVH.traverse_loop fuel b ray [] record = Ok record.
Proof. destruct fuel; reflexivity. Qed.

Section Traverse.

Variable leaves : list Vector2u.t.
Variable g : LBVH.t.
Variable ray : s3d_Ray.t.
Hypothesis Hwf : well_formed leaves g.

Lemma visit_spec (child lo hi : Z) :
  subtree leaves (LBVH.Nodes g) child lo hi ->
  forall (rec : HitRecord.t) (st : list Z),
    (lo < hi -> Z.of_nat (length st) < 64) ->
    exists rec1,
      LBVH.visit_child g ray child (rec, st) = Ok (rec1, child_stack child lo hi ++ st) /\
      test_faces g ray (map (tri leaves) (child_leaf lo hi)) rec = Ok rec1.
Proof.
  destruct Hwf as (HT & _ & _ & _ & HP & _ & _ & Hread).
  intros Hsub rec st Hst. unfold LBVH.visit_child, child_stack, child_leaf.
  destruct Hsub as [i Hi|p lo hi Hlo Hhi HL HR Hw Hs].
  - rewrite land_odd, shiftr_odd, Z.ltb_irrefl. cbn [negb Z.eqb fst snd].
    pose proof (tri_range leaves HP i Hi) as Ht.
    destruct (IsHit_ok g ray rec (tri leaves i) (Hread _ Ht)) as [rec1 H1].
    exists rec1. rewrite H1. cbn [bind map test_faces app]. rewrite H1.
    split; reflexivity.
  - rewrite land_even, shiftr_even. cbn [negb Z.eqb fst snd].
    assert (Hlt : (lo <? hi) = true) by (apply Z.ltb_lt; lia). rewrite Hlt.
    unfold LBVH.push.
    assert (H64 : (Z.of_nat (length st) <? 64) = true) by (apply Z.ltb_lt, Hst; lia).
    rewrite H64. cbn [bind]. exists rec. split; reflexivity.
Qed.

Lemma drain_spec (child lo hi : Z) :
  subtree leaves (LBVH.Nodes g) child lo hi ->
  forall (rest : list Z) (rec : HitRecord.t),
    (lo < hi -> Z.of_nat (length rest) + 1 + spread leaves lo hi <= 64) ->
    exists (k : nat) (ps : list Z) (rec' : HitRecord.t),
      Z.of_nat k <= hi - lo /\
      NoDup (child_leaf lo hi ++ ps) /\
      (forall j, In j (child_leaf lo hi ++ ps) -> lo <= j <= hi) /\
      test_faces g ray (map (tri leaves) ps) rec = Ok rec' /\
      (forall fuel,
         LBVH.traverse_loop (k + fuel) g ray (child_stack child lo hi ++ rest) rec
         = LBVH.traverse_loop fuel g ray rest rec') /\
      (forall fuel, (fuel < k)%nat ->
         LBVH.traverse_loop fuel g ray (child_stack child lo hi ++ rest) rec
         = Err OutOfFuel).
Proof.
  destruct Hwf as (HT & Hsize & _ & _ & HP & Hsorted & Hkeys & Hread).
  induction 1 as [i Hi|p lo hi Hlo Hhi HL IHL HR IHR Hw Hs]; intros rest rec Hbound.
  - exists O, [], rec. unfold child_stack, child_leaf. rewrite Z.ltb_irrefl.
    cbn [app map test_faces]. repeat split; try lia.
    + constructor; [intros [] | constructor].
    + destruct H as [<-|[]]. lia.
    + destruct H as [<-|[]]. lia.
  - assert (Hlt : (lo <? hi) = true) by (apply Z.ltb_lt; lia).
    unfold child_stack at 1 2, child_leaf at 1 2. rewrite Hlt, shiftr_even.
    cbn [app].
    specialize (Hbound ltac:(lia)).
    assert (Hsp0 : 0 <= spread leaves lo hi) by apply bitlen_nonneg.
    assert (HspL : spread leaves lo p <= spread leaves lo hi)
      by (apply spread_mono; try assumption; lia).
    assert (HspR : spread leaves (p + 1) hi <= spread leaves lo hi)
      by (apply spread_mono; try assumption; lia).
    assert (HspR' : p + 1 < hi -> spread leaves (p + 1) hi + 1 <= spread leaves lo hi)
      by (intros; apply spread_right; try assumption; lia).
    assert (HspR0 : 0 <= spread leaves (p + 1) hi) by apply bitlen_nonneg.
    destruct (AABB.Intersect (Node.Box (vat (LBVH.Nodes g) p)) (s3d_Ray.pos ray)
                (s3d_Ray.inv_dir ray) (HitRecord.dist rec)) eqn:Ebox.
    + (* the box is hit: both children are visited *)
      destruct (visit_spec _ _ _ HL rec rest ltac:(lia)) as (rec1 & HvL & HtL).
      assert (HlenL : Z.of_nat (length (child_stack (Node.L (vat (LBVH.Nodes g) p)) lo p)) <= 1)
        by (unfold child_stack; destruct (lo <? p); simpl; lia).
      destruct (visit_spec _ _ _ HR rec1
                  (child_stack (Node.L (vat (LBVH.Nodes g) p)) lo p ++ rest))
        as (rec2 & HvR & HtR).
      { intros Hr. rewrite length_app, Nat2Z.inj_add. specialize (HspR' Hr). lia. }
      destruct (IHR (child_stack (Node.L (vat (LBVH.Nodes g) p)) lo p ++ rest) rec2)
        as (kR & psR & recR & HkR & HndR & HinR & HfR & HrunR & HoutR).
      { intros Hr. rewrite length_app, Nat2Z.inj_add. specialize (HspR' Hr). lia. }
      destruct (IHL rest recR) as (kL & psL & recL & HkL & HndL & HinL & HfL & HrunL & HoutL).
      { intros Hl. lia. }
      exists (S (kR + kL)),
        (child_leaf lo p ++ child_leaf (p + 1) hi ++ psR ++ psL), recL.
      split; [lia|]. split; [|split; [|split; [|split]]].
      * apply (Permutation_NoDup
                 (l := (child_leaf lo p ++ psL) ++ (child_leaf (p + 1) hi ++ psR))).
        { rewrite <- !app_assoc. apply Permutation_app_head.
          rewrite (Permutation_app_comm psL). rewrite <- !app_assoc. reflexivity. }
        apply NoDup_app; try assumption.
        intros a Ha Ha'. apply HinL in Ha. apply HinR in Ha'. lia.
      * intros j Hj. rewrite !in_app_iff in Hj.
        assert (Hj' : In j (child_leaf lo p ++ psL) \/ In j (child_leaf (p + 1) hi ++ psR))
          by (rewrite !in_app_iff; tauto).
        destruct Hj' as [Hj'|Hj']; [apply HinL in Hj' | apply HinR in Hj']; lia.
      * rewrite !map_app.
        rewrite (test_faces_app _ _ _ _ _ _ HtL), (test_faces_app _ _ _ _ _ _ HtR),
          (test_faces_app _ _ _ _ _ _ HfR). exact HfL.
      * intros fuel. cbn [Nat.add]. rewrite traverse_loop_S.
        rewrite vec_get_in by lia. cbn [bind]. rewrite Ebox. cbn [negb].
        rewrite HvL. cbn [bind]. rewrite HvR. cbn [bind fst snd].
        rewrite <- Nat.add_assoc, HrunR. apply HrunL.
      * intros fuel Hfuel. destruct fuel as [|fuel]; [reflexivity|].
        rewrite traverse_loop_S.
        rewrite vec_get_in by lia. cbn [bind]. rewrite Ebox. cbn [negb].
        rewrite HvL. cbn [bind]. rewrite HvR. cbn [bind fst snd].
        destruct (Nat.lt_ge_cases fuel kR) as [Hlt'|Hge].
        { apply HoutR, Hlt'. }
        replace fuel with (kR + (fuel - kR))%nat by lia.
        rewrite HrunR. apply HoutL. lia.
    + (* the box is missed *)
      exists 1%nat, [], rec. cbn [app map test_faces].
      split; [lia|]. split; [constructor|]. split; [intros j []|].
      split; [reflexivity|]. split.
      * intros fuel. cbn [Nat.add]. rewrite traverse_loop_S.
        rewrite vec_get_in by lia. cbn [bind]. rewrite Ebox. reflexivity.
      * intros fuel Hfuel. assert (fuel = O) by lia. subst fuel. reflexivity.
Qed.

End Traverse.

(** ** The traversal of what [Build] made *)

Lemma NoDup_map_on {A B} (f : A -> B) (l : list A) :
  (forall a b, In a l -> In b l -> f a = f b -> a = b) ->
  NoDup l -> NoDup (map f l).
Proof.
  intros Hinj Hnd. induction Hnd as [|a l Ha Hnd IH]; simpl; constructor.
  - intros Hin. apply in_map_iff in Hin. destruct Hin as (b & Hb & Hbl).
    assert (b = a) by (apply Hinj; simpl; auto). subst b. contradiction.
  - apply IH. intros x y Hx Hy. apply Hinj; simpl; auto.
Qed.

Lemma NoDup_Zrange (n : nat) : forall lo, NoDup (Zrange lo n).
Proof.
  induction n as [|n IH]; intros lo; simpl; constructor; [|apply IH].
  intros Hin. apply Zrange_In in Hin. lia.
Qed.

Lemma tri_injective (leaves : list Vector2u.t) :
  Permutation (map Vector2u.x leaves) (Zrange 0 (length leaves)) ->
  forall i j, 0 <= i < Z.of_nat (length leaves) -> 0 <= j < Z.of_nat (length leaves) ->
    tri leaves i = tri leaves j -> i = j.
Proof.
  intros HP i j Hi Hj E.
  assert (Hnd : NoDup (map Vector2u.x leaves)).
  { apply (Permutation_NoDup (Permutation_sym HP)), NoDup_Zrange. }
  unfold tri, leaf in E.
  rewrite <- !(map_nth Vector2u.x) in E.
  apply (proj1 (NoDup_nth _ _) Hnd) in E; rewrite ?length_map; lia.
Qed.

(** On a well-formed tree the traversal ends: it returns what [IsHit]
    gives on a list of distinct triangles, once it has fuel for the nodes
    it pops, and never needs more than 64 stack entries. *)
Lemma Traverse_spec (leaves : list Vector2u.t) (g : LBVH.t) (ray : s3d_Ray.t)
  (record : HitRecord.t) :
  well_formed leaves g ->
  exists (k : nat) (faces : list Z) (record' : HitRecord.t),
    Z.of_nat k < Z.of_nat (length leaves) /\
    NoDup faces /\
    (forall f, In f faces -> 0 <= f < Z.of_nat (length leaves)) /\
    test_faces g ray faces record = Ok record' /\
    (forall fuel, (k <= fuel)%nat -> LBVH.TraverseIterative fuel g ray record = Ok record') /\
    (forall fuel, (fuel < k)%nat -> LBVH.TraverseIterative fuel g ray record = Err OutOfFuel).
Proof.
  intros Hwf. pose proof Hwf as (HT & Hsize & Hroot & Hsub & HP & Hsorted & Hkeys & Hread).
  destruct (drain_spec leaves g ray Hwf _ _ _ Hsub [] record)
    as (k & ps & record' & Hk & Hnd & Hin & Hf & Hrun & Hout).
  { intros _. pose proof (spread_le_32 leaves Hkeys 0 (Z.of_nat (length leaves) - 1)
                            ltac:(lia) ltac:(lia) ltac:(lia)). simpl length. lia. }
  assert (Hlt : (0 <? Z.of_nat (length leaves) - 1) = true) by (apply Z.ltb_lt; lia).
  unfold child_stack, child_leaf in *. rewrite Hlt, shiftr_even in *. cbn [app] in *.
  exists k, (map (tri leaves) ps), record'.
  split; [lia|]. split; [|split; [|split; [exact Hf|split]]].
  - apply NoDup_map_on; [|exact Hnd]. intros a b Ha Hb. apply tri_injective; try assumption.
    + apply Hin in Ha. lia.
    + apply Hin in Hb. lia.
  - intros f Hf'. apply in_map_iff in Hf'. destruct Hf' as (j & <- & Hj).
    apply tri_range; [exact HP|]. apply Hin in Hj. lia.
  - intros fuel Hfuel. unfold LBVH.TraverseIterative.
    replace fuel with (k + (fuel - k))%nat by lia.
    rewrite Hrun. apply traverse_loop_nil.
  - intros fuel Hfuel. apply Hout, Hfuel.
Qed.

Lemma preprocess_T (faceCount : Z) :
  0 <= faceCount < 2 ^ 31 -> u32 (u64 (u64 (faceCount * 3)) / 3) = faceCount.
Proof.
  intros H. assert (P31 : 2 ^ 31 = 2147483648) by reflexivity.
  assert (P32 : 2 ^ 32 = 4294967296) by reflexivity.
  assert (P64 : 2 ^ 64 = 18446744073709551616) by reflexivity.
  unfold u64. rewrite !Z.mod_small by (rewrite ?Z.mod_small; lia).
  rewrite Z.div_mul by lia. apply u32_small. lia.
Qed.

(** [preprocess] on at least two triangles leaves a well-formed tree. *)
Lemma preprocess_well_formed (race : schedule) (sort : list Vector2u.t -> list Vector2u.t) (fuel : nat)
  (gLBVH : LBVH.t) vertices vertexCount normals normalCount indices (faceCount : Z)
  (g : LBVH.t) :
  sorts sort -> 2 <= faceCount < 2 ^ 31 ->
  preprocess race sort fuel gLBVH vertices vertexCount normals normalCount indices faceCount
  = Ok g ->
  exists leaves, Z.of_nat (length leaves) = faceCount /\ well_formed leaves g.
Proof.
  intros Hsort Hfc Hpre. unfold preprocess in Hpre.
  match type of Hpre with LBVH.Build _ _ _ ?b = _ =>
    pose proof (Build_spec race sort fuel b Hsort) as HB end.
  cbv zeta in HB. rewrite Hpre in HB. cbn [LBVH.IndexCount] in HB.
  rewrite preprocess_T in HB by lia. specialize (HB Hfc).
  destruct HB as (box & leaves0 & _ & _ & Hlen & Hwf & _).
  exists (sort leaves0). split; [|exact Hwf].
  destruct (Hsort leaves0) as [Hperm _]. rewrite <- (Permutation_length Hperm). lia.
Qed.

(** ** The insertion sort is a sort *)

Lemma insert_leaf_perm (a : Vector2u.t) (l : list Vector2u.t) :
  Permutation (a :: l) (insert_leaf a l).
Proof.
  induction l as [|b l IH]; simpl; [reflexivity|].
  destruct (Vector2u.y a <=? Vector2u.y b); [reflexivity|].
  rewrite perm_swap. apply perm_skip, IH.
Qed.

Lemma insert_leaf_sorted (a : Vector2u.t) (l : list Vector2u.t) :
  StronglySorted (fun a b => Vector2u.y a <= Vector2u.y b) l ->
  StronglySorted (fun a b => Vector2u.y a <= Vector2u.y b) (insert_leaf a l).
Proof.
  induction 1 as [|b l HS IH Hb]; simpl.
  - constructor; constructor.
  - destruct (Z.leb_spec (Vector2u.y a) (Vector2u.y b)) as [Hle|Hgt].
    + constructor; [constructor; assumption|].
      constructor; [exact Hle|]. rewrite Forall_forall in *. intros c Hc.
      specialize (Hb c Hc). lia.
    + constructor; [exact IH|]. rewrite Forall_forall in *. intros c Hc.
      apply (Permutation_in _ (Permutation_sym (insert_leaf_perm a l))) in Hc.
      destruct Hc as [<-|Hc]; [lia | apply Hb, Hc].
Qed.

Lemma sort_leaves_sorts : sorts sort_leaves.
Proof.
  intros l. unfold sort_leaves. induction l as [|a l [IHp IHs]]; simpl.
  - split; constructor.
  - split.
    + rewrite <- insert_leaf_perm. apply perm_skip, IHp.
    + apply insert_leaf_sorted, IHs.
Qed.

(** ** The children of the nodes, and the leaves, after Build *)

Lemma subtree_child_range (leaves : list Vector2u.t) (nodes : vec Node.t) (child lo hi : Z) :
  Z.of_nat (length leaves) < 2 ^ 31 ->
  (forall i, 0 <= i < Z.of_nat (length leaves) -> 0 <= tri leaves i < Z.of_nat (length leaves)) ->
  subtree leaves nodes child lo hi -> 0 <= child < kInvalid.
Proof.
  intros HT Htri Hsub. assert (P31 : 2 ^ 31 = 2147483648) by reflexivity.
  unfold kInvalid. destruct Hsub as [i Hi|p lo hi Hlo Hhi _ _ _ _].
  - specialize (Htri i Hi). lia.
  - lia.
Qed.

Lemma subtree_children (leaves : list Vector2u.t) (nodes : vec Node.t) (child lo hi : Z) :
  Z.of_nat (length leaves) < 2 ^ 31 ->
  (forall i, 0 <= i < Z.of_nat (length leaves) -> 0 <= tri leaves i < Z.of_nat (length leaves)) ->
  subtree leaves nodes child lo hi ->
  forall q, lo <= q < hi ->
    0 <= Node.L (vat nodes q) < kInvalid /\ 0 <= Node.R (vat nodes q) < kInvalid.
Proof.
  intros HT Htri. induction 1 as [i Hi|p lo hi Hlo Hhi HL IHL HR IHR _ _]; intros q Hq.
  - lia.
  - destruct (Z.lt_trichotomy q p) as [Hlt|[->|Hgt]].
    + apply IHL. lia.
    + split; eapply subtree_child_range; eassumption.
    + apply IHR. lia.
Qed.

Lemma Zrange_app (n m : nat) (lo : Z) :
  Zrange lo (n + m) = Zrange lo n ++ Zrange (lo + Z.of_nat n) m.
Proof.
  revert lo. induction n as [|n IH]; intros lo.
  - simpl. f_equal. lia.
  - cbn [Nat.add Zrange app]. rewrite IH. do 3 f_equal. lia.
Qed.

Lemma subtree_flatten (leaves : list Vector2u.t) (nodes : vec Node.t) (child lo hi : Z) :
  (forall i, 0 <= i < Z.of_nat (length leaves) -> 0 <= tri leaves i < Z.of_nat (length leaves)) ->
  subtree leaves nodes child lo hi ->
  flatten nodes child (map (tri leaves) (Zrange lo (Z.to_nat (hi - lo + 1)))).
Proof.
  intros Htri. induction 1 as [i Hi|p lo hi Hlo Hhi HL IHL HR IHR _ _].
  - replace (i - i + 1) with 1 by lia. simpl. apply flatten_leaf. apply Htri, Hi.
  - replace (Z.to_nat (hi - lo + 1))
      with (Z.to_nat (p - lo + 1) + Z.to_nat (hi - (p + 1) + 1))%nat by lia.
    rewrite Zrange_app, map_app.
    replace (lo + Z.of_nat (Z.to_nat (p - lo + 1))) with (p + 1) by lia.
    apply flatten_node; [lia | exact IHL | exact IHR].
Qed.

Lemma map_tri_leaves (leaves : list Vector2u.t) :
  map (tri leaves) (Zrange 0 (length leaves)) = map Vector2u.x leaves.
Proof.
  unfold tri, leaf. induction leaves as [|a l IH] using rev_ind; [reflexivity|].
  rewrite length_app, Nat.add_comm. cbn [length Nat.add].
  replace (S (length l)) with (length l + 1)%nat by lia.
  rewrite Zrange_app, !map_app. cbn [Zrange map]. f_equal.
  - rewrite <- IH. apply map_ext_in. intros i Hi. apply Zrange_In in Hi.
    rewrite app_nth1 by lia. reflexivity.
  - rewrite Z.add_0_l, Nat2Z.id, nth_middle. reflexivity.
Qed.

(** What holds of the tree in C2 apart from the boxes: after [preprocess]
    on [T >= 2] triangles every node has both children set, and the leaves
    below [Root], from left to right, are the triangles [0 .. T-1], each
    once. *)
Lemma Build_children_and_leaves (race : schedule) (sort : list Vector2u.t -> list Vector2u.t) (fuel : nat)
  (gLBVH : LBVH.t) vertices vertexCount normals normalCount indices (faceCount : Z)
  (g : LBVH.t) :
  sorts sort -> 2 <= faceCount < 2 ^ 31 ->
  preprocess race sort fuel gLBVH vertices vertexCount normals normalCount indices faceCount
  = Ok g ->
  vsize (LBVH.Nodes g) = faceCount - 1 /\
  0 <= LBVH.Root g < faceCount - 1 /\
  (forall p, 0 <= p < faceCount - 1 ->
     Node.L (vat (LBVH.Nodes g) p) <> kInvalid /\
     Node.R (vat (LBVH.Nodes g) p) <> kInvalid) /\
  exists faces,
    flatten (LBVH.Nodes g) (2 * LBVH.Root g) faces /\
    Permutation faces (Zrange 0 (Z.to_nat faceCount)).
Proof.
  intros Hsort Hfc Hpre.
  destruct (preprocess_well_formed _ _ _ _ _ _ _ _ _ _ _ Hsort Hfc Hpre) as (leaves & Hlen & Hwf).
  destruct Hwf as (HT & Hsize & Hroot & Hsub & HP & _ & _ & _).
  pose proof (tri_range leaves HP) as Htri.
  rewrite Hlen in *. split; [exact Hsize|]. split; [exact Hroot|]. split.
  - intros p Hp.
    destruct (subtree_children leaves _ _ _ _ ltac:(lia) ltac:(rewrite Hlen; exact Htri)
                Hsub p Hp) as [H1 H2].
    lia.
  - exists (map Vector2u.x leaves). split.
    + rewrite <- map_tri_leaves.
      pose proof (subtree_flatten leaves _ _ _ _ ltac:(rewrite Hlen; exact Htri) Hsub) as Hfl.
      replace (Z.to_nat (faceCount - 1 - 0 + 1)) with (length leaves) in Hfl by lia.
      exact Hfl.
    + replace (Z.to_nat faceCount) with (length leaves) by lia. exact HP.
Qed.

(** ** The claims on the traversal *)

Lemma climb_done (race : schedule) (fuel : nat) (leaves : list Vector2u.t) (N : Z)
  (st : LBVH.build_state) (current L R : Z) (aabb : AABB.t) (is_leaf : bool) :
  (0 =? L) && (R =? N) = true ->
  LBVH.climb race (S fuel) leaves N st current L R aabb is_leaf
  = Ok (LBVH.mk_state current (LBVH.st_Nodes st) (LBVH.st_other st) (LBVH.st_first st)).
Proof. intros H. cbn [LBVH.climb]. rewrite H. reflexivity. Qed.

(** With less than two triangles [Root] is no index of [Nodes]. *)
Lemma Build_small (race : schedule) (sort : list Vector2u.t -> list Vector2u.t) (fuel : nat) (b g : LBVH.t) :
  LBVH.Build race sort fuel b = Ok g ->
  (u32 (u64 (LBVH.IndexCount b) / 3) = 0 /\ LBVH.Root b = kInvalid) \/
  u32 (u64 (LBVH.IndexCount b) / 3) = 1 ->
  in_bounds (LBVH.Root g) (vsize (LBVH.Nodes g)) = false.
Proof.
  intros HB HT. unfold LBVH.Build in HB. inv_bind HB. inv_bind HB.
  destruct HT as [[HT Hroot]|HT]; rewrite HT in HB.
  - cbn [Z.to_nat for_range bind] in HB. injection HB as <-.
    cbn [LBVH.Root LBVH.Nodes LBVH.st_Root LBVH.st_Nodes]. rewrite Hroot. reflexivity.
  - change (Z.to_nat 1) with 1%nat in HB. cbn [for_range] in HB.
    inv_bind HB. inv_bind Ha1. injection HB as <-. injection Ha1 as <-.
    unfold LBVH.climb_leaf in Ha2. inv_bind Ha2. inv_bind Ha2.
    destruct fuel as [|fuel]; [discriminate|].
    rewrite climb_done in Ha2 by reflexivity. injection Ha2 as <-. reflexivity.
Qed.

Lemma traverse_no_root (fuel : nat) (g : LBVH.t) (ray : s3d_Ray.t) (record : HitRecord.t) :
  in_bounds (LBVH.Root g) (vsize (LBVH.Nodes g)) = false ->
  LBVH.TraverseIterative fuel g ray record = Err OutOfFuel \/
  LBVH.TraverseIterative fuel g ray record = Err OutOfBounds.
Proof.
  intros H. unfold LBVH.TraverseIterative. destruct fuel as [|fuel]; [left; reflexivity|].
  right. rewrite traverse_loop_S. unfold vec_get. rewrite H. reflexivity.
Qed.

(** X19.  For every mesh of less than [2^31] triangles that [preprocess]
    builds (into a fresh [gLBVH], or over an earlier one when there are
    at least two triangles), under every schedule of the merges and every
    outcome of the sort, and for every ray, [TraverseIterative] never
    pushes on a full [visit_stack]: no push finds [stack_ptr = 64]. *)
Theorem visit_stack_bound (race : schedule) (sort : list Vector2u.t -> list Vector2u.t) (fuel0 : nat)
  (gLBVH : LBVH.t) vertices vertexCount normals normalCount indices (faceCount : Z)
  (g : LBVH.t) (fuel : nat) (ray : s3d_Ray.t) (record : HitRecord.t) :
  sorts sort -> 0 <= faceCount < 2 ^ 31 ->
  gLBVH = LBVH.init \/ 2 <= faceCount ->
  preprocess race sort fuel0 gLBVH vertices vertexCount normals normalCount indices faceCount
  = Ok g ->
  LBVH.TraverseIterative fuel g ray record <> Err StackOverflow.
Proof.
  intros Hsort Hfc Hinit Hpre.
  destruct (Z.lt_ge_cases faceCount 2) as [Hsmall|Hbig].
  - destruct Hinit as [->|]; [|lia]. unfold preprocess in Hpre.
    assert (Hnb : in_bounds (LBVH.Root g) (vsize (LBVH.Nodes g)) = false).
    { apply (Build_small _ _ _ _ _ Hpre). cbn [LBVH.IndexCount LBVH.Root].
      rewrite preprocess_T by lia.
      destruct (Z.eq_dec faceCount 0); [left; split; [assumption | reflexivity] | right; lia]. }
    destruct (traverse_no_root fuel g ray record Hnb) as [-> | ->]; discriminate.
  - assert (Hfc2 : 2 <= faceCount < 2 ^ 31) by lia.
    destruct (preprocess_well_formed _ _ _ _ _ _ _ _ _ _ _ Hsort Hfc2 Hpre)
      as (leaves & Hlen & Hwf).
    destruct (Traverse_spec leaves g ray record Hwf)
      as (k & faces & record' & _ & _ & _ & _ & Hrun & Hout).
    destruct (Nat.lt_ge_cases fuel k) as [Hlt|Hge].
    + rewrite (Hout fuel Hlt). discriminate.
    + rewrite (Hrun fuel Hge). discriminate.
Qed.

Lemma visit_stack_bound_witness :
  LBVH.TraverseIterative 3 quad_bvh wrap_ray (fresh_record f10) <> Err StackOverflow.
Proof.
  apply (visit_stack_bound in_order sort_leaves 3 LBVH.init
           (Some wrap_vertices) 4 (Some edge_normals) 1 (Some quad_indices) 4
           quad_bvh 3 wrap_ray (fresh_record f10) sort_leaves_sorts).
  - lia.
  - right. lia.
  - vm_compute. reflexivity.
Defined.

(** X20.  For every mesh of [2 <= T < 2^31] triangles submitted through
    [preprocess], under every schedule of the merges and every outcome of
    the sort, and for every ray, [TraverseIterative] ends within [T] visits
    of a node, without reading outside [Nodes], the indices or the
    positions and without overflowing its stack; what it returns is what
    [IsHit] gives, from the same initial record, over a list of distinct
    triangles among [0 .. T-1]. *)
Theorem traversal_tests_distinct_triangles
  (race : schedule) (sort : list Vector2u.t -> list Vector2u.t) (fuel0 : nat)
  (gLBVH : LBVH.t) vertices vertexCount normals normalCount indices (faceCount : Z)
  (g : LBVH.t) (fuel : nat) (ray : s3d_Ray.t) (record : HitRecord.t) :
  sorts sort -> 2 <= faceCount < 2 ^ 31 ->
  preprocess race sort fuel0 gLBVH vertices vertexCount normals normalCount indices faceCount
  = Ok g ->
  faceCount <= Z.of_nat fuel ->
  exists (faces : list Z) (record' : HitRecord.t),
    NoDup faces /\
    (forall f, In f faces -> 0 <= f < faceCount) /\
    test_faces g ray faces record = Ok record' /\
    LBVH.TraverseIterative fuel g ray record = Ok record'.
Proof.
  intros Hsort Hfc Hpre Hfuel.
  destruct (preprocess_well_formed _ _ _ _ _ _ _ _ _ _ _ Hsort Hfc Hpre)
    as (leaves & Hlen & Hwf).
  destruct (Traverse_spec leaves g ray record Hwf)
    as (k & faces & record' & Hk & Hnd & Hin & Hf & Hrun & _).
  exists faces, record'. rewrite Hlen in *.
  repeat split; try assumption; try (apply Hin; assumption).
  apply Hrun. lia.
Qed.

Lemma traversal_tests_distinct_triangles_witness :
  exists (faces : list Z) (record' : HitRecord.t),
    NoDup faces /\
    (forall f, In f faces -> 0 <= f < 4) /\
    test_faces quad_bvh wrap_ray faces (fresh_record f10) = Ok record' /\
    LBVH.TraverseIterative 4 quad_bvh wrap_ray (fresh_record f10) = Ok record'.
Proof.
  apply (traversal_tests_distinct_triangles in_order sort_leaves 3 LBVH.init
           (Some wrap_vertices) 4 (Some edge_normals) 1 (Some quad_indices) 4
           quad_bvh 4 wrap_ray (fresh_record f10) sort_leaves_sorts).
  - lia.
  - vm_compute. reflexivity.
  - vm_compute. discriminate.
Defined.

(** ** Hits the traversal misses *)

(** *** Build on two triangles, under any schedule *)

(** One turn of the climbing loop, for any [N]. *)
Lemma climb_unfold (race : schedule) (fuel : nat) (leaves : list Vector2u.t) (N : Z)
  (st : LBVH.build_state) (current L R : Z) (aabb : AABB.t) (is_leaf : bool) :
  LBVH.climb race (S fuel) leaves N st current L R aabb is_leaf =
  if (0 =? L) && (R =? N)
  then Ok (LBVH.mk_state current (LBVH.st_Nodes st) (LBVH.st_other st) (LBVH.st_first st))
  else
    index <-
      (if is_leaf
       then lf <- LBVH.leaf_at leaves current ;;
            Ok (u32 (u32 (Z.shiftl (Vector2u.x lf) 1) + 1))
       else Ok (u32 (Z.shiftl current 1))) ;;
    to_right <-
      (if 0 =? L then Ok true
       else if negb (R =? N)
            then dR <- LBVH.Delta leaves R ;; dL <- LBVH.Delta leaves (u32 (L - 1)) ;;
                 Ok (dR <? dL)
            else Ok false) ;;
    '(parent, previous, L', R', nodes1, other1) <-
      (if to_right : bool
       then
         let parent := R in
         previous <- vec_get (LBVH.st_other st) parent ;;
         other1 <- vec_set (LBVH.st_other st) parent L ;;
         let R' := if negb (kInvalid =? previous) then previous else R in
         node <- vec_get (LBVH.st_Nodes st) parent ;;
         nodes1 <- vec_set (LBVH.st_Nodes st) parent (Node.set_L node index) ;;
         Ok (parent, previous, L, R', nodes1, other1)
       else
         let parent := u32 (L - 1) in
         previous <- vec_get (LBVH.st_other st) parent ;;
         other1 <- vec_set (LBVH.st_other st) parent R ;;
         let L' := if negb (kInvalid =? previous) then previous else L in
         node <- vec_get (LBVH.st_Nodes st) parent ;;
         nodes1 <- vec_set (LBVH.st_Nodes st) parent (Node.set_R node index) ;;
         Ok (parent, previous, L', R, nodes1, other1)) ;;
    node <- vec_get nodes1 parent ;;
    if kInvalid =? previous
    then
      nodes2 <- vec_set nodes1 parent
                  (Node.set_Box node (AABB.Merge (Node.Box node) aabb)) ;;
      first1 <- vec_set (LBVH.st_first st) parent (Node.Box node, aabb) ;;
      Ok (LBVH.mk_state (LBVH.st_Root st) nodes2 other1 first1)
    else
      '(old, first) <- vec_get (LBVH.st_first st) parent ;;
      let '(kept, seen) := Race.Merge (race parent) old first aabb in
      nodes2 <- vec_set nodes1 parent (Node.set_Box node kept) ;;
      LBVH.climb race fuel leaves N
        (LBVH.mk_state (LBVH.st_Root st) nodes2 other1 (LBVH.st_first st))
        parent L' R' seen false.
Proof. reflexivity. Qed.

Ltac build_step :=
  repeat first
    [ progress cbn [bind LBVH.st_other LBVH.st_Nodes LBVH.st_first LBVH.st_Root
                    Node.Box Node.L Node.R Node.set_Box Node.set_L Node.set_R fst snd]
    | rewrite vat_vset_same
    | rewrite vec_get_in by (rewrite ?vsize_vset; lia)
    | rewrite vec_set_in by (rewrite ?vsize_vset; lia) ].

Lemma Build_two (race : schedule) (sort : list Vector2u.t -> list Vector2u.t)
  (fuel : nat) (b : LBVH.t) (box : AABB.t) (leaves0 : list Vector2u.t)
  (l0 l1 : Vector2u.t) (a0 a1 : AABB.t) :
  u32 (u64 (LBVH.IndexCount b) / 3) = 2 ->
  LBVH.global_box b = Ok box ->
  LBVH.make_leaves b box 2 = Ok leaves0 ->
  sort leaves0 = [l0; l1] ->
  LBVH.leaf_aabb b box (Vector2u.x l0) = Ok a0 ->
  LBVH.leaf_aabb b box (Vector2u.x l1) = Ok a1 ->
  (2 <= fuel)%nat ->
  exists nodes : vec Node.t,
    LBVH.Build race sort fuel b =
    Ok (LBVH.mk 0 (LBVH.Positions b) (LBVH.Normals b) (LBVH.Indices b)
          (LBVH.PositionCount b) (LBVH.NormalCount b) (LBVH.IndexCount b)
          (vec_map (LBVH.untranslate box) nodes)) /\
    vsize nodes = 1 /\
    Node.Box (vat nodes 0) =
      fst (Race.Merge (race 0) (Node.Box (vat (vec_resize (LBVH.Nodes b) 1) 0)) a0 a1).
Proof.
  intros HT Hgb Hml Hsort Ha0 Ha1 Hfuel.
  destruct fuel as [|[|fuel]]; try lia.
  unfold LBVH.Build. rewrite Hgb. cbn [bind]. rewrite HT, Hml. cbn [bind].
  rewrite Hsort. change (u32 (2 - 1)) with 1. change (Z.to_nat 2) with 2%nat.
  cbn [for_range]. unfold LBVH.climb_leaf.
  change (LBVH.leaf_at [l0; l1] 0) with (Ok l0).
  change (LBVH.leaf_at [l0; l1] (0 + 1)) with (Ok l1).
  change (0 + 1) with 1.
  set (nodes0 := vec_resize (LBVH.Nodes b) 1).
  assert (Hs0 : vsize nodes0 = 1) by reflexivity.
  cbn [bind]. rewrite Ha0. cbn [bind].
  rewrite climb_unfold. change ((0 =? 0) && (0 =? 1)) with false. cbv iota.
  change (LBVH.leaf_at [l0; l1] 0) with (Ok l0).
  change (0 =? 0) with true. build_step.
  change (vec_get (vec_make 1 kInvalid) 0) with (Ok kInvalid).
  change (vec_set (vec_make 1 kInvalid) 0 0) with (Ok (vset (vec_make 1 kInvalid) 0 0)).
  build_step.
  change (kInvalid =? kInvalid) with true. cbv iota.
  change (vec_set (vec_make 1 (AABB.Clear, AABB.Clear)) 0 ?x)
    with (Ok (vset (vec_make 1 (AABB.Clear, AABB.Clear)) 0 x)).
  build_step. rewrite Ha1. cbn [bind].
  rewrite climb_unfold. change ((0 =? 1) && (1 =? 1)) with false. cbv iota.
  change (LBVH.leaf_at [l0; l1] 1) with (Ok l1).
  change (0 =? 1) with false. change (negb (1 =? 1)) with false. cbv iota.
  change (u32 (1 - 1)) with 0. build_step.
  change (vec_get (vset (vec_make 1 kInvalid) 0 0) 0) with (Ok 0).
  change (vec_set (vset (vec_make 1 kInvalid) 0 0) 0 1)
    with (Ok (vset (vset (vec_make 1 kInvalid) 0 0) 0 1)).
  build_step.
  change (kInvalid =? 0) with false. cbv iota.
  match goal with |- context [vec_get (vset ?v 0 ?e) 0] =>
    change (vec_get (vset v 0 e) 0) with (Ok e) end.
  build_step.
  destruct (Race.Merge (race 0) (Node.Box (vat nodes0 0)) a0 a1) as [kept seen] eqn:Erace.
  build_step.
  rewrite climb_done by reflexivity. cbn [bind LBVH.st_Root LBVH.st_Nodes].
  eexists. split; [reflexivity|]. split; [reflexivity|].
  rewrite vat_vset_same. reflexivity.
Qed.

(** *** A box test on a NaN *)

Lemma Max_nan_r (a : float) : Max a S754_nan = S754_nan.
Proof. unfold Max, F32.gtb. destruct a; reflexivity. Qed.

(** When the ray starts in the plane of the near z face of the box and runs
    along it, [(mini.z - pos.z) * inv_dir.z] is [0 * inf], a NaN; [Max3]
    returns it and every comparison with it is false. *)
Lemma Intersect_nan_near_z (b : AABB.t) (rayPos invRayDir : Vector3f.t) (length : float) :
  F32.ltb F32.zero (Vector3f.z invRayDir) = true ->
  F32.is_nan ((Vector3f.z (AABB.mini b) - Vector3f.z rayPos) * Vector3f.z invRayDir)%f32 = true ->
  AABB.Intersect b rayPos invRayDir length = false.
Proof.
  intros Hz Hn. unfold AABB.Intersect. cbv zeta. rewrite Hz.
  unfold Max3 at 1. cbn [Vector3f.x Vector3f.y Vector3f.z].
  destruct ((Vector3f.z (AABB.mini b) - Vector3f.z rayPos) * Vector3f.z invRayDir)%f32
    eqn:E; try discriminate.
  rewrite Max_nan_r. reflexivity.
Qed.

(** The near z bound of the root of a tree of two triangles that stand on
    the plane [z = 0], under any outcome of the race. *)
Lemma grazing_near_z (r : Race.t) :
  fst (Race.outcome Min r kMaxBound F32.zero F32.zero) = F32.zero.
Proof. destruct r; reflexivity. Qed.

Lemma grazing_miss (race : schedule) (sort : list Vector2u.t -> list Vector2u.t)
  (fuel0 : nat) :
  sorts sort ->
  exists g,
    preprocess race sort (S (S fuel0)) LBVH.init
      (Some grazing_vertices) 6 (Some edge_normals) 1 (Some grazing_indices) 2 = Ok g /\
    (forall fuel,
       LBVH.TraverseIterative (S fuel) g grazing_ray (fresh_record f10)
       = Ok (fresh_record f10)) /\
    brute_force g grazing_ray (fresh_record f10) 2
    = Ok (HitRecord.mk true F32.one half (S754_zero true) 0).
Proof.
  intros Hsort. unfold preprocess.
  set (b := LBVH.mk _ _ _ _ _ _ _ _).
  eassert (Hgb : LBVH.global_box b = Ok _) by (vm_compute; reflexivity).
  match type of Hgb with _ = Ok ?x => set (box := x) in Hgb end.
  eassert (Hml : LBVH.make_leaves b box 2 = Ok _) by (vm_compute; reflexivity).
  eassert (Ha0 : LBVH.leaf_aabb b box 0 = Ok _) by (vm_compute; reflexivity).
  eassert (Ha1 : LBVH.leaf_aabb b box 1 = Ok _) by (vm_compute; reflexivity).
  destruct (Hsort ltac:(match type of Hml with _ = Ok ?l => exact l end)) as [Hperm _].
  apply Permutation_length_2_inv in Hperm.
  assert (Hbrute : forall nodes,
    brute_force (LBVH.mk 0 (LBVH.Positions b) (LBVH.Normals b) (LBVH.Indices b)
                   (LBVH.PositionCount b) (LBVH.NormalCount b) (LBVH.IndexCount b) nodes)
      grazing_ray (fresh_record f10) 2
    = Ok (HitRecord.mk true F32.one half (S754_zero true) 0)).
  { intros nodes. vm_compute. reflexivity. }
  destruct Hperm as [Hs|Hs].
  - destruct (Build_two race sort (S (S fuel0)) b _ _ _ _ _ _
                eq_refl Hgb Hml Hs Ha0 Ha1 ltac:(lia)) as (nodes & HB & Hsize & Hbox).
    eexists. split; [exact HB|]. split; [|apply Hbrute].
    intros fuel. unfold LBVH.TraverseIterative. cbn [LBVH.Root].
    rewrite traverse_loop_S. cbn [LBVH.Nodes].
    rewrite vec_get_in by (rewrite vsize_vec_map; lia). cbn [bind].
    rewrite vat_vec_map. rewrite Intersect_nan_near_z; [destruct fuel; reflexivity|reflexivity|].
    unfold LBVH.untranslate. cbn [Node.Box Node.set_Box AABB.mini Vector3f.add Vector3f.z].
    rewrite Hbox. unfold Race.Merge. cbn [fst AABB.mini Vector3f.z].
    change (Vector3f.z (AABB.mini (Node.Box (vat (vec_resize (LBVH.Nodes b) 1) 0))))
      with kMaxBound.
    cbn [AABB.mini Vector3f.z].
    rewrite grazing_near_z. reflexivity.
  - destruct (Build_two race sort (S (S fuel0)) b _ _ _ _ _ _
                eq_refl Hgb Hml Hs Ha1 Ha0 ltac:(lia)) as (nodes & HB & Hsize & Hbox).
    eexists. split; [exact HB|]. split; [|apply Hbrute].
    intros fuel. unfold LBVH.TraverseIterative. cbn [LBVH.Root].
    rewrite traverse_loop_S. cbn [LBVH.Nodes].
    rewrite vec_get_in by (rewrite vsize_vec_map; lia). cbn [bind].
    rewrite vat_vec_map. rewrite Intersect_nan_near_z; [destruct fuel; reflexivity|reflexivity|].
    unfold LBVH.untranslate. cbn [Node.Box Node.set_Box AABB.mini Vector3f.add Vector3f.z].
    rewrite Hbox. unfold Race.Merge. cbn [fst AABB.mini Vector3f.z].
    change (Vector3f.z (AABB.mini (Node.Box (vat (vec_resize (LBVH.Nodes b) 1) 0))))
      with kMaxBound.
    cbn [AABB.mini Vector3f.z].
    rewrite grazing_near_z. reflexivity.
Qed.

(** A schedule that loses a merge.  On the two triangles of
    [apart_vertices], when both climbs load the box of the root before
    either stores it and the store of the first is overwritten, the root's
    box is the box of triangle 1 alone: the ray that meets triangle 0 is a
    miss for the traversal.  When the merges follow each other, the
    traversal finds the hit. *)
Lemma lost_merge_miss :
  exists g g',
    preprocess lossy sort_leaves 2 LBVH.init
      (Some apart_vertices) 6 (Some edge_normals) 1 (Some apart_indices) 2 = Ok g /\
    preprocess in_order sort_leaves 2 LBVH.init
      (Some apart_vertices) 6 (Some edge_normals) 1 (Some apart_indices) 2 = Ok g' /\
    LBVH.TraverseIterative 2 g single_ray (fresh_record f10) = Ok (fresh_record f10) /\
    LBVH.TraverseIterative 2 g' single_ray (fresh_record f10)
    = Ok (HitRecord.mk true (F32.of_dyadic 3 (-2)) quarter quarter 0) /\
    brute_force g single_ray (fresh_record f10) 2
    = Ok (HitRecord.mk true (F32.of_dyadic 3 (-2)) quarter quarter 0).
Proof.
  eexists. eexists. split; [vm_compute; reflexivity|].
  split; [vm_compute; reflexivity|]. vm_compute. repeat split.
Qed.

(** C1.  The traversal and the brute-force loop differ.
    - On [grazing_vertices], under every schedule of the merges and every
      outcome of the sort: the ray lies in the plane of the near z face of
      the root's box, the box test multiplies 0 by an infinite inverse
      direction, and the traversal reports a miss where the brute-force
      loop hits triangle 0 at distance 1.
    - On [sliver_input]: the rounding of the boxes leaves triangle 0
      partly outside the root's box, and the traversal misses the hit the
      brute-force loop finds there.
    - On [apart_vertices]: when a merge into the root's box is lost, the
      traversal misses the hit of triangle 0.
    - On [edge_input]: the two triangles are met at the same distance, and
      the two loops end on different triangles. *)
Theorem traversal_misses_hits :
  (forall (race : schedule) (sort : list Vector2u.t -> list Vector2u.t) (fuel0 : nat),
     sorts sort ->
     exists g,
       preprocess race sort (S (S fuel0)) LBVH.init
         (Some grazing_vertices) 6 (Some edge_normals) 1 (Some grazing_indices) 2 = Ok g /\
       (forall fuel,
          LBVH.TraverseIterative (S fuel) g grazing_ray (fresh_record f10)
          = Ok (fresh_record f10)) /\
       brute_force g grazing_ray (fresh_record f10) 2
       = Ok (HitRecord.mk true F32.one half (S754_zero true) 0)) /\
  (exists g,
     preprocess in_order sort_leaves 2 LBVH.init
       (Some sliver_vertices) 6 (Some edge_normals) 1 (Some sliver_indices) 2 = Ok g /\
     LBVH.TraverseIterative 2 g sliver_ray (fresh_record f10) = Ok (fresh_record f10) /\
     brute_force g sliver_ray (fresh_record f10) 2
     = Ok (HitRecord.mk true half half half 0)) /\
  (exists g,
     preprocess lossy sort_leaves 2 LBVH.init
       (Some apart_vertices) 6 (Some edge_normals) 1 (Some apart_indices) 2 = Ok g /\
     LBVH.TraverseIterative 2 g single_ray (fresh_record f10) = Ok (fresh_record f10) /\
     brute_force g single_ray (fresh_record f10) 2
     = Ok (HitRecord.mk true (F32.of_dyadic 3 (-2)) quarter quarter 0)) /\
  (exists g,
     preprocess in_order sort_leaves 2 LBVH.init
       (Some edge_vertices) 4 (Some edge_normals) 1 (Some edge_indices) 2 = Ok g /\
     LBVH.TraverseIterative 2 g edge_ray (fresh_record f10)
     = Ok (HitRecord.mk true F32.one half F32.zero 0) /\
     brute_force g edge_ray (fresh_record f10) 2
     = Ok (HitRecord.mk true F32.one half half 1)).
Proof.
  split; [exact grazing_miss|]. split; [exact traversal_misses_sliver|].
  split.
  - destruct lost_merge_miss as (g & g' & H1 & _ & H2 & _ & H3).
    exists g. repeat split; assumption.
  - destruct traversal_differs_on_tie as (g & H1 & H2 & H3 & _).
    exists g. repeat split; assumption.
Qed.

Lemma traversal_misses_hits_witness :
  exists g,
    preprocess in_order sort_leaves 2 LBVH.init
      (Some grazing_vertices) 6 (Some edge_normals) 1 (Some grazing_indices) 2 = Ok g /\
    (forall fuel,
       LBVH.TraverseIterative (S fuel) g grazing_ray (fresh_record f10)
       = Ok (fresh_record f10)) /\
    brute_force g grazing_ray (fresh_record f10) 2
    = Ok (HitRecord.mk true F32.one half (S754_zero true) 0).
Proof.
  apply (proj1 traversal_misses_hits in_order sort_leaves 0%nat sort_leaves_sorts).
Defined.

(** ** A tagged child index that wraps *)

Lemma outcome_Min_cube (r : Race.t) :
  Race.outcome Min r kMaxBound F32.zero F32.zero = (F32.zero, F32.zero).
Proof. destruct r; reflexivity. Qed.

Lemma outcome_Max_cube (r : Race.t) :
  Race.outcome Max r kMinBound F32.one F32.one = (F32.one, F32.one).
Proof. destruct r; reflexivity. Qed.

(** All the triangles have the same box: no outcome of the race changes
    what the two merges leave in a node or what the second climb reads. *)
Lemma Race_Merge_cube (r : Race.bound -> Race.t) :
  Race.Merge r AABB.Clear wrap_cube wrap_cube = (wrap_cube, wrap_cube).
Proof.
  unfold Race.Merge, wrap_cube, AABB.Clear, v3. cbv zeta.
  cbn [AABB.mini AABB.maxi Vector3f.x Vector3f.y Vector3f.z].
  rewrite !outcome_Min_cube, !outcome_Max_cube. reflexivity.
Qed.

Lemma for_range_app {St} (body : Z -> St -> result St) (n m : nat) : forall (lo : Z) (s : St),
  for_range lo (n + m) body s =
  s' <- for_range lo n body s ;; for_range (lo + Z.of_nat n) m body s'.
Proof.
  induction n as [|n IH]; intros lo s.
  - cbn [for_range Nat.add bind]. replace (lo + Z.of_nat 0) with lo by lia. reflexivity.
  - cbn [for_range Nat.add]. destruct (body lo s) as [s1|e]; cbn [bind]; [|reflexivity].
    replace (lo + Z.of_nat (S n)) with (lo + 1 + Z.of_nat n) by lia. apply IH.
Qed.

Lemma for_range_total {St} (P : Z -> St -> Prop) (body : Z -> St -> result St) (n : nat) :
  forall (lo : Z) (s : St),
  P lo s ->
  (forall i s0, lo <= i < lo + Z.of_nat n -> P i s0 ->
     exists s1, body i s0 = Ok s1 /\ P (i + 1) s1) ->
  exists s', for_range lo n body s = Ok s' /\ P (lo + Z.of_nat n) s'.
Proof.
  induction n as [|n IH]; intros lo s H0 Hstep.
  - exists s. split; [reflexivity|]. rewrite Z.add_0_r. exact H0.
  - destruct (Hstep lo s ltac:(lia) H0) as (s1 & Hb & H1).
    destruct (IH (lo + 1) s1 H1) as (s' & Hrun & HP).
    { intros i s0 Hi. apply Hstep. lia. }
    exists s'. cbn [for_range]. rewrite Hb. cbn [bind]. split; [exact Hrun|].
    replace (lo + Z.of_nat (S n)) with (lo + 1 + Z.of_nat n) by lia. exact HP.
Qed.

(** A turn of the climb that goes to the parent on the right and is the
    first to reach it. *)
Lemma climb_right_first (race : schedule) (fuel : nat) (leaves : list Vector2u.t) (N : Z)
  (st : LBVH.build_state) (current L R : Z) (aabb : AABB.t) (is_leaf : bool) (index : Z) :
  (0 =? L) && (R =? N) = false ->
  (if is_leaf
   then lf <- LBVH.leaf_at leaves current ;;
        Ok (u32 (u32 (Z.shiftl (Vector2u.x lf) 1) + 1))
   else Ok (u32 (Z.shiftl current 1))) = Ok index ->
  (if 0 =? L then Ok true
   else if negb (R =? N)
        then dR <- LBVH.Delta leaves R ;; dL <- LBVH.Delta leaves (u32 (L - 1)) ;;
             Ok (dR <? dL)
        else Ok false) = Ok true ->
  0 <= R < vsize (LBVH.st_other st) ->
  vsize (LBVH.st_Nodes st) = vsize (LBVH.st_other st) ->
  vsize (LBVH.st_first st) = vsize (LBVH.st_other st) ->
  vat (LBVH.st_other st) R = kInvalid ->
  LBVH.climb race (S fuel) leaves N st current L R aabb is_leaf =
  Ok (LBVH.mk_state (LBVH.st_Root st)
        (vset (vset (LBVH.st_Nodes st) R (Node.set_L (vat (LBVH.st_Nodes st) R) index)) R
           (Node.set_Box (Node.set_L (vat (LBVH.st_Nodes st) R) index)
              (AABB.Merge (Node.Box (vat (LBVH.st_Nodes st) R)) aabb)))
        (vset (LBVH.st_other st) R L)
        (vset (LBVH.st_first st) R (Node.Box (vat (LBVH.st_Nodes st) R), aabb))).
Proof.
  intros Hdone Hidx Hdir HR Hn Hf Hprev.
  rewrite climb_unfold, Hdone, Hidx. cbn [bind]. rewrite Hdir. cbn [bind].
  rewrite (vec_get_in (LBVH.st_other st)) by lia. cbn [bind].
  rewrite (vec_set_in (LBVH.st_other st)) by lia. cbn [bind].
  rewrite (vec_get_in (LBVH.st_Nodes st)) by lia. cbn [bind].
  rewrite (vec_set_in (LBVH.st_Nodes st)) by lia. cbn [bind].
  rewrite vec_get_in by (rewrite vsize_vset; lia). cbn [bind].
  rewrite Hprev, Z.eqb_refl.
  rewrite vec_set_in by (rewrite vsize_vset; lia). cbn [bind].
  rewrite vec_set_in by lia. cbn [bind].
  rewrite vat_vset_same. reflexivity.
Qed.

(** A turn of the climb that goes to the parent on the left and is the
    second to reach it. *)
Lemma climb_left_second (race : schedule) (fuel : nat) (leaves : list Vector2u.t) (N : Z)
  (st : LBVH.build_state) (current L R : Z) (aabb : AABB.t) (is_leaf : bool)
  (index p : Z) :
  (0 =? L) && (R =? N) = false ->
  (if is_leaf
   then lf <- LBVH.leaf_at leaves current ;;
        Ok (u32 (u32 (Z.shiftl (Vector2u.x lf) 1) + 1))
   else Ok (u32 (Z.shiftl current 1))) = Ok index ->
  (if 0 =? L then Ok true
   else if negb (R =? N)
        then dR <- LBVH.Delta leaves R ;; dL <- LBVH.Delta leaves (u32 (L - 1)) ;;
             Ok (dR <? dL)
        else Ok false) = Ok false ->
  u32 (L - 1) = p ->
  0 <= p < vsize (LBVH.st_other st) ->
  vsize (LBVH.st_Nodes st) = vsize (LBVH.st_other st) ->
  vsize (LBVH.st_first st) = vsize (LBVH.st_other st) ->
  vat (LBVH.st_other st) p <> kInvalid ->
  LBVH.climb race (S fuel) leaves N st current L R aabb is_leaf =
  LBVH.climb race fuel leaves N
    (LBVH.mk_state (LBVH.st_Root st)
       (vset (vset (LBVH.st_Nodes st) p (Node.set_R (vat (LBVH.st_Nodes st) p) index)) p
          (Node.set_Box (Node.set_R (vat (LBVH.st_Nodes st) p) index)
             (fst (Race.Merge (race p) (fst (vat (LBVH.st_first st) p))
                     (snd (vat (LBVH.st_first st) p)) aabb))))
       (vset (LBVH.st_other st) p R)
       (LBVH.st_first st))
    p (vat (LBVH.st_other st) p) R
    (snd (Race.Merge (race p) (fst (vat (LBVH.st_first st) p))
            (snd (vat (LBVH.st_first st) p)) aabb))
    false.
Proof.
  intros Hdone Hidx Hdir Hp HR Hn Hf Hprev.
  rewrite climb_unfold, Hdone, Hidx. cbn [bind]. rewrite Hdir. cbn [bind]. rewrite Hp.
  rewrite (vec_get_in (LBVH.st_other st)) by lia. cbn [bind].
  rewrite (vec_set_in (LBVH.st_other st)) by lia. cbn [bind].
  rewrite (vec_get_in (LBVH.st_Nodes st)) by lia. cbn [bind].
  rewrite (vec_set_in (LBVH.st_Nodes st)) by lia. cbn [bind].
  rewrite vec_get_in by (rewrite vsize_vset; lia). cbn [bind].
  destruct (Z.eqb_spec kInvalid (vat (LBVH.st_other st) p)) as [E|_];
    [symmetry in E; contradiction|]. cbn [negb].
  rewrite (vec_get_in (LBVH.st_first st)) by lia. cbn [bind].
  rewrite vat_vset_same.
  destruct (vat (LBVH.st_first st) p) as [old first]. cbn [fst snd].
  destruct (Race.Merge (race p) old first aabb) as [kept seen]. cbn [fst snd].
  rewrite vec_set_in by (rewrite vsize_vset; lia). cbn [bind]. reflexivity.
Qed.


Lemma nth_error_flat_pairs (f g : Z -> Z) (n : nat) : forall (lo : Z) (k : nat),
  (k < n)%nat ->
  nth_error (flat_map (fun j => [f j; g j]) (Zrange lo n)) (2 * k)
  = Some (f (lo + Z.of_nat k)).
Proof.
  induction n as [|n IH]; intros lo k Hk; [lia|].
  destruct k as [|k].
  - change (2 * 0)%nat with 0%nat. cbn [Zrange flat_map app nth_error].
    f_equal. f_equal. lia.
  - replace (2 * S k)%nat with (S (S (2 * k))) by lia.
    cbn [Zrange flat_map app nth_error]. rewrite IH by lia. f_equal. f_equal. lia.
Qed.

Lemma read_wrap_indices (j : Z) :
  0 <= j < 2 ^ 32 -> read (Some wrap_indices) (2 * j) = Ok (wrap_P j).
Proof.
  intros Hj. assert (P32 : 2 ^ 32 = 4294967296) by reflexivity.
  unfold read. destruct (Z.ltb_spec (2 * j) 0) as [|_]; [lia|].
  replace (Z.to_nat (2 * j)) with (2 * Z.to_nat j)%nat by lia.
  unfold wrap_indices. rewrite nth_error_flat_pairs.
  - f_equal. f_equal. lia.
  - unfold wrap_faceCount. lia.
Qed.

Lemma mapM_map {A B} (f : A -> result B) (g : A -> B) (l : list A) :
  (forall a, In a l -> f a = Ok (g a)) -> mapM f l = Ok (map g l).
Proof.
  induction l as [|a l IH]; intros H; [reflexivity|].
  cbn [mapM map]. rewrite (H a) by (left; reflexivity). cbn [bind].
  rewrite IH by (intros a' Ha'; apply H; right; exact Ha'). reflexivity.
Qed.


Lemma filter_Permutation {A} (f : A -> bool) (l l' : list A) :
  Permutation l l' -> Permutation (filter f l) (filter f l').
Proof.
  induction 1 as [|x l l' HP IH|x y l|l l' l'' HP1 IH1 HP2 IH2]; cbn [filter].
  - constructor.
  - destruct (f x); [constructor|]; exact IH.
  - destruct (f x), (f y); try reflexivity. constructor.
  - transitivity (filter f l'); assumption.
Qed.

Lemma filter_Zrange_none (p : Z -> bool) (n : nat) : forall lo,
  (forall i, lo <= i < lo + Z.of_nat n -> p i = false) -> filter p (Zrange lo n) = [].
Proof.
  induction n as [|n IH]; intros lo H; [reflexivity|].
  cbn [Zrange filter]. rewrite H by lia. apply IH. intros i Hi. apply H. lia.
Qed.

Lemma filter_Zrange_one (a b : Z) (n : nat) : forall lo,
  a < lo -> lo <= b < lo + Z.of_nat n ->
  filter (fun i => (i =? a) || (i =? b)) (Zrange lo n) = [b].
Proof.
  induction n as [|n IH]; intros lo Ha Hb; [lia|].
  cbn [Zrange filter]. destruct (Z.eqb_spec lo a); [lia|]. cbn [orb].
  destruct (Z.eqb_spec lo b) as [->|Hne].
  - f_equal. apply filter_Zrange_none. intros i Hi.
    destruct (Z.eqb_spec i a); [lia|]. destruct (Z.eqb_spec i b); [lia|]. reflexivity.
  - apply IH; lia.
Qed.

Lemma filter_Zrange_two (a b : Z) (n : nat) : forall lo,
  lo <= a -> a < b -> b < lo + Z.of_nat n ->
  filter (fun i => (i =? a) || (i =? b)) (Zrange lo n) = [a; b].
Proof.
  induction n as [|n IH]; intros lo Ha Hab Hb; [lia|].
  cbn [Zrange filter]. destruct (Z.eqb_spec lo a) as [->|Hne].
  - cbn [orb]. f_equal. apply filter_Zrange_one; lia.
  - cbn [orb]. destruct (Z.eqb_spec lo b); [lia|]. apply IH; lia.
Qed.

Lemma filter_map_comm {A B} (f : A -> B) (p : B -> bool) (l : list A) :
  filter p (map f l) = map f (filter (fun a => p (f a)) l).
Proof.
  induction l as [|a l IH]; [reflexivity|]. cbn [map filter].
  destruct (p (f a)); cbn [map]; rewrite IH; reflexivity.
Qed.

(** A list sorted by its codes, with two codes [ka < kb], is its leaves of
    code [ka] followed by the others. *)
Lemma sorted_two_codes (ka kb : Z) (l : list Vector2u.t) :
  ka < kb ->
  StronglySorted (fun a b => Vector2u.y a <= Vector2u.y b) l ->
  Forall (fun e => Vector2u.y e = ka \/ Vector2u.y e = kb) l ->
  l = filter (fun e => Vector2u.y e =? ka) l ++ filter (fun e => negb (Vector2u.y e =? ka)) l.
Proof.
  intros Hk HS. induction HS as [|a l HS IH Ha]; intros HF; [reflexivity|].
  inversion HF as [|? ? Hya HF']; subst. cbn [filter].
  destruct (Z.eqb_spec (Vector2u.y a) ka) as [E|E]; cbn [negb].
  - cbn [app]. f_equal. apply IH, HF'.
  - assert (Hall : Forall (fun e => Vector2u.y e = kb) l).
    { rewrite Forall_forall in *. intros e He.
      specialize (Ha e He). specialize (HF' e He). lia. }
    assert (H1 : filter (fun e => Vector2u.y e =? ka) l = []).
    { clear -Hall Hk. induction Hall as [|e l He _ IH']; [reflexivity|].
      cbn [filter]. destruct (Z.eqb_spec (Vector2u.y e) ka); [lia|]. exact IH'. }
    assert (H2 : filter (fun e => negb (Vector2u.y e =? ka)) l = l).
    { clear -Hall Hk. induction Hall as [|e l He _ IH']; [reflexivity|].
      cbn [filter]. destruct (Z.eqb_spec (Vector2u.y e) ka); [lia|]. cbn [negb].
      f_equal. exact IH'. }
    rewrite H1, H2. reflexivity.
Qed.

Section Wrap.

Variable ind : list Z.
Variable T : Z.
Hypothesis Hind : forall j, 0 <= j < 2 ^ 32 -> read (Some ind) (2 * j) = Ok (wrap_P j).
Hypothesis HT : T = 2147483651.

Let b : LBVH.t :=
  LBVH.mk (LBVH.Root LBVH.init) (Some wrap_vertices) (Some edge_normals) (Some ind)
    4 1 (u64 (T * 3)) (LBVH.Nodes LBVH.init).

Lemma wrap_corner (id k : Z) :
  LBVH.corner b id k = LBVH.read_Vector3f (Some wrap_vertices) (wrap_P (u32 (id + k))).
Proof.
  unfold LBVH.corner, LBVH.Indices_P, LBVH.Positions_at. cbn [LBVH.Indices b].
  rewrite Hind by (apply Z.mod_pos_bound; reflexivity). reflexivity.
Qed.

Lemma wrap_P_corners (i : Z) :
  0 <= i < T ->
  (wrap_P (u32 (u32 (i * 3) + 0)), wrap_P (u32 (u32 (i * 3) + 1)),
   wrap_P (u32 (u32 (i * 3) + 2)))
  = if i =? 0 then (0, 1, 2)
    else if i <? 1431655765 then (3, 0, 2)
    else if i =? 1431655765 then (2, 0, 1)
    else (2, 3, 0).
Proof.
  intros Hi. unfold u32. change (2 ^ 32) with 4294967296.
  destruct (Z.eqb_spec i 0) as [->|H0]; [reflexivity|].
  destruct (Z.ltb_spec i 1431655765) as [Hlt|Hge].
  - rewrite (Z.mod_small (i * 3)) by lia. rewrite !Z.mod_small by lia.
    unfold wrap_P.
    destruct (Z.ltb_spec (i * 3 + 0) 2); [lia|]. destruct (Z.ltb_spec (i * 3 + 1) 2); [lia|].
    destruct (Z.ltb_spec (i * 3 + 2) 2); [lia|].
    replace ((i * 3 + 0) mod 3) with 0 by (apply Z.mod_unique with i; lia).
    replace ((i * 3 + 1) mod 3) with 1 by (apply Z.mod_unique with i; lia).
    replace ((i * 3 + 2) mod 3) with 2 by (apply Z.mod_unique with i; lia).
    destruct (Z.eqb_spec (i * 3 + 0) 4294967295); [lia|].
    destruct (Z.eqb_spec (i * 3 + 1) 4294967295); [lia|]. reflexivity.
  - destruct (Z.eqb_spec i 1431655765) as [->|HW]; [reflexivity|].
    replace ((i * 3) mod 4294967296) with (i * 3 - 4294967296)
      by (apply Z.mod_unique with 1; lia).
    rewrite !Z.mod_small by lia. unfold wrap_P.
    destruct (Z.ltb_spec (i * 3 - 4294967296 + 0) 2); [lia|].
    destruct (Z.ltb_spec (i * 3 - 4294967296 + 1) 2); [lia|].
    destruct (Z.ltb_spec (i * 3 - 4294967296 + 2) 2); [lia|].
    replace ((i * 3 - 4294967296 + 0) mod 3) with 2
      by (apply Z.mod_unique with (i - 1431655766); lia).
    replace ((i * 3 - 4294967296 + 1) mod 3) with 0
      by (apply Z.mod_unique with (i - 1431655765); lia).
    replace ((i * 3 - 4294967296 + 2) mod 3) with 1
      by (apply Z.mod_unique with (i - 1431655765); lia).
    destruct (Z.eqb_spec (i * 3 - 4294967296 + 1) 4294967295); [lia|].
    destruct (Z.eqb_spec (i * 3 - 4294967296 + 2) 4294967295); [lia|]. reflexivity.
Qed.

Lemma wrap_leaf (i : Z) :
  0 <= i < T ->
  LBVH.make_leaf b wrap_cube i = Ok (Vector2u.mk i (wrap_code i)) /\
  LBVH.leaf_aabb b wrap_cube i = Ok wrap_cube.
Proof.
  intros Hi. pose proof (wrap_P_corners i Hi) as HP.
  unfold LBVH.make_leaf, LBVH.leaf_aabb, LBVH.corners. cbv zeta.
  rewrite !wrap_corner. unfold wrap_code. revert HP.
  destruct (Z.eqb_spec i 0) as [->|H0].
  { intros _. split; vm_compute; reflexivity. }
  cbn [orb].
  destruct (Z.ltb_spec i 1431655765) as [Hlt|Hge];
    [destruct (Z.eqb_spec i 1431655765); [lia|]
    |destruct (Z.eqb_spec i 1431655765) as [HW|HW]];
    intros [= -> -> ->].
  - change (LBVH.read_Vector3f (Some wrap_vertices) 3) with (Ok (v3 F32.one F32.zero F32.zero)).
    change (LBVH.read_Vector3f (Some wrap_vertices) 0) with (Ok (v3 F32.zero F32.zero F32.zero)).
    change (LBVH.read_Vector3f (Some wrap_vertices) 2) with (Ok (v3 F32.one F32.one F32.one)).
    cbn [bind]. split; [|vm_compute; reflexivity].
    match goal with |- bind ?m _ = _ =>
      replace m with (Ok 596523235) by (vm_compute; reflexivity) end.
    reflexivity.
  - change (LBVH.read_Vector3f (Some wrap_vertices) 1) with (Ok (v3 F32.zero F32.one F32.zero)).
    change (LBVH.read_Vector3f (Some wrap_vertices) 0) with (Ok (v3 F32.zero F32.zero F32.zero)).
    change (LBVH.read_Vector3f (Some wrap_vertices) 2) with (Ok (v3 F32.one F32.one F32.one)).
    cbn [bind]. split; [|vm_compute; reflexivity].
    match goal with |- bind ?m _ = _ =>
      replace m with (Ok 357913941) by (vm_compute; reflexivity) end.
    reflexivity.
  - change (LBVH.read_Vector3f (Some wrap_vertices) 3) with (Ok (v3 F32.one F32.zero F32.zero)).
    change (LBVH.read_Vector3f (Some wrap_vertices) 0) with (Ok (v3 F32.zero F32.zero F32.zero)).
    change (LBVH.read_Vector3f (Some wrap_vertices) 2) with (Ok (v3 F32.one F32.one F32.one)).
    cbn [bind]. split; [|vm_compute; reflexivity].
    match goal with |- bind ?m _ = _ =>
      replace m with (Ok 596523235) by (vm_compute; reflexivity) end.
    reflexivity.
Qed.


Let leaves0 : list Vector2u.t :=
  map (fun i => Vector2u.mk i (wrap_code i)) (Zrange 0 (Z.to_nat T)).

Lemma wrap_make_leaves : LBVH.make_leaves b wrap_cube T = Ok leaves0.
Proof.
  unfold LBVH.make_leaves. apply mapM_map. intros i Hi. apply Zrange_In in Hi.
  apply wrap_leaf. lia.
Qed.

(** Whatever [std::sort] returns, the two leaves of the smaller code come
    first. *)
Lemma wrap_sorted (sort : list Vector2u.t -> list Vector2u.t) :
  sorts sort ->
  exists a0 a1 tail,
    sort leaves0 = a0 :: a1 :: tail /\
    Vector2u.y a0 = 357913941 /\ Vector2u.y a1 = 357913941 /\
    Forall (fun e => Vector2u.y e = 596523235) tail /\
    Forall (fun e => 0 <= Vector2u.x e < T) (sort leaves0) /\
    Z.of_nat (length (sort leaves0)) = T.
Proof.
  intros Hsort. destruct (Hsort leaves0) as [HP HS].
  assert (HQ0 : Forall (fun e => 0 <= Vector2u.x e < T /\
                                 Vector2u.y e = wrap_code (Vector2u.x e)) leaves0).
  { apply Forall_forall. intros e He. unfold leaves0 in He. apply in_map_iff in He.
    destruct He as (i & <- & Hi). apply Zrange_In in Hi. cbn [Vector2u.x Vector2u.y].
    split; [lia | reflexivity]. }
  assert (HQ : Forall (fun e => 0 <= Vector2u.x e < T /\
                                Vector2u.y e = wrap_code (Vector2u.x e)) (sort leaves0)).
  { rewrite Forall_forall in *. intros e He. apply HQ0.
    apply (Permutation_in _ (Permutation_sym HP)), He. }
  assert (H2 : Forall (fun e => Vector2u.y e = 357913941 \/ Vector2u.y e = 596523235)
                 (sort leaves0)).
  { rewrite Forall_forall in *. intros e He. destruct (HQ e He) as [_ ->].
    unfold wrap_code. destruct (_ || _); [left | right]; reflexivity. }
  pose proof (sorted_two_codes 357913941 596523235 _ ltac:(lia) HS H2) as Hsplit.
  assert (HA : filter (fun e => Vector2u.y e =? 357913941) leaves0
               = [Vector2u.mk 0 357913941; Vector2u.mk 1431655765 357913941]).
  { unfold leaves0. rewrite filter_map_comm. cbn [Vector2u.y].
    rewrite (filter_ext _ (fun i => (i =? 0) || (i =? 1431655765))).
    - rewrite filter_Zrange_two by lia. reflexivity.
    - intros i. unfold wrap_code. destruct (_ || _); reflexivity. }
  pose proof (filter_Permutation (fun e => Vector2u.y e =? 357913941) _ _ HP) as HPA.
  rewrite HA in HPA. apply Permutation_length_2_inv in HPA.
  assert (HB : Forall (fun e => Vector2u.y e = 596523235)
                 (filter (fun e => negb (Vector2u.y e =? 357913941)) (sort leaves0))).
  { apply Forall_forall. intros e He. apply filter_In in He. destruct He as [He Hne].
    rewrite Forall_forall in H2. destruct (H2 e He) as [E|E]; [|exact E].
    rewrite E in Hne. discriminate. }
  assert (HR : Forall (fun e => 0 <= Vector2u.x e < T) (sort leaves0)).
  { rewrite Forall_forall in *. intros e He. apply HQ, He. }
  assert (HL : Z.of_nat (length (sort leaves0)) = T).
  { rewrite <- (Permutation_length HP). unfold leaves0.
    rewrite length_map, Zrange_length. lia. }
  destruct HPA as [E|E]; rewrite E in Hsplit; cbn [app] in Hsplit.
  - eexists _, _, _. split; [exact Hsplit|]. repeat split; try assumption; reflexivity.
  - eexists _, _, _. split; [exact Hsplit|]. repeat split; try assumption; reflexivity.
Qed.

(** *** The climbs *)

Section Climbs.

Variable race : schedule.
Variable fuel : nat.
Variable leaves : list Vector2u.t.
Let N : Z := T - 1.
Hypothesis Hleaf : forall i, 0 <= i < T ->
  exists l, LBVH.leaf_at leaves i = Ok l /\
            Vector2u.y l = (if i <? 2 then 357913941 else 596523235) /\
            LBVH.leaf_aabb b wrap_cube (Vector2u.x l) = Ok wrap_cube.

Lemma wrap_Delta (i : Z) :
  0 <= i < T - 1 ->
  LBVH.Delta leaves i = Ok (if i =? 1 then 920350134 else 0).
Proof.
  intros Hi. unfold LBVH.Delta. rewrite u32_small by (rewrite HT in Hi; lia).
  destruct (Hleaf (i + 1) ltac:(lia)) as (l1 & -> & Hy1 & _).
  destruct (Hleaf i ltac:(lia)) as (l0 & -> & Hy0 & _). cbn [bind].
  rewrite Hy1, Hy0. destruct (Z.eqb_spec i 1) as [->|Hne]; [reflexivity|].
  destruct (Z.ltb_spec (i + 1) 2), (Z.ltb_spec i 2); try lia; reflexivity.
Qed.

Let body := LBVH.climb_leaf race (S (S (S fuel))) b wrap_cube leaves N.

(** What holds when the climbs of the leaves below [k] are done. *)
Let Inv (k : Z) (st : LBVH.build_state) : Prop :=
  vsize (LBVH.st_Nodes st) = N /\ vsize (LBVH.st_other st) = N /\
  vsize (LBVH.st_first st) = N /\
  vat (LBVH.st_other st) (k - 1) = 2 /\
  vat (LBVH.st_first st) (k - 1) = (AABB.Clear, wrap_cube) /\
  vat (LBVH.st_other st) 1 = 0 /\
  vat (LBVH.st_first st) 1 = (AABB.Clear, wrap_cube) /\
  Node.L (vat (LBVH.st_Nodes st) 1) = 0 /\
  (forall j, k <= j < N ->
     vat (LBVH.st_other st) j = kInvalid /\
     Node.Box (vat (LBVH.st_Nodes st) j) = AABB.Clear).

Let st0 : LBVH.build_state :=
  LBVH.mk_state (LBVH.Root b) (vec_resize (LBVH.Nodes b) N) (vec_make N kInvalid)
    (vec_make N (AABB.Clear, AABB.Clear)).

Ltac vat_simpl :=
  repeat first [rewrite vat_vset_same | rewrite vat_vset_other by lia].

Lemma wrap_first_climbs :
  exists st, for_range 0 3 body st0 = Ok st /\ Inv 3 st.
Proof.
  assert (HN : N = 2147483650) by (unfold N; lia).
  cbn [for_range]. unfold body, LBVH.climb_leaf.
  destruct (Hleaf 0 ltac:(lia)) as (l0 & E0 & _ & A0).
  destruct (Hleaf 1 ltac:(lia)) as (l1 & E1 & _ & A1).
  destruct (Hleaf 2 ltac:(lia)) as (l2 & E2 & _ & A2).
  change (0 + 1) with 1. change (1 + 1) with 2.
  rewrite E0. cbn [bind]. rewrite A0. cbn [bind].
  rewrite (climb_right_first _ _ _ _ _ _ _ _ _ _
             (u32 (u32 (Z.shiftl (Vector2u.x l0) 1) + 1)));
    [| destruct (Z.eqb_spec 0 N); [lia | reflexivity]
     | rewrite E0; reflexivity | reflexivity
     | cbn [LBVH.st_other st0 vsize vec_make]; lia | reflexivity | reflexivity
     | reflexivity ].
  cbn [bind]. rewrite E1. cbn [bind]. rewrite A1. cbn [bind].
  rewrite (climb_left_second _ _ _ _ _ _ _ _ _ _
             (u32 (u32 (Z.shiftl (Vector2u.x l1) 1) + 1)) 0);
    [| reflexivity | rewrite E1; reflexivity
     | change (0 =? 1) with false; cbv iota; destruct (Z.eqb_spec 1 N); [lia|];
       cbn [negb]; change (u32 (1 - 1)) with 0; rewrite !wrap_Delta by lia; reflexivity
     | reflexivity
     | cbn [LBVH.st_other st0 vsize vec_make vset]; lia | reflexivity | reflexivity
     | cbn [LBVH.st_other]; rewrite vat_vset_same; discriminate ].
  cbn [LBVH.st_other LBVH.st_first LBVH.st_Nodes LBVH.st_Root]. vat_simpl.
  cbn [fst snd]. change (Node.Box (vat (LBVH.st_Nodes st0) 0)) with AABB.Clear.
  rewrite Race_Merge_cube. cbn [fst snd].
  rewrite (climb_right_first _ _ _ _ _ _ _ _ _ _ 0);
    [| destruct (Z.eqb_spec 1 N); [lia | reflexivity]
     | reflexivity | reflexivity
     | cbn [LBVH.st_other st0 vsize vec_make vset]; lia | reflexivity | reflexivity
     | cbn [LBVH.st_other]; vat_simpl; reflexivity ].
  cbn [bind]. rewrite E2. cbn [bind]. rewrite A2. cbn [bind].
  rewrite (climb_right_first _ _ _ _ _ _ _ _ _ _
             (u32 (u32 (Z.shiftl (Vector2u.x l2) 1) + 1)));
    [| reflexivity | rewrite E2; reflexivity
     | change (0 =? 2) with false; cbv iota; destruct (Z.eqb_spec 2 N); [lia|];
       cbn [negb]; change (u32 (2 - 1)) with 1; rewrite !wrap_Delta by lia; reflexivity
     | cbn [LBVH.st_other st0 vsize vec_make vset]; lia | reflexivity | reflexivity
     | cbn [LBVH.st_other]; vat_simpl; reflexivity ].
  eexists. split; [reflexivity|].
  unfold Inv. cbn [LBVH.st_other LBVH.st_first LBVH.st_Nodes LBVH.st_Root].
  change (3 - 1) with 2. vat_simpl.
  repeat split; try reflexivity.
  - vat_simpl. reflexivity.
  - vat_simpl. reflexivity.
Qed.

(** The climb of a leaf [k] between the first three and the last: it is
    the second at node [k - 1] and the first at node [k]. *)
Lemma wrap_middle_climb (k : Z) (st : LBVH.build_state) :
  3 <= k < 3 + Z.of_nat (Z.to_nat (T - 4)) -> Inv k st ->
  exists st', body k st = Ok st' /\ Inv (k + 1) st'.
Proof.
  intros Hk (Hn & Ho & Hf & Ho1 & Hf1 & Ho2 & Hf2 & HL & Hrest).
  assert (HN : N = 2147483650) by (unfold N; lia).
  destruct (Hleaf k ltac:(lia)) as (l & E & _ & A).
  destruct (Hrest k ltac:(lia)) as [Hok Hbk].
  unfold body, LBVH.climb_leaf. rewrite E. cbn [bind]. rewrite A. cbn [bind].
  rewrite (climb_left_second _ _ _ _ _ _ _ _ _ _
             (u32 (u32 (Z.shiftl (Vector2u.x l) 1) + 1)) (k - 1));
    [| destruct (Z.eqb_spec 0 k); [lia | reflexivity]
     | rewrite E; reflexivity
     | destruct (Z.eqb_spec 0 k); [lia|]; destruct (Z.eqb_spec k N); [lia|];
       cbn [negb]; rewrite (u32_small (k - 1)) by lia; rewrite !wrap_Delta by lia;
       destruct (Z.eqb_spec k 1); [lia|]; destruct (Z.eqb_spec (k - 1) 1); [lia|];
       reflexivity
     | apply u32_small; lia | lia | lia | lia | rewrite Ho1; discriminate ].
  rewrite Ho1, Hf1. cbn [fst snd]. rewrite Race_Merge_cube. cbn [fst snd].
  rewrite (climb_right_first _ _ _ _ _ _ _ _ _ _ (u32 (Z.shiftl (k - 1) 1)));
    [| reflexivity | reflexivity
     | change (0 =? 2) with false; cbv iota; destruct (Z.eqb_spec k N); [lia|];
       cbn [negb]; change (u32 (2 - 1)) with 1; rewrite !wrap_Delta by lia;
       destruct (Z.eqb_spec k 1); [lia|]; reflexivity
     | cbn [LBVH.st_other]; rewrite vsize_vset; lia
     | cbn [LBVH.st_other LBVH.st_Nodes]; rewrite !vsize_vset; lia
     | cbn [LBVH.st_other LBVH.st_first]; rewrite !vsize_vset; lia
     | cbn [LBVH.st_other]; vat_simpl; exact Hok ].
  eexists. split; [reflexivity|].
  unfold Inv. cbn [LBVH.st_other LBVH.st_first LBVH.st_Nodes LBVH.st_Root].
  rewrite !vsize_vset. replace (k + 1 - 1) with k by lia. vat_simpl.
  rewrite Hbk.
  do 8 (split; [first [assumption | reflexivity]|]).
  intros j Hj. destruct (Hrest j ltac:(lia)) as [H1 H2]. vat_simpl. split; assumption.
Qed.

(** The climb of the last leaf: it is the second at node [N - 1], then the
    second at node 1, and ends at the root, node 1, whose right child is
    node [N - 1 = 2^31 + 1]: shifted left by one in 32 bits, it is 2. *)
Lemma wrap_last_climb (st : LBVH.build_state) :
  Inv N st ->
  exists st', body N st = Ok st' /\
    LBVH.st_Root st' = 1 /\ vsize (LBVH.st_Nodes st') = N /\
    vat (LBVH.st_Nodes st') 1 = Node.mk wrap_cube 0 2.
Proof.
  intros (Hn & Ho & Hf & Ho1 & Hf1 & Ho2 & Hf2 & HL & Hrest).
  assert (HN : N = 2147483650) by (unfold N; lia).
  destruct (Hleaf N ltac:(lia)) as (l & E & _ & A).
  unfold body, LBVH.climb_leaf. rewrite E. cbn [bind]. rewrite A. cbn [bind].
  rewrite (climb_left_second _ _ _ _ _ _ _ _ _ _
             (u32 (u32 (Z.shiftl (Vector2u.x l) 1) + 1)) (N - 1));
    [| destruct (Z.eqb_spec 0 N); [lia | reflexivity]
     | rewrite E; reflexivity
     | destruct (Z.eqb_spec 0 N); [lia|]; rewrite Z.eqb_refl; reflexivity
     | apply u32_small; lia | lia | lia | lia | rewrite Ho1; discriminate ].
  rewrite Ho1, Hf1. cbn [fst snd]. rewrite Race_Merge_cube. cbn [fst snd].
  rewrite (climb_left_second _ _ _ _ _ _ _ _ _ _ 2 1);
    [| reflexivity
     | rewrite HN; reflexivity
     | change (0 =? 2) with false; cbv iota; rewrite Z.eqb_refl; reflexivity
     | reflexivity
     | cbn [LBVH.st_other]; rewrite vsize_vset; lia
     | cbn [LBVH.st_other LBVH.st_Nodes]; rewrite !vsize_vset; lia
     | cbn [LBVH.st_other LBVH.st_first]; rewrite !vsize_vset; lia
     | cbn [LBVH.st_other]; vat_simpl; rewrite Ho2; discriminate ].
  cbn [LBVH.st_other LBVH.st_first LBVH.st_Nodes LBVH.st_Root]. vat_simpl.
  rewrite Ho2, Hf2. cbn [fst snd]. rewrite Race_Merge_cube. cbn [fst snd].
  rewrite climb_done by (rewrite !Z.eqb_refl; reflexivity).
  eexists. split; [reflexivity|].
  cbn [LBVH.st_other LBVH.st_first LBVH.st_Nodes LBVH.st_Root].
  rewrite !vsize_vset. vat_simpl.
  split; [reflexivity|]. split; [exact Hn|].
  unfold Node.set_Box, Node.set_R. cbn [Node.L Node.R Node.Box]. rewrite HL. reflexivity.
Qed.

Lemma wrap_climbs :
  exists st, for_range 0 (Z.to_nat T) body st0 = Ok st /\
    LBVH.st_Root st = 1 /\ vsize (LBVH.st_Nodes st) = N /\
    vat (LBVH.st_Nodes st) 1 = Node.mk wrap_cube 0 2.
Proof.
  replace (Z.to_nat T) with (3 + (Z.to_nat (T - 4) + 1))%nat by lia.
  rewrite for_range_app. destruct wrap_first_climbs as (st3 & -> & H3). cbn [bind].
  rewrite for_range_app.
  destruct (for_range_total Inv body (Z.to_nat (T - 4)) (0 + Z.of_nat 3) st3 H3)
    as (stN & -> & HInv).
  { intros i s Hi. apply wrap_middle_climb. lia. }
  cbn [bind for_range].
  replace (0 + Z.of_nat 3 + Z.of_nat (Z.to_nat (T - 4))) with N in * by (unfold N; lia).
  destruct (wrap_last_climb stN HInv) as (st & -> & Hst). cbn [bind].
  exists st. split; [reflexivity | exact Hst].
Qed.

End Climbs.

Lemma wrap_global_box : LBVH.global_box b = Ok wrap_cube.
Proof. vm_compute. reflexivity. Qed.

(** [Build] on the mesh, under any schedule and any outcome of the sort:
    the root is node 1, and its right child is the root itself. *)
Lemma wrap_Build (race : schedule) (sort : list Vector2u.t -> list Vector2u.t)
  (fuel : nat) :
  sorts sort ->
  exists g,
    LBVH.Build race sort (S (S (S fuel))) b = Ok g /\
    LBVH.Root g = 1 /\ vsize (LBVH.Nodes g) = T - 1 /\
    vat (LBVH.Nodes g) 1 = Node.mk wrap_cube 0 2.
Proof.
  intros Hsort.
  destruct (wrap_sorted sort Hsort) as (a0 & a1 & tail & Hs & Hy0 & Hy1 & Htail & Hx & Hlen).
  assert (Hleaf : forall i, 0 <= i < T ->
    exists l, LBVH.leaf_at (sort leaves0) i = Ok l /\
              Vector2u.y l = (if i <? 2 then 357913941 else 596523235) /\
              LBVH.leaf_aabb b wrap_cube (Vector2u.x l) = Ok wrap_cube).
  { intros i Hi. exists (leaf (sort leaves0) i).
    split; [apply leaf_at_in; lia|].
    assert (Hin : In (leaf (sort leaves0) i) (sort leaves0)).
    { unfold leaf. apply nth_In. lia. }
    split.
    - unfold leaf. rewrite Hs.
      destruct (Z.eq_dec i 0) as [->|H0]; [exact Hy0|].
      destruct (Z.eq_dec i 1) as [->|H1]; [exact Hy1|].
      destruct (Z.ltb_spec i 2); [lia|].
      replace (Z.to_nat i) with (S (S (Z.to_nat (i - 2)))) by lia. cbn [nth].
      rewrite Forall_forall in Htail. apply Htail, nth_In.
      rewrite Hs in Hlen. cbn [length] in Hlen. lia.
    - rewrite Forall_forall in Hx. apply wrap_leaf, Hx, Hin. }
  destruct (wrap_climbs race fuel (sort leaves0) Hleaf) as (st & Hrun & HR & Hsz & Hn1).
  assert (HT' : u32 (u64 (LBVH.IndexCount b) / 3) = T).
  { cbn [LBVH.IndexCount b]. rewrite HT. reflexivity. }
  unfold LBVH.Build. rewrite wrap_global_box. cbn [bind]. cbv zeta.
  rewrite HT', wrap_make_leaves. cbn [bind].
  rewrite (u32_small (T - 1)) by (rewrite HT; lia).
  rewrite Hrun. cbn [bind].
  eexists. split; [reflexivity|].
  cbn [LBVH.Root LBVH.Nodes]. rewrite vsize_vec_map, vat_vec_map, Hn1.
  repeat split; assumption.
Qed.

End Wrap.

(** Once a node is its own right child, every visit of it pushes two
    entries for the one it pops. *)
Lemma self_child_overflow (g : LBVH.t) (ray : s3d_Ray.t) (record : HitRecord.t)
  (p l : Z) (box : AABB.t) :
  0 <= p < vsize (LBVH.Nodes g) ->
  vat (LBVH.Nodes g) p = Node.mk box (Z.shiftl l 1) (Z.shiftl p 1) ->
  0 <= l ->
  AABB.Intersect box (s3d_Ray.pos ray) (s3d_Ray.inv_dir ray) (HitRecord.dist record) = true ->
  forall (n : nat) (stack : list Z) (fuel : nat),
    (length stack + n = 63)%nat ->
    LBVH.traverse_loop (S n + fuel) g ray (p :: stack) record = Err StackOverflow.
Proof.
  intros Hp Hnode Hl Hbox.
  assert (Hodd : forall c, 0 <= c -> negb (Z.land (Z.shiftl c 1) 1 =? 0) = false).
  { intros c Hc. assert (H : Z.land (Z.shiftl c 1) (Z.ones 1) = 0).
    { rewrite Z.land_ones, Z.shiftl_mul_pow2 by lia. apply Z.mod_mul. lia. }
    change (Z.ones 1) with 1 in H. rewrite H. reflexivity. }
  assert (Hidx : forall c, 0 <= c -> Z.shiftr (Z.shiftl c 1) 1 = c).
  { intros c Hc. rewrite Z.shiftr_shiftl_l by lia. apply Z.shiftl_0_r. }
  induction n as [|n IH]; intros stack fuel Hlen.
  - cbn [Nat.add]. rewrite traverse_loop_S, vec_get_in by exact Hp. cbn [bind].
    rewrite Hnode. cbn [Node.Box Node.L Node.R]. rewrite Hbox. cbn [negb].
    unfold LBVH.visit_child. cbn [fst snd]. rewrite (Hodd l Hl), (Hodd p) by lia.
    rewrite (Hidx l Hl), (Hidx p) by lia.
    unfold LBVH.push. destruct (Z.ltb_spec (Z.of_nat (length stack)) 64); [|lia].
    cbn [bind fst snd length].
    destruct (Z.ltb_spec (Z.of_nat (S (length stack))) 64); [lia|]. reflexivity.
  - cbn [Nat.add]. rewrite traverse_loop_S, vec_get_in by exact Hp. cbn [bind].
    rewrite Hnode. cbn [Node.Box Node.L Node.R]. rewrite Hbox. cbn [negb].
    unfold LBVH.visit_child. cbn [fst snd]. rewrite (Hodd l Hl), (Hodd p) by lia.
    rewrite (Hidx l Hl), (Hidx p) by lia.
    unfold LBVH.push. destruct (Z.ltb_spec (Z.of_nat (length stack)) 64); [|lia].
    cbn [bind fst snd length].
    destruct (Z.ltb_spec (Z.of_nat (S (length stack))) 64); [|lia].
    cbn [bind fst snd]. apply (IH (l :: stack) fuel). cbn [length]. lia.
Qed.

(** C5.  On the mesh of [2^31 + 3] triangles of [wrap_indices], under every
    schedule of the merges and every outcome of the sort, [Build] makes
    node 1 the root, with node 0 as left child and node [2^31 + 1] as
    right child; [2^31 + 1] shifted left by one in 32 bits is 2, which
    decodes to node 1, the root itself.  The ray of [wrap_ray] meets the
    root's box, so every visit of the root pops one entry and pushes two,
    and the 64th visit pushes on a full [visit_stack]. *)
Theorem visit_stack_overflow (race : schedule) (sort : list Vector2u.t -> list Vector2u.t)
  (fuel0 fuel : nat) :
  sorts sort ->
  exists g,
    preprocess race sort (3 + fuel0) LBVH.init
      (Some wrap_vertices) 4 (Some edge_normals) 1 (Some wrap_indices) wrap_faceCount = Ok g /\
    LBVH.Root g = 1 /\
    Node.L (vat (LBVH.Nodes g) 1) = 0 /\ Node.R (vat (LBVH.Nodes g) 1) = 2 /\
    LBVH.TraverseIterative (64 + fuel) g wrap_ray (fresh_record f10) = Err StackOverflow.
Proof.
  intros Hsort.
  destruct (wrap_Build wrap_indices wrap_faceCount read_wrap_indices eq_refl
              race sort fuel0 Hsort) as (g & HB & HR & Hsz & Hn).
  exists g. split; [exact HB|]. split; [exact HR|].
  rewrite Hn. split; [reflexivity|]. split; [reflexivity|].
  unfold LBVH.TraverseIterative. rewrite HR.
  apply (self_child_overflow g wrap_ray (fresh_record f10) 1 0 wrap_cube).
  - rewrite Hsz. unfold wrap_faceCount. lia.
  - exact Hn.
  - lia.
  - vm_compute. reflexivity.
  - reflexivity.
Qed.

Lemma visit_stack_overflow_witness :
  exists g,
    preprocess in_order sort_leaves 3 LBVH.init
      (Some wrap_vertices) 4 (Some edge_normals) 1 (Some wrap_indices) wrap_faceCount = Ok g /\
    LBVH.Root g = 1 /\
    Node.L (vat (LBVH.Nodes g) 1) = 0 /\ Node.R (vat (LBVH.Nodes g) 1) = 2 /\
    LBVH.TraverseIterative 64 g wrap_ray (fresh_record f10) = Err StackOverflow.
Proof.
  apply (visit_stack_overflow in_order sort_leaves 0%nat 0%nat sort_leaves_sorts).
Defined.

(** * Further properties *)

(** ** What the traversal reports *)

Lemma IsHit_accepts (b : LBVH.t) (ray : s3d_Ray.t) (record record' : HitRecord.t) (f : Z) :
  LBVH.IsHit b ray record f = Ok record' ->
  record' = record \/ accepts b ray f record'.
Proof.
  unfold LBVH.IsHit. intros H. inv_bind H. destruct a as [[p0 p1] p2].
  rewrite IntersectTriangle_unfold in H.
  destruct (passes_but_dist _ _ _ _ _ _ _) eqn:Hp; cbn [andb] in H.
  - destruct (negb _); injection H as <-.
    + right. exists p0, p1, p2. repeat split; assumption.
    + left. destruct record; reflexivity.
  - injection H as <-. left. destruct record; reflexivity.
Qed.

Lemma visit_child_accepts (b : LBVH.t) (ray : s3d_Ray.t) (child : Z)
  (rs rs' : HitRecord.t * list Z) :
  LBVH.visit_child b ray child rs = Ok rs' ->
  fst rs' = fst rs \/ exists f, accepts b ray f (fst rs').
Proof.
  unfold LBVH.visit_child. intros H. destruct (negb _).
  - inv_bind H. injection H as <-. cbn [fst].
    destruct (IsHit_accepts _ _ _ _ _ Ha) as [->|Hacc]; [left; reflexivity | right; eauto].
  - inv_bind H. injection H as <-. left. reflexivity.
Qed.

Lemma traverse_loop_accepts (b : LBVH.t) (ray : s3d_Ray.t) (record0 : HitRecord.t) :
  forall (fuel : nat) (stack : list Z) (record record' : HitRecord.t),
    record = record0 \/ (exists f, accepts b ray f record) ->
    LBVH.traverse_loop fuel b ray stack record = Ok record' ->
    record' = record0 \/ exists f, accepts b ray f record'.
Proof.
  induction fuel as [|fuel IH]; intros stack record record' HP H.
  - destruct stack; simpl in H; [injection H as <-; exact HP | discriminate].
  - destruct stack as [|idx stack]; [simpl in H; injection H as <-; exact HP|].
    cbn [LBVH.traverse_loop] in H. inv_bind H.
    destruct (negb _); [exact (IH _ _ _ HP H)|].
    inv_bind H. inv_bind H.
    apply (IH _ _ _) in H; [exact H|].
    destruct (visit_child_accepts _ _ _ _ _ Ha1) as [E1|A1]; [|right; exact A1].
    rewrite E1.
    destruct (visit_child_accepts _ _ _ _ _ Ha0) as [E0|A0]; [|right; exact A0].
    rewrite E0. exact HP.
Qed.

(** X1.  Whatever the nodes hold, a traversal that ends returns either the
    record it was given, untouched, or the record [IsHit] writes for a
    triangle whose corners it could read and that passes the determinant,
    barycentric and range tests for this ray: [hit] is set, [dist], [u],
    [v] are that triangle's, [face_id] is its index. *)
Theorem traversal_reports_tested_triangle (fuel : nat) (g : LBVH.t) (ray : s3d_Ray.t)
  (record record' : HitRecord.t) :
  LBVH.TraverseIterative fuel g ray record = Ok record' ->
  record' = record \/ exists f, accepts g ray f record'.
Proof.
  unfold LBVH.TraverseIterative. intros H.
  apply (traverse_loop_accepts g ray record _ _ _ _ (or_introl eq_refl) H).
Qed.

Lemma traversal_reports_tested_triangle_witness :
  HitRecord.mk true F32.one half F32.zero 0 = fresh_record f10 \/
  exists f, accepts edge_bvh edge_ray f (HitRecord.mk true F32.one half F32.zero 0).
Proof.
  apply (traversal_reports_tested_triangle 2 edge_bvh edge_ray (fresh_record f10)).
  vm_compute. reflexivity.
Defined.
(** ** What [intersect] writes *)

Lemma u32_i32 (z : Z) : u32 (i32 z) = u32 z.
Proof.
  unfold i32. cbv zeta. destruct (u32 z <? 2 ^ 31).
  - unfold u32. apply Z.mod_mod. lia.
  - unfold u32. rewrite <- (Z.mod_add (z mod 2 ^ 32 - 2 ^ 32) 1 (2 ^ 32)) by lia.
    replace (z mod 2 ^ 32 - 2 ^ 32 + 1 * 2 ^ 32) with (z mod 2 ^ 32) by lia.
    apply Z.mod_mod. lia.
Qed.

Lemma u32_mul_3 (z : Z) : u32 (u32 z * 3) = u32 (z * 3).
Proof. unfold u32. apply Z.mul_mod_idemp_l. lia. Qed.

Lemma CalcPosition_barycentric (b : LBVH.t) (f : Z) (u v w : float) (p0 p1 p2 : Vector3f.t) :
  LBVH.corners b (u32 (f * 3)) = Ok (p0, p1, p2) ->
  LBVH.CalcPosition b (u32 (i32 f)) u v w = Ok (barycentric p0 p1 p2 u v w).
Proof.
  intros Hc. unfold LBVH.CalcPosition. cbv zeta.
  rewrite u32_i32, u32_mul_3, Hc. reflexivity.
Qed.

Lemma CalcNormal_barycentric (b : LBVH.t) (f : Z) (u v w : float) (n : Vector3f.t) :
  LBVH.CalcNormal b (u32 (i32 f)) u v w = Ok n ->
  exists n0 n1 n2,
    normal_corners b (u32 (f * 3)) = Ok (n0, n1, n2) /\ n = barycentric n0 n1 n2 u v w.
Proof.
  unfold LBVH.CalcNormal, normal_corners. cbv zeta.
  rewrite u32_i32, u32_mul_3. intros H.
  inv_bind H. inv_bind H. inv_bind H. injection H as <-.
  exists a, a0, a1. rewrite Ha, Ha0, Ha1. split; reflexivity.
Qed.

(** X2.  A descriptor that [intersect] marks as hit holds the point and the
    normal of one triangle the ray passes the tests of: [isect] and [ns]
    are [w P0 + u P1 + v P2] and [w N0 + u N1 + v N2] over the corners and
    the corner normals of that triangle, with its own [u], [v] and
    [w = 1 - u - v]. *)
Theorem intersect_ray_hit (fuel : nat) (g : LBVH.t) (ind : HitRecord.t) (r r' : Ray.t) :
  intersect_ray fuel g ind r = Ok r' -> Ray.isisect r' = true ->
  exists f p0 p1 p2 n0 n1 n2,
    LBVH.corners g (u32 (f * 3)) = Ok (p0, p1, p2) /\
    normal_corners g (u32 (f * 3)) = Ok (n0, n1, n2) /\
    passes_but_dist (Ray.pos r) (Ray.dir r) p0 p1 p2 (Ray.tnear r) (Ray.tfar r) = true /\
    let u := tri_u (Ray.pos r) (Ray.dir r) p0 p1 p2 in
    let v := tri_v (Ray.pos r) (Ray.dir r) p0 p1 p2 in
    let w := (F32.one - u - v)%f32 in
    Ray.isect r' = barycentric p0 p1 p2 u v w /\
    Ray.ns r' = barycentric n0 n1 n2 u v w.
Proof.
  unfold intersect_ray. intros H Hhit.
  destruct (Ray.valid r); cbn [negb] in H; [|injection H as <-; discriminate].
  inv_bind H.
  assert (Hh : HitRecord.hit a = true).
  { destruct (HitRecord.hit a); [reflexivity|]. injection H as <-. discriminate. }
  rewrite Hh in H. inv_bind H. inv_bind H. injection H as <-.
  unfold LBVH.TraverseIterative in Ha.
  apply (traverse_loop_accepts _ _ _ _ _ _ _ (or_introl eq_refl)) in Ha.
  destruct Ha as [->|(f & p0 & p1 & p2 & Hc & Hp & ->)]; [discriminate|].
  cbn [HitRecord.u HitRecord.v HitRecord.face_id s3d_Ray.pos s3d_Ray.dir
       s3d_Ray.tmin s3d_Ray.tmax] in *.
  rewrite (CalcPosition_barycentric _ _ _ _ _ _ _ _ Hc) in Ha0. injection Ha0 as <-.
  destruct (CalcNormal_barycentric _ _ _ _ _ _ Ha1) as (n0 & n1 & n2 & Hn & ->).
  exists f, p0, p1, p2, n0, n1, n2. repeat split; assumption.
Qed.

Lemma intersect_ray_hit_witness :
  exists f p0 p1 p2 n0 n1 n2,
    LBVH.corners edge_bvh (u32 (f * 3)) = Ok (p0, p1, p2) /\
    normal_corners edge_bvh (u32 (f * 3)) = Ok (n0, n1, n2) /\
    passes_but_dist (Ray.pos edge_desc) (Ray.dir edge_desc) p0 p1 p2
      (Ray.tnear edge_desc) (Ray.tfar edge_desc) = true /\
    let u := tri_u (Ray.pos edge_desc) (Ray.dir edge_desc) p0 p1 p2 in
    let v := tri_v (Ray.pos edge_desc) (Ray.dir edge_desc) p0 p1 p2 in
    let w := (F32.one - u - v)%f32 in
    Ray.isect (nth 1 edge_rays_after edge_desc) = barycentric p0 p1 p2 u v w /\
    Ray.ns (nth 1 edge_rays_after edge_desc) = barycentric n0 n1 n2 u v w.
Proof.
  apply (intersect_ray_hit 2 edge_bvh (fresh_record F32.zero) edge_desc
           (nth 1 edge_rays_after edge_desc)); vm_compute; reflexivity.
Defined.

(** The descriptors while the loop of [intersect] runs: the first [k] are
    what [intersect_ray] makes of them, the others are as they were, and
    all [k] of them were in the array. *)
Lemma intersect_loop (fuel : nat) (gLBVH : LBVH.t) (ind : HitRecord.t) (rays : list Ray.t)
  (n : nat) (st : option (list Ray.t)) :
  for_range 0 n
    (fun i rays =>
       r <- read rays i ;;
       r' <- intersect_ray fuel gLBVH ind r ;;
       Ok (option_map (fun l => write l (Z.to_nat i) r') rays))
    (Some rays) = Ok st ->
  exists l, st = Some l /\ length l = length rays /\ (n <= length rays)%nat /\
    forall (i : nat) (r : Ray.t), nth_error rays i = Some r ->
      exists r', nth_error l i = Some r' /\
        if (i <? n)%nat then intersect_ray fuel gLBVH ind r = Ok r' else r' = r.
Proof.
  intros Hrun.
  set (P := fun (k : Z) (st : option (list Ray.t)) =>
    exists l, st = Some l /\ length l = length rays /\ k <= Z.of_nat (length rays) /\
      forall (i : nat) (r : Ray.t), nth_error rays i = Some r ->
        exists r', nth_error l i = Some r' /\
          if Z.of_nat i <? k then intersect_ray fuel gLBVH ind r = Ok r' else r' = r).
  assert (HP : P (0 + Z.of_nat n) st).
  { apply (for_range_ind P _ _ _ _ _ Hrun).
    - exists rays. split; [reflexivity|]. split; [reflexivity|]. split; [lia|].
      intros i r Hi. exists r. split; [exact Hi|].
      destruct (Z.ltb_spec (Z.of_nat i) 0); [lia | reflexivity].
    - intros i s0 s1 Hi (l & -> & Hlen & Hk & Hl) Hbody.
      inv_bind Hbody. inv_bind Hbody. injection Hbody as <-. simpl.
      exists (write l (Z.to_nat i) a0). split; [reflexivity|].
      split; [rewrite length_write; exact Hlen|].
      unfold read in Ha. destruct (Z.ltb_spec i 0) as [|Hi0]; [lia|].
      destruct (nth_error l (Z.to_nat i)) as [ri|] eqn:Hri; [|discriminate].
      injection Ha as ->.
      assert (Hlt : (Z.to_nat i < length l)%nat) by (apply nth_error_Some; congruence).
      split; [lia|].
      intros j r Hj. destruct (Hl j r Hj) as (r' & Hr' & Hrel).
      rewrite nth_error_write.
      destruct (Nat.eqb_spec j (Z.to_nat i)) as [->|Hne].
      + apply Nat.ltb_lt in Hlt. rewrite Hlt. exists a0. split; [reflexivity|].
        rewrite Z2Nat.id in Hrel |- * by lia.
        rewrite Z.ltb_irrefl in Hrel.
        assert (Hi1 : (i <? i + 1) = true) by (apply Z.ltb_lt; lia). rewrite Hi1.
        subst r'. rewrite Hr' in Hri. injection Hri as ->. exact Ha0.
      + exists r'. split; [exact Hr'|].
        destruct (Z.ltb_spec (Z.of_nat j) i) as [Hji|Hji].
        * assert (Hj1 : (Z.of_nat j <? i + 1) = true) by (apply Z.ltb_lt; lia).
          rewrite Hj1. exact Hrel.
        * assert (Hj1 : (Z.of_nat j <? i + 1) = false) by (apply Z.ltb_ge; lia).
          rewrite Hj1. exact Hrel. }
  destruct HP as (l & -> & Hlen & Hk & Hl). exists l.
  split; [reflexivity|]. split; [exact Hlen|]. split; [lia|].
  intros i r Hi. destruct (Hl i r Hi) as (r' & Hr' & Hrel). exists r'. split; [exact Hr'|].
  destruct (Nat.ltb_spec i n) as [Hlt|Hge].
  - assert (E : (Z.of_nat i <? 0 + Z.of_nat n) = true) by (apply Z.ltb_lt; lia).
    rewrite E in Hrel. exact Hrel.
  - assert (E : (Z.of_nat i <? 0 + Z.of_nat n) = false) by (apply Z.ltb_ge; lia).
    rewrite E in Hrel. exact Hrel.
Qed.

(** X3.  [intersect] treats the rays one by one: when it returns, the
    array has its length, [rayCount] did not exceed it, each of the first
    [rayCount] descriptors is what the loop body makes of that descriptor
    alone, and the descriptors from [rayCount] on are as they were. *)
Theorem intersect_pointwise (fuel : nat) (gLBVH : LBVH.t) (ind : HitRecord.t)
  (rays : list Ray.t) (rayCount : Z) (hitAny : bool) (out : option (list Ray.t)) :
  intersect fuel gLBVH ind (Some rays) rayCount hitAny = Ok out ->
  exists rays', out = Some rays' /\
    length rays' = length rays /\ rayCount <= Z.of_nat (length rays) /\
    forall (i : nat) (r : Ray.t), nth_error rays i = Some r ->
      exists r', nth_error rays' i = Some r' /\
        if Z.of_nat i <? rayCount
        then intersect_ray fuel gLBVH ind r = Ok r'
        else r' = r.
Proof.
  unfold intersect. intros H.
  destruct (intersect_loop _ _ _ _ _ _ H) as (l & -> & Hlen & Hn & Hl).
  exists l. split; [reflexivity|]. split; [exact Hlen|]. split; [lia|].
  intros i r Hi. destruct (Hl i r Hi) as (r' & Hr' & Hrel). exists r'. split; [exact Hr'|].
  destruct (Nat.ltb_spec i (Z.to_nat rayCount)) as [Hlt|Hge].
  - assert (E : (Z.of_nat i <? rayCount) = true) by (apply Z.ltb_lt; lia).
    rewrite E. exact Hrel.
  - assert (E : (Z.of_nat i <? rayCount) = false) by (apply Z.ltb_ge; lia).
    rewrite E. exact Hrel.
Qed.

Lemma intersect_pointwise_witness :
  exists rays', Some [Ray.set_isisect invalid_desc false; edge_desc] = Some rays' /\
    length rays' = length edge_rays /\ 1 <= Z.of_nat (length edge_rays) /\
    forall (i : nat) (r : Ray.t), nth_error edge_rays i = Some r ->
      exists r', nth_error rays' i = Some r' /\
        if Z.of_nat i <? 1
        then intersect_ray 2 edge_bvh (fresh_record F32.zero) r = Ok r'
        else r' = r.
Proof.
  apply (intersect_pointwise 2 edge_bvh (fresh_record F32.zero) edge_rays 1 false).
  vm_compute. reflexivity.
Defined.

(** ** After Destruct *)

Lemma in_bounds_empty (i : Z) : in_bounds i 0 = false.
Proof.
  unfold in_bounds. destruct (Z.leb_spec 0 i), (Z.ltb_spec i 0); try reflexivity. lia.
Qed.

(** X4.  [Destruct] empties [Nodes] and leaves [Root] alone, so a
    traversal after it indexes an empty vector whatever [Root] is:
    [intersect] on a valid ray is then undefined, it does not report a
    miss. *)
Theorem intersect_after_Destruct (fuel : nat) (b : LBVH.t) (ind : HitRecord.t) (r : Ray.t) :
  Ray.valid r = true ->
  LBVH.Root (Destruct b) = LBVH.Root b /\
  vsize (LBVH.Nodes (Destruct b)) = 0 /\
  intersect_ray (S fuel) (Destruct b) ind r = Err OutOfBounds.
Proof.
  intros Hv. split; [reflexivity|]. split; [reflexivity|].
  unfold intersect_ray. rewrite Hv. cbn [negb].
  unfold LBVH.TraverseIterative. rewrite traverse_loop_S.
  unfold vec_get. cbn [Destruct LBVH.Nodes LBVH.Root vec_resize vsize].
  rewrite in_bounds_empty. reflexivity.
Qed.

Lemma intersect_after_Destruct_witness :
  LBVH.Root (Destruct edge_bvh) = LBVH.Root edge_bvh /\
  vsize (LBVH.Nodes (Destruct edge_bvh)) = 0 /\
  intersect_ray 2 (Destruct edge_bvh) (fresh_record F32.zero) edge_desc = Err OutOfBounds.
Proof.
  apply (intersect_after_Destruct 1 edge_bvh (fresh_record F32.zero) edge_desc). reflexivity.
Defined.

(** ** Build: how it can fail *)

Lemma bind_Err_inv {A B} (m : result A) (k : A -> result B) (e : error) :
  bind m k = Err e -> m = Err e \/ exists a, m = Ok a /\ k a = Err e.
Proof.
  destruct m as [a|e']; simpl; intros H; [right; eauto | left; congruence].
Qed.

Lemma read_undefined {A} (p : option (list A)) (i : Z) (e : error) :
  read p i = Err e -> undefined e.
Proof.
  unfold read, undefined. destruct p as [l|]; [|intros [= <-]; auto].
  destruct (i <? 0); [intros [= <-]; auto|].
  destruct (nth_error l (Z.to_nat i)); [discriminate | intros [= <-]; auto].
Qed.

Lemma read_Vector3f_undefined (p : option (list float)) (i : Z) (e : error) :
  LBVH.read_Vector3f p i = Err e -> undefined e.
Proof.
  unfold LBVH.read_Vector3f. intros H.
  repeat (apply bind_Err_inv in H;
          destruct H as [H|(? & _ & H)]; [exact (read_undefined _ _ _ H)|]).
  discriminate.
Qed.

Lemma corners_undefined (b : LBVH.t) (id : Z) (e : error) :
  LBVH.corners b id = Err e -> undefined e.
Proof.
  assert (Hc : forall k, LBVH.corner b id k = Err e -> undefined e).
  { intros k H. unfold LBVH.corner in H. apply bind_Err_inv in H.
    destruct H as [H|(? & _ & H)]; [exact (read_undefined _ _ _ H)|].
    exact (read_Vector3f_undefined _ _ _ H). }
  unfold LBVH.corners. intros H.
  repeat (apply bind_Err_inv in H; destruct H as [H|(? & _ & H)]; [exact (Hc _ H)|]).
  discriminate.
Qed.

Lemma to_u32_undefined (f : float) (e : error) : F32.to_u32 f = Err e -> undefined e.
Proof.
  unfold F32.to_u32, undefined. destruct f as [s|s| |s m e0]; cbv zeta.
  - discriminate.
  - intros [= <-]; auto.
  - intros [= <-]; auto.
  - destruct s; [destruct (_ =? 0) | destruct (_ <? 2 ^ 32)];
      try discriminate; intros [= <-]; auto.
Qed.

Lemma Morton3D_undefined (x y z : float) (e : error) : Morton3D x y z = Err e -> undefined e.
Proof.
  unfold Morton3D. intros H.
  repeat (apply bind_Err_inv in H;
          destruct H as [H|(? & _ & H)]; [exact (to_u32_undefined _ _ H)|]).
  discriminate.
Qed.

Lemma make_leaves_undefined (b : LBVH.t) (box : AABB.t) (T : Z) (e : error) :
  LBVH.make_leaves b box T = Err e -> undefined e.
Proof.
  unfold LBVH.make_leaves. generalize (Zrange 0 (Z.to_nat T)) as l.
  induction l as [|i l IH]; simpl; [discriminate|]. intros H.
  apply bind_Err_inv in H. destruct H as [H|(? & _ & H)].
  - unfold LBVH.make_leaf in H. apply bind_Err_inv in H.
    destruct H as [H|([[p0 p1] p2] & _ & H)]; [exact (corners_undefined _ _ _ H)|].
    apply bind_Err_inv in H. destruct H as [H|(? & _ & H)]; [|discriminate].
    exact (Morton3D_undefined _ _ _ _ H).
  - apply bind_Err_inv in H. destruct H as [H|(? & _ & H)]; [exact (IH H) | discriminate].
Qed.

Lemma global_box_undefined (b : LBVH.t) (e : error) :
  LBVH.global_box b = Err e -> undefined e.
Proof.
  unfold LBVH.global_box. generalize AABB.Clear as box, 0 as lo.
  induction (Z.to_nat (LBVH.PositionCount b)) as [|n IH]; intros box lo; simpl; [discriminate|].
  intros H. apply bind_Err_inv in H. destruct H as [H|(? & _ & H)]; [|exact (IH _ _ H)].
  apply bind_Err_inv in H. destruct H as [H|(? & _ & H)]; [|discriminate].
  exact (read_Vector3f_undefined _ _ _ H).
Qed.

Lemma leaf_aabb_undefined (b : LBVH.t) (box : AABB.t) (f : Z) (e : error) :
  LBVH.leaf_aabb b box f = Err e -> undefined e.
Proof.
  unfold LBVH.leaf_aabb. intros H. apply bind_Err_inv in H.
  destruct H as [H|([[p0 p1] p2] & _ & H)]; [exact (corners_undefined _ _ _ H) | discriminate].
Qed.

Lemma make_leaves_length (b : LBVH.t) (box : AABB.t) (T : Z) (leaves : list Vector2u.t) :
  LBVH.make_leaves b box T = Ok leaves -> length leaves = Z.to_nat T.
Proof.
  unfold LBVH.make_leaves. intros H. apply mapM_Ok in H.
  rewrite <- (Forall2_length H). apply Zrange_length.
Qed.

(** X5.  The [while(1)] of a climb ends: with room for [T] turns per climb
    (and for one when [T] is less), [preprocess] on less than [2^31]
    triangles returns, or stops on a read through a null pointer, a read
    out of bounds or the cast of a NaN, under every schedule; the loop
    never runs on. *)
Theorem Build_ends (race : schedule) (sort : list Vector2u.t -> list Vector2u.t)
  (fuel : nat)
  (gLBVH : LBVH.t) vertices vertexCount normals normalCount indices (faceCount : Z) :
  sorts sort -> 0 <= faceCount < 2 ^ 31 ->
  faceCount <= Z.of_nat fuel -> (1 <= fuel)%nat ->
  (exists g,
     preprocess race sort fuel gLBVH vertices vertexCount normals normalCount indices
       faceCount = Ok g) \/
  (exists e,
     preprocess race sort fuel gLBVH vertices vertexCount normals normalCount indices
       faceCount = Err e /\ undefined e).
Proof.
  intros Hsort Hfc Hfuel Hf1.
  destruct (preprocess race sort fuel gLBVH vertices vertexCount normals normalCount
              indices faceCount) as [g|e] eqn:Hpre; [left; eauto|].
  right. exists e. split; [reflexivity|]. unfold preprocess in Hpre.
  destruct (Z.lt_ge_cases faceCount 2) as [Hsmall|Hbig].
  - unfold LBVH.Build in Hpre. cbn [LBVH.IndexCount LBVH.Root LBVH.Nodes] in Hpre.
    rewrite preprocess_T in Hpre by lia.
    apply bind_Err_inv in Hpre.
    destruct Hpre as [H|(box & _ & H)]; [exact (global_box_undefined _ _ H)|].
    apply bind_Err_inv in H.
    destruct H as [H|(leaves0 & Hml & H)]; [exact (make_leaves_undefined _ _ _ _ H)|].
    apply make_leaves_length in Hml.
    apply bind_Err_inv in H. destruct H as [H|(? & _ & H)]; [|discriminate].
    destruct (Z.eq_dec faceCount 0) as [->|Hne]; [discriminate|].
    assert (faceCount = 1) by lia. subst faceCount.
    change (Z.to_nat 1) with 1%nat in H, Hml. cbn [for_range] in H.
    apply bind_Err_inv in H. destruct H as [H|(? & _ & H)]; [|discriminate].
    unfold LBVH.climb_leaf in H.
    destruct (Hsort leaves0) as [Hperm _].
    rewrite leaf_at_in in H by (rewrite <- (Permutation_length Hperm), Hml; lia).
    cbn [bind] in H. apply bind_Err_inv in H.
    destruct H as [H|(? & _ & H)]; [exact (leaf_aabb_undefined _ _ _ _ H)|].
    destruct fuel as [|fuel]; [lia|]. rewrite climb_done in H by reflexivity. discriminate.
  - match type of Hpre with LBVH.Build _ _ _ ?b = _ =>
      pose proof (Build_spec race sort fuel b Hsort) as HB end.
    cbv zeta in HB. rewrite Hpre in HB. cbn [LBVH.IndexCount] in HB.
    rewrite preprocess_T in HB by lia.
    destruct (HB ltac:(lia)) as [H|[(box & _ & H)|[_ H]]].
    + exact (global_box_undefined _ _ H).
    + exact (make_leaves_undefined _ _ _ _ H).
    + lia.
Qed.

(** The two climbs of [edge_input] end within two turns each: the second
    one meets the first at node 0 and goes on to set [Root]. *)
Lemma Build_ends_witness :
  (exists g,
     preprocess in_order sort_leaves 2 LBVH.init
       (Some edge_vertices) 4 (Some edge_normals) 1 (Some edge_indices) 2 = Ok g) \/
  (exists e,
     preprocess in_order sort_leaves 2 LBVH.init
       (Some edge_vertices) 4 (Some edge_normals) 1 (Some edge_indices) 2 = Err e /\
     undefined e).
Proof.
  apply (Build_ends in_order sort_leaves 2 LBVH.init
           (Some edge_vertices) 4 (Some edge_normals) 1 (Some edge_indices) 2
           sort_leaves_sorts); lia.
Defined.

(** ** Build: the order of the leaves *)

Lemma Build_fields (race : schedule) (sort : list Vector2u.t -> list Vector2u.t) (fuel : nat) (b g : LBVH.t) :
  LBVH.Build race sort fuel b = Ok g ->
  LBVH.Positions g = LBVH.Positions b /\ LBVH.Indices g = LBVH.Indices b /\
  LBVH.PositionCount g = LBVH.PositionCount b.
Proof.
  unfold LBVH.Build. intros H. inv_bind H. inv_bind H. inv_bind H. injection H as <-.
  repeat split.
Qed.

Lemma global_box_same (g b : LBVH.t) :
  LBVH.Positions g = LBVH.Positions b -> LBVH.PositionCount g = LBVH.PositionCount b ->
  LBVH.global_box g = LBVH.global_box b.
Proof.
  intros HP HC. unfold LBVH.global_box, LBVH.Positions_at. rewrite HP, HC. reflexivity.
Qed.

Lemma make_leaf_same (g b : LBVH.t) (box : AABB.t) (i : Z) :
  LBVH.Positions g = LBVH.Positions b -> LBVH.Indices g = LBVH.Indices b ->
  LBVH.make_leaf g box i = LBVH.make_leaf b box i.
Proof.
  intros HP HI. unfold LBVH.make_leaf. rewrite (corners_same g b _ HP HI). reflexivity.
Qed.

Lemma bin_Ok_range (x : float) (xi : Z) : bin x = Ok xi -> 0 <= xi <= 1023.
Proof.
  intros H. destruct (F32.is_nan x) eqn:Hx.
  - destruct x; discriminate.
  - destruct (bin_range x Hx) as (xi' & H' & Hr & _). congruence.
Qed.

Lemma Morton3D_30 (x y z : float) (m : Z) : Morton3D x y z = Ok m -> 0 <= m < 2 ^ 30.
Proof.
  intros H. pose proof H as H'. unfold Morton3D in H'.
  change (F32.to_u32 (Clamp (x * F32.f1024)%f32 F32.zero F32.f1023)) with (bin x) in H'.
  change (F32.to_u32 (Clamp (y * F32.f1024)%f32 F32.zero F32.f1023)) with (bin y) in H'.
  change (F32.to_u32 (Clamp (z * F32.f1024)%f32 F32.zero F32.f1023)) with (bin z) in H'.
  inv_bind H'. inv_bind H'. inv_bind H'. clear H'.
  pose proof (bin_Ok_range _ _ Ha) as Hx. pose proof (bin_Ok_range _ _ Ha0) as Hy.
  pose proof (bin_Ok_range _ _ Ha1) as Hz.
  rewrite (Morton3D_of_bins _ _ _ _ _ _ Ha Ha0 Ha1 Hx Hy Hz) in H. injection H as <-.
  apply Morton_sum; assumption.
Qed.

Lemma make_leaves_each (b : LBVH.t) (box : AABB.t) (T : Z) (leaves : list Vector2u.t) :
  LBVH.make_leaves b box T = Ok leaves ->
  Forall (fun lf => LBVH.make_leaf b box (Vector2u.x lf) = Ok lf) leaves.
Proof.
  unfold LBVH.make_leaves. intros H. apply mapM_Ok in H.
  induction H as [|i lf l ls Hi _ IH]; constructor; [|exact IH].
  destruct (make_leaf_inv _ _ _ _ Hi) as [-> _]. exact Hi.
Qed.

Lemma make_leaf_code (b : LBVH.t) (box : AABB.t) (i : Z) (lf : Vector2u.t) :
  LBVH.make_leaf b box i = Ok lf -> 0 <= Vector2u.y lf < 2 ^ 30.
Proof.
  unfold LBVH.make_leaf. intros H. inv_bind H. destruct a as [[p0 p1] p2].
  inv_bind H. injection H as <-. simpl. eapply Morton3D_30; eassumption.
Qed.

Lemma Forall_perm {A} (P : A -> Prop) (l l' : list A) :
  Permutation l l' -> Forall P l -> Forall P l'.
Proof.
  intros HP HF. rewrite Forall_forall in *. intros a Ha.
  apply HF, (Permutation_in _ (Permutation_sym HP)), Ha.
Qed.

(** X6.  After [preprocess] on [T >= 2] triangles the leaves under [Root],
    read from left to right, are the [T] triangles, each once, in
    ascending order of their Morton codes: the codes, all below [2^30],
    of the centroids normalised to the box of all the positions. *)
Theorem Build_inorder_sorted (race : schedule) (sort : list Vector2u.t -> list Vector2u.t) (fuel : nat)
  (gLBVH : LBVH.t) vertices vertexCount normals normalCount indices (faceCount : Z)
  (g : LBVH.t) :
  sorts sort -> 2 <= faceCount < 2 ^ 31 ->
  preprocess race sort fuel gLBVH vertices vertexCount normals normalCount indices faceCount
  = Ok g ->
  exists (box : AABB.t) (leaves : list Vector2u.t),
    LBVH.global_box g = Ok box /\
    Forall (fun lf => LBVH.make_leaf g box (Vector2u.x lf) = Ok lf /\
                      0 <= Vector2u.y lf < 2 ^ 30) leaves /\
    Permutation (map Vector2u.x leaves) (Zrange 0 (Z.to_nat faceCount)) /\
    StronglySorted (fun a b => Vector2u.y a <= Vector2u.y b) leaves /\
    flatten (LBVH.Nodes g) (2 * LBVH.Root g) (map Vector2u.x leaves).
Proof.
  intros Hsort Hfc Hpre. unfold preprocess in Hpre.
  match type of Hpre with LBVH.Build _ _ _ ?b = _ =>
    pose proof (Build_spec race sort fuel b Hsort) as HB;
    pose proof (Build_fields race sort fuel b g Hpre) as (HP & HI & HC) end.
  cbv zeta in HB. rewrite Hpre in HB. cbn [LBVH.IndexCount] in HB.
  rewrite preprocess_T in HB by lia.
  destruct (HB Hfc) as (box & leaves0 & Hgb & Hml & Hlen & Hwf & _).
  destruct (Hsort leaves0) as [Hperm Hsorted].
  destruct Hwf as (HT & Hsize & Hroot & Hsub & HPx & _ & _ & _).
  assert (HlenT : length (sort leaves0) = Z.to_nat faceCount)
    by (rewrite <- (Permutation_length Hperm); exact Hlen).
  exists box, (sort leaves0).
  split; [rewrite (global_box_same _ _ HP HC); exact Hgb|].
  split.
  { apply (Forall_perm _ _ _ Hperm). apply make_leaves_each in Hml.
    rewrite Forall_forall in *. intros lf Hlf. specialize (Hml lf Hlf).
    rewrite (make_leaf_same _ _ _ _ HP HI). split; [exact Hml|].
    eapply make_leaf_code; eassumption. }
  split; [rewrite <- HlenT; exact HPx|].
  split; [exact Hsorted|].
  rewrite <- map_tri_leaves.
  pose proof (subtree_flatten (sort leaves0) _ _ _ _ (tri_range _ HPx) Hsub) as Hfl.
  replace (Z.to_nat (Z.of_nat (length (sort leaves0)) - 1 - 0 + 1))
    with (length (sort leaves0)) in Hfl by lia.
  exact Hfl.
Qed.

Lemma Build_inorder_sorted_witness :
  exists (box : AABB.t) (leaves : list Vector2u.t),
    LBVH.global_box edge_bvh = Ok box /\
    Forall (fun lf => LBVH.make_leaf edge_bvh box (Vector2u.x lf) = Ok lf /\
                      0 <= Vector2u.y lf < 2 ^ 30) leaves /\
    Permutation (map Vector2u.x leaves) (Zrange 0 (Z.to_nat 2)) /\
    StronglySorted (fun a b => Vector2u.y a <= Vector2u.y b) leaves /\
    flatten (LBVH.Nodes edge_bvh) (2 * LBVH.Root edge_bvh) (map Vector2u.x leaves).
Proof.
  apply (Build_inorder_sorted in_order sort_leaves 2 LBVH.init
           (Some edge_vertices) 4 (Some edge_normals) 1 (Some edge_indices) 2
           edge_bvh sort_leaves_sorts).
  - lia.
  - vm_compute. reflexivity.
Defined.

(** ** Build: the tree is determined by the sorted leaves *)

Lemma subtree_unique (leaves : list Vector2u.t) (nodes nodes' : vec Node.t) (c lo hi : Z) :
  subtree leaves nodes c lo hi ->
  forall c', subtree leaves nodes' c' lo hi ->
    c' = c /\
    forall q, lo <= q < hi ->
      Node.L (vat nodes' q) = Node.L (vat nodes q) /\
      Node.R (vat nodes' q) = Node.R (vat nodes q).
Proof.
  induction 1 as [i Hi|p lo hi Hlo Hhi HL IHL HR IHR Hw Hs]; intros c' H'.
  - inversion H' as [i' Hi' E1 E2 E3|p' lo' hi' Hlo' Hhi' HL' HR' Hw' Hs' E1 E2 E3]; subst.
    + split; [reflexivity | intros; lia].
    + lia.
  - inversion H' as [i' Hi' E1 E2 E3|p' lo' hi' Hlo' Hhi' HL' HR' Hw' Hs' E1 E2 E3]; subst.
    + lia.
    + assert (p' = p).
      { destruct (Z.lt_trichotomy p' p) as [Hlt|[Heq|Hgt]]; [|exact Heq|].
        - specialize (Hw p' ltac:(lia)). specialize (Hs' p ltac:(lia)). lia.
        - specialize (Hs p' ltac:(lia)). specialize (Hw' p ltac:(lia)). lia. }
      subst p'. split; [reflexivity|].
      destruct (IHL _ HL') as [EL HqL]. destruct (IHR _ HR') as [ER HqR].
      intros q Hq. destruct (Z.lt_trichotomy q p) as [Hlt|[->|Hgt]].
      * apply HqL. lia.
      * split; assumption.
      * apply HqR. lia.
Qed.

(** X7.  On [2 <= T < 2^31] triangles the tree depends on the mesh and
    on the order [std::sort] gave the leaves, not on what [gLBVH] held
    before, on the schedule of the merges or on the turns the climbs were
    given: two calls of [preprocess] on the same mesh end with the same
    [Root] and the same children in every node. *)
Theorem Build_topology_determined (race1 race2 : schedule)
  (sort : list Vector2u.t -> list Vector2u.t)
  (fuel1 fuel2 : nat) (gLBVH1 gLBVH2 : LBVH.t)
  vertices vertexCount normals normalCount indices (faceCount : Z) (g1 g2 : LBVH.t) :
  sorts sort -> 2 <= faceCount < 2 ^ 31 ->
  preprocess race1 sort fuel1 gLBVH1 vertices vertexCount normals normalCount indices
    faceCount = Ok g1 ->
  preprocess race2 sort fuel2 gLBVH2 vertices vertexCount normals normalCount indices
    faceCount = Ok g2 ->
  LBVH.Root g2 = LBVH.Root g1 /\
  forall p, 0 <= p < faceCount - 1 ->
    Node.L (vat (LBVH.Nodes g2) p) = Node.L (vat (LBVH.Nodes g1) p) /\
    Node.R (vat (LBVH.Nodes g2) p) = Node.R (vat (LBVH.Nodes g1) p).
Proof.
  intros Hsort Hfc H1 H2. unfold preprocess in H1, H2.
  set (b1 := LBVH.mk (LBVH.Root gLBVH1) vertices normals indices vertexCount normalCount
               (u64 (faceCount * 3)) (LBVH.Nodes gLBVH1)) in *.
  set (b2 := LBVH.mk (LBVH.Root gLBVH2) vertices normals indices vertexCount normalCount
               (u64 (faceCount * 3)) (LBVH.Nodes gLBVH2)) in *.
  pose proof (Build_spec race1 sort fuel1 b1 Hsort) as HB1.
  pose proof (Build_spec race2 sort fuel2 b2 Hsort) as HB2.
  cbv zeta in HB1, HB2. rewrite H1 in HB1. rewrite H2 in HB2.
  change (LBVH.IndexCount b1) with (u64 (faceCount * 3)) in HB1.
  change (LBVH.IndexCount b2) with (u64 (faceCount * 3)) in HB2.
  rewrite preprocess_T in HB1, HB2 by lia.
  destruct (HB1 Hfc) as (box1 & leaves1 & Hgb1 & Hml1 & Hlen1 & Hwf1 & _).
  destruct (HB2 Hfc) as (box2 & leaves2 & Hgb2 & Hml2 & Hlen2 & Hwf2 & _).
  assert (Ebox : box2 = box1).
  { rewrite (global_box_same b2 b1 eq_refl eq_refl) in Hgb2. congruence. }
  subst box2.
  assert (Eleaves : leaves2 = leaves1).
  { unfold LBVH.make_leaves in Hml1, Hml2.
    assert (E : forall l, mapM (LBVH.make_leaf b2 box1) l = mapM (LBVH.make_leaf b1 box1) l).
    { induction l as [|i l IH]; [reflexivity|]. cbn [mapM].
      rewrite IH, (make_leaf_same b2 b1 box1 i eq_refl eq_refl). reflexivity. }
    rewrite E in Hml2. congruence. }
  subst leaves2.
  destruct Hwf1 as (HT & _ & _ & Hsub1 & _). destruct Hwf2 as (_ & _ & _ & Hsub2 & _).
  destruct (subtree_unique _ _ _ _ _ _ Hsub1 _ Hsub2) as [ER Hq].
  split; [lia|]. intros p Hp. apply Hq.
  destruct (Hsort leaves1) as [Hperm _].
  rewrite <- (Permutation_length Hperm), Hlen1. lia.
Qed.

(** A second [preprocess] over what the first one left, with five turns
    per climb and every first merge lost, gives the same tree. *)
Lemma Build_topology_determined_witness :
  LBVH.Root (built (preprocess lossy sort_leaves 5 edge_bvh
                      (Some edge_vertices) 4 (Some edge_normals) 1 (Some edge_indices) 2))
  = LBVH.Root edge_bvh /\
  forall p, 0 <= p < 2 - 1 ->
    Node.L (vat (LBVH.Nodes (built (preprocess lossy sort_leaves 5 edge_bvh
                      (Some edge_vertices) 4 (Some edge_normals) 1 (Some edge_indices) 2))) p)
    = Node.L (vat (LBVH.Nodes edge_bvh) p) /\
    Node.R (vat (LBVH.Nodes (built (preprocess lossy sort_leaves 5 edge_bvh
                      (Some edge_vertices) 4 (Some edge_normals) 1 (Some edge_indices) 2))) p)
    = Node.R (vat (LBVH.Nodes edge_bvh) p).
Proof.
  apply (Build_topology_determined in_order lossy sort_leaves 2 5 LBVH.init edge_bvh
           (Some edge_vertices) 4 (Some edge_normals) 1 (Some edge_indices) 2
           edge_bvh _ sort_leaves_sorts).
  - lia.
  - vm_compute. reflexivity.
  - vm_compute. reflexivity.
Defined.

(** ** The order of binary32, continued *)

Lemma ltb_leb (a b : float) : F32.ltb a b = true -> F32.leb a b = true.
Proof.
  unfold F32.ltb, F32.leb, SFltb, SFleb. destruct (SFcompare a b) as [[]|]; congruence.
Qed.

Lemma leb_refl (a : float) : F32.is_nan a = false -> F32.leb a a = true.
Proof.
  unfold F32.leb, SFleb. destruct a as [s|s| |s m e]; simpl; try discriminate; intros _.
  - reflexivity.
  - destruct s; reflexivity.
  - destruct s; rewrite Z.compare_refl, Pos.compare_cont_refl; reflexivity.
Qed.

Lemma leb_trans (a b c : float) :
  F32.leb a b = true -> F32.leb b c = true -> F32.leb a c = true.
Proof.
  unfold F32.leb, SFleb.
  destruct a as [sa|sa| |sa ma ea], b as [sb|sb| |sb mb eb], c as [sc|sc| |sc mc ec];
    simpl; try discriminate; try reflexivity;
    repeat match goal with s : bool |- _ => destruct s end;
    simpl; try discriminate; try reflexivity.
  all: change (Pos.compare_cont Eq ma mb) with (Pos.compare ma mb);
    change (Pos.compare_cont Eq mb mc) with (Pos.compare mb mc);
    change (Pos.compare_cont Eq ma mc) with (Pos.compare ma mc).
  all: destruct (Z.compare_spec ea eb), (Z.compare_spec eb ec), (Z.compare_spec ea ec);
    try discriminate; try reflexivity; try lia.
  all: destruct (Pos.compare_spec ma mb), (Pos.compare_spec mb mc), (Pos.compare_spec ma mc);
    simpl; try discriminate; try reflexivity; lia.
Qed.

(** ** Min, Max and Clamp *)

Lemma Min_le (a b : float) :
  F32.is_nan a = false -> F32.is_nan b = false ->
  F32.leb (Min a b) a = true /\ F32.leb (Min a b) b = true.
Proof.
  intros Ha Hb. unfold Min. destruct (F32.ltb a b) eqn:E.
  - split; [apply leb_refl, Ha | apply ltb_leb, E].
  - rewrite (ltb_false_leb a b Ha Hb) in E. apply negb_false_iff in E.
    split; [exact E | apply leb_refl, Hb].
Qed.

Lemma Max_ge (a b : float) :
  F32.is_nan a = false -> F32.is_nan b = false ->
  F32.leb a (Max a b) = true /\ F32.leb b (Max a b) = true.
Proof.
  intros Ha Hb. unfold Max, F32.gtb. fold (F32.ltb b a). destruct (F32.ltb b a) eqn:E.
  - split; [apply leb_refl, Ha | apply ltb_leb, E].
  - rewrite (ltb_false_leb b a Hb Ha) in E. apply negb_false_iff in E.
    split; [exact E | apply leb_refl, Hb].
Qed.

(** X8.  For a value that is not a NaN and bounds [mini <= maxi],
    [Clamp] returns a value within the bounds, and the value itself when
    it is within them already. *)
Theorem Clamp_range (value mini maxi : float) :
  F32.is_nan value = false -> F32.leb mini maxi = true ->
  F32.leb mini (Clamp value mini maxi) = true /\
  F32.leb (Clamp value mini maxi) maxi = true /\
  (F32.leb mini value = true -> F32.leb value maxi = true ->
   Clamp value mini maxi = value).
Proof.
  intros Hv Hb. destruct (leb_not_nan _ _ Hb) as [Hlo Hhi].
  unfold Clamp, Min, Max, F32.gtb.
  fold (F32.ltb maxi value).
  destruct (F32.ltb maxi value) eqn:E1.
  - fold (F32.ltb maxi mini). rewrite (ltb_false_leb maxi mini Hhi Hlo), Hb. cbn [negb].
    split; [exact Hb|]. split; [apply leb_refl, Hhi|].
    intros _ H. rewrite (ltb_false_leb maxi value Hhi Hv), H in E1. discriminate.
  - fold (F32.ltb value mini). destruct (F32.ltb value mini) eqn:E2.
    + split; [apply leb_refl, Hlo|]. split; [exact Hb|].
      intros H _. rewrite (ltb_false_leb value mini Hv Hlo), H in E2. discriminate.
    + rewrite (ltb_false_leb maxi value Hhi Hv) in E1. apply negb_false_iff in E1.
      rewrite (ltb_false_leb value mini Hv Hlo) in E2. apply negb_false_iff in E2.
      repeat split; assumption.
Qed.

Lemma Clamp_range_witness :
  F32.leb F32.zero (Clamp (fZ 2000) F32.zero F32.f1023) = true /\
  F32.leb (Clamp (fZ 2000) F32.zero F32.f1023) F32.f1023 = true /\
  (F32.leb F32.zero (fZ 2000) = true -> F32.leb (fZ 2000) F32.f1023 = true ->
   Clamp (fZ 2000) F32.zero F32.f1023 = fZ 2000).
Proof.
  apply (Clamp_range (fZ 2000) F32.zero F32.f1023); reflexivity.
Defined.

(** ** Merge keeps what a box contains *)

Lemma inside_iff (b : AABB.t) (p : Vector3f.t) :
  inside b p = true <->
  (F32.leb (Vector3f.x (AABB.mini b)) (Vector3f.x p) = true /\
   F32.leb (Vector3f.y (AABB.mini b)) (Vector3f.y p) = true /\
   F32.leb (Vector3f.z (AABB.mini b)) (Vector3f.z p) = true) /\
  (F32.leb (Vector3f.x p) (Vector3f.x (AABB.maxi b)) = true /\
   F32.leb (Vector3f.y p) (Vector3f.y (AABB.maxi b)) = true /\
   F32.leb (Vector3f.z p) (Vector3f.z (AABB.maxi b)) = true).
Proof.
  unfold inside, AABB.contains, AABB.of_point. cbn [AABB.mini AABB.maxi].
  rewrite !andb_true_iff. tauto.
Qed.

Lemma no_nan_iff (p : Vector3f.t) :
  no_nan p = true <->
  F32.is_nan (Vector3f.x p) = false /\ F32.is_nan (Vector3f.y p) = false /\
  F32.is_nan (Vector3f.z p) = false.
Proof. unfold no_nan. rewrite !andb_true_iff, !negb_true_iff. tauto. Qed.

(** The lower bound after a merge, whatever the bound was before. *)
Lemma Min_below (a p : float) : F32.is_nan p = false -> F32.leb (Min a p) p = true.
Proof.
  intros Hp. unfold Min. destruct (F32.ltb a p) eqn:E; [apply ltb_leb, E | apply leb_refl, Hp].
Qed.

Lemma Max_above (a p : float) : F32.is_nan p = false -> F32.leb p (Max a p) = true.
Proof.
  intros Hp. unfold Max, F32.gtb. fold (F32.ltb p a).
  destruct (F32.ltb p a) eqn:E; [apply ltb_leb, E | apply leb_refl, Hp].
Qed.

Lemma Min_keeps (a p q : float) :
  F32.is_nan p = false -> F32.leb a q = true -> F32.leb (Min a p) q = true.
Proof.
  intros Hp Hq. destruct (leb_not_nan _ _ Hq) as [Ha _].
  apply leb_trans with (b := a); [apply Min_le; assumption | exact Hq].
Qed.

Lemma Max_keeps (a p q : float) :
  F32.is_nan p = false -> F32.leb q a = true -> F32.leb q (Max a p) = true.
Proof.
  intros Hp Hq. destruct (leb_not_nan _ _ Hq) as [_ Ha].
  apply leb_trans with (b := a); [exact Hq | apply Max_ge; assumption].
Qed.

Lemma MergePoint_inside (b : AABB.t) (p : Vector3f.t) :
  no_nan p = true -> inside (AABB.MergePoint b p) p = true.
Proof.
  rewrite no_nan_iff, inside_iff. intros (Hx & Hy & Hz).
  unfold AABB.MergePoint, Vector3f.Min, Vector3f.Max.
  cbn [AABB.mini AABB.maxi Vector3f.x Vector3f.y Vector3f.z].
  repeat split; (apply Min_below || apply Max_above); assumption.
Qed.

Lemma MergePoint_keeps (b : AABB.t) (p q : Vector3f.t) :
  no_nan p = true -> inside b q = true -> inside (AABB.MergePoint b p) q = true.
Proof.
  rewrite no_nan_iff, !inside_iff. intros (Hx & Hy & Hz) ((H1 & H2 & H3) & (H4 & H5 & H6)).
  unfold AABB.MergePoint, Vector3f.Min, Vector3f.Max.
  cbn [AABB.mini AABB.maxi Vector3f.x Vector3f.y Vector3f.z].
  repeat split; (apply Min_keeps || apply Max_keeps); assumption.
Qed.

(** X9.  The box the head of [Build] computes contains every position of
    the mesh, as long as no coordinate is a NaN. *)
Theorem global_box_contains (b : LBVH.t) (box : AABB.t) :
  LBVH.global_box b = Ok box ->
  (forall i p, 0 <= i < LBVH.PositionCount b -> LBVH.Positions_at b i = Ok p ->
     no_nan p = true) ->
  forall i, 0 <= i < LBVH.PositionCount b ->
    exists p, LBVH.Positions_at b i = Ok p /\ inside box p = true.
Proof.
  unfold LBVH.global_box. intros Hrun Hnan.
  set (P := fun (k : Z) (bx : AABB.t) =>
    forall i, 0 <= i < k -> exists p, LBVH.Positions_at b i = Ok p /\ inside bx p = true).
  assert (HP : P (0 + Z.of_nat (Z.to_nat (LBVH.PositionCount b))) box).
  { apply (for_range_ind P _ _ _ _ _ Hrun).
    - intros i Hi. lia.
    - intros k bx bx' Hk IH Hbody. inv_bind Hbody. injection Hbody as <-.
      assert (Hn : no_nan a = true) by (apply (Hnan k); [lia | exact Ha]).
      intros i Hi. destruct (Z.eq_dec i k) as [->|Hne].
      + exists a. split; [exact Ha | apply MergePoint_inside, Hn].
      + destruct (IH i ltac:(lia)) as (p & Hp & Hin).
        exists p. split; [exact Hp | apply MergePoint_keeps; assumption]. }
  intros i Hi. apply HP. lia.
Qed.

Lemma global_box_contains_witness :
  exists p, LBVH.Positions_at edge_input 3 = Ok p /\
    inside (AABB.mk (v3 (fZ 0) (fZ 0) (fZ 0)) (v3 (fZ 1) (fZ 1) (fZ 1))) p = true.
Proof.
  apply (global_box_contains edge_input).
  - vm_compute. reflexivity.
  - intros i p Hi. change (LBVH.PositionCount edge_input) with 4 in Hi.
    assert (Hc : i = 0 \/ i = 1 \/ i = 2 \/ i = 3) by lia.
    destruct Hc as [Hc|[Hc|[Hc|Hc]]]; subst i; vm_compute; intros [= <-]; reflexivity.
  - vm_compute. split; [discriminate | reflexivity].
Defined.

(** ** MakeBox and the box of Build *)

Lemma for_range_ext {St} (f g : Z -> St -> result St) (n : nat) :
  forall (lo : Z) (s : St),
    (forall i s', lo <= i < lo + Z.of_nat n -> f i s' = g i s') ->
    for_range lo n f s = for_range lo n g s.
Proof.
  induction n as [|n IH]; intros lo s H; [reflexivity|].
  cbn [for_range]. rewrite (H lo s) by lia.
  destruct (g lo s) as [s'|e]; [|reflexivity]. cbn [bind]. apply IH.
  intros i s'' Hi. apply H. lia.
Qed.

Lemma canonical_24 (m : positive) (e : Z) :
  bounded F32.prec F32.emax m e = true -> e = 104 -> Zpos m <= 16777215.
Proof.
  unfold bounded, canonical_mantissa, fexp, emin, F32.prec, F32.emax.
  intros H ->. apply andb_true_iff in H. destruct H as [H _]. apply Z.eqb_eq in H.
  pose proof (digits2_pos_bound m) as Hd.
  assert (Zpos (digits2_pos m) = 24) by lia.
  rewrite H0 in Hd. change (2 ^ 24) with 16777216 in Hd. lia.
Qed.

Lemma SFcompare_neg_finite (m1 : positive) (e1 : Z) (m2 : positive) (e2 : Z) :
  SFcompare (S754_finite true m1 e1) (S754_finite true m2 e2) =
  Some match e1 ?= e2 with
       | Lt => Gt
       | Gt => Lt
       | Eq => CompOpp (Zpos m1 ?= Zpos m2)
       end.
Proof. reflexivity. Qed.

Lemma bounded_exponent (m : positive) (e : Z) :
  bounded F32.prec F32.emax m e = true -> e <= 104.
Proof.
  unfold bounded, F32.prec, F32.emax. intros H. apply andb_true_iff in H.
  destruct H as [_ H]. apply Z.leb_le in H. lia.
Qed.

(** A value that is not an infinity is not beyond the sentinels. *)
Lemma Min_sentinel (x : float) : bounded32 x = true -> Min kMaxBound x = x.
Proof.
  unfold Min, F32.ltb, SFltb, kMaxBound.
  destruct x as [s|s| |s m e]; [reflexivity | discriminate | reflexivity |].
  destruct s; [reflexivity|]. cbn [bounded32]. intros H.
  pose proof (bounded_exponent m e H) as He.
  rewrite SFcompare_pos_finite.
  destruct (Z.compare_spec 104 e) as [E|E|E]; try reflexivity; [|lia].
  pose proof (canonical_24 m e H (eq_sym E)) as Hm.
  destruct (Z.compare_spec 16777215 (Zpos m)); try reflexivity. lia.
Qed.

Lemma Max_sentinel (x : float) : bounded32 x = true -> Max kMinBound x = x.
Proof.
  unfold Max, F32.gtb, SFltb, kMinBound.
  destruct x as [s|s| |s m e]; [reflexivity | discriminate | reflexivity |].
  destruct s; [|reflexivity]. cbn [bounded32]. intros H.
  pose proof (bounded_exponent m e H) as He.
  rewrite SFcompare_neg_finite.
  destruct (Z.compare_spec e 104) as [E|E|E]; try reflexivity; [|lia].
  pose proof (canonical_24 m e H E) as Hm.
  destruct (Z.compare_spec (Zpos m) 16777215); try reflexivity. lia.
Qed.

Lemma position_at_small (position : option (list float)) (i k : Z) :
  0 <= i < 2 ^ 62 -> 0 <= k <= 2 -> position_at position i k = read position (3 * i + k).
Proof.
  intros Hi Hk. unfold position_at, u64.
  assert (P62 : 2 ^ 62 = 4611686018427387904) by reflexivity.
  assert (P64 : 2 ^ 64 = 18446744073709551616) by reflexivity.
  rewrite (Z.mod_small (i * 3)) by lia. rewrite Z.mod_small by lia. f_equal. lia.
Qed.

Lemma MakeBox_step_Merge (b : LBVH.t) (i : Z) (r : AABB.t) :
  0 <= i < 2 ^ 62 ->
  MakeBox_step (LBVH.Positions b) i r =
  (p <- LBVH.Positions_at b i ;; Ok (AABB.MergePoint r p)).
Proof.
  intros Hi. unfold MakeBox_step, LBVH.Positions_at, LBVH.read_Vector3f.
  rewrite !position_at_small by lia. rewrite !Z.add_0_r.
  destruct (read (LBVH.Positions b) (3 * i)) as [x|e]; [|reflexivity].
  destruct (read (LBVH.Positions b) (3 * i + 1)) as [y|e]; [|reflexivity].
  destruct (read (LBVH.Positions b) (3 * i + 2)) as [z|e]; reflexivity.
Qed.

(** X10.  [MakeBox] on the positions of a mesh gives the box the head of
    [Build] computes, when the first position holds no infinity (and the
    count is a size an array can have): both fold [Min] and [Max] over the
    positions, [MakeBox] from the first position and [Build] from the
    sentinel box.  With no position, [MakeBox] returns that sentinel box,
    as the loop of [Build] does. *)
Theorem MakeBox_global_box (b : LBVH.t) (l : list float) (x y z : float) :
  LBVH.Positions b = Some l ->
  0 <= LBVH.PositionCount b < 2 ^ 62 ->
  (0 < LBVH.PositionCount b ->
   LBVH.Positions_at b 0 = Ok (Vector3f.mk x y z) /\
   bounded32 x = true /\ bounded32 y = true /\ bounded32 z = true) ->
  MakeBox (LBVH.Positions b) (LBVH.PositionCount b) = LBVH.global_box b.
Proof.
  intros HP Hc H0. unfold MakeBox, LBVH.global_box.
  destruct (Z.eqb_spec (LBVH.PositionCount b) 0) as [E|E].
  - rewrite E. reflexivity.
  - assert (Hnull : match LBVH.Positions b with None => true | Some _ => false end = false)
      by (rewrite HP; reflexivity).
    rewrite Hnull. cbn [orb].
    destruct (H0 ltac:(lia)) as (Hp0 & Hx & Hy & Hz).
    set (n := (Z.to_nat (LBVH.PositionCount b) - 1)%nat).
    replace (Z.to_nat (LBVH.PositionCount b)) with (S n) by lia.
    cbn [for_range]. rewrite Hp0. cbn [bind].
    unfold LBVH.Positions_at, LBVH.read_Vector3f in Hp0.
    change (3 * 0) with 0 in Hp0. change (0 + 1) with 1 in Hp0. change (0 + 2) with 2 in Hp0.
    destruct (read (LBVH.Positions b) 0) as [x'|e]; [|discriminate].
    destruct (read (LBVH.Positions b) 1) as [y'|e]; [|discriminate].
    destruct (read (LBVH.Positions b) 2) as [z'|e]; [|discriminate].
    injection Hp0 as -> -> ->. cbn [bind].
    assert (Hfirst : AABB.MergePoint AABB.Clear (Vector3f.mk x y z)
                     = AABB.mk (Vector3f.mk x y z) (Vector3f.mk x y z)).
    { unfold AABB.MergePoint, AABB.Clear, Vector3f.Min, Vector3f.Max.
      cbn [AABB.mini AABB.maxi Vector3f.x Vector3f.y Vector3f.z].
      rewrite !Min_sentinel, !Max_sentinel by assumption. reflexivity. }
    rewrite Hfirst. apply for_range_ext. intros i s' Hi.
    apply MakeBox_step_Merge. lia.
Qed.

Lemma MakeBox_global_box_witness :
  MakeBox (LBVH.Positions edge_input) (LBVH.PositionCount edge_input)
  = LBVH.global_box edge_input.
Proof.
  apply (MakeBox_global_box edge_input edge_vertices (fZ 0) (fZ 0) (fZ 0)).
  - reflexivity.
  - vm_compute. split; [discriminate | reflexivity].
  - intros _. vm_compute. repeat split.
Defined.

(** ** PCG *)

Lemma PCG_previous_next (s : Z) : 0 <= s < 2 ^ 64 -> PCG.previous (PCG.next s) = s.
Proof.
  intros Hs. unfold PCG.previous, PCG.next, u64.
  change (2 ^ 64) with 18446744073709551616 in *.
  rewrite (Z.mod_eq (s * PCG.kMultiplier)) by lia.
  set (q1 := s * PCG.kMultiplier / 18446744073709551616).
  rewrite (Z.mod_eq (_ + PCG.kIncrement)) by lia.
  set (q2 := (s * PCG.kMultiplier - 18446744073709551616 * q1 + PCG.kIncrement)
             / 18446744073709551616).
  unfold PCG.kMultiplier, PCG.kIncrement.
  replace ((s * 6364136223846793005 - 18446744073709551616 * q1 + 1442695040888963407
            - 18446744073709551616 * q2 - 1442695040888963407) * 13877824140714322085)
    with (s + (s * 4787856489426250814 - (q1 + q2) * 13877824140714322085)
              * 18446744073709551616) by ring.
  rewrite Z.mod_add by lia. apply Z.mod_small. lia.
Qed.

(** X11.  The state step of the generator can be undone, so it never maps
    two 64-bit states to one: [GetAsU32] leaves different states from
    different states, and [SetSeed] from different seeds. *)
Theorem PCG_state_injective (s1 s2 : Z) :
  0 <= s1 < 2 ^ 64 -> 0 <= s2 < 2 ^ 64 ->
  (snd (PCG.GetAsU32 s1) = snd (PCG.GetAsU32 s2) -> s1 = s2) /\
  (PCG.SetSeed s1 = PCG.SetSeed s2 -> s1 = s2).
Proof.
  intros H1 H2.
  assert (Hinj : forall a b, 0 <= a < 2 ^ 64 -> 0 <= b < 2 ^ 64 ->
                   PCG.next a = PCG.next b -> a = b).
  { intros a b Ha Hb E. rewrite <- (PCG_previous_next a Ha), <- (PCG_previous_next b Hb), E.
    reflexivity. }
  split; [apply Hinj; assumption|].
  unfold PCG.SetSeed, PCG.GetAsU32. cbn [snd]. intros E.
  apply Hinj in E; try (unfold u64; apply Z.mod_pos_bound; reflexivity).
  unfold u64 in E. change (2 ^ 64) with 18446744073709551616 in *.
  unfold PCG.kIncrement in E.
  assert (Hc : forall s, 0 <= s < 18446744073709551616 ->
            (s + 1442695040888963407) mod 18446744073709551616
            = s + 1442695040888963407 \/
            (s + 1442695040888963407) mod 18446744073709551616
            = s + 1442695040888963407 - 18446744073709551616).
  { intros s Hs. destruct (Z.lt_ge_cases (s + 1442695040888963407) 18446744073709551616).
    - left. apply Z.mod_small. lia.
    - right. symmetry. apply Z.mod_unique with (q := 1); lia. }
  destruct (Hc s1 H1) as [E1|E1], (Hc s2 H2) as [E2|E2]; rewrite E1, E2 in E; lia.
Qed.

Lemma PCG_state_injective_witness :
  (snd (PCG.GetAsU32 1) = snd (PCG.GetAsU32 2) -> 1 = 2) /\
  (PCG.SetSeed 1 = PCG.SetSeed 2 -> 1 = 2).
Proof.
  apply (PCG_state_injective 1 2); vm_compute; split; (discriminate || reflexivity).
Defined.

(** The shift the rotation pairs with [rot]. *)
Lemma rot_complement (r : Z) :
  0 <= r < 32 -> Z.land (u32 (u32 (Z.lnot r) + 1)) 31 = (32 - r) mod 32.
Proof.
  intros Hr.
  assert (H : forallb (fun r => Z.land (u32 (u32 (Z.lnot r) + 1)) 31 =? (32 - r) mod 32)
                (Zrange 0 32) = true) by (vm_compute; reflexivity).
  rewrite forallb_forall in H. apply Z.eqb_eq, H, In_Zrange. lia.
Qed.

Lemma u32_range (z : Z) : 0 <= u32 z < 2 ^ 32.
Proof. unfold u32. apply Z.mod_pos_bound. reflexivity. Qed.

Lemma testbit_u32 (z i : Z) : 0 <= i < 32 -> Z.testbit (u32 z) i = Z.testbit z i.
Proof. intros Hi. unfold u32. apply Z.mod_pow2_bits_low. lia. Qed.

Lemma testbit_above (x i : Z) : 0 <= x < 2 ^ 32 -> 32 <= i -> Z.testbit x i = false.
Proof.
  intros Hx Hi. rewrite <- (Z.mod_small x (2 ^ 32)) by lia.
  apply Z.mod_pow2_bits_high. lia.
Qed.

(** X12.  The value [GetAsU32] returns is [xorshifted] rotated right by
    [rot] places within 32 bits: bit [i] of the result is bit
    [(i + rot) mod 32] of [xorshifted] (for [rot = 0] the two shifted
    words coincide). *)
Theorem PCG_output_rotates (s : Z) :
  0 <= s < 2 ^ 64 ->
  0 <= PCG.rot s < 32 /\
  0 <= fst (PCG.GetAsU32 s) < 2 ^ 32 /\
  forall i, 0 <= i < 32 ->
    Z.testbit (fst (PCG.GetAsU32 s)) i
    = Z.testbit (PCG.xorshifted s) ((i + PCG.rot s) mod 32).
Proof.
  intros Hs.
  assert (Hr : 0 <= PCG.rot s < 32).
  { unfold PCG.rot. rewrite Z.shiftr_div_pow2 by lia.
    change (2 ^ 64) with (32 * 2 ^ 59) in Hs.
    assert (0 <= s / 2 ^ 59 < 32).
    { split; [apply Z.div_pos; lia | apply Z.div_lt_upper_bound; lia]. }
    rewrite u32_small; [assumption|]. change (2 ^ 32) with 4294967296. lia. }
  split; [exact Hr|]. unfold PCG.GetAsU32. cbn [fst].
  split; [apply u32_range|].
  intros i Hi. set (x := PCG.xorshifted s). set (r := PCG.rot s) in *.
  assert (Hx : 0 <= x < 2 ^ 32) by apply u32_range.
  rewrite rot_complement by exact Hr.
  rewrite testbit_u32, Z.lor_spec, Z.shiftr_spec, testbit_u32, Z.shiftl_spec by lia.
  destruct (Z.eq_dec r 0) as [E|E].
  - rewrite E. change ((32 - 0) mod 32) with 0. rewrite Z.add_0_r, Z.sub_0_r.
    rewrite Z.mod_small by lia. apply orb_diag.
  - rewrite (Z.mod_small (32 - r)) by lia.
    destruct (Z.lt_ge_cases (i + r) 32) as [Hlt|Hge].
    + rewrite (Z.mod_small (i + r)) by lia.
      rewrite (Z.testbit_neg_r x (i - (32 - r))) by lia. apply orb_false_r.
    + rewrite (testbit_above x (i + r)) by lia. cbn [orb].
      f_equal. apply Z.mod_unique with (q := 1); lia.
Qed.

Lemma PCG_output_rotates_witness :
  0 <= PCG.rot (PCG.SetSeed 123456789) < 32 /\
  0 <= fst (PCG.GetAsU32 (PCG.SetSeed 123456789)) < 2 ^ 32 /\
  forall i, 0 <= i < 32 ->
    Z.testbit (fst (PCG.GetAsU32 (PCG.SetSeed 123456789))) i
    = Z.testbit (PCG.xorshifted (PCG.SetSeed 123456789))
        ((i + PCG.rot (PCG.SetSeed 123456789)) mod 32).
Proof.
  apply (PCG_output_rotates (PCG.SetSeed 123456789)).
  vm_compute. split; [discriminate | reflexivity].
Defined.

(** ** The order of the Morton codes *)

Lemma ExpandBits_step :
  forallb (fun v => ExpandBits v <? ExpandBits (v + 1)) (Zrange 0 1023) = true.
Proof. vm_compute. reflexivity. Qed.

Lemma ExpandBits_mono (a b : Z) :
  0 <= a -> a <= b -> b <= 1023 -> ExpandBits a <= ExpandBits b.
Proof.
  intros Ha Hab Hb.
  assert (G : forall n : nat, Z.of_nat n <= 1023 - a -> ExpandBits a <= ExpandBits (a + Z.of_nat n)).
  { induction n as [|n IH]; intros Hn.
    - rewrite Z.add_0_r. lia.
    - pose proof ExpandBits_step as H. rewrite forallb_forall in H.
      assert (Hin : In (a + Z.of_nat n) (Zrange 0 1023)) by (apply In_Zrange; lia).
      specialize (H _ Hin).
      apply Z.ltb_lt in H. specialize (IH ltac:(lia)).
      replace (a + Z.of_nat (S n)) with (a + Z.of_nat n + 1) by lia. lia. }
  specialize (G (Z.to_nat (b - a)) ltac:(lia)).
  replace (a + Z.of_nat (Z.to_nat (b - a))) with b in G by lia. exact G.
Qed.

Lemma interleave_sum (xi yi zi : Z) :
  0 <= xi <= 1023 -> 0 <= yi <= 1023 -> 0 <= zi <= 1023 ->
  interleave xi yi zi = 4 * ExpandBits xi + 2 * ExpandBits yi + ExpandBits zi.
Proof.
  intros Hx Hy Hz. destruct (Morton_sum xi yi zi Hx Hy Hz) as [E _]. rewrite <- E.
  destruct (ExpandBits_spec xi Hx) as (Bx & _). destruct (ExpandBits_spec yi Hy) as (By & _).
  destruct (ExpandBits_spec zi Hz) as (Bz & _).
  rewrite !Z.shiftl_mul_pow2 by lia. change (2 ^ 2) with 4. change (2 ^ 1) with 2.
  assert (P32 : 2 ^ 32 = 4294967296) by reflexivity.
  rewrite (u32_small (ExpandBits xi * 4)), (u32_small (ExpandBits yi * 2)) by lia.
  rewrite (u32_small (ExpandBits xi * 4 + ExpandBits yi * 2)) by lia.
  rewrite u32_small by lia. lia.
Qed.

Lemma bits_below_1024 (a b : Z) :
  0 <= a <= 1023 -> 0 <= b <= 1023 ->
  (forall i, 0 <= i < 10 -> Z.testbit a i = Z.testbit b i) -> a = b.
Proof.
  intros Ha Hb H. apply Z.bits_inj'. intros i Hi.
  destruct (Z.lt_ge_cases i 10) as [Hlt|Hge]; [apply H; lia|].
  assert (Hhigh : forall c, 0 <= c <= 1023 -> Z.testbit c i = false).
  { intros c Hc. rewrite <- (Z.mod_small c (2 ^ 10)) by (change (2 ^ 10) with 1024; lia).
    apply Z.mod_pow2_bits_high. lia. }
  rewrite !Hhigh by assumption. reflexivity.
Qed.

Lemma interleave_injective (xi yi zi xi' yi' zi' : Z) :
  0 <= xi <= 1023 -> 0 <= yi <= 1023 -> 0 <= zi <= 1023 ->
  0 <= xi' <= 1023 -> 0 <= yi' <= 1023 -> 0 <= zi' <= 1023 ->
  interleave xi yi zi = interleave xi' yi' zi' -> xi = xi' /\ yi = yi' /\ zi = zi'.
Proof.
  intros Hx Hy Hz Hx' Hy' Hz' E.
  repeat split; apply bits_below_1024; try assumption; intros i Hi;
    destruct (interleave_bits xi yi zi i Hx Hy Hz Hi) as (B2 & B1 & B0);
    destruct (interleave_bits xi' yi' zi' i Hx' Hy' Hz' Hi) as (B2' & B1' & B0');
    rewrite E in *; congruence.
Qed.

(** X13.  The Morton code grows with the bins: moving a point to bins
    that are not lower on any axis does not lower its code, and two points
    get the same code only when their three bins are the same. *)
Theorem Morton3D_monotone (x y z x' y' z' : float) (m m' : Z) :
  Morton3D x y z = Ok m -> Morton3D x' y' z' = Ok m' ->
  exists xi yi zi xi' yi' zi',
    (bin x = Ok xi /\ bin y = Ok yi /\ bin z = Ok zi) /\
    (bin x' = Ok xi' /\ bin y' = Ok yi' /\ bin z' = Ok zi') /\
    (xi <= xi' -> yi <= yi' -> zi <= zi' -> m <= m') /\
    (m = m' -> xi = xi' /\ yi = yi' /\ zi = zi').
Proof.
  intros H H'.
  assert (G : forall a b c n, Morton3D a b c = Ok n ->
            exists ai bi ci, bin a = Ok ai /\ bin b = Ok bi /\ bin c = Ok ci /\
              0 <= ai <= 1023 /\ 0 <= bi <= 1023 /\ 0 <= ci <= 1023 /\
              n = interleave ai bi ci).
  { intros a b c n Hn. pose proof Hn as Hn'. unfold Morton3D in Hn'.
    change (F32.to_u32 (Clamp (a * F32.f1024)%f32 F32.zero F32.f1023)) with (bin a) in Hn'.
    change (F32.to_u32 (Clamp (b * F32.f1024)%f32 F32.zero F32.f1023)) with (bin b) in Hn'.
    change (F32.to_u32 (Clamp (c * F32.f1024)%f32 F32.zero F32.f1023)) with (bin c) in Hn'.
    inv_bind Hn'. inv_bind Hn'. inv_bind Hn'. clear Hn'.
    pose proof (bin_Ok_range _ _ Ha) as Ra. pose proof (bin_Ok_range _ _ Ha0) as Rb.
    pose proof (bin_Ok_range _ _ Ha1) as Rc.
    rewrite (Morton3D_of_bins _ _ _ _ _ _ Ha Ha0 Ha1 Ra Rb Rc) in Hn. injection Hn as <-.
    exists a0, a1, a2. repeat split; assumption || lia. }
  destruct (G _ _ _ _ H) as (xi & yi & zi & Bx & By & Bz & Hx & Hy & Hz & ->).
  destruct (G _ _ _ _ H') as (xi' & yi' & zi' & Bx' & By' & Bz' & Hx' & Hy' & Hz' & ->).
  exists xi, yi, zi, xi', yi', zi'.
  split; [repeat split; assumption|]. split; [repeat split; assumption|]. split.
  - intros Lx Ly Lz. rewrite !interleave_sum by assumption.
    pose proof (ExpandBits_mono xi xi' ltac:(lia) Lx ltac:(lia)).
    pose proof (ExpandBits_mono yi yi' ltac:(lia) Ly ltac:(lia)).
    pose proof (ExpandBits_mono zi zi' ltac:(lia) Lz ltac:(lia)). lia.
  - apply interleave_injective; assumption.
Qed.

Lemma Morton3D_monotone_witness :
  exists xi yi zi xi' yi' zi',
    (bin half = Ok xi /\ bin F32.zero = Ok yi /\ bin F32.zero = Ok zi) /\
    (bin F32.one = Ok xi' /\ bin half = Ok yi' /\ bin F32.zero = Ok zi') /\
    (xi <= xi' -> yi <= yi' -> zi <= zi' -> 536870912 <= 882002212) /\
    (536870912 = 882002212 -> xi = xi' /\ yi = yi' /\ zi = zi').
Proof.
  apply (Morton3D_monotone half F32.zero F32.zero F32.one half F32.zero); vm_compute; reflexivity.
Defined.

(** ** Boxes that contain boxes *)

Lemma contains_iff (outer inner : AABB.t) :
  AABB.contains outer inner = true <->
  (F32.leb (Vector3f.x (AABB.mini outer)) (Vector3f.x (AABB.mini inner)) = true /\
   F32.leb (Vector3f.y (AABB.mini outer)) (Vector3f.y (AABB.mini inner)) = true /\
   F32.leb (Vector3f.z (AABB.mini outer)) (Vector3f.z (AABB.mini inner)) = true) /\
  (F32.leb (Vector3f.x (AABB.maxi inner)) (Vector3f.x (AABB.maxi outer)) = true /\
   F32.leb (Vector3f.y (AABB.maxi inner)) (Vector3f.y (AABB.maxi outer)) = true /\
   F32.leb (Vector3f.z (AABB.maxi inner)) (Vector3f.z (AABB.maxi outer)) = true).
Proof. unfold AABB.contains. rewrite !andb_true_iff. tauto. Qed.

Lemma contains_refl (bx : AABB.t) : box_no_nan bx = true -> AABB.contains bx bx = true.
Proof.
  unfold box_no_nan. rewrite andb_true_iff, !no_nan_iff, contains_iff.
  intros [(H1 & H2 & H3) (H4 & H5 & H6)]. repeat split; apply leb_refl; assumption.
Qed.

Lemma Merge_contains_new (b v w : AABB.t) :
  AABB.contains v w = true -> AABB.contains (AABB.Merge b v) w = true.
Proof.
  rewrite !contains_iff. intros ((H1 & H2 & H3) & (H4 & H5 & H6)).
  unfold AABB.Merge, Vector3f.Min, Vector3f.Max.
  cbn [AABB.mini AABB.maxi Vector3f.x Vector3f.y Vector3f.z].
  repeat split.
  1-3: eapply leb_trans; [apply Min_below | eassumption];
       eapply proj1, leb_not_nan; eassumption.
  all: eapply leb_trans; [eassumption | apply Max_above];
       eapply proj2, leb_not_nan; eassumption.
Qed.

Lemma Merge_contains_old (b v w w0 : AABB.t) :
  AABB.contains b w = true -> AABB.contains v w0 = true ->
  AABB.contains (AABB.Merge b v) w = true.
Proof.
  rewrite !contains_iff.
  intros ((H1 & H2 & H3) & (H4 & H5 & H6)) ((V1 & V2 & V3) & (V4 & V5 & V6)).
  unfold AABB.Merge, Vector3f.Min, Vector3f.Max.
  cbn [AABB.mini AABB.maxi Vector3f.x Vector3f.y Vector3f.z].
  repeat split.
  1-3: apply Min_keeps; [eapply proj1, leb_not_nan; eassumption | assumption].
  all: apply Max_keeps; [eapply proj2, leb_not_nan; eassumption | assumption].
Qed.

(** ** The boxes only look at the nodes they cover *)

Lemma boxed_frame tb leaves (nodes nodes' : vec Node.t) (child lo hi : Z) :
  boxed tb leaves nodes child lo hi ->
  (forall q, lo <= q < hi -> vat nodes' q = vat nodes q) ->
  boxed tb leaves nodes' child lo hi.
Proof.
  induction 1 as [i|p lo hi Hp HL IHL HR IHR Hc]; intros Hsame.
  - apply boxed_leaf.
  - apply boxed_node; try assumption.
    + rewrite (Hsame p) by lia. apply IHL. intros q Hq. apply Hsame. lia.
    + rewrite (Hsame p) by lia. apply IHR. intros q Hq. apply Hsame. lia.
    + intros j Hj. rewrite (Hsame p) by lia. apply Hc, Hj.
Qed.

Lemma bforest_frame tb leaves (nodes nodes' : vec Node.t) (other other' : vec Z)
  (first first' : vec (AABB.t * AABB.t)) (k : Z) :
  bforest tb leaves nodes other first k ->
  (forall q, 0 <= q < k ->
     vat nodes' q = vat nodes q /\ vat other' q = vat other q /\
     vat first' q = vat first q) ->
  bforest tb leaves nodes' other' first' k.
Proof.
  induction 1 as [|a b Hf IH Hab Ho Hb Hc]; intros Hsame.
  - apply bforest_nil.
  - apply bforest_cons with (a := a); try assumption.
    + apply IH. intros q Hq. apply Hsame. lia.
    + destruct (Hsame b ltac:(lia)) as (_ & -> & _). exact Ho.
    + destruct (Hsame b ltac:(lia)) as (-> & _ & _).
      apply (boxed_frame _ _ _ _ _ _ _ Hb). intros q Hq. apply Hsame. lia.
    + intros j Hj. destruct (Hsame b ltac:(lia)) as (_ & _ & ->). apply Hc, Hj.
Qed.

Lemma bforest_inv tb leaves nodes other first (p : Z) :
  bforest tb leaves nodes other first (p + 1) -> 0 <= p ->
  bforest tb leaves nodes other first (vat other p) /\
  boxed tb leaves nodes (Node.L (vat nodes p)) (vat other p) p /\
  (forall j, vat other p <= j <= p ->
     AABB.contains (snd (vat first p)) (tb j) = true).
Proof.
  intros H Hp. inversion H as [H0|a b Hf Hab Ho Hb Hc Heq]; [lia|].
  assert (b = p) by lia. subst b. rewrite Ho. repeat split; assumption.
Qed.

(** ** The two merges, when neither is lost *)

Lemma outcome_Min_first (r : Race.t) (old x y w : float) :
  Race.complete r = true -> F32.is_nan y = false -> F32.leb x w = true ->
  F32.leb (fst (Race.outcome Min r old x y)) w = true /\
  F32.leb (snd (Race.outcome Min r old x y)) w = true.
Proof.
  intros Hr Hy Hx. destruct (leb_not_nan _ _ Hx) as [Nx _].
  assert (H1 : F32.leb (Min (Min old x) y) w = true).
  { apply Min_keeps; [exact Hy|]. apply leb_trans with (b := x); [apply Min_below, Nx | exact Hx]. }
  assert (H2 : F32.leb (Min (Min old y) x) w = true).
  { apply leb_trans with (b := x); [apply Min_below, Nx | exact Hx]. }
  destruct r; try discriminate; cbn [Race.outcome fst snd]; split; assumption.
Qed.

Lemma outcome_Min_second (r : Race.t) (old x y w : float) :
  Race.complete r = true -> F32.is_nan x = false -> F32.leb y w = true ->
  F32.leb (fst (Race.outcome Min r old x y)) w = true /\
  F32.leb (snd (Race.outcome Min r old x y)) w = true.
Proof.
  intros Hr Hx Hy. destruct (leb_not_nan _ _ Hy) as [Ny _].
  assert (H1 : F32.leb (Min (Min old x) y) w = true).
  { apply leb_trans with (b := y); [apply Min_below, Ny | exact Hy]. }
  assert (H2 : F32.leb (Min (Min old y) x) w = true).
  { apply Min_keeps; [exact Hx|]. apply leb_trans with (b := y); [apply Min_below, Ny | exact Hy]. }
  destruct r; try discriminate; cbn [Race.outcome fst snd]; split; assumption.
Qed.

Lemma outcome_Max_first (r : Race.t) (old x y w : float) :
  Race.complete r = true -> F32.is_nan y = false -> F32.leb w x = true ->
  F32.leb w (fst (Race.outcome Max r old x y)) = true /\
  F32.leb w (snd (Race.outcome Max r old x y)) = true.
Proof.
  intros Hr Hy Hx. destruct (leb_not_nan _ _ Hx) as [_ Nx].
  assert (H1 : F32.leb w (Max (Max old x) y) = true).
  { apply Max_keeps; [exact Hy|]. apply leb_trans with (b := x); [exact Hx | apply Max_above, Nx]. }
  assert (H2 : F32.leb w (Max (Max old y) x) = true).
  { apply leb_trans with (b := x); [exact Hx | apply Max_above, Nx]. }
  destruct r; try discriminate; cbn [Race.outcome fst snd]; split; assumption.
Qed.

Lemma outcome_Max_second (r : Race.t) (old x y w : float) :
  Race.complete r = true -> F32.is_nan x = false -> F32.leb w y = true ->
  F32.leb w (fst (Race.outcome Max r old x y)) = true /\
  F32.leb w (snd (Race.outcome Max r old x y)) = true.
Proof.
  intros Hr Hx Hy. destruct (leb_not_nan _ _ Hy) as [_ Ny].
  assert (H1 : F32.leb w (Max (Max old x) y) = true).
  { apply leb_trans with (b := y); [exact Hy | apply Max_above, Ny]. }
  assert (H2 : F32.leb w (Max (Max old y) x) = true).
  { apply Max_keeps; [exact Hx|]. apply leb_trans with (b := y); [exact Hy | apply Max_above, Ny]. }
  destruct r; try discriminate; cbn [Race.outcome fst snd]; split; assumption.
Qed.

(** What the first climb merged is in the box the node keeps and in the
    box the second climb reads. *)
Lemma Race_Merge_contains_first (r : Race.bound -> Race.t) (old x y w w0 : AABB.t) :
  (forall c, Race.complete (r c) = true) ->
  AABB.contains x w = true -> AABB.contains y w0 = true ->
  AABB.contains (fst (Race.Merge r old x y)) w = true /\
  AABB.contains (snd (Race.Merge r old x y)) w = true.
Proof.
  intros Hr. rewrite !contains_iff.
  intros ((H1 & H2 & H3) & (H4 & H5 & H6)) ((V1 & V2 & V3) & (V4 & V5 & V6)).
  unfold Race.Merge. cbn [fst snd AABB.mini AABB.maxi Vector3f.x Vector3f.y Vector3f.z].
  pose proof (fun c old => outcome_Min_first (r c) old _ _ _ (Hr c)
                (proj1 (leb_not_nan _ _ V1)) H1) as X1.
  pose proof (fun c old => outcome_Min_first (r c) old _ _ _ (Hr c)
                (proj1 (leb_not_nan _ _ V2)) H2) as X2.
  pose proof (fun c old => outcome_Min_first (r c) old _ _ _ (Hr c)
                (proj1 (leb_not_nan _ _ V3)) H3) as X3.
  pose proof (fun c old => outcome_Max_first (r c) old _ _ _ (Hr c)
                (proj2 (leb_not_nan _ _ V4)) H4) as X4.
  pose proof (fun c old => outcome_Max_first (r c) old _ _ _ (Hr c)
                (proj2 (leb_not_nan _ _ V5)) H5) as X5.
  pose proof (fun c old => outcome_Max_first (r c) old _ _ _ (Hr c)
                (proj2 (leb_not_nan _ _ V6)) H6) as X6.
  repeat split; first [apply X1 | apply X2 | apply X3 | apply X4 | apply X5 | apply X6].
Qed.

(** And so is what the second climb merges. *)
Lemma Race_Merge_contains_second (r : Race.bound -> Race.t) (old x y w w0 : AABB.t) :
  (forall c, Race.complete (r c) = true) ->
  AABB.contains y w = true -> AABB.contains x w0 = true ->
  AABB.contains (fst (Race.Merge r old x y)) w = true /\
  AABB.contains (snd (Race.Merge r old x y)) w = true.
Proof.
  intros Hr. rewrite !contains_iff.
  intros ((H1 & H2 & H3) & (H4 & H5 & H6)) ((V1 & V2 & V3) & (V4 & V5 & V6)).
  unfold Race.Merge. cbn [fst snd AABB.mini AABB.maxi Vector3f.x Vector3f.y Vector3f.z].
  pose proof (fun c old => outcome_Min_second (r c) old _ _ _ (Hr c)
                (proj1 (leb_not_nan _ _ V1)) H1) as X1.
  pose proof (fun c old => outcome_Min_second (r c) old _ _ _ (Hr c)
                (proj1 (leb_not_nan _ _ V2)) H2) as X2.
  pose proof (fun c old => outcome_Min_second (r c) old _ _ _ (Hr c)
                (proj1 (leb_not_nan _ _ V3)) H3) as X3.
  pose proof (fun c old => outcome_Max_second (r c) old _ _ _ (Hr c)
                (proj2 (leb_not_nan _ _ V4)) H4) as X4.
  pose proof (fun c old => outcome_Max_second (r c) old _ _ _ (Hr c)
                (proj2 (leb_not_nan _ _ V5)) H5) as X5.
  pose proof (fun c old => outcome_Max_second (r c) old _ _ _ (Hr c)
                (proj2 (leb_not_nan _ _ V6)) H6) as X6.
  repeat split; first [apply X1 | apply X2 | apply X3 | apply X4 | apply X5 | apply X6].
Qed.

(** ** One turn of a climb *)

Section ClimbStep.

Variable race : schedule.
Variable leaves : list Vector2u.t.
Hypothesis HT : 2 <= Z.of_nat (length leaves) < 2 ^ 31.
Hypothesis Htri : forall i, 0 <= i < Z.of_nat (length leaves) -> 0 <= tri leaves i < Z.of_nat (length leaves).

(** The leaf or node [current] stops at node [i], the first to arrive. *)
Lemma climb_right fuel st current L i aabb is_leaf :
  climb_inv leaves st current L i is_leaf ->
  i < (Z.of_nat (length leaves) - 1) -> (0 < L -> delta leaves i < delta leaves (L - 1)) ->
  exists index,
    subtree leaves (LBVH.st_Nodes st) index L i /\
    (is_leaf = true -> index = 2 * tri leaves i + 1) /\
    (is_leaf = false -> index = 2 * current) /\
    LBVH.climb race (S fuel) leaves (Z.of_nat (length leaves) - 1) st current L i aabb
      is_leaf =
    Ok (LBVH.mk_state (LBVH.st_Root st)
          (vset (vset (LBVH.st_Nodes st) i (Node.set_L (vat (LBVH.st_Nodes st) i) index)) i
             (Node.set_Box (Node.set_L (vat (LBVH.st_Nodes st) i) index)
                (AABB.Merge (Node.Box (vat (LBVH.st_Nodes st) i)) aabb)))
          (vset (LBVH.st_other st) i L)
          (vset (LBVH.st_first st) i (Node.Box (vat (LBVH.st_Nodes st) i), aabb))).
Proof.
  intros Hinv Hi Hd.
  destruct (current_subtree leaves HT Htri _ _ _ _ _ Hinv) as (index & Htag & Hsub).
  pose proof Hinv as [Hn Ho Hr Hf Hc Hs Hw Hfr].
  exists index. split; [exact Hsub|].
  assert (Hidx : (is_leaf = true -> index = 2 * tri leaves i + 1) /\
                 (is_leaf = false -> index = 2 * current)).
  { destruct is_leaf.
    - destruct Hc as [-> ->]. split; [intros _|discriminate].
      rewrite leaf_at_in in Htag by lia. cbn [bind] in Htag.
      change (Vector2u.x (leaf leaves i)) with (tri leaves i) in Htag.
      rewrite (index_leaf leaves HT Htri) in Htag by lia. congruence.
    - destruct Hc as (Hc & _). split; [discriminate|intros _].
      rewrite (index_node leaves HT) in Htag by lia. congruence. }
  split; [apply Hidx|]. split; [apply Hidx|].
  rewrite climb_S, Htag.
  assert (Edone : (0 =? L) && (i =? Z.of_nat (length leaves) - 1) = false).
  { apply andb_false_iff. right. apply Z.eqb_neq. lia. }
  rewrite Edone. cbn [bind].
  assert (P32 : 2 ^ 32 = 4294967296) by reflexivity.
  assert (P31 : 2 ^ 31 = 2147483648) by reflexivity.
  assert (Eright :
    (if 0 =? L then Ok true
     else if negb (i =? Z.of_nat (length leaves) - 1)
          then dR <- LBVH.Delta leaves i ;; dL <- LBVH.Delta leaves (u32 (L - 1)) ;;
               Ok (dR <? dL)
          else Ok false) = Ok true).
  { destruct (Z.eqb_spec 0 L) as [EL|EL]; [reflexivity|].
    assert (Ei : (i =? Z.of_nat (length leaves) - 1) = false) by (apply Z.eqb_neq; lia).
    rewrite Ei. cbn [negb].
    rewrite (u32_small (L - 1)) by lia. rewrite !Delta_in by lia. cbn [bind].
    assert (Hlt : (delta leaves i <? delta leaves (L - 1)) = true)
      by (apply Z.ltb_lt, Hd; lia).
    rewrite Hlt. reflexivity. }
  rewrite Eright. cbn [bind].
  rewrite (vec_get_in (LBVH.st_other st) i) by lia. cbn [bind].
  rewrite (vec_set_in (LBVH.st_other st) i) by lia. cbn [bind].
  rewrite (vec_get_in (LBVH.st_Nodes st) i) by lia. cbn [bind].
  rewrite (vec_set_in (LBVH.st_Nodes st) i) by lia. cbn [bind].
  rewrite (Hfr i) by lia. cbn [negb].
  rewrite vec_get_in by (rewrite vsize_vset; lia). cbn [bind].
  rewrite Z.eqb_refl.
  rewrite vec_set_in by (rewrite vsize_vset; lia). cbn [bind].
  rewrite (vec_set_in (LBVH.st_first st) i) by lia. cbn [bind].
  rewrite vat_vset_same. reflexivity.
Qed.

(** The leaf or node [current] meets the subtree that waited at node
    [L - 1], and the climb goes on from that node. *)
Lemma climb_left fuel st current L i aabb is_leaf :
  climb_inv leaves st current L i is_leaf ->
  0 < L -> i = (Z.of_nat (length leaves) - 1) \/ delta leaves (L - 1) <= delta leaves i ->
  exists index a n2 seen,
    subtree leaves (LBVH.st_Nodes st) index L i /\
    (is_leaf = true -> index = 2 * tri leaves i + 1) /\
    (is_leaf = false -> index = 2 * current) /\
    a = vat (LBVH.st_other st) (L - 1) /\ 0 <= a <= L - 1 /\
    (Node.Box n2, seen) =
      Race.Merge (race (L - 1)) (fst (vat (LBVH.st_first st) (L - 1)))
        (snd (vat (LBVH.st_first st) (L - 1))) aabb /\
    Node.L n2 = Node.L (vat (LBVH.st_Nodes st) (L - 1)) /\ Node.R n2 = index /\
    let st' := LBVH.mk_state (LBVH.st_Root st)
                 (vset (vset (LBVH.st_Nodes st) (L - 1)
                          (Node.set_R (vat (LBVH.st_Nodes st) (L - 1)) index)) (L - 1) n2)
                 (vset (LBVH.st_other st) (L - 1) i) (LBVH.st_first st) in
    climb_inv leaves st' (L - 1) a i false /\
    LBVH.climb race (S fuel) leaves (Z.of_nat (length leaves) - 1) st current L i aabb
      is_leaf =
    LBVH.climb race fuel leaves (Z.of_nat (length leaves) - 1) st' (L - 1) a i seen false.
Proof.
  intros Hinv HL0 Hd.
  destruct (current_subtree leaves HT Htri _ _ _ _ _ Hinv) as (index & Htag & Hsub).
  pose proof Hinv as [Hn Ho Hr Hf Hc Hs Hw Hfr].
  assert (Hidx : (is_leaf = true -> index = 2 * tri leaves i + 1) /\
                 (is_leaf = false -> index = 2 * current)).
  { destruct is_leaf.
    - destruct Hc as [-> ->]. split; [intros _|discriminate].
      rewrite leaf_at_in in Htag by lia. cbn [bind] in Htag.
      change (Vector2u.x (leaf leaves i)) with (tri leaves i) in Htag.
      rewrite (index_leaf leaves HT Htri) in Htag by lia. congruence.
    - destruct Hc as (Hc & _). split; [discriminate|intros _].
      rewrite (index_node leaves HT) in Htag by lia. congruence. }
  assert (P32 : 2 ^ 32 = 4294967296) by reflexivity.
  assert (P31 : 2 ^ 31 = 2147483648) by reflexivity.
  replace L with (L - 1 + 1) in Hf by lia.
  destruct (forest_inv _ _ _ _ Hf ltac:(lia)) as (a & Hfa & Ha & Hp & Hoa & Hsa & Hwa & Hstr).
  destruct (Race.Merge (race (L - 1)) (fst (vat (LBVH.st_first st) (L - 1)))
              (snd (vat (LBVH.st_first st) (L - 1))) aabb) as [kept seen] eqn:Erace.
  exists index, a,
    (Node.mk kept (Node.L (vat (LBVH.st_Nodes st) (L - 1))) index), seen.
  split; [exact Hsub|]. split; [apply Hidx|]. split; [apply Hidx|].
  split; [symmetry; exact Hoa|]. split; [lia|]. split; [reflexivity|].
  split; [reflexivity|]. split; [reflexivity|].
  cbv zeta. split.
  - constructor; cbn [LBVH.st_Nodes LBVH.st_other LBVH.st_Root LBVH.st_first];
      rewrite ?vsize_vset; try assumption.
    + lia.
    + apply (forest_frame _ _ _ _ _ _ Hfa). intros q Hq.
      rewrite !vat_vset_other by lia. repeat split.
    + split; [lia|]. split; [lia|].
      apply subtree_node.
      * lia.
      * lia.
      * rewrite !vat_vset_same. cbn [Node.L].
        apply (subtree_frame _ _ _ _ _ _ Hsa). intros q Hq.
        rewrite !vat_vset_other by lia. split; reflexivity.
      * rewrite !vat_vset_same. cbn [Node.R].
        replace (L - 1 + 1) with L by lia.
        apply (subtree_frame _ _ _ _ _ _ Hsub). intros q Hq.
        rewrite !vat_vset_other by lia. split; reflexivity.
      * exact Hwa.
      * intros q Hq. apply Hs; lia.
    + intros q Hq Ha0. specialize (Hstr Ha0).
      destruct (Z.lt_trichotomy q (L - 1)) as [Hlt|[->|Hgt]].
      * specialize (Hwa q ltac:(lia)). lia.
      * exact Hstr.
      * specialize (Hs q ltac:(lia) HL0). lia.
    + intros Hi q Hq. destruct Hd as [Hd|Hd]; [lia|].
      destruct (Z.lt_trichotomy q (L - 1)) as [Hlt|[->|Hgt]].
      * specialize (Hwa q ltac:(lia)). lia.
      * exact Hd.
      * apply Hw; lia.
    + intros q Hq. rewrite vat_vset_other by lia. apply Hfr. lia.
  - rewrite climb_S, Htag.
    assert (Edone : (0 =? L) && (i =? Z.of_nat (length leaves) - 1) = false).
    { apply andb_false_iff. left. apply Z.eqb_neq. lia. }
    rewrite Edone. cbn [bind].
    assert (Eleft :
      (if 0 =? L then Ok true
       else if negb (i =? Z.of_nat (length leaves) - 1)
            then dR <- LBVH.Delta leaves i ;; dL <- LBVH.Delta leaves (u32 (L - 1)) ;;
                 Ok (dR <? dL)
            else Ok false) = Ok false).
    { destruct (Z.eqb_spec 0 L) as [EL|EL]; [lia|].
      destruct (Z.eqb_spec i (Z.of_nat (length leaves) - 1)) as [Ei|Ei]; [reflexivity|].
      cbn [negb].
      destruct Hd as [Hd|Hd]; [lia|].
      rewrite (u32_small (L - 1)) by lia. rewrite !Delta_in by lia. cbn [bind].
      assert (Hge : (delta leaves i <? delta leaves (L - 1)) = false)
        by (apply Z.ltb_ge; exact Hd).
      rewrite Hge. reflexivity. }
    rewrite Eleft. cbn [bind].
    rewrite (u32_small (L - 1)) by lia.
    rewrite (vec_get_in (LBVH.st_other st) (L - 1)) by lia. cbn [bind].
    rewrite (vec_set_in (LBVH.st_other st) (L - 1)) by lia. cbn [bind].
    rewrite (vec_get_in (LBVH.st_Nodes st) (L - 1)) by lia. cbn [bind].
    rewrite (vec_set_in (LBVH.st_Nodes st) (L - 1)) by lia. cbn [bind].
    rewrite Hoa.
    assert (Hka : (kInvalid =? a) = false) by (apply Z.eqb_neq; unfold kInvalid; lia).
    rewrite Hka. cbn [negb].
    rewrite vec_get_in by (rewrite vsize_vset; lia). cbn [bind].
    rewrite (vec_get_in (LBVH.st_first st) (L - 1)) by lia. cbn [bind].
    destruct (vat (LBVH.st_first st) (L - 1)) as [old first].
    cbn [fst snd] in Erace. rewrite Erace.
    rewrite vec_set_in by (rewrite vsize_vset; lia). cbn [bind].
    rewrite !vat_vset_same. reflexivity.
Qed.

End ClimbStep.

(** ** The boxes along the climbs *)

Section ClimbBoxes.

Variable race : schedule.
Variable leaves : list Vector2u.t.
Variable tb : Z -> AABB.t.
Hypothesis Hrace : forall p c, Race.complete (race p c) = true.
Hypothesis HT : 2 <= Z.of_nat (length leaves) < 2 ^ 31.
Hypothesis Htri :
  forall i, 0 <= i < Z.of_nat (length leaves) -> 0 <= tri leaves i < Z.of_nat (length leaves).

Lemma climb_boxes (i : Z) : forall fuel st current L aabb is_leaf st',
  climb_inv leaves st current L i is_leaf ->
  box_inv tb leaves st current L i aabb is_leaf ->
  LBVH.climb race fuel leaves (Z.of_nat (length leaves) - 1) st current L i aabb is_leaf
  = Ok st' ->
  bclimbed tb leaves st' (i + 1).
Proof.
  induction fuel as [|fuel IH]; intros st current L aabb is_leaf st' Hinv Hbox Hrun;
    [discriminate|].
  pose proof Hinv as [Hn Ho Hr Hf Hc Hs Hw Hfr].
  pose proof Hbox as [Bf Ba Bc].
  assert (Hcur : forall index,
            (is_leaf = true -> index = 2 * tri leaves i + 1) ->
            (is_leaf = false -> index = 2 * current) ->
            boxed tb leaves (LBVH.st_Nodes st) index L i).
  { intros index H1 H2. destruct is_leaf.
    - destruct Hc as [_ ->]. rewrite (H1 eq_refl). apply boxed_leaf.
    - rewrite (H2 eq_refl). apply Bc. reflexivity. }
  destruct (Z.eq_dec L 0) as [EL|EL].
  - destruct (Z.eq_dec i (Z.of_nat (length leaves) - 1)) as [Ei|Ei].
    + (* the whole range: [current] is the root *)
      rewrite climb_done in Hrun
        by (apply andb_true_iff; split; apply Z.eqb_eq; congruence).
      injection Hrun as <-. unfold bclimbed. cbn [LBVH.st_Nodes LBVH.st_other LBVH.st_Root LBVH.st_first].
      split; [intros; lia|]. intros _. destruct is_leaf; [destruct Hc; lia|].
      rewrite EL, Ei in Bc. apply Bc. reflexivity.
    + destruct (climb_right race leaves HT Htri fuel st current L i aabb is_leaf Hinv
                  ltac:(lia) ltac:(lia)) as (index & Hsub & Hi1 & Hi2 & E).
      rewrite E in Hrun. injection Hrun as <-.
      unfold bclimbed. cbn [LBVH.st_Nodes LBVH.st_other LBVH.st_Root LBVH.st_first].
      split; [intros _|intros; lia].
      apply bforest_cons with (a := L).
      * apply (bforest_frame _ _ _ _ _ _ _ _ _ Bf). intros q Hq.
        rewrite !vat_vset_other by lia. repeat split.
      * lia.
      * apply vat_vset_same.
      * rewrite vat_vset_same. cbn [Node.L Node.set_Box Node.set_L].
        apply (boxed_frame _ _ _ _ _ _ _ (Hcur index Hi1 Hi2)). intros q Hq.
        rewrite !vat_vset_other by lia. reflexivity.
      * intros j Hj. rewrite vat_vset_same. cbn [snd]. apply Ba, Hj.
  - assert (Hstep :
      (i < Z.of_nat (length leaves) - 1 /\ delta leaves i < delta leaves (L - 1)) \/
      (i = Z.of_nat (length leaves) - 1 \/ delta leaves (L - 1) <= delta leaves i)) by lia.
    destruct Hstep as [[Hi Hd]|Hd].
    + destruct (climb_right race leaves HT Htri fuel st current L i aabb is_leaf Hinv
                  Hi ltac:(intros _; exact Hd)) as (index & Hsub & Hi1 & Hi2 & E).
      rewrite E in Hrun. injection Hrun as <-.
      unfold bclimbed. cbn [LBVH.st_Nodes LBVH.st_other LBVH.st_Root LBVH.st_first].
      split; [intros _|intros; lia].
      apply bforest_cons with (a := L).
      * apply (bforest_frame _ _ _ _ _ _ _ _ _ Bf). intros q Hq.
        rewrite !vat_vset_other by lia. repeat split.
      * lia.
      * apply vat_vset_same.
      * rewrite vat_vset_same. cbn [Node.L Node.set_Box Node.set_L].
        apply (boxed_frame _ _ _ _ _ _ _ (Hcur index Hi1 Hi2)). intros q Hq.
        rewrite !vat_vset_other by lia. reflexivity.
      * intros j Hj. rewrite vat_vset_same. cbn [snd]. apply Ba, Hj.
    + destruct (climb_left race leaves HT Htri fuel st current L i aabb is_leaf Hinv
                  ltac:(lia) Hd)
        as (index & a & n2 & seen & Hsub & Hi1 & Hi2 & Ea & Ha & En2 & EnL & EnR & Hinv' & E).
      cbv zeta in Hinv', E. rewrite E in Hrun.
      replace L with (L - 1 + 1) in Bf by lia.
      destruct (bforest_inv _ _ _ _ _ _ Bf ltac:(lia)) as (Bfa & Bl & Bcont).
      rewrite <- Ea in Bfa, Bl, Bcont.
      assert (Hn2 : forall j, a <= j <= i ->
                AABB.contains (Node.Box n2) (tb j) = true /\
                AABB.contains seen (tb j) = true).
      { intros j Hj.
        replace (Node.Box n2) with (fst (Node.Box n2, seen)) by reflexivity.
        replace seen with (snd (Node.Box n2, seen)) at 2 by reflexivity.
        rewrite En2.
        destruct (Z.le_gt_cases j (L - 1)) as [Hle|Hgt].
        - apply Race_Merge_contains_first with (w0 := tb i);
            [apply Hrace | apply Bcont | apply Ba]; lia.
        - apply Race_Merge_contains_second with (w0 := tb (L - 1));
            [apply Hrace | apply Ba | apply Bcont]; lia. }
      eapply IH; [exact Hinv' | | exact Hrun].
      constructor; cbn [LBVH.st_Nodes LBVH.st_other LBVH.st_Root LBVH.st_first].
      * apply (bforest_frame _ _ _ _ _ _ _ _ _ Bfa). intros q Hq.
        rewrite !vat_vset_other by lia. repeat split.
      * intros j Hj. apply Hn2, Hj.
      * intros _. apply boxed_node.
        -- destruct Hr. lia.
        -- rewrite vat_vset_same, EnL.
           apply (boxed_frame _ _ _ _ _ _ _ Bl). intros q Hq.
           rewrite !vat_vset_other by lia. reflexivity.
        -- rewrite vat_vset_same, EnR.
           replace (L - 1 + 1) with L by lia.
           apply (boxed_frame _ _ _ _ _ _ _ (Hcur index Hi1 Hi2)). intros q Hq.
           rewrite !vat_vset_other by lia. reflexivity.
        -- intros j Hj. rewrite vat_vset_same. apply Hn2, Hj.
Qed.

Lemma climbs_boxes (fuel : nat) (b : LBVH.t) (box : AABB.t) :
  (forall j, 0 <= j < Z.of_nat (length leaves) ->
     LBVH.leaf_aabb b box (tri leaves j) = Ok (tb j)) ->
  (forall j, 0 <= j < Z.of_nat (length leaves) -> AABB.contains (tb j) (tb j) = true) ->
  forall (n : nat) (k : Z) (st st' : LBVH.build_state),
    0 <= k -> k + Z.of_nat n = Z.of_nat (length leaves) ->
    climbed leaves st k -> bclimbed tb leaves st k ->
    for_range k n (LBVH.climb_leaf race fuel b box leaves (Z.of_nat (length leaves) - 1)) st
    = Ok st' ->
    climbed leaves st' (Z.of_nat (length leaves)) /\
    bclimbed tb leaves st' (Z.of_nat (length leaves)).
Proof.
  intros Hread Hnn. induction n as [|n IH]; intros k st st' Hk0 Hk Hst Hbst Hrun.
  - cbn [for_range] in Hrun. injection Hrun as <-.
    replace (Z.of_nat (length leaves)) with k by lia. split; assumption.
  - cbn [for_range] in Hrun. inv_bind Hrun. unfold LBVH.climb_leaf in Ha.
    rewrite leaf_at_in in Ha by lia. cbn [bind] in Ha.
    change (Vector2u.x (leaf leaves k)) with (tri leaves k) in Ha.
    rewrite Hread in Ha by lia. cbn [bind] in Ha.
    assert (Hinv : climb_inv leaves st k k k true).
    { destruct Hst as (Hn & Ho & Hf & _). destruct Hf as [Hf Hfr]; [lia|].
      constructor; try assumption; try lia; try (intros; lia). }
    assert (Hbox : box_inv tb leaves st k k k (tb k) true).
    { constructor.
      - apply Hbst. lia.
      - intros j Hj. replace j with k by lia. apply Hnn. lia.
      - discriminate. }
    pose proof (climb_spec race leaves HT Htri k fuel st k k (tb k) true Hinv) as Hc.
    rewrite Ha in Hc. destruct Hc as [Hc _].
    pose proof (climb_boxes k _ _ _ _ _ _ _ Hinv Hbox Ha) as Hb.
    apply (IH (k + 1) a st'); try assumption; lia.
Qed.

End ClimbBoxes.

(** ** The boxes Build leaves *)

Lemma leaf_aabb_same (g b : LBVH.t) (box : AABB.t) (f : Z) :
  LBVH.Positions g = LBVH.Positions b -> LBVH.Indices g = LBVH.Indices b ->
  LBVH.leaf_aabb g box f = LBVH.leaf_aabb b box f.
Proof.
  intros HP HI. unfold LBVH.leaf_aabb. rewrite (corners_same g b _ HP HI). reflexivity.
Qed.

Lemma Build_boxed (race : schedule) (sort : list Vector2u.t -> list Vector2u.t)
  (fuel : nat) (b g : LBVH.t) :
  (forall p c, Race.complete (race p c) = true) ->
  sorts sort ->
  2 <= u32 (u64 (LBVH.IndexCount b) / 3) < 2 ^ 31 ->
  LBVH.Build race sort fuel b = Ok g ->
  exists box leaves0 st,
    LBVH.global_box b = Ok box /\
    LBVH.make_leaves b box (u32 (u64 (LBVH.IndexCount b) / 3)) = Ok leaves0 /\
    Z.of_nat (length (sort leaves0)) = u32 (u64 (LBVH.IndexCount b) / 3) /\
    Permutation (map Vector2u.x (sort leaves0)) (Zrange 0 (length (sort leaves0))) /\
    LBVH.Nodes g = vec_map (LBVH.untranslate box) (LBVH.st_Nodes st) /\
    LBVH.Root g = LBVH.st_Root st /\
    (forall j, 0 <= j < Z.of_nat (length (sort leaves0)) ->
       LBVH.leaf_aabb b box (tri (sort leaves0) j)
       = Ok (leaf_box b box (sort leaves0) j)) /\
    ((forall j, 0 <= j < Z.of_nat (length (sort leaves0)) ->
        box_no_nan (leaf_box b box (sort leaves0) j) = true) ->
     boxed (leaf_box b box (sort leaves0)) (sort leaves0) (LBVH.st_Nodes st)
       (2 * LBVH.st_Root st) 0 (Z.of_nat (length (sort leaves0)) - 1)).
Proof.
  intros Hrace Hsort HT HB. unfold LBVH.Build in HB.
  inv_bind HB. rename a into box, Ha into Hgb.
  inv_bind HB. rename a into leaves0, Ha into Hml.
  inv_bind HB. rename a into st, Ha into Hrun. injection HB as <-.
  set (T := u32 (u64 (LBVH.IndexCount b) / 3)) in *.
  destruct (Hsort leaves0) as [Hperm Hsorted].
  set (leaves := sort leaves0) in *.
  assert (HTn : T = Z.of_nat (Z.to_nat T)) by lia.
  pose proof Hml as Hml'. rewrite HTn in Hml'.
  destruct (make_leaves_spec _ _ _ _ Hml') as (Hx & Hkeys & Hread).
  rewrite <- HTn in Hread.
  destruct (Zrange_map_length _ _ _ Hx Hperm) as [Hlen HPx].
  assert (HlenT : Z.of_nat (length leaves) = T) by lia.
  assert (P32 : 2 ^ 32 = 4294967296) by reflexivity.
  assert (P31 : 2 ^ 31 = 2147483648) by reflexivity.
  rewrite (u32_small (T - 1)) in Hrun by lia.
  pose proof (tri_range leaves HPx) as Htri.
  assert (Hleaf : forall j, 0 <= j < Z.of_nat (length leaves) ->
            LBVH.leaf_aabb b box (tri leaves j) = Ok (leaf_box b box leaves j)).
  { intros j Hj. unfold leaf_box.
    destruct (leaf_aabb_ok b box (tri leaves j)) as [bx Hbx].
    - apply Hread. rewrite <- HlenT. apply Htri, Hj.
    - rewrite Hbx. reflexivity. }
  exists box, leaves0, st. fold leaves.
  split; [exact Hgb|]. split; [exact Hml|]. split; [exact HlenT|]. split; [exact HPx|].
  cbn [LBVH.Nodes LBVH.Root]. split; [reflexivity|]. split; [reflexivity|].
  split; [exact Hleaf|]. intros Hnn.
  assert (HT' : 2 <= Z.of_nat (length leaves) < 2 ^ 31) by lia.
  rewrite <- HlenT in Hrun.
  destruct (climbs_boxes race leaves (leaf_box b box leaves) Hrace HT' Htri fuel b box Hleaf
              (fun j Hj => contains_refl _ (Hnn j Hj))
              (Z.to_nat (Z.of_nat (length leaves))) 0
              (LBVH.mk_state (LBVH.Root b)
                 (vec_resize (LBVH.Nodes b) (Z.of_nat (length leaves) - 1))
                 (vec_make (Z.of_nat (length leaves) - 1) kInvalid)
                 (vec_make (Z.of_nat (length leaves) - 1) (AABB.Clear, AABB.Clear))) st
              ltac:(lia) ltac:(lia)) as [_ Hb].
  - unfold climbed. cbn [LBVH.st_Nodes LBVH.st_other LBVH.st_Root LBVH.st_first].
    repeat split; try reflexivity; try lia. apply forest_nil.
  - unfold bclimbed. cbn [LBVH.st_Nodes LBVH.st_other LBVH.st_Root LBVH.st_first].
    split; [intros _; apply bforest_nil | intros; lia].
  - exact Hrun.
  - apply Hb. lia.
Qed.

Lemma boxed_flatten tb leaves (nodes : vec Node.t) (child lo hi : Z) :
  boxed tb leaves nodes child lo hi ->
  (forall i, lo <= i <= hi -> 0 <= tri leaves i) -> 0 <= lo ->
  flatten nodes child (map (tri leaves) (Zrange lo (Z.to_nat (hi - lo + 1)))).
Proof.
  induction 1 as [i|p lo hi Hp HL IHL HR IHR _]; intros Htri Hlo.
  - replace (i - i + 1) with 1 by lia. simpl. apply flatten_leaf. apply Htri. lia.
  - replace (Z.to_nat (hi - lo + 1))
      with (Z.to_nat (p - lo + 1) + Z.to_nat (hi - (p + 1) + 1))%nat by lia.
    rewrite Zrange_app, map_app.
    replace (lo + Z.of_nat (Z.to_nat (p - lo + 1))) with (p + 1) by lia.
    apply flatten_node; [lia | apply IHL | apply IHR]; try lia; intros i Hi; apply Htri; lia.
Qed.

Lemma boxed_range tb leaves (nodes : vec Node.t) (child lo hi : Z) :
  boxed tb leaves nodes child lo hi -> lo <= hi.
Proof. induction 1; lia. Qed.

(** Every index in the range of a tree is one of its nodes. *)
Lemma boxed_node_at tb leaves (nodes : vec Node.t) (child lo hi : Z) :
  boxed tb leaves nodes child lo hi ->
  forall p, lo <= p < hi ->
    exists lo' hi', lo <= lo' /\ lo' <= hi' /\ hi' <= hi /\
      boxed tb leaves nodes (2 * p) lo' hi' /\
      forall j, lo' <= j <= hi' -> AABB.contains (Node.Box (vat nodes p)) (tb j) = true.
Proof.
  induction 1 as [i|p0 lo hi Hp HL IHL HR IHR Hc]; intros p Hq; [lia|].
  pose proof (boxed_range _ _ _ _ _ _ HL). pose proof (boxed_range _ _ _ _ _ _ HR).
  destruct (Z.lt_trichotomy p p0) as [Hlt|[->|Hgt]].
  - destruct (IHL p ltac:(lia)) as (lo' & hi' & H1 & H2 & H3 & H4).
    exists lo', hi'. repeat split; try lia; apply H4.
  - exists lo, hi. repeat split; try lia; [|exact Hc]. apply boxed_node; assumption.
  - destruct (IHR p ltac:(lia)) as (lo' & hi' & H1 & H2 & H3 & H4).
    exists lo', hi'. repeat split; try lia; apply H4.
Qed.

Lemma flatten_unique (nodes : vec Node.t) (c : Z) (l : list Z) :
  flatten nodes c l -> forall l', flatten nodes c l' -> l' = l.
Proof.
  induction 1 as [f Hf|p l r Hp HL IHL HR IHR]; intros l' H'.
  - remember (2 * f + 1) as c eqn:Ec.
    destruct H' as [f' Hf'|p' l1 r1 Hp' HL' HR']; [|lia].
    assert (f' = f) by lia. subst f'. reflexivity.
  - remember (2 * p) as c eqn:Ec.
    destruct H' as [f' Hf'|p' l1 r1 Hp' HL' HR']; [lia|].
    assert (p' = p) by lia. subst p'.
    rewrite (IHL _ HL'), (IHR _ HR'). reflexivity.
Qed.

Lemma flatten_frame (nodes nodes' : vec Node.t) (c : Z) (l : list Z) :
  (forall p, Node.L (vat nodes' p) = Node.L (vat nodes p) /\
             Node.R (vat nodes' p) = Node.R (vat nodes p)) ->
  flatten nodes c l -> flatten nodes' c l.
Proof.
  intros Hsame. induction 1 as [f Hf|p l r Hp HL IHL HR IHR].
  - apply flatten_leaf, Hf.
  - apply flatten_node; [exact Hp| |].
    + rewrite (proj1 (Hsame p)). exact IHL.
    + rewrite (proj2 (Hsame p)). exact IHR.
Qed.



(** ** ExpandBits on 64 bits *)

Lemma ExpandBits_u64_rungs (v : Z) :
  ExpandBits_u64 v =
  rung 2 0x9249249249249249 (rung 4 0x30C30C30C30C30C3 (rung 8 0xF00F00F00F00F00F
    (rung 16 0x00FF0000FF0000FF (rung 32 0xFFFF00000000FFFF v)))).
Proof. reflexivity. Qed.

(** Within the mask [m], whose copy shifted by [s] does not meet it, a
    rung is bitwise: shift, or, and. *)
Lemma rung_bits (s m mask v : Z) :
  0 <= s -> Z.land v m = v -> Z.land m (Z.shiftl m s) = 0 ->
  rung s mask v = Z.land (Z.land (Z.lor (Z.shiftl v s) v) (Z.ones 64)) mask.
Proof.
  intros Hs Hv Hm. unfold rung, u64. rewrite <- Z.land_ones by lia. do 2 f_equal.
  rewrite Z.mul_add_distr_l, Z.mul_1_r, <- Z.shiftl_mul_pow2 by lia.
  apply add_disjoint.
  apply (land_disjoint _ _ (Z.shiftl m s) m).
  - rewrite <- Z.shiftl_land, Hv. reflexivity.
  - exact Hv.
  - rewrite Z.land_comm. exact Hm.
Qed.

Lemma rung_lor (s m mask a b : Z) :
  0 <= s -> Z.land a m = a -> Z.land b m = b -> Z.land m (Z.shiftl m s) = 0 ->
  rung s mask (Z.lor a b) = Z.lor (rung s mask a) (rung s mask b).
Proof.
  intros Hs Ha Hb Hm.
  assert (Hab : Z.land (Z.lor a b) m = Z.lor a b)
    by (rewrite Z.land_lor_distr_l, Ha, Hb; reflexivity).
  rewrite (rung_bits s m mask _ Hs Hab Hm), (rung_bits s m mask _ Hs Ha Hm),
    (rung_bits s m mask _ Hs Hb Hm).
  apply Z.bits_inj'. intros n Hn.
  rewrite !Z.land_spec, !Z.lor_spec, !Z.land_spec, !Z.lor_spec, !Z.shiftl_spec, !Z.lor_spec
    by lia.
  destruct (Z.testbit a (n - s)), (Z.testbit b (n - s)), (Z.testbit a n), (Z.testbit b n),
    (Z.testbit (Z.ones 64) n), (Z.testbit mask n); reflexivity.
Qed.

Lemma rung_masked (s mask v : Z) : Z.land (rung s mask v) mask = rung s mask v.
Proof. unfold rung. rewrite <- Z.land_assoc, Z.land_diag. reflexivity. Qed.

Lemma ExpandBits_u64_lor (a b : Z) :
  Z.land a (Z.ones 22) = a -> Z.land b (Z.ones 22) = b ->
  ExpandBits_u64 (Z.lor a b) = Z.lor (ExpandBits_u64 a) (ExpandBits_u64 b).
Proof.
  intros Ha Hb. rewrite !ExpandBits_u64_rungs.
  rewrite (rung_lor 32 (Z.ones 22)) by (try lia; try assumption; reflexivity).
  rewrite (rung_lor 16 0xFFFF00000000FFFF)
    by (try lia; try apply rung_masked; reflexivity).
  rewrite (rung_lor 8 0x00FF0000FF0000FF)
    by (try lia; try apply rung_masked; reflexivity).
  rewrite (rung_lor 4 0xF00F00F00F00F00F)
    by (try lia; try apply rung_masked; reflexivity).
  rewrite (rung_lor 2 0x30C30C30C30C30C3)
    by (try lia; try apply rung_masked; reflexivity).
  reflexivity.
Qed.

Lemma ExpandBits_u64_pow2 :
  forallb (fun n => ExpandBits_u64 (2 ^ n) =? 2 ^ (3 * n)) (Zrange 0 22) = true.
Proof. vm_compute. reflexivity. Qed.

Lemma testbit_b2z_high (b : bool) (p : Z) : 0 < p -> Z.testbit (Z.b2z b) p = false.
Proof. intros Hp. destruct b, p as [|p|p]; try lia; destruct p; reflexivity. Qed.


Lemma ExpandBits_u64_bits (n : nat) : forall v,
  (n <= 22)%nat -> 0 <= v < 2 ^ Z.of_nat n ->
  forall j, 0 <= j -> Z.testbit (ExpandBits_u64 v) j = spread_bit v j.
Proof.
  induction n as [|n IH]; intros v Hn Hv j Hj.
  - assert (v = 0) by (change (2 ^ Z.of_nat 0) with 1 in Hv; lia). subst v.
    change (ExpandBits_u64 0) with 0. unfold spread_bit. rewrite !Z.bits_0.
    apply eq_sym, andb_false_r.
  - set (lo := Z.land v (Z.ones (Z.of_nat n))).
    set (hi := Z.shiftl (Z.b2z (Z.testbit v (Z.of_nat n))) (Z.of_nat n)).
    assert (Ev : v = Z.lor lo hi).
    { apply Z.bits_inj'. intros k Hk. unfold lo, hi.
      rewrite Z.lor_spec, Z.land_spec, Z.shiftl_spec by lia.
      destruct (Z.lt_trichotomy k (Z.of_nat n)) as [Hlt|[->|Hgt]].
      - rewrite Z.ones_spec_low by lia. rewrite (Z.testbit_neg_r _ (k - Z.of_nat n)) by lia.
        rewrite andb_true_r, orb_false_r. reflexivity.
      - rewrite Z.ones_spec_high by lia. rewrite Z.sub_diag, Z.b2z_bit0, andb_false_r.
        reflexivity.
      - rewrite Z.ones_spec_high by lia. rewrite andb_false_r. cbn [orb].
        rewrite <- (Z.mod_small v (2 ^ Z.of_nat (S n))) by lia.
        rewrite Z.mod_pow2_bits_high by lia.
        apply eq_sym, testbit_b2z_high. lia. }
    assert (Hsub : forall w, 0 <= w < 2 ^ 22 -> Z.land w (Z.ones 22) = w).
    { intros w Hw. rewrite Z.land_ones by lia. apply Z.mod_small. exact Hw. }
    assert (Hlo : 0 <= lo < 2 ^ Z.of_nat n).
    { unfold lo. rewrite Z.land_ones by lia. apply Z.mod_pos_bound. lia. }
    assert (Hpow : 2 ^ Z.of_nat n <= 2 ^ 21) by (apply Z.pow_le_mono_r; lia).
    assert (P21 : 2 ^ 21 = 2097152) by reflexivity.
    assert (P22 : 2 ^ 22 = 4194304) by reflexivity.
    assert (Hhi : hi = 0 \/ hi = 2 ^ Z.of_nat n).
    { unfold hi. destruct (Z.testbit v (Z.of_nat n)); cbn [Z.b2z].
      - right. rewrite Z.shiftl_mul_pow2 by lia. lia.
      - left. apply Z.shiftl_0_l. }
    assert (Hhib : forall k, 0 <= k -> Z.testbit (ExpandBits_u64 hi) k = spread_bit hi k).
    { intros k Hk. destruct Hhi as [->| ->].
      - change (ExpandBits_u64 0) with 0. unfold spread_bit. rewrite !Z.bits_0.
        apply eq_sym, andb_false_r.
      - pose proof ExpandBits_u64_pow2 as Hp. rewrite forallb_forall in Hp.
        assert (Hin : In (Z.of_nat n) (Zrange 0 22)) by (apply In_Zrange; lia).
        specialize (Hp _ Hin).
        apply Z.eqb_eq in Hp. rewrite Hp. unfold spread_bit.
        rewrite !Z.pow2_bits_eqb by (try apply Z.div_pos; lia).
        destruct (Z.eqb_spec (3 * Z.of_nat n) k) as [<-|Hne].
        + replace (3 * Z.of_nat n) with (Z.of_nat n * 3) by lia.
          rewrite Z.mod_mul, Z.div_mul by lia. rewrite !Z.eqb_refl. reflexivity.
        + destruct (Z.eqb_spec (k mod 3) 0) as [Hm|Hm]; [|reflexivity]. cbn [andb].
          symmetry. apply Z.eqb_neq. intros E. apply Hne.
          pose proof (Z.div_mod k 3 ltac:(lia)). lia. }
    clearbody lo hi. subst v. rewrite ExpandBits_u64_lor.
    + rewrite Z.lor_spec, (IH lo ltac:(lia) Hlo j Hj), (Hhib j Hj).
      unfold spread_bit. rewrite Z.lor_spec.
      destruct (j mod 3 =? 0); reflexivity.
    + apply Hsub. lia.
    + apply Hsub. destruct Hhi as [->| ->]; lia.
Qed.

(** ** Rounding to any precision keeps the mantissa within it *)

Lemma shr_fexp_bound_at (prec emax m e : Z) (l : location) :
  0 < prec -> 0 <= m ->
  0 <= shr_m (fst (shr_fexp prec emax m e l)) < 2 ^ prec.
Proof.
  intros Hp Hm. unfold shr_fexp, shr.
  assert (Hr : shr_m (shr_record_of_loc m l) = m) by (destruct l as [|[]]; reflexivity).
  assert (Hd : m < 2 ^ Zdigits2 m).
  { destruct m as [|p|p]; [simpl; lia | apply digits2_pos_bound | lia]. }
  assert (Hd0 : 0 <= Zdigits2 m) by (destruct m; simpl; lia).
  assert (Hn : Zdigits2 m - prec <= fexp prec emax (Zdigits2 m + e) - e).
  { unfold fexp. lia. }
  destruct (fexp prec emax (Zdigits2 m + e) - e) as [|n|n] eqn:En; simpl fst.
  - rewrite Hr. split; [lia|].
    apply Z.lt_le_trans with (1 := Hd). apply Z.pow_le_mono_r; lia.
  - rewrite iter_shr_1_m by lia. rewrite Hr. split; [apply Z.div_pos; lia|].
    apply Z.div_lt_upper_bound; [lia|]. rewrite <- Z.pow_add_r by lia.
    apply Z.lt_le_trans with (1 := Hd). apply Z.pow_le_mono_r; lia.
  - rewrite Hr. split; [lia|].
    apply Z.lt_le_trans with (1 := Hd). apply Z.pow_le_mono_r; lia.
Qed.

Lemma binary_round_aux_bound_at (prec emax : Z) (s : bool) (m e : Z) (l : location) :
  0 < prec -> 0 <= m ->
  match binary_round_aux prec emax s m e l with
  | S754_nan => False
  | S754_finite _ m' _ => Zpos m' < 2 ^ prec
  | _ => True
  end.
Proof.
  intros Hp Hm. unfold binary_round_aux.
  pose proof (shr_fexp_bound_at prec emax m e l Hp Hm) as H1.
  destruct (shr_fexp prec emax m e l) as [mrs' e']. simpl fst in H1.
  assert (H2 : 0 <= round_nearest_even (shr_m mrs') (loc_of_shr_record mrs')).
  { unfold round_nearest_even. destruct (loc_of_shr_record mrs') as [|[]];
      try destruct (Z.even _); lia. }
  pose proof (shr_fexp_bound_at prec emax _ e' loc_Exact Hp H2) as H3.
  destruct (shr_fexp prec emax _ e' loc_Exact) as [mrs'' e'']. simpl fst in H3.
  destruct (shr_m mrs'') as [|p|p]; [exact I| |lia].
  destruct (e'' <=? emax - prec); [lia | exact I].
Qed.

(** ** Morton3D_64 *)

Lemma of_float_not_nan (x : float) : F32.is_nan x = false -> F32.is_nan (F64.of_float x) = false.
Proof.
  destruct x as [s|s| |s m e]; intros Hx; try reflexivity; try discriminate.
  unfold F64.of_float, binary_normalize.
  assert (G : forall b p, F32.is_nan (binary_round F64.prec F64.emax b p e) = false).
  { intros b p. unfold binary_round.
    destruct (shl_align p e _) as [mz ez].
    pose proof (binary_round_aux_bound_at F64.prec F64.emax b (Zpos mz) ez loc_Exact
                  ltac:(unfold F64.prec; lia) ltac:(lia)) as H.
    destruct (binary_round_aux _ _ _ _ _ _); try reflexivity; contradiction. }
  destruct s; apply G.
Qed.

Lemma mul_1048576_shape (x : float) :
  F32.is_nan x = false ->
  match F64.mul (F64.of_float x) F64.d1048576 with
  | S754_nan => False
  | S754_finite _ m _ => Zpos m < 2 ^ F64.prec
  | _ => True
  end.
Proof.
  intros Hx. apply of_float_not_nan in Hx.
  destruct (F64.of_float x) as [s|s| |s m e]; simpl; try exact I; try discriminate.
  apply binary_round_aux_bound_at; [unfold F64.prec|]; lia.
Qed.

Lemma truncate_small64 (m : positive) (e : Z) :
  Zpos m < 2 ^ F64.prec ->
  e < -33 \/ (e = -33 /\ Zpos m <= 9007190664806400) ->
  0 <= F32.truncate m e <= 1048575.
Proof.
  intros Hm He. unfold F32.truncate.
  assert (Hneg : (0 <=? e) = false) by (apply Z.leb_gt; lia). rewrite Hneg.
  split; [apply Z.div_pos; [lia | apply Z.pow_pos_nonneg; lia]|].
  destruct He as [He|[-> Hle]].
  - assert (Zpos m / 2 ^ (- e) < 524288); [|lia].
    apply Z.div_lt_upper_bound; [apply Z.pow_pos_nonneg; lia|].
    assert (2 ^ 34 <= 2 ^ (- e)) by (apply Z.pow_le_mono_r; lia).
    unfold F64.prec in Hm. change (2 ^ 53) with 9007199254740992 in Hm.
    change (2 ^ 34) with 17179869184 in H. nia.
  - change (2 ^ (- -33)) with 8589934592.
    apply Z.div_le_upper_bound; [lia|]. lia.
Qed.

Lemma clamp_cast64 (v : float) :
  match v with
  | S754_nan => False
  | S754_finite _ m _ => Zpos m < 2 ^ F64.prec
  | _ => True
  end ->
  exists xi, F64.to_u64 (Clamp v F64.zero F64.d1048575) = Ok xi /\ 0 <= xi <= 1048575.
Proof.
  destruct v as [s|s| |s m e]; intros Hv.
  - exists 0. destruct s; vm_compute; repeat split; discriminate.
  - destruct s; [exists 0 | exists 1048575]; vm_compute; repeat split; discriminate.
  - contradiction.
  - destruct s.
    + exists 0. vm_compute; repeat split; discriminate.
    + assert (Hcase :
        Clamp (S754_finite false m e) F64.zero F64.d1048575 = F64.d1048575 \/
        (Clamp (S754_finite false m e) F64.zero F64.d1048575 = S754_finite false m e /\
         (e < -33 \/ (e = -33 /\ Zpos m <= 9007190664806400)))).
      { unfold Clamp, Min, Max, F32.gtb, F32.ltb, SFltb, F64.d1048575, F64.zero.
        rewrite SFcompare_pos_finite.
        destruct (Z.compare_spec (-33) e) as [He|He|He]; [|left; reflexivity|].
        - destruct (Z.compare_spec 9007190664806400 (Zpos m)) as [Hc|Hc|Hc];
            [right|left; reflexivity|right]; (split; [reflexivity|]); right; split; lia.
        - right. split; [reflexivity|]. left. lia. }
      destruct Hcase as [->|[-> He]].
      * exists 1048575. vm_compute; repeat split; discriminate.
      * pose proof (truncate_small64 m e Hv He) as Ht.
        exists (F32.truncate m e). unfold F64.to_u64.
        assert (Hlt : (F32.truncate m e <? 2 ^ 64) = true) by (apply Z.ltb_lt; lia).
        rewrite Hlt. repeat split; lia.
Qed.

Lemma bin64_range (x : float) :
  F32.is_nan x = false -> exists xi, bin64 x = Ok xi /\ 0 <= xi <= 1048575.
Proof. intros Hx. apply clamp_cast64, mul_1048576_shape, Hx. Qed.

Lemma bin64_nan (x : float) : F32.is_nan x = true -> bin64 x = Err UndefinedCast.
Proof. destruct x; try discriminate. reflexivity. Qed.

Lemma spread_bit_at (v q r : Z) :
  0 <= r < 3 -> spread_bit v (3 * q + r) = (r =? 0) && Z.testbit v q.
Proof.
  intros Hr. unfold spread_bit.
  assert (Hm : (3 * q + r) mod 3 = r) by (symmetry; apply Z.mod_unique with q; lia).
  assert (Hd : (3 * q + r) / 3 = q) by (symmetry; apply Z.div_unique with r; lia).
  rewrite Hm, Hd. reflexivity.
Qed.

Lemma ExpandBits_u64_spread (v j : Z) :
  0 <= v < 2 ^ 22 -> Z.testbit (ExpandBits_u64 v) j = spread_bit v j.
Proof.
  intros Hv. destruct (Z.lt_ge_cases j 0) as [Hj|Hj].
  - rewrite Z.testbit_neg_r by lia. unfold spread_bit.
    assert (j / 3 < 0) by (apply Z.div_lt_upper_bound; lia).
    rewrite (Z.testbit_neg_r v) by lia. apply eq_sym, andb_false_r.
  - apply (ExpandBits_u64_bits 22 v); [lia | exact Hv | exact Hj].
Qed.

Lemma ExpandBits_u64_nonneg (v : Z) : 0 <= ExpandBits_u64 v.
Proof. unfold ExpandBits_u64. cbv zeta. apply Z.land_nonneg. right. lia. Qed.

Lemma testbit_high (v k j : Z) : 0 <= v < 2 ^ k -> 0 <= k <= j -> Z.testbit v j = false.
Proof.
  intros Hv Hk. rewrite <- (Z.mod_small v (2 ^ k)) by lia.
  apply Z.mod_pow2_bits_high. lia.
Qed.

Lemma bits_above_bound (a k : Z) :
  0 <= a -> 0 <= k -> (forall j, k <= j -> Z.testbit a j = false) -> a < 2 ^ k.
Proof.
  intros Ha Hk H. destruct (Z.lt_ge_cases a (2 ^ k)) as [|Hge]; [assumption|exfalso].
  assert (Hpos : 0 < a) by (pose proof (Z.pow_pos_nonneg 2 k); lia).
  assert (Hl : k <= Z.log2 a) by (apply Z.log2_le_pow2; lia).
  pose proof (Z.bit_log2 a Hpos) as Hb. rewrite (H _ Hl) in Hb. discriminate.
Qed.

Lemma spread_bit_high (v j : Z) : 0 <= v < 2 ^ 20 -> 58 <= j -> spread_bit v j = false.
Proof.
  intros Hv Hj. unfold spread_bit.
  destruct (Z.eqb_spec (j mod 3) 0) as [Hm|Hm]; [|reflexivity]. cbn [andb].
  apply (testbit_high v 20); [exact Hv|].
  split; [lia|]. apply Z.div_le_lower_bound; [lia|].
  pose proof (Z.div_mod j 3 ltac:(lia)). lia.
Qed.

Lemma interleave64_bit (xi yi zi j : Z) :
  0 <= xi < 2 ^ 22 -> 0 <= yi < 2 ^ 22 -> 0 <= zi < 2 ^ 22 -> 0 <= j ->
  Z.testbit (interleave64 xi yi zi) j =
  spread_bit xi (j - 2) || spread_bit yi (j - 1) || spread_bit zi j.
Proof.
  intros Hx Hy Hz Hj. unfold interleave64.
  rewrite !Z.lor_spec, !Z.shiftl_spec, !ExpandBits_u64_spread by assumption. reflexivity.
Qed.

(** Bit [i] of the x, y and z bins is bit [3 i + 2], [3 i + 1] and [3 i]
    of the 64-bit code. *)
Lemma interleave64_bits (xi yi zi i : Z) :
  0 <= xi < 2 ^ 22 -> 0 <= yi < 2 ^ 22 -> 0 <= zi < 2 ^ 22 -> 0 <= i ->
  Z.testbit (interleave64 xi yi zi) (3 * i + 2) = Z.testbit xi i /\
  Z.testbit (interleave64 xi yi zi) (3 * i + 1) = Z.testbit yi i /\
  Z.testbit (interleave64 xi yi zi) (3 * i) = Z.testbit zi i.
Proof.
  intros Hx Hy Hz Hi.
  pose proof (spread_bit_at xi i 0 ltac:(lia)) as X0. rewrite Z.add_0_r in X0.
  pose proof (spread_bit_at yi i 0 ltac:(lia)) as Y0. rewrite Z.add_0_r in Y0.
  pose proof (spread_bit_at zi i 0 ltac:(lia)) as Z0. rewrite Z.add_0_r in Z0.
  pose proof (spread_bit_at yi i 1 ltac:(lia)) as Y1.
  pose proof (spread_bit_at zi i 1 ltac:(lia)) as Z1.
  pose proof (spread_bit_at zi i 2 ltac:(lia)) as Z2.
  pose proof (spread_bit_at xi (i - 1) 1 ltac:(lia)) as X1.
  pose proof (spread_bit_at xi (i - 1) 2 ltac:(lia)) as X2.
  pose proof (spread_bit_at yi (i - 1) 2 ltac:(lia)) as Y2.
  cbn [Z.eqb andb] in *.
  rewrite !interleave64_bit by (assumption || lia).
  replace (3 * i + 2 - 2) with (3 * i) by lia.
  replace (3 * i + 2 - 1) with (3 * i + 1) by lia.
  replace (3 * i + 1 - 2) with (3 * (i - 1) + 2) by lia.
  replace (3 * i + 1 - 1) with (3 * i) by lia.
  replace (3 * i - 2) with (3 * (i - 1) + 1) by lia.
  replace (3 * i - 1) with (3 * (i - 1) + 2) by lia.
  rewrite X0, Y0, Z0, Y1, Z1, Z2, X1, X2, Y2.
  rewrite !orb_false_r. repeat split; reflexivity.
Qed.

(** No carry: the sums of [Morton3D_64] are the disjunction of the words,
    and stay below [2 ^ 60]. *)
Lemma Morton64_sum (xi yi zi : Z) :
  0 <= xi < 2 ^ 20 -> 0 <= yi < 2 ^ 20 -> 0 <= zi < 2 ^ 20 ->
  u64 (u64 (u64 (Z.shiftl (ExpandBits_u64 xi) 2) + u64 (Z.shiftl (ExpandBits_u64 yi) 1))
       + ExpandBits_u64 zi) = interleave64 xi yi zi /\
  0 <= interleave64 xi yi zi < 2 ^ 60.
Proof.
  intros Hx Hy Hz.
  assert (P20 : 2 ^ 20 = 1048576) by reflexivity.
  assert (P22 : 2 ^ 22 = 4194304) by reflexivity.
  assert (Hx' : 0 <= xi < 2 ^ 22) by lia. assert (Hy' : 0 <= yi < 2 ^ 22) by lia.
  assert (Hz' : 0 <= zi < 2 ^ 22) by lia.
  pose proof (ExpandBits_u64_nonneg xi) as Nx. pose proof (ExpandBits_u64_nonneg yi) as Ny.
  pose proof (ExpandBits_u64_nonneg zi) as Nz.
  assert (Hb : 0 <= interleave64 xi yi zi < 2 ^ 60).
  { split.
    - unfold interleave64. rewrite !Z.lor_nonneg, !Z.shiftl_nonneg. auto.
    - apply bits_above_bound; [|lia|].
      + unfold interleave64. rewrite !Z.lor_nonneg, !Z.shiftl_nonneg. auto.
      + intros j Hj. rewrite interleave64_bit by (assumption || lia).
        rewrite !spread_bit_high by (assumption || lia). reflexivity. }
  split; [|exact Hb]. unfold interleave64 in *.
  set (A := Z.shiftl (ExpandBits_u64 xi) 2) in *.
  set (B := Z.shiftl (ExpandBits_u64 yi) 1) in *.
  set (C := ExpandBits_u64 zi) in *.
  assert (NA : 0 <= A) by (unfold A; rewrite Z.shiftl_nonneg; exact Nx).
  assert (NB : 0 <= B) by (unfold B; rewrite Z.shiftl_nonneg; exact Ny).
  assert (AB : Z.land A B = 0).
  { apply Z.bits_inj'. intros j Hj. unfold A, B.
    rewrite Z.land_spec, !Z.shiftl_spec, !ExpandBits_u64_spread, Z.bits_0 by assumption.
    unfold spread_bit.
    destruct (Z.eqb_spec ((j - 2) mod 3) 0) as [H2|H2]; [|reflexivity].
    destruct (Z.eqb_spec ((j - 1) mod 3) 0) as [H1|H1]; [|apply andb_false_r].
    exfalso. pose proof (Z.div_mod (j - 2) 3 ltac:(lia)).
    pose proof (Z.div_mod (j - 1) 3 ltac:(lia)). lia. }
  assert (ABC : Z.land (Z.lor A B) C = 0).
  { apply Z.bits_inj'. intros j Hj. unfold A, B, C.
    rewrite Z.land_spec, Z.lor_spec, !Z.shiftl_spec, !ExpandBits_u64_spread, Z.bits_0
      by assumption.
    unfold spread_bit.
    destruct (Z.eqb_spec (j mod 3) 0) as [H0|H0]; [|apply andb_false_r].
    destruct (Z.eqb_spec ((j - 2) mod 3) 0) as [H2|H2].
    { exfalso. pose proof (Z.div_mod (j - 2) 3 ltac:(lia)).
      pose proof (Z.div_mod j 3 ltac:(lia)). lia. }
    destruct (Z.eqb_spec ((j - 1) mod 3) 0) as [H1|H1]; [|reflexivity].
    exfalso. pose proof (Z.div_mod (j - 1) 3 ltac:(lia)).
    pose proof (Z.div_mod j 3 ltac:(lia)). lia. }
  assert (E1 : Z.lor A B = A + B) by (symmetry; apply add_disjoint, AB).
  assert (E2 : Z.lor (Z.lor A B) C = A + B + C)
    by (rewrite <- E1; symmetry; apply add_disjoint, ABC).
  rewrite E2 in *.
  assert (P60 : 2 ^ 60 = 1152921504606846976) by reflexivity.
  assert (P64 : 2 ^ 64 = 18446744073709551616) by reflexivity.
  unfold u64. fold C in Nz.
  rewrite (Z.mod_small A), (Z.mod_small B) by lia.
  rewrite (Z.mod_small (A + B)) by lia.
  apply Z.mod_small. lia.
Qed.

(** X15.  [ExpandBits(uint64_t)] moves bit [i] of a word below [2 ^ 22]
    to bit [3 i] and leaves the two bits above it clear. *)
Theorem ExpandBits_u64_spreads (v : Z) :
  0 <= v < 2 ^ 22 ->
  forall i, 0 <= i ->
    Z.testbit (ExpandBits_u64 v) (3 * i) = Z.testbit v i /\
    Z.testbit (ExpandBits_u64 v) (3 * i + 1) = false /\
    Z.testbit (ExpandBits_u64 v) (3 * i + 2) = false.
Proof.
  intros Hv i Hi. rewrite !ExpandBits_u64_spread by assumption.
  replace (3 * i) with (3 * i + 0) at 1 by lia.
  rewrite !spread_bit_at by lia. repeat split; reflexivity.
Qed.

Lemma ExpandBits_u64_spreads_witness :
  Z.testbit (ExpandBits_u64 2796203) (3 * 21) = Z.testbit 2796203 21 /\
  Z.testbit (ExpandBits_u64 2796203) (3 * 21 + 1) = false /\
  Z.testbit (ExpandBits_u64 2796203) (3 * 21 + 2) = false.
Proof.
  apply (ExpandBits_u64_spreads 2796203); [|lia].
  vm_compute. split; [discriminate | reflexivity].
Defined.

(** X16.  [Morton3D_64] of three numbers: each coordinate is cast to a
    bin between 0 and 1048575, the code is below [2 ^ 60], and bit [i] of the
    x, y and z bins is bit [3 i + 2], [3 i + 1] and [3 i] of the code.  With
    a NaN coordinate the cast to [uint64_t] is undefined. *)
Theorem Morton3D_64_interleaves (x y z : float) :
  (F32.is_nan x || F32.is_nan y || F32.is_nan z = true ->
   Morton3D_64 x y z = Err UndefinedCast) /\
  (F32.is_nan x || F32.is_nan y || F32.is_nan z = false ->
   exists xi yi zi m,
     (bin64 x = Ok xi /\ bin64 y = Ok yi /\ bin64 z = Ok zi) /\
     (0 <= xi <= 1048575 /\ 0 <= yi <= 1048575 /\ 0 <= zi <= 1048575) /\
     Morton3D_64 x y z = Ok m /\ 0 <= m < 2 ^ 60 /\
     forall i, 0 <= i < 20 ->
       Z.testbit m (3 * i + 2) = Z.testbit xi i /\
       Z.testbit m (3 * i + 1) = Z.testbit yi i /\
       Z.testbit m (3 * i) = Z.testbit zi i).
Proof.
  assert (E : Morton3D_64 x y z =
              (xi <- bin64 x ;; yi <- bin64 y ;; zi <- bin64 z ;;
               Ok (u64 (u64 (u64 (Z.shiftl (ExpandBits_u64 xi) 2)
                             + u64 (Z.shiftl (ExpandBits_u64 yi) 1))
                        + ExpandBits_u64 zi)))) by reflexivity.
  split.
  - intros Hn. rewrite E.
    destruct (F32.is_nan x) eqn:Hx; [rewrite (bin64_nan x Hx); reflexivity|].
    destruct (bin64_range x Hx) as (xi & -> & _). cbn [bind].
    destruct (F32.is_nan y) eqn:Hy; [rewrite (bin64_nan y Hy); reflexivity|].
    destruct (bin64_range y Hy) as (yi & -> & _). cbn [bind].
    destruct (F32.is_nan z) eqn:Hz; [rewrite (bin64_nan z Hz); reflexivity|].
    discriminate.
  - intros Hn. apply orb_false_iff in Hn. destruct Hn as [Hn Hz].
    apply orb_false_iff in Hn. destruct Hn as [Hx Hy].
    destruct (bin64_range x Hx) as (xi & Bx & Rx).
    destruct (bin64_range y Hy) as (yi & By & Ry).
    destruct (bin64_range z Hz) as (zi & Bz & Rz).
    assert (P20 : 2 ^ 20 = 1048576) by reflexivity.
    assert (P22 : 2 ^ 22 = 4194304) by reflexivity.
    destruct (Morton64_sum xi yi zi ltac:(lia) ltac:(lia) ltac:(lia)) as [Es Hb].
    exists xi, yi, zi, (interleave64 xi yi zi).
    split; [repeat split; assumption|]. split; [repeat split; lia|].
    split; [rewrite E, Bx, By, Bz; cbn [bind]; rewrite Es; reflexivity|].
    split; [exact Hb|].
    intros i Hi. apply interleave64_bits; lia.
Qed.

(** ** The two box tests *)

Lemma Max_lub (a b c : float) :
  F32.leb a c = true -> F32.leb b c = true -> F32.leb (Max a b) c = true.
Proof. intros Ha Hb. unfold Max. destruct (F32.gtb a b); assumption. Qed.

Lemma Min_glb (a b c : float) :
  F32.leb c a = true -> F32.leb c b = true -> F32.leb c (Min a b) = true.
Proof. intros Ha Hb. unfold Min. destruct (F32.ltb a b); assumption. Qed.

Lemma Max_not_nan (a b : float) :
  F32.is_nan a = false -> F32.is_nan b = false -> F32.is_nan (Max a b) = false.
Proof. intros Ha Hb. unfold Max. destruct (F32.gtb a b); assumption. Qed.

Lemma Min_not_nan (a b : float) :
  F32.is_nan a = false -> F32.is_nan b = false -> F32.is_nan (Min a b) = false.
Proof. intros Ha Hb. unfold Min. destruct (F32.ltb a b); assumption. Qed.

Lemma Max3_mono (a b : Vector3f.t) :
  F32.leb (Vector3f.x a) (Vector3f.x b) = true ->
  F32.leb (Vector3f.y a) (Vector3f.y b) = true ->
  F32.leb (Vector3f.z a) (Vector3f.z b) = true ->
  F32.leb (Max3 a) (Max3 b) = true.
Proof.
  intros Hx Hy Hz. unfold Max3.
  destruct (leb_not_nan _ _ Hx) as [_ Nx]. destruct (leb_not_nan _ _ Hy) as [_ Ny].
  destruct (leb_not_nan _ _ Hz) as [_ Nz].
  pose proof (Max_not_nan _ _ Nx Ny) as Nxy.
  destruct (Max_ge _ _ Nx Ny) as [Gx Gy]. destruct (Max_ge _ _ Nxy Nz) as [Gxy Gz].
  apply Max_lub; [apply Max_lub|].
  - apply leb_trans with (1 := Hx). apply leb_trans with (1 := Gx). exact Gxy.
  - apply leb_trans with (1 := Hy). apply leb_trans with (1 := Gy). exact Gxy.
  - apply leb_trans with (1 := Hz). exact Gz.
Qed.

Lemma Min3_mono (a b : Vector3f.t) :
  F32.leb (Vector3f.x a) (Vector3f.x b) = true ->
  F32.leb (Vector3f.y a) (Vector3f.y b) = true ->
  F32.leb (Vector3f.z a) (Vector3f.z b) = true ->
  F32.leb (Min3 a) (Min3 b) = true.
Proof.
  intros Hx Hy Hz. unfold Min3.
  destruct (leb_not_nan _ _ Hx) as [Nx _]. destruct (leb_not_nan _ _ Hy) as [Ny _].
  destruct (leb_not_nan _ _ Hz) as [Nz _].
  pose proof (Min_not_nan _ _ Nx Ny) as Nxy.
  destruct (Min_le _ _ Nx Ny) as [Gx Gy]. destruct (Min_le _ _ Nxy Nz) as [Gxy Gz].
  apply Min_glb; [apply Min_glb|].
  - apply leb_trans with (2 := Hx). apply leb_trans with (2 := Gx). exact Gxy.
  - apply leb_trans with (2 := Hy). apply leb_trans with (2 := Gy). exact Gxy.
  - apply leb_trans with (2 := Hz). exact Gz.
Qed.

(** X17.  Where no slab distance is a NaN, [AABB::Intersect] is the
    stricter of the two box tests: a ray it lets through passes
    [AABB::Slab] as well. *)
Theorem Intersect_within_Slab (b : AABB.t) (rayPos invRayDir : Vector3f.t) (length : float) :
  no_nan (Vector3f_mul (Vector3f.sub (AABB.mini b) rayPos) invRayDir) = true ->
  no_nan (Vector3f_mul (Vector3f.sub (AABB.maxi b) rayPos) invRayDir) = true ->
  AABB.Intersect b rayPos invRayDir length = true ->
  Slab b rayPos invRayDir = true.
Proof.
  intros H0 H1 Hi. apply no_nan_iff in H0, H1.
  destruct H0 as (X0 & Y0 & Z0), H1 as (X1 & Y1 & Z1).
  unfold AABB.Intersect in Hi. cbv zeta beta in Hi.
  apply andb_true_iff in Hi. destruct Hi as [Hi _].
  apply andb_true_iff in Hi. destruct Hi as [Hi _].
  unfold Slab. cbv zeta.
  cbn [Vector3f_mul Vector3f.sub Vector3f.x Vector3f.y Vector3f.z] in X0, Y0, Z0, X1, Y1, Z1.
  eapply leb_trans; [|eapply leb_trans; [exact Hi|]].
  - apply Max3_mono; cbn [Vector3f.Min Vector3f_mul Vector3f.sub Vector3f.x Vector3f.y Vector3f.z];
      match goal with |- context [if ?c then _ else _] => destruct c end;
      apply Min_le; assumption.
  - apply Min3_mono; cbn [Vector3f.Max Vector3f_mul Vector3f.sub Vector3f.x Vector3f.y Vector3f.z];
      match goal with |- context [if ?c then _ else _] => destruct c end;
      apply Max_ge; assumption.
Qed.

Lemma Intersect_within_Slab_witness :
  Slab (AABB.mk edge_p0 edge_p3) (s3d_Ray.pos edge_ray) (s3d_Ray.inv_dir edge_ray) = true.
Proof.
  apply (Intersect_within_Slab (AABB.mk edge_p0 edge_p3) (s3d_Ray.pos edge_ray)
           (s3d_Ray.inv_dir edge_ray) f10); vm_compute; reflexivity.
Defined.

(** ** A range that ends at a NaN *)

Lemma Intersect_nan_length (b : AABB.t) (rayPos invRayDir : Vector3f.t) (length : float) :
  F32.is_nan length = true -> AABB.Intersect b rayPos invRayDir length = false.
Proof.
  intros Hn. destruct length; try discriminate. unfold AABB.Intersect. cbv zeta.
  match goal with |- _ && (?t <? S754_nan)%f32 = false =>
    assert (E : (t <? S754_nan)%f32 = false) by (destruct t; reflexivity); rewrite E
  end.
  apply andb_false_r.
Qed.

(** X18.  A valid ray whose [tfar] is a NaN is reported as a miss,
    whatever the mesh: the box test of the root fails on the NaN length, so
    no triangle is tested and nothing but [isisect] is written. *)
Theorem nan_tfar_misses (fuel : nat) (gLBVH : LBVH.t) (indeterminate : HitRecord.t)
  (r : Ray.t) (node : Node.t) :
  Ray.valid r = true -> F32.is_nan (Ray.tfar r) = true ->
  vec_get (LBVH.Nodes gLBVH) (LBVH.Root gLBVH) = Ok node ->
  intersect_ray (S fuel) gLBVH indeterminate r = Ok (Ray.set_isisect r false).
Proof.
  intros Hv Hn Hroot. unfold intersect_ray. rewrite Hv. cbn [negb]. cbv zeta.
  unfold LBVH.TraverseIterative. cbn [LBVH.traverse_loop]. rewrite Hroot. cbn [bind].
  rewrite Intersect_nan_length by exact Hn. cbn [negb].
  destruct fuel; reflexivity.
Qed.

Lemma nan_tfar_misses_witness :
  intersect_ray 1 edge_bvh (fresh_record F32.zero) nan_desc
  = Ok (Ray.set_isisect nan_desc false).
Proof.
  apply (nan_tfar_misses 0 edge_bvh (fresh_record F32.zero) nan_desc
           (vat (LBVH.Nodes edge_bvh) (LBVH.Root edge_bvh))); reflexivity.
Defined.

(** ** The triangles the traversal does not prune *)

Lemma ltb_leb_trans (a b c : float) :
  F32.ltb a b = true -> F32.leb b c = true -> F32.ltb a c = true.
Proof.
  intros Hab Hbc. destruct (ltb_not_nan _ _ Hab) as [Na Nb].
  destruct (leb_not_nan _ _ Hbc) as [_ Nc].
  rewrite (ltb_false_leb a c Na Nc). apply negb_true_iff.
  destruct (F32.leb c a) eqn:E; [|reflexivity].
  pose proof (leb_trans _ _ _ Hbc E) as Hba.
  rewrite (ltb_false_leb a b Na Nb), Hba in Hab. discriminate.
Qed.

(** A box that passes the test for a length passes it for a longer one. *)
Lemma Intersect_length_mono (b : AABB.t) (rayPos invRayDir : Vector3f.t) (d d' : float) :
  AABB.Intersect b rayPos invRayDir d = true -> F32.leb d d' = true ->
  AABB.Intersect b rayPos invRayDir d' = true.
Proof.
  unfold AABB.Intersect. cbv zeta. intros H Hd.
  apply andb_true_iff in H. destruct H as [H1 H2]. rewrite H1. cbn [andb].
  exact (ltb_leb_trans _ _ _ H2 Hd).
Qed.

(** Without a NaN, [IsHit] never lengthens the record's distance. *)
Lemma IsHit_dist_mono (b : LBVH.t) (ray : s3d_Ray.t) (rec rec' : HitRecord.t) (f T : Z) :
  no_nan_distance b ray T -> 0 <= f < T ->
  F32.is_nan (HitRecord.dist rec) = false ->
  LBVH.IsHit b ray rec f = Ok rec' ->
  F32.leb (HitRecord.dist rec') (HitRecord.dist rec) = true.
Proof.
  intros Hnn Hf Hd H. unfold LBVH.IsHit in H. inv_bind H. destruct a as [[p0 p1] p2].
  pose proof (Hnn f p0 p1 p2 Hf Ha) as Ht.
  rewrite IntersectTriangle_unfold in H.
  destruct (passes_but_dist _ _ _ _ _ _ _); cbn [andb] in H.
  - destruct (F32.gtb _ _) eqn:E; cbn [negb] in H; injection H as <-; cbn [HitRecord.dist].
    + apply leb_refl, Hd.
    + unfold F32.gtb in E. fold (F32.ltb (HitRecord.dist rec)
        (tri_t (s3d_Ray.pos ray) (s3d_Ray.dir ray) p0 p1 p2)) in E.
      rewrite (ltb_false_leb _ _ Hd Ht) in E. apply negb_false_iff in E. exact E.
  - injection H as <-. cbn [HitRecord.dist]. apply leb_refl, Hd.
Qed.

Lemma test_faces_dist_mono (b : LBVH.t) (ray : s3d_Ray.t) (T : Z) (faces : list Z) :
  no_nan_distance b ray T -> (forall f, In f faces -> 0 <= f < T) ->
  forall rec rec',
    F32.is_nan (HitRecord.dist rec) = false ->
    test_faces b ray faces rec = Ok rec' ->
    F32.leb (HitRecord.dist rec') (HitRecord.dist rec) = true.
Proof.
  intros Hnn. induction faces as [|f faces IH]; intros Hin rec rec' Hd H.
  - injection H as <-. apply leb_refl, Hd.
  - cbn [test_faces] in H. inv_bind H.
    pose proof (IsHit_dist_mono b ray rec a f T Hnn (Hin f (or_introl eq_refl)) Hd Ha) as H1.
    destruct (leb_not_nan _ _ H1) as [Na _].
    apply (leb_trans _ (HitRecord.dist a)); [|exact H1].
    apply IH; [intros f' Hf'; apply Hin; right; exact Hf' | exact Na | exact H].
Qed.

Lemma reaches_leaf_inv (nodes : vec Node.t) (ray : s3d_Ray.t) (d : float) (t f : Z) :
  reaches nodes ray d (2 * t + 1) f -> f = t.
Proof.
  intros H. remember (2 * t + 1) as c eqn:E. destruct H; lia.
Qed.

Lemma reaches_node_inv (nodes : vec Node.t) (ray : s3d_Ray.t) (d : float) (p f : Z) :
  reaches nodes ray d (2 * p) f ->
  AABB.Intersect (Node.Box (vat nodes p)) (s3d_Ray.pos ray) (s3d_Ray.inv_dir ray) d = true /\
  (reaches nodes ray d (Node.L (vat nodes p)) f \/
   reaches nodes ray d (Node.R (vat nodes p)) f).
Proof.
  intros H. remember (2 * p) as c eqn:E.
  destruct H as [f'|p' f' Hb Hr|p' f' Hb Hr]; [lia| |];
    assert (p' = p) by lia; subst p'; auto.
Qed.

Section Unpruned.

Variable leaves : list Vector2u.t.
Variable g : LBVH.t.
Variable ray : s3d_Ray.t.
Hypothesis Hwf : well_formed leaves g.
Hypothesis Hnn : no_nan_distance g ray (Z.of_nat (length leaves)).

Lemma visit_dist_mono (lo hi : Z) (rec rec1 : HitRecord.t) :
  0 <= lo -> lo <= hi -> hi < Z.of_nat (length leaves) ->
  F32.is_nan (HitRecord.dist rec) = false ->
  test_faces g ray (map (tri leaves) (child_leaf lo hi)) rec = Ok rec1 ->
  F32.leb (HitRecord.dist rec1) (HitRecord.dist rec) = true.
Proof.
  destruct Hwf as (_ & _ & _ & _ & HP & _).
  intros H0 H1 H2 Hd H.
  apply (test_faces_dist_mono g ray _ _ Hnn) with (rec := rec) in H; [exact H| |exact Hd].
  intros f Hf. apply in_map_iff in Hf. destruct Hf as (j & <- & Hj).
  unfold child_leaf in Hj. destruct (lo <? hi); [contradiction|].
  destruct Hj as [<-|[]]. apply tri_range; [exact HP | lia].
Qed.

(** [drain_spec], with the triangles that are not pruned: every triangle
    that [reaches] finds below [child] for a length up to the distance the
    record ends with is among those tested. *)
Lemma drain_unpruned (child lo hi : Z) :
  subtree leaves (LBVH.Nodes g) child lo hi ->
  forall (rest : list Z) (rec : HitRecord.t),
    (lo < hi -> Z.of_nat (length rest) + 1 + spread leaves lo hi <= 64) ->
    F32.is_nan (HitRecord.dist rec) = false ->
    exists (k : nat) (ps : list Z) (rec' : HitRecord.t),
      Z.of_nat k <= hi - lo /\
      NoDup (child_leaf lo hi ++ ps) /\
      (forall j, In j (child_leaf lo hi ++ ps) -> lo <= j <= hi) /\
      test_faces g ray (map (tri leaves) ps) rec = Ok rec' /\
      (forall fuel,
         LBVH.traverse_loop (k + fuel) g ray (child_stack child lo hi ++ rest) rec
         = LBVH.traverse_loop fuel g ray rest rec') /\
      F32.leb (HitRecord.dist rec') (HitRecord.dist rec) = true /\
      (forall d f, F32.leb d (HitRecord.dist rec') = true ->
         reaches (LBVH.Nodes g) ray d child f ->
         In f (map (tri leaves) (child_leaf lo hi ++ ps))).
Proof.
  pose proof Hwf as (HT & Hsize & _ & _ & HP & Hsorted & Hkeys & Hread).
  induction 1 as [i Hi|p lo hi Hlo Hhi HL IHL HR IHR Hw Hs]; intros rest rec Hbound Hd.
  - exists O, [], rec. unfold child_stack, child_leaf. rewrite Z.ltb_irrefl.
    cbn [app map test_faces]. repeat split; try lia.
    + constructor; [intros [] | constructor].
    + destruct H as [<-|[]]. lia.
    + destruct H as [<-|[]]. lia.
    + apply leb_refl, Hd.
    + intros d f _ Hr. left. symmetry. exact (reaches_leaf_inv _ _ _ _ _ Hr).
  - assert (Hlt : (lo <? hi) = true) by (apply Z.ltb_lt; lia).
    unfold child_stack at 1, child_leaf at 1 2 3. rewrite Hlt, shiftr_even.
    cbn [app].
    specialize (Hbound ltac:(lia)).
    assert (Hsp0 : 0 <= spread leaves lo hi) by apply bitlen_nonneg.
    assert (HspL : spread leaves lo p <= spread leaves lo hi)
      by (apply (spread_mono leaves); try assumption; lia).
    assert (HspR : spread leaves (p + 1) hi <= spread leaves lo hi)
      by (apply (spread_mono leaves); try assumption; lia).
    assert (HspR' : p + 1 < hi -> spread leaves (p + 1) hi + 1 <= spread leaves lo hi)
      by (intros; apply (spread_right leaves); try assumption; lia).
    assert (HspR0 : 0 <= spread leaves (p + 1) hi) by apply bitlen_nonneg.
    destruct (AABB.Intersect (Node.Box (vat (LBVH.Nodes g) p)) (s3d_Ray.pos ray)
                (s3d_Ray.inv_dir ray) (HitRecord.dist rec)) eqn:Ebox.
    + destruct (visit_spec leaves g ray Hwf _ _ _ HL rec rest ltac:(lia))
        as (rec1 & HvL & HtL).
      pose proof (visit_dist_mono lo p rec rec1 ltac:(lia) ltac:(lia) ltac:(lia) Hd HtL)
        as M1.
      destruct (leb_not_nan _ _ M1) as [N1 _].
      assert (HlenL : Z.of_nat (length (child_stack (Node.L (vat (LBVH.Nodes g) p)) lo p)) <= 1)
        by (unfold child_stack; destruct (lo <? p); simpl; lia).
      destruct (visit_spec leaves g ray Hwf _ _ _ HR rec1
                  (child_stack (Node.L (vat (LBVH.Nodes g) p)) lo p ++ rest))
        as (rec2 & HvR & HtR).
      { intros Hr. rewrite length_app, Nat2Z.inj_add. specialize (HspR' Hr). lia. }
      pose proof (visit_dist_mono (p + 1) hi rec1 rec2 ltac:(lia) ltac:(lia) ltac:(lia)
                    N1 HtR) as M2.
      destruct (leb_not_nan _ _ M2) as [N2 _].
      destruct (IHR (child_stack (Node.L (vat (LBVH.Nodes g) p)) lo p ++ rest) rec2)
        as (kR & psR & recR & HkR & HndR & HinR & HfR & HrunR & MR & HcR).
      { intros Hr. rewrite length_app, Nat2Z.inj_add. specialize (HspR' Hr). lia. }
      { exact N2. }
      destruct (leb_not_nan _ _ MR) as [NR _].
      destruct (IHL rest recR)
        as (kL & psL & recL & HkL & HndL & HinL & HfL & HrunL & ML & HcL).
      { intros Hl. lia. }
      { exact NR. }
      exists (S (kR + kL)),
        (child_leaf lo p ++ child_leaf (p + 1) hi ++ psR ++ psL), recL.
      split; [lia|]. split; [|split; [|split; [|split; [|split]]]].
      * apply (Permutation_NoDup
                 (l := (child_leaf lo p ++ psL) ++ (child_leaf (p + 1) hi ++ psR))).
        { rewrite <- !app_assoc. apply Permutation_app_head.
          rewrite (Permutation_app_comm psL). rewrite <- !app_assoc. reflexivity. }
        apply NoDup_app; try assumption.
        intros a Ha Ha'. apply HinL in Ha. apply HinR in Ha'. lia.
      * intros j Hj. rewrite !in_app_iff in Hj.
        assert (Hj' : In j (child_leaf lo p ++ psL) \/ In j (child_leaf (p + 1) hi ++ psR))
          by (rewrite !in_app_iff; tauto).
        destruct Hj' as [Hj'|Hj']; [apply HinL in Hj' | apply HinR in Hj']; lia.
      * rewrite !map_app.
        rewrite (test_faces_app _ _ _ _ _ _ HtL), (test_faces_app _ _ _ _ _ _ HtR),
          (test_faces_app _ _ _ _ _ _ HfR). exact HfL.
      * intros fuel. cbn [Nat.add]. rewrite traverse_loop_S.
        rewrite vec_get_in by lia. cbn [bind]. rewrite Ebox. cbn [negb].
        rewrite HvL. cbn [bind]. rewrite HvR. cbn [bind fst snd].
        rewrite <- Nat.add_assoc, HrunR. apply HrunL.
      * apply (leb_trans _ _ _ ML). apply (leb_trans _ _ _ MR).
        apply (leb_trans _ _ _ M2). exact M1.
      * intros d f Hdf Hr. apply reaches_node_inv in Hr. destruct Hr as [_ [Hr|Hr]].
        -- specialize (HcL d f Hdf Hr). rewrite !map_app in *. rewrite !in_app_iff in *.
           tauto.
        -- specialize (HcR d f (leb_trans _ _ _ Hdf ML) Hr).
           rewrite !map_app in *. rewrite !in_app_iff in *. tauto.
    + exists 1%nat, [], rec. cbn [app map test_faces].
      split; [lia|]. split; [constructor|]. split; [intros j []|].
      split; [reflexivity|]. split; [|split].
      * intros fuel. cbn [Nat.add]. rewrite traverse_loop_S.
        rewrite vec_get_in by lia. cbn [bind]. rewrite Ebox. reflexivity.
      * apply leb_refl, Hd.
      * intros d f Hdf Hr. apply reaches_node_inv in Hr. destruct Hr as [Hb _].
        rewrite (Intersect_length_mono _ _ _ _ _ Hb Hdf) in Ebox. discriminate.
Qed.

End Unpruned.



(** ** The rounded box under any schedule *)

Lemma sliver_maxi_x (r : Race.t) (x y : float) :
  (x = F32.one /\ y = half) \/ (x = half /\ y = F32.one) ->
  F32.leb tiny (fst (Race.outcome Max r kMinBound x y) + minus_one)%f32 = false.
Proof. intros [[-> ->]|[-> ->]]; destruct r; reflexivity. Qed.

(** X22.  On [sliver_input] the root's box does not contain triangle 0
    under any schedule of the merges and any outcome of the sort: each
    merge has rounded [2^-25 + 1] to 1 already, and a lost merge only
    makes the box smaller. *)
Theorem sliver_box_any_schedule (race : schedule)
  (sort : list Vector2u.t -> list Vector2u.t) (fuel0 : nat) :
  sorts sort ->
  exists g tbox,
    preprocess race sort (S (S fuel0)) LBVH.init
      (Some sliver_vertices) 6 (Some edge_normals) 1 (Some sliver_indices) 2 = Ok g /\
    LBVH.Root g = 0 /\
    triangle_box g 0 = Ok tbox /\
    AABB.contains (Node.Box (vat (LBVH.Nodes g) 0)) tbox = false.
Proof.
  intros Hsort. unfold preprocess.
  set (b := LBVH.mk _ _ _ _ _ _ _ _).
  eassert (Hgb : LBVH.global_box b = Ok _) by (vm_compute; reflexivity).
  match type of Hgb with _ = Ok ?x => set (box := x) in Hgb end.
  eassert (Hml : LBVH.make_leaves b box 2 = Ok _) by (vm_compute; reflexivity).
  eassert (Ha0 : LBVH.leaf_aabb b box 0 = Ok _) by (vm_compute; reflexivity).
  eassert (Ha1 : LBVH.leaf_aabb b box 1 = Ok _) by (vm_compute; reflexivity).
  destruct (Hsort ltac:(match type of Hml with _ = Ok ?l => exact l end)) as [Hperm _].
  apply Permutation_length_2_inv in Hperm.
  assert (Htb : forall nodes,
    triangle_box (LBVH.mk 0 (LBVH.Positions b) (LBVH.Normals b) (LBVH.Indices b)
                    (LBVH.PositionCount b) (LBVH.NormalCount b) (LBVH.IndexCount b) nodes) 0
    = Ok (AABB.mk (v3 minus_one F32.zero F32.zero) (v3 tiny F32.one F32.zero))).
  { intros nodes. vm_compute. reflexivity. }
  destruct Hperm as [Hs|Hs].
  - destruct (Build_two race sort (S (S fuel0)) b _ _ _ _ _ _
                eq_refl Hgb Hml Hs Ha0 Ha1 ltac:(lia)) as (nodes & HB & Hsize & Hbox).
    eexists. eexists. split; [exact HB|]. split; [reflexivity|]. split; [apply Htb|].
    cbn [LBVH.Nodes]. rewrite vat_vec_map. unfold LBVH.untranslate, AABB.contains.
    cbn [Node.Box Node.set_Box AABB.mini AABB.maxi Vector3f.add Vector3f.x Vector3f.y
         Vector3f.z v3].
    rewrite Hbox. unfold Race.Merge. cbn [fst AABB.maxi Vector3f.x].
    change (Vector3f.x (AABB.maxi (Node.Box (vat (vec_resize (LBVH.Nodes b) 1) 0))))
      with kMinBound.
    cbn [AABB.maxi AABB.mini Vector3f.x box].
    rewrite sliver_maxi_x by (left; split; reflexivity).
    rewrite !andb_false_r. reflexivity.
  - destruct (Build_two race sort (S (S fuel0)) b _ _ _ _ _ _
                eq_refl Hgb Hml Hs Ha1 Ha0 ltac:(lia)) as (nodes & HB & Hsize & Hbox).
    eexists. eexists. split; [exact HB|]. split; [reflexivity|]. split; [apply Htb|].
    cbn [LBVH.Nodes]. rewrite vat_vec_map. unfold LBVH.untranslate, AABB.contains.
    cbn [Node.Box Node.set_Box AABB.mini AABB.maxi Vector3f.add Vector3f.x Vector3f.y
         Vector3f.z v3].
    rewrite Hbox. unfold Race.Merge. cbn [fst AABB.maxi Vector3f.x].
    change (Vector3f.x (AABB.maxi (Node.Box (vat (vec_resize (LBVH.Nodes b) 1) 0))))
      with kMinBound.
    cbn [AABB.maxi AABB.mini Vector3f.x box].
    rewrite sliver_maxi_x by (right; split; reflexivity).
    rewrite !andb_false_r. reflexivity.
Qed.

Lemma sliver_box_any_schedule_witness :
  exists g tbox,
    preprocess lossy sort_leaves 2 LBVH.init
      (Some sliver_vertices) 6 (Some edge_normals) 1 (Some sliver_indices) 2 = Ok g /\
    LBVH.Root g = 0 /\
    triangle_box g 0 = Ok tbox /\
    AABB.contains (Node.Box (vat (LBVH.Nodes g) 0)) tbox = false.
Proof.
  apply (sliver_box_any_schedule lossy sort_leaves 0%nat sort_leaves_sorts).
Defined.
